(** * hub.core.dataset.Dataset: a shallow embedding

    The development follows [src/hub/core/dataset/dataset.py].  Python
    objects that are mutated in place and shared between views (the cache
    storage, the version state, the cached [DatasetMeta]) live in an explicit
    [World]; methods are computations in a state-and-exception monad whose
    exceptions keep the state reached when they were raised.

    The modules the class calls into but that are not part of the sources at
    hand (the index, the cache storage, the lock, the keys, the tensor handle
    and the version-control helpers) are modelled from the specification and
    marked as such.  Calls to the usage reporter ([hub_reporter]) have no
    effect on the dataset and are left out. *)

From Stdlib Require Import String Ascii.
From stdpp Require Import gmap strings list fin_maps pretty sorting.

Set Default Proof Using "Type".
Local Open Scope string_scope.
Local Open Scope list_scope.

(** ** Python string primitives used by the source *)

Module pystr.

Definition sep : ascii := "/"%char.

Definition is_sep (c : ascii) : bool := Ascii.eqb c sep.

(** [s1 + s2] *)
Fixpoint cat (s1 s2 : string) : string :=
  match s1 with
  | EmptyString => s2
  | String c s => String c (cat s s2)
  end.

(** [s.startswith(p)] *)
Fixpoint startswith (p s : string) : bool :=
  match p, s with
  | EmptyString, _ => true
  | String a p', String b s' => Ascii.eqb a b && startswith p' s'
  | String _ _, EmptyString => false
  end.

(** ["/" in s] *)
Fixpoint has_sep (s : string) : bool :=
  match s with
  | EmptyString => false
  | String c s' => is_sep c || has_sep s'
  end.

(** ["//" in s] *)
Fixpoint has_dsep (s : string) : bool :=
  match s with
  | String a ((String b _) as s') => (is_sep a && is_sep b) || has_dsep s'
  | _ => false
  end.

(** [s.replace("//", "/")]: one left-to-right pass over non-overlapping
    occurrences. *)
Fixpoint replace_dsep (s : string) : string :=
  match s with
  | String a s' =>
      match s' with
      | String b s'' =>
          if is_sep a && is_sep b
          then String sep (replace_dsep s'')
          else String a (replace_dsep s')
      | EmptyString => s
      end
  | EmptyString => EmptyString
  end.

(** [s.lstrip("/")] *)
Fixpoint lstrip (s : string) : string :=
  match s with
  | String c s' => if is_sep c then lstrip s' else s
  | EmptyString => EmptyString
  end.

(** [s.rstrip("/")] *)
Fixpoint rstrip (s : string) : string :=
  match s with
  | String c s' =>
      match rstrip s' with
      | EmptyString => if is_sep c then EmptyString else String c EmptyString
      | r => String c r
      end
  | EmptyString => EmptyString
  end.

(** [s.strip("/")] *)
Definition strip (s : string) : string := rstrip (lstrip s).

(** [s.endswith("/")] *)
Fixpoint endswith_sep (s : string) : bool :=
  match s with
  | EmptyString => false
  | String c EmptyString => is_sep c
  | String _ s' => endswith_sep s'
  end.

(** [s == "/" * len(s)] *)
Fixpoint all_sep (s : string) : bool :=
  match s with
  | EmptyString => true
  | String c s' => is_sep c && all_sep s'
  end.

(** [s.split("/")] *)
Fixpoint split (s : string) : list string :=
  match s with
  | EmptyString => [EmptyString]
  | String c s' =>
      if is_sep c then EmptyString :: split s'
      else match split s' with
           | x :: r => String c x :: r
           | [] => [String c EmptyString]
           end
  end.

(** [name in names] for a list of strings *)
Definition mem (x : string) (l : list string) : bool :=
  existsb (String.eqb x) l.

End pystr.


(** ** [posixpath], as used by the source *)

Module posixpath.
Import pystr.

(** [posixpath.join(a, b)] *)
Definition join (a b : string) : string :=
  if startswith "/" b then b
  else if (String.eqb a "" || endswith_sep a)%bool then cat a b
  else cat a (cat "/" b).

(** [p[:i], p[i:]] for [i = p.rfind("/") + 1] *)
Fixpoint cut_last (p : string) : string * string :=
  match p with
  | EmptyString => (EmptyString, EmptyString)
  | String c p' =>
      let (h, t) := cut_last p' in
      if has_sep p' then (String c h, t)
      else if is_sep c then (String c EmptyString, p')
      else (EmptyString, p)
  end.

(** [posixpath.split(p)] *)
Definition split (p : string) : string * string :=
  let (head, tail) := cut_last p in
  (if (negb (String.eqb head "") && negb (all_sep head))%bool
   then rstrip head else head, tail).

Definition dirname (p : string) : string := fst (split p).
Definition basename (p : string) : string := snd (split p).

(** The components of [normpath] of an absolute path whose components so
    far are [stack]: empty and ["."] components are dropped, [".."] steps
    back (and stays at the root). *)
Fixpoint norm_parts (stack comps : list string) : list string :=
  match comps with
  | [] => stack
  | c :: r =>
      if (String.eqb c "" || String.eqb c ".")%bool then norm_parts stack r
      else if String.eqb c ".." then norm_parts (removelast stack) r
      else norm_parts (stack ++ [c]) r
  end.

(** [[x for x in abspath(p).split("/") if x]], the working directory being
    given by its components [cwd]. *)
Definition abspath_parts (cwd : list string) (p : string) : list string :=
  if startswith "/" p then norm_parts [] (pystr.split p)
  else norm_parts cwd (pystr.split p).

(** [len(commonprefix([a, b]))] for two lists of components *)
Fixpoint common_len (a b : list string) : nat :=
  match a, b with
  | x :: a', y :: b' => if String.eqb x y then S (common_len a' b') else 0
  | _, _ => 0
  end.

(** [join] applied to the elements of a non-empty list *)
Definition join_all (l : list string) : string :=
  match l with
  | [] => ""
  | x :: r => fold_left join r x
  end.

(** [posixpath.relpath(path, start)]; [None] is Python's [ValueError] for
    an empty [path]. *)
Definition relpath (cwd : list string) (path start : string) : option string :=
  if String.eqb path "" then None
  else
    let start_list := abspath_parts cwd start in
    let path_list := abspath_parts cwd path in
    let i := common_len start_list path_list in
    let rel_list :=
      repeat ".." (length start_list - i) ++ drop i path_list in
    match rel_list with
    | [] => Some "."
    | _ => Some (join_all rel_list)
    end.

End posixpath.

(** ** Index *)

Module Index.

(** Modelled from the spec: [hub.core.index.Index] is not part of the
    sources at hand.  Spec, section 3: an Index is an ordered sequence of
    selectors, each an integer, a range or an explicit list of integers;
    composing [outer[inner]] selects exactly the elements [inner] selects
    in the view already narrowed by [outer]; [is_trivial()] holds iff every
    selector denotes all elements in their original order.  The sequence is
    kept as the history of subscripts, outermost first. *)
Inductive selector :=
| SInt (i : nat)
| SSlice (start : nat) (stop : option nat)
| SList (l : list nat).

(** Modelled from the spec: an index, as the sequence of its selectors. *)
Definition t := list selector.

(** Modelled from the spec: [Index()], the index that keeps every sample. *)
Definition new : t := [SSlice 0 None].

(** Modelled from the spec: a selector that denotes all elements in their original
    order. *)
Definition sel_trivial (s : selector) : bool :=
  match s with
  | SSlice 0 None => true
  | _ => false
  end.

(** Modelled from the spec: [idx.is_trivial()] *)
Definition is_trivial (idx : t) : bool := forallb sel_trivial idx.

(** Modelled from the spec: [idx[item]] for an integer, a slice or a list *)
Definition getitem (idx : t) (item : selector) : t := idx ++ [item].

(** Modelled from the spec: [idx[item]] where [item] is itself an Index *)
Definition compose (outer inner : t) : t := outer ++ inner.

(** Modelled from the spec: the positions of [xs] a selector keeps. *)
Definition sel_apply (s : selector) (xs : list nat) : list nat :=
  match s with
  | SInt i => option_list (xs !! i)
  | SSlice a None => drop a xs
  | SSlice a (Some b) => take (b - a) (drop a xs)
  | SList l => omap (fun i => xs !! i) l
  end.

(** Modelled from the spec: the samples visible through [idx] among [xs]; an integer
    selector fixes one sample, the selectors after it address the axes
    inside that sample. *)
Fixpoint positions (idx : t) (xs : list nat) : list nat :=
  match idx with
  | [] => xs
  | SInt i :: _ => sel_apply (SInt i) xs
  | s :: r => positions r (sel_apply s xs)
  end.

(** Modelled from the spec: [idx.length(n)] *)
Definition length (idx : t) (n : nat) : nat :=
  List.length (positions idx (seq 0 n)).

(** Modelled from the spec: [idx.validate(n)] succeeds iff no integer (alone or in a list)
    addresses a sample beyond the view it is applied to. *)
Fixpoint valid_on (idx : t) (xs : list nat) : bool :=
  match idx with
  | [] => true
  | SInt i :: _ => bool_decide (i < List.length xs)
  | SList l :: r =>
      forallb (fun i => bool_decide (i < List.length xs)) l
      && valid_on r (sel_apply (SList l) xs)
  | s :: r => valid_on r (sel_apply s xs)
  end.

(** Modelled from the spec: [idx.validate(n)] on a tensor of [n] samples. *)
Definition valid (idx : t) (n : nat) : bool := valid_on idx (seq 0 n).

End Index.

(** ** Exceptions and results *)

(** The exceptions of the source and of the Python runtime.  [Diverged] is
    not an exception: it marks a call that never returns. *)

Inductive exn :=
| LockedException
| TensorAlreadyExistsError (name : string)
| TensorGroupAlreadyExistsError (name : string)
| InvalidTensorNameError (name : string)
| InvalidTensorGroupNameError (name : string)
| TensorDoesNotExistError (name : string)
| InvalidKeyTypeError
| MemoryDatasetCanNotBePickledError
| PathNotEmptyException
| CouldNotCreateNewDatasetException (path : string)
| ReadOnlyError
| KeyError (key : string)
| ValueError
| RecursionError
| Diverged.

Inductive result (A : Type) :=
| Ok (a : A)
| Raise (e : exn).
Arguments Ok {A} a.
Arguments Raise {A} e.

(** ** Data model *)

(** Modelled from the spec: [hub.core.meta.dataset_meta.DatasetMeta] is not part of
    the sources at hand; the source reads and assigns its [tensors] and
    [groups], the tensor names and group names of one commit. *)
Record DatasetMeta := mkMeta {
  meta_tensors : list string;
  meta_groups : list string
}.

(** Modelled from the spec: [CommitNode] is not part of the sources at hand; section
    3 gives it a branch, an identifier, a parent and a commit time that is
    unset until the commit is finalized. *)
Record CommitNode := mkNode {
  cn_branch : string;
  cn_commit_id : string;
  cn_parent : option string;
  cn_commit_time : option nat
}.

(** Modelled from the spec: a tensor handle ([hub.core.tensor.Tensor], not part of
    the sources at hand): the tensor's key and the index applied to it. *)
Record Tensor := mkTensor {
  t_key : string;
  t_index : Index.t
}.

(** Modelled from the spec: what the tensor payload engine (not part of the sources
    at hand) exposes to this module. *)
Record Engine := mkEngine {
  eng_length : nat;
  eng_num_chunks : N;
  eng_min_chunk_size : N
}.

(** The [version_state] dictionary.  [version_state["commit_node"]] is
    assigned together with [commit_id] as [commit_node_map[commit_id]], so the
    node is read through the map; [vs_meta] refers to a [DatasetMeta] object
    and is absent until the meta has been populated. *)
Record VersionState := mkVS {
  vs_branch : string;
  vs_commit_id : string;
  vs_branch_commit_map : gmap string string;
  vs_commit_node_map : gmap string CommitNode;
  vs_full_tensors : list (string * Tensor);
  vs_meta : option nat
}.

(** Values as the base tier holds them.  The byte format is opaque (spec,
    section 6: only a symmetric encode/decode is required), so a serialized
    object is represented by the object it decodes to. *)
Inductive sval :=
| VBytes (b : list N)
| VMeta (m : DatasetMeta)
| VVersionInfo (bcm : gmap string string) (cnm : gmap string CommitNode).

(** An entry of the memory tier: bytes, or a reference to a live
    [DatasetMeta] object. *)
Inductive centry :=
| CBytes (v : sval)
| CObj (l : nat).

Inductive provider := S3Provider | LocalProvider | MemoryProvider.

(** [isinstance(base_storage, S3Provider)] *)
Definition is_S3Provider (p : provider) : bool :=
  match p with
  | S3Provider => true
  | _ => false
  end.

(** Modelled from the spec: the state of the [LRUCache] the dataset is opened on
    (sections 3 and 4.2), with its base provider. *)
Record Storage := mkStorage {
  st_root : string;
  st_base_kind : provider;
  st_autoflush : bool;
  st_read_only : bool;
  st_cache : gmap string centry;
  st_dirty : gset string;
  st_base : gmap string sval
}.

(** Callables that are passed around as values. *)
Inductive callable :=
| Bound_lock_lost_handler
| Lambda (body : callable).

Inductive LockState :=
| Unlocked
| LockedByUs (callback : callable)
| LockedByOther.

Inductive Event :=
| EWarn (msg : string)
| ELogInfo (msg : string)
| ELockAttempt
| EUnlock
| EAutoCheckout (from to : string).

(** Everything the views of one opened dataset share, and of the process
    they live in: the working directory, the source of new commit ids, and
    the hashes of the strings, which Python draws anew for every process and
    which decide the order in which a set of strings is iterated. *)
Record World := mkWorld {
  storage : Storage;
  heap : list DatasetMeta;
  vstates : list VersionState;
  payload : string -> Engine;
  lock_state : LockState;
  trace : list Event;
  cwd : list string;
  next_id : nat;
  str_hash : string -> nat
}.

(** ** The monad of methods: state, and exceptions that keep the state *)

Definition M (A : Type) : Type := World -> result A * World.

#[global] Instance M_ret : MRet M := fun A a w => (Ok a, w).

#[global] Instance M_bind : MBind M := fun A B f m w =>
  match m w with
  | (Ok a, w') => f a w'
  | (Raise e, w') => (Raise e, w')
  end.

Definition raise {A} (e : exn) : M A := fun w => (Raise e, w).

Definition get_world : M World := fun w => (Ok w, w).

Definition modify (f : World -> World) : M unit := fun w => (Ok tt, f w).

(** [try: m  except e: h] *)
Definition try_except {A} (m : M A) (catches : exn -> bool) (h : M A) : M A :=
  fun w =>
    match m w with
    | (Raise e, w') => if catches e then h w' else (Raise e, w')
    | r => r
    end.

Definition set_storage (s : Storage) (w : World) : World :=
  mkWorld s (heap w) (vstates w) (payload w) (lock_state w) (trace w)
          (cwd w) (next_id w) (str_hash w).

Definition set_heap (h : list DatasetMeta) (w : World) : World :=
  mkWorld (storage w) h (vstates w) (payload w) (lock_state w) (trace w)
          (cwd w) (next_id w) (str_hash w).

Definition set_vstates (v : list VersionState) (w : World) : World :=
  mkWorld (storage w) (heap w) v (payload w) (lock_state w) (trace w)
          (cwd w) (next_id w) (str_hash w).

Definition set_payload (p : string -> Engine) (w : World) : World :=
  mkWorld (storage w) (heap w) (vstates w) p (lock_state w) (trace w)
          (cwd w) (next_id w) (str_hash w).

Definition set_lock_state (l : LockState) (w : World) : World :=
  mkWorld (storage w) (heap w) (vstates w) (payload w) l (trace w)
          (cwd w) (next_id w) (str_hash w).

Definition set_trace (t : list Event) (w : World) : World :=
  mkWorld (storage w) (heap w) (vstates w) (payload w) (lock_state w) t
          (cwd w) (next_id w) (str_hash w).

Definition set_next_id (n : nat) (w : World) : World :=
  mkWorld (storage w) (heap w) (vstates w) (payload w) (lock_state w)
          (trace w) (cwd w) n (str_hash w).

Definition emit (e : Event) : M unit :=
  modify (fun w => set_trace (trace w ++ [e]) w).

(** ** Python containers *)

(** [d.get(k)] on a dictionary kept in insertion order *)
Fixpoint dict_get {V} (k : string) (d : list (string * V)) : option V :=
  match d with
  | [] => None
  | (k', v) :: r => if String.eqb k k' then Some v else dict_get k r
  end.

(** [d[k] = v]: an existing key keeps its place, a new one goes last *)
Fixpoint dict_set {V} (k : string) (v : V) (d : list (string * V))
  : list (string * V) :=
  match d with
  | [] => [(k, v)]
  | (k', v') :: r =>
      if String.eqb k k' then (k, v) :: r else (k', v') :: dict_set k v r
  end.

(** [{k: v for (k, v) in l}] *)
Definition dict_of_list {V} (l : list (string * V)) : list (string * V) :=
  fold_left (fun d kv => dict_set (fst kv) (snd kv) d) l [].

(** [o is None] *)
Definition is_none {A} (o : option A) : bool :=
  match o with
  | None => true
  | Some _ => false
  end.

(** [min(l, default=0)] *)
Definition py_min (l : list nat) : nat :=
  match l with
  | [] => 0
  | x :: r => fold_left Nat.min r x
  end.

(** The elements of [l], each once, in the order of their first
    occurrence. *)
Fixpoint unique (l : list string) : list string :=
  match l with
  | [] => []
  | x :: r => x :: filter (fun y => y <> x) (unique r)
  end.

(** [x] put into a list that is ordered by [hash]. *)
Fixpoint insert_by (hash : string -> nat) (x : string) (l : list string)
  : list string :=
  match l with
  | [] => [x]
  | y :: r =>
      if Nat.leb (hash x) (hash y) then x :: l else y :: insert_by hash x r
  end.

(** [list(set(l))]: the elements of [l], each once.  Python iterates a set
    of strings in an order that the hashes of the strings decide, and those
    change from one process to the next.  [hash] stands for them: the
    elements come by increasing hash, those of equal hash in the order of
    their first occurrence.  Nothing is to be read into this order but that
    it varies with [hash]. *)
Definition list_set (hash : string -> nat) (l : list string) : list string :=
  foldr (insert_by hash) [] (unique l).

(** ** Access to the shared state *)

(** [version_state[key]]: the handle [None], like a handle that was never
    filled, is an empty dictionary. *)
Definition get_vs (key : string) (h : option nat) : M VersionState :=
  fun w =>
    match h ≫= (fun i => vstates w !! i) with
    | Some vs => (Ok vs, w)
    | None => (Raise (KeyError key), w)
    end.

Definition put_vs (h : option nat) (vs : VersionState) : M unit :=
  modify (fun w =>
            match h with
            | Some i => set_vstates (<[i := vs]> (vstates w)) w
            | None => w
            end).

(** The object behind a reference.  References only come from [alloc], so
    the default is never reached from a world built by the methods below. *)
Definition deref (l : nat) : M DatasetMeta :=
  fun w => (Ok (default (mkMeta [] []) (heap w !! l)), w).

Definition assign (l : nat) (m : DatasetMeta) : M unit :=
  modify (fun w => set_heap (<[l := m]> (heap w)) w).

Definition alloc (m : DatasetMeta) : M nat :=
  fun w => (Ok (List.length (heap w)), set_heap (heap w ++ [m]) w).

(** A new, filled [version_state] dictionary. *)
Definition alloc_vs (vs : VersionState) : M nat :=
  fun w => (Ok (List.length (vstates w)), set_vstates (vstates w ++ [vs]) w).

(** ** The cache storage *)

Module LRUCache.

(** Modelled from the spec: [hub.core.storage.LRUCache] is not part of the
    sources at hand.  Spec, sections 3 and 4.2: a key-value mapping with a
    memory tier over a base tier; a write goes to the memory tier and marks
    the key dirty; [flush()] propagates every dirty key to the base tier and
    clears the dirty status; with [autoflush] every write is propagated at
    once; while [read_only] the mutating calls fail with [ReadOnlyError];
    [clear()] empties both tiers.  The bound of the memory tier is not
    modelled: an eviction writes a dirty key to the base tier before
    dropping it, so it only brings the propagation forward. *)
Definition with_autoflush (b : bool) (s : Storage) : Storage :=
  mkStorage (st_root s) (st_base_kind s) b (st_read_only s) (st_cache s)
            (st_dirty s) (st_base s).

(** Modelled from the spec: the storage with its [read_only] flag replaced. *)
Definition with_read_only (b : bool) (s : Storage) : Storage :=
  mkStorage (st_root s) (st_base_kind s) (st_autoflush s) b (st_cache s)
            (st_dirty s) (st_base s).

(** Modelled from the spec: the storage with its two tiers and dirty set replaced. *)
Definition with_tiers (c : gmap string centry) (d : gset string)
           (b : gmap string sval) (s : Storage) : Storage :=
  mkStorage (st_root s) (st_base_kind s) (st_autoflush s) (st_read_only s)
            c d b.

(** Modelled from the spec: what a memory-tier entry is written as. *)
Definition snapshot (h : list DatasetMeta) (e : centry) : option sval :=
  match e with
  | CBytes v => Some v
  | CObj l => VMeta <$> h !! l
  end.

(** Modelled from the spec: the base tier once every dirty key has been propagated. *)
Definition flushed_base (h : list DatasetMeta) (s : Storage)
  : gmap string sval :=
  omap (snapshot h) (filter (fun kv => kv.1 ∈ st_dirty s) (st_cache s))
    ∪ st_base s.

(** Modelled from the spec: [storage.flush()] is a mutating call, so it
    fails with [ReadOnlyError] while the storage is read-only; otherwise it
    propagates every dirty key and clears the dirty status. *)
Definition flush : M unit :=
  w ← get_world;
  if st_read_only (storage w) then raise ReadOnlyError
  else
    modify (fun w =>
              let s := storage w in
              set_storage
                (with_tiers (st_cache s) ∅ (flushed_base (heap w) s) s) w).

(** Modelled from the spec: [storage.maybe_flush()] flushes when [autoflush] is set. *)
Definition maybe_flush : M unit :=
  w ← get_world;
  if st_autoflush (storage w) then flush else mret tt.

(** Modelled from the spec: [storage.autoflush = b] *)
Definition set_autoflush (b : bool) : M unit :=
  modify (fun w => set_storage (with_autoflush b (storage w)) w).

(** Modelled from the spec: [storage.enable_readonly()] *)
Definition enable_readonly : M unit :=
  modify (fun w => set_storage (with_read_only true (storage w)) w).

(** Modelled from the spec: [storage.disable_readonly()] *)
Definition disable_readonly : M unit :=
  modify (fun w => set_storage (with_read_only false (storage w)) w).

(** Modelled from the spec: [storage[key]] reads the memory tier, then the base tier,
    and keeps what it found in the memory tier. *)
Definition getitem (key : string) : M centry :=
  w ← get_world;
  let s := storage w in
  match st_cache s !! key with
  | Some e => mret e
  | None =>
      match st_base s !! key with
      | Some v =>
          modify (fun w =>
                    let s := storage w in
                    set_storage
                      (with_tiers (<[key := CBytes v]> (st_cache s))
                                  (st_dirty s) (st_base s) s) w);;
          mret (CBytes v)
      | None => raise (KeyError key)
      end
  end.

(** Modelled from the spec: [key in storage] *)
Definition contains (key : string) : M bool :=
  w ← get_world;
  let s := storage w in
  mret (bool_decide (is_Some (st_cache s !! key))
        || bool_decide (is_Some (st_base s !! key))).

(** Modelled from the spec: [storage[key] = value] *)
Definition setitem (key : string) (e : centry) : M unit :=
  w ← get_world;
  let s := storage w in
  if st_read_only s then raise ReadOnlyError
  else
    modify (fun w =>
              let s := storage w in
              set_storage
                (with_tiers (<[key := e]> (st_cache s))
                            ({[key]} ∪ st_dirty s) (st_base s) s) w);;
    maybe_flush.

(** Modelled from the spec: [storage.get_cachable(key, DatasetMeta)], the object the memory tier
    holds for [key]; bytes are decoded once and the object is kept. *)
Definition get_cachable (key : string) : M nat :=
  item ← getitem key;
  match item with
  | CObj l => mret l
  | CBytes (VMeta m) =>
      l ← alloc m;
      modify (fun w =>
                let s := storage w in
                set_storage
                  (with_tiers (<[key := CObj l]> (st_cache s))
                              (st_dirty s) (st_base s) s) w);;
      mret l
  | CBytes _ => raise ValueError
  end.

(** Modelled from the spec: [storage.clear()] *)
Definition clear : M unit :=
  w ← get_world;
  let s := storage w in
  if st_read_only s then raise ReadOnlyError
  else modify (fun w => set_storage (with_tiers ∅ ∅ ∅ (storage w)) w).

(** Modelled from the spec: [storage.empty()] *)
Definition empty : M bool :=
  w ← get_world;
  let s := storage w in
  mret (bool_decide (size (st_cache s) = 0)
        && bool_decide (size (st_base s) = 0)).

End LRUCache.

(** ** The distributed lock *)

Module Lock.

(** Modelled from the spec: [hub.core.lock] is not part of the sources at
    hand.  Spec, section 4.3: acquisition fails with [LockedException] when
    the marker is held by a different identity, without waiting; on success
    the loss callback is registered with the monitor; release is safe to
    call whether or not the lock is held. *)
Definition lock (callback : callable) : M unit :=
  emit ELockAttempt;;
  w ← get_world;
  match lock_state w with
  | LockedByOther => raise LockedException
  | LockedByUs _ => mret tt
  | Unlocked => modify (set_lock_state (LockedByUs callback))
  end.

(** Modelled from the spec: [unlock(storage)] releases the lock if it is held. *)
Definition unlock : M unit :=
  emit EUnlock;;
  w ← get_world;
  match lock_state w with
  | LockedByUs _ => modify (set_lock_state Unlocked)
  | _ => mret tt
  end.

End Lock.

(** ** Keys and version control *)

Module keys.

(** Modelled from the spec: [hub.constants] and [hub.util.keys] are not
    part of the sources at hand.  Spec, section 3: the graph is rooted at a
    single sentinel first-commit node, and the meta of a commit is persisted
    at a version-scoped key; the source notes that the data of the first
    commit is not in the directory structure of the others. *)
Definition FIRST_COMMIT_ID : string := "first".

(** Modelled from the spec: the key of [file] under a commit. *)
Definition scoped (commit_id file : string) : string :=
  if String.eqb commit_id FIRST_COMMIT_ID then file
  else pystr.cat "versions/" (pystr.cat commit_id (pystr.cat "/" file)).

(** Modelled from the spec: [get_dataset_meta_key(commit_id)] *)
Definition get_dataset_meta_key (commit_id : string) : string :=
  scoped commit_id "dataset_meta.json".

(** Modelled from the spec: [get_dataset_info_key(commit_id)] *)
Definition get_dataset_info_key (commit_id : string) : string :=
  scoped commit_id "dataset_info.json".

(** Modelled from the spec: [get_tensor_meta_key(key, commit_id)] *)
Definition get_tensor_meta_key (key commit_id : string) : string :=
  scoped commit_id (pystr.cat key "/tensor_meta.json").

(** Modelled from the spec: [get_version_control_info_key()] *)
Definition get_version_control_info_key : string := "version_control_info".

(** Modelled from the spec: [dataset_exists(storage)], a recognized dataset holds the meta of the
    first commit. *)
Definition dataset_exists : M bool :=
  LRUCache.contains (get_dataset_meta_key FIRST_COMMIT_ID).

(** Modelled from the spec: [tensor_exists(key, storage, commit_id)] *)
Definition tensor_exists (key commit_id : string) : M bool :=
  LRUCache.contains (get_tensor_meta_key key commit_id).

End keys.

Module TensorM.

(** Modelled from the spec: [hub.core.tensor] is not part of the sources
    at hand.  Spec, sections 4.5 and 6: a tensor handle exposes [len]; a
    subscript applies an index to the handle, and the payload engine exposes
    [num_chunks] and [min_chunk_size].  The source calls the handles kept in
    [full_tensors] the full unindexed tensors and those of [tensors] the
    sliced ones: the length of a handle is the number of samples its index
    keeps among those the engine holds.  [new] is
    [Tensor(key, storage, version_state)]. *)
Definition new (key : string) : Tensor := mkTensor key Index.new.

(** Modelled from the spec: [tensor[index]] *)
Definition getitem (t : Tensor) (idx : Index.t) : Tensor :=
  mkTensor (t_key t) (Index.compose (t_index t) idx).

(** Modelled from the spec: [tensor.chunk_engine] *)
Definition chunk_engine (t : Tensor) : M Engine :=
  w ← get_world; mret (payload w (t_key t)).

(** Modelled from the spec: [len(tensor)] *)
Definition len (t : Tensor) : M nat :=
  e ← chunk_engine t;
  mret (Index.length (t_index t) (eng_length e)).

End TensorM.

(** [[f(x) for x in l]] where [f] may raise *)
Fixpoint mapM {A B} (f : A -> M B) (l : list A) : M (list B) :=
  match l with
  | [] => mret []
  | x :: r => y ← f x; ys ← mapM f r; mret (y :: ys)
  end.

Module version_control.

Import keys.

(** Modelled from the spec: [hub.util.version_control] is not part of the
    sources at hand.  Spec, section 3: [full_tensors] maps each tensor path
    to a live handle and is repopulated on a namespace reload.
    [load_meta] is that reload: it takes the [DatasetMeta] of the current
    commit from the cache and rebuilds the handles from its tensor names. *)
Definition load_meta (h : option nat) : M unit :=
  vs ← get_vs "commit_id" h;
  l ← LRUCache.get_cachable (get_dataset_meta_key (vs_commit_id vs));
  m ← deref l;
  put_vs h (mkVS (vs_branch vs) (vs_commit_id vs) (vs_branch_commit_map vs)
                 (vs_commit_node_map vs)
                 (dict_of_list
                    (map (fun n => (n, TensorM.new n)) (meta_tensors m)))
                 (Some l)).

(** Modelled from the spec, section 4.1: if the current node is finalized
    ([commit_time] set), a new anonymous branch is created whose head is a
    fresh uncommitted child of the current commit, carrying a copy of its
    namespace, and the position moves to it; otherwise nothing happens. *)
Definition auto_checkout (h : option nat) : M unit :=
  vs ← get_vs "commit_node" h;
  match vs_commit_node_map vs !! vs_commit_id vs with
  | None => raise (KeyError (vs_commit_id vs))
  | Some node =>
      match cn_commit_time node with
      | None => mret tt
      | Some _ =>
          w ← get_world;
          let n := next_id w in
          let new_id := pystr.cat "c" (pretty n) in
          let new_branch := pystr.cat "auto_" (pretty n) in
          modify (set_next_id (S n));;
          l ← LRUCache.get_cachable (get_dataset_meta_key (vs_commit_id vs));
          m ← deref l;
          l' ← alloc m;
          LRUCache.setitem (get_dataset_meta_key new_id) (CObj l');;
          put_vs h (mkVS new_branch new_id
                         (<[new_branch := new_id]> (vs_branch_commit_map vs))
                         (<[new_id := mkNode new_branch new_id
                                        (Some (vs_commit_id vs)) None]>
                            (vs_commit_node_map vs))
                         (vs_full_tensors vs) (Some l'));;
          emit (EAutoCheckout (vs_commit_id vs) new_id);;
          load_meta h
      end
  end.

(** Modelled from the spec: [hub.core.tensor.create_tensor], the creation
    of the tensor's own storage, is not part of the sources at hand; it
    writes the tensor's meta under the current commit and starts an empty
    payload.  The htype, dtype and compression arguments only select what
    that meta says and are left out. *)
Definition create_tensor (key : string) (h : option nat) : M unit :=
  vs ← get_vs "commit_id" h;
  ex ← tensor_exists key (vs_commit_id vs);
  if (ex : bool) then raise (TensorAlreadyExistsError key)
  else
    LRUCache.setitem (get_tensor_meta_key key (vs_commit_id vs))
                     (CBytes (VBytes []));;
    modify (fun w =>
              set_payload
                (fun k => if String.eqb k key then mkEngine 0 0 0
                          else payload w k) w).

(** Modelled from the spec: [load_info(key, storage, version_state)], the handle on the dataset's
    info, which this module only stores. *)
Definition load_info (key : string) : M (option string) := mret (Some key).

End version_control.

(** ** The Dataset class *)

Module Dataset.

Import pystr keys version_control.

(** A [Dataset] view.  Every view of a world is bound to that world's
    [storage]; [version_state] is a handle into [vstates], [None] standing
    for an empty dictionary. *)
Record t := mk {
  path : string;
  _read_only : bool;
  index : Index.t;
  group_index : string;
  _token : option string;
  public : option bool;
  verbose : bool;
  version_state : option nat;
  info : option string
}.

Definition with__read_only (b : bool) (self : t) : t :=
  mk (path self) b (index self) (group_index self) (_token self)
     (public self) (verbose self) (version_state self) (info self).

Definition with_version_state (h : option nat) (self : t) : t :=
  mk (path self) (_read_only self) (index self) (group_index self)
     (_token self) (public self) (verbose self) h (info self).

Definition with_info (i : option string) (self : t) : t :=
  mk (path self) (_read_only self) (index self) (group_index self)
     (_token self) (public self) (verbose self) (version_state self) i.

(** The arguments of [__init__]; [storage] is the world's. *)
Record InitArgs := mkArgs {
  a_index : option Index.t;
  a_group_index : string;
  a_read_only : bool;
  a_public : option bool;
  a_token : option string;
  a_verbose : bool;
  a_version_state : option nat
}.

(** What a subscript may be, and what it may return. *)
Inductive item :=
| IStr (s : string)
| ISel (s : Index.selector)
| IIndex (i : Index.t)
| IOther.

Inductive value :=
| VTensor (x : Tensor)
| VDataset (d : t).

(** The values [__getstate__] stores. *)
Inductive pyval :=
| PStr (s : string)
| PBool (b : bool)
| POptBool (b : option bool)
| POptStr (s : option string)
| PIndex (i : Index.t)
| PStorage
| PVersionState (h : option nat)
| PCallable (c : callable)
| PNone.

(** [dir(self)]: the attributes of an instance, those of the class, and
    those every Python object has. *)
Definition dir : list string :=
  [ "path"; "storage"; "_read_only"; "index"; "group_index"; "_token";
    "public"; "verbose"; "version_state"; "info";
    "__init__"; "_lock_lost_handler"; "__enter__"; "__exit__";
    "num_samples"; "meta"; "__len__"; "__getstate__"; "__setstate__";
    "__getitem__"; "create_tensor"; "create_tensor_like"; "__getattr__";
    "__setattr__"; "__iter__"; "_load_version_info"; "commit"; "checkout";
    "log"; "_populate_meta"; "_register_dataset"; "read_only"; "pytorch";
    "_get_total_meta"; "_set_derived_attributes"; "tensorflow"; "flush";
    "clear_cache"; "size_approx"; "delete"; "__str__"; "__repr__";
    "_get_tensor_from_root"; "_has_group_in_root"; "token";
    "_ungrouped_tensors"; "_all_tensors_filtered"; "tensors"; "_groups";
    "_groups_filtered"; "groups"; "commit_id"; "branch"; "_is_root";
    "parent"; "root"; "_create_group"; "create_group"; "__origin__";
    "__values__"; "__type__"; "__union_params__"; "__tuple_params__";
    "__result__"; "__args__";
    "__class__"; "__delattr__"; "__dict__"; "__dir__"; "__doc__"; "__eq__";
    "__format__"; "__ge__"; "__getattribute__"; "__gt__"; "__hash__";
    "__init_subclass__"; "__le__"; "__lt__"; "__module__"; "__ne__";
    "__new__"; "__reduce__"; "__reduce_ex__"; "__sizeof__";
    "__subclasshook__"; "__weakref__" ].

Definition _is_root (self : t) : bool := String.eqb (group_index self) "".

(** The [read_only] property and its setter *)
Definition read_only (self : t) : bool := _read_only self.

Definition set_read_only (self : t) (value : bool) : M t :=
  (if value then LRUCache.enable_readonly else LRUCache.disable_readonly);;
  mret (with__read_only value self).

Definition token (self : t) : option string := _token self.

Definition _lock_lost_handler (self : t) : M t :=
  self ← set_read_only self true;
  emit (EWarn "Unable to update dataset lock as another machine has locked it for writing. Switching to read only mode.");;
  mret self.

Definition flush (self : t) : M unit := LRUCache.flush.

Definition __enter__ (self : t) : M t :=
  LRUCache.set_autoflush false;;
  mret self.

Definition __exit__ (self : t) : M unit :=
  LRUCache.set_autoflush true;;
  flush self.

Definition num_samples (self : t) : M nat :=
  vs ← get_vs "full_tensors" (version_state self);
  lens ← mapM TensorM.len (map snd (vs_full_tensors vs));
  mret (py_min lens).

(** [self.version_state["meta"]] *)
Definition meta (self : t) : M nat :=
  vs ← get_vs "meta" (version_state self);
  match vs_meta vs with
  | Some l => mret l
  | None => raise (KeyError "meta")
  end.

Definition __getstate__ (self : t) : M (list (string * pyval)) :=
  if startswith "mem://" (path self)
  then raise MemoryDatasetCanNotBePickledError
  else mret [ ("path", PStr (path self));
              ("_read_only", PBool (read_only self));
              ("index", PIndex (index self));
              ("group_index", PStr (group_index self));
              ("public", POptBool (public self));
              ("storage", PStorage);
              ("_token", POptStr (token self));
              ("verbose", PBool (verbose self));
              ("version_state", PVersionState (version_state self)) ].

Definition _load_version_info (self : t) : M t :=
  let branch := "main" in
  vs ← try_except
         (item ← LRUCache.getitem get_version_control_info_key;
          match item with
          | CBytes (VVersionInfo bcm cnm) =>
              match bcm !! branch with
              | Some commit_id =>
                  match cnm !! commit_id with
                  | Some _ => mret (mkVS branch commit_id bcm cnm [] None)
                  | None => raise (KeyError commit_id)
                  end
              | None => raise (KeyError branch)
              end
          | _ => raise ValueError
          end)
         (fun _ => true)
         (let commit_id := FIRST_COMMIT_ID in
          let commit_node := mkNode branch commit_id None None in
          mret (mkVS branch commit_id {[branch := commit_id]}
                     {[commit_id := commit_node]} [] None));
  h ← alloc_vs vs;
  mret (with_version_state (Some h) self).

Definition _register_dataset (self : t) : M unit := mret tt.

Definition _populate_meta (self : t) : M unit :=
  ex ← dataset_exists;
  if (ex : bool) then
    (if verbose self
     then emit (ELogInfo (cat (path self) " loaded successfully."))
     else mret tt);;
    load_meta (version_state self)
  else
    em ← LRUCache.empty;
    if negb em then raise PathNotEmptyException
    else if read_only self
    then raise (CouldNotCreateNewDatasetException (path self))
    else
      vs ← get_vs "commit_id" (version_state self);
      let meta_key := get_dataset_meta_key (vs_commit_id vs) in
      l ← alloc (mkMeta [] []);
      put_vs (version_state self)
             (mkVS (vs_branch vs) (vs_commit_id vs) (vs_branch_commit_map vs)
                   (vs_commit_node_map vs) (vs_full_tensors vs) (Some l));;
      LRUCache.setitem meta_key (CObj l);;
      flush self;;
      _register_dataset self.

(** [bool(version_state)]: a dictionary is true when it has entries. *)
Definition vs_truthy (h : option nat) (w : World) : bool :=
  bool_decide (is_Some (h ≫= (fun i => vstates w !! i))).

Definition _set_derived_attributes (self : t) : M t :=
  (if Index.is_trivial (index self) && _is_root self
   then LRUCache.set_autoflush true else mret tt);;
  w ← get_world;
  self ← (if negb (vs_truthy (version_state self) w)
          then _load_version_info self else mret self);
  _populate_meta self;;
  vs ← get_vs "commit_id" (version_state self);
  i ← load_info (get_dataset_info_key (vs_commit_id vs));
  let self := with_info i self in
  n ← num_samples self;
  if Index.valid (index self) n then mret self else raise ValueError.

Definition __init__ (args : InitArgs) : M t :=
  w ← get_world;
  let path := st_root (storage w) in
  let self := mk path (a_read_only args) [] "" None None false None None in
  let base_storage := st_base_kind (storage w) in
  self ← (if negb (a_read_only args)
             && is_none (a_index args)
             && is_S3Provider base_storage
          then
            try_except
              (Lock.lock (Lambda Bound_lock_lost_handler);; mret self)
              (fun e => match e with LockedException => true | _ => false end)
              (self ← set_read_only self true;
               emit (EWarn "Opening dataset in read only mode as another machine has locked it for writing.");;
               mret self)
          else mret self);
  let self :=
    mk path (_read_only self)
       (default Index.new (a_index args))
       (a_group_index args)
       (a_token args)
       (a_public args)
       (a_verbose args)
       (if vs_truthy (a_version_state args) w
        then a_version_state args else None)
       None in
  _set_derived_attributes self.

(** Modelled from the spec: [tensor[item]] for an item received by
    [Dataset.__getitem__]; the tensor handle is not part of the sources at
    hand, a subscript applies an index to it and a string is not one. *)
Definition tensor_getitem (x : Tensor) (it : item) : M Tensor :=
  match it with
  | ISel s => mret (TensorM.getitem x [s])
  | IIndex i => mret (TensorM.getitem x i)
  | _ => raise InvalidKeyTypeError
  end.

Definition _get_tensor_from_root (self : t) (name : string)
  : M (option Tensor) :=
  vs ← get_vs "full_tensors" (version_state self);
  match dict_get name (vs_full_tensors vs) with
  | Some x => mret (Some x)
  | None =>
      load_meta (version_state self);;
      vs ← get_vs "full_tensors" (version_state self);
      mret (dict_get name (vs_full_tensors vs))
  end.

Definition _has_group_in_root (self : t) (name : string) : M bool :=
  l ← meta self;
  m ← deref l;
  if mem name (meta_groups m) then mret true
  else
    load_meta (version_state self);;
    l ← meta self;
    m ← deref l;
    mret (mem name (meta_groups m)).

(** [self[item]]; [fuel] is the depth of recursion the interpreter still
    allows. *)
Fixpoint __getitem__ (fuel : nat) (self : t) (it : item) : M value :=
  match fuel with
  | 0 => raise RecursionError
  | S fuel' =>
      match it with
      | IStr item =>
          let fullpath := posixpath.join (group_index self) item in
          tensor ← _get_tensor_from_root self fullpath;
          match tensor with
          | Some x => mret (VTensor (TensorM.getitem x (index self)))
          | None =>
              g ← _has_group_in_root self fullpath;
              if (g : bool) then
                d ← __init__
                      (mkArgs (Some (index self))
                              (posixpath.join (group_index self) item)
                              (read_only self) (Some true) (_token self)
                              false (version_state self));
                mret (VDataset d)
              else if has_sep item then
                let splt := posixpath.split item in
                r ← __getitem__ fuel' self (IStr (fst splt));
                match r with
                | VDataset d => __getitem__ fuel' d (IStr (snd splt))
                | VTensor x =>
                    x' ← tensor_getitem x (IStr (snd splt));
                    mret (VTensor x')
                end
              else raise (TensorDoesNotExistError item)
          end
      | ISel s =>
          d ← __init__
                (mkArgs (Some (Index.getitem (index self) s))
                        (group_index self) (read_only self) (Some true)
                        (_token self) false (version_state self));
          mret (VDataset d)
      | IIndex i =>
          d ← __init__
                (mkArgs (Some (Index.compose (index self) i))
                        (group_index self) (read_only self) (Some true)
                        (_token self) false (version_state self));
          mret (VDataset d)
      | IOther => raise InvalidKeyTypeError
      end
  end.

(** [self._all_tensors_filtered] *)
Definition _all_tensors_filtered (self : t) : M (list string) :=
  load_meta (version_state self);;
  vs ← get_vs "full_tensors" (version_state self);
  w ← get_world;
  mapM (fun x =>
          match posixpath.relpath (cwd w) x (group_index self) with
          | Some r => mret r
          | None => raise ValueError
          end)
       (filter (fun x : string =>
                  Is_true (String.eqb (group_index self) ""
                           || startswith (cat (group_index self) "/") x))
               (map fst (vs_full_tensors vs))).

(** [self.tensors] *)
Definition tensors (self : t) : M (list (string * Tensor)) :=
  names ← _all_tensors_filtered self;
  entries ← mapM (fun x =>
                    vs ← get_vs "full_tensors" (version_state self);
                    let k := posixpath.join (group_index self) x in
                    match dict_get k (vs_full_tensors vs) with
                    | Some ft => mret (x, TensorM.getitem ft (index self))
                    | None => raise (KeyError k)
                    end)
                 names;
  mret (dict_of_list entries).

Definition __len__ (self : t) : M nat :=
  d ← tensors self;
  tensor_lengths ← mapM TensorM.len (map snd d);
  mret (py_min tensor_lengths).

(** [iter(self)]: the generator, as the rows it yields one after the other
    once it is started; each row is computed when it is asked for. *)
Definition __iter__ (fuel : nat) (self : t) : M (list (M value)) :=
  n ← __len__ self;
  mret (map (fun i => __getitem__ fuel self (ISel (Index.SInt i)))
            (seq 0 n)).

Definition size_approx (self : t) : M N :=
  vs ← get_vs "full_tensors" (version_state self);
  let tensors := map snd (vs_full_tensors vs) in
  chunk_engines ← mapM TensorM.chunk_engine tensors;
  let size :=
    fold_left N.add
              (map (fun c => (eng_num_chunks c * eng_min_chunk_size c)%N)
                   chunk_engines) 0%N in
  mret size.

(** [self.delete(large_ok)]; [DELETE_SAFETY_SIZE] is [hub.constants]', which
    is not part of the sources at hand (one gigabyte by the docstring). *)
Definition delete (DELETE_SAFETY_SIZE : N) (self : t) (large_ok : bool)
  : M unit :=
  returned ← (if negb large_ok then
                size ← size_approx self;
                if (DELETE_SAFETY_SIZE <? size)%N then
                  emit (ELogInfo (cat "Hub Dataset "
                                   (cat (path self)
                                      " was too large to delete. Try again with large_ok=True.")));;
                  mret true
                else mret false
              else mret false);
  if (returned : bool) then mret tt
  else
    Lock.unlock;;
    LRUCache.clear.

(** [self._groups]: the group list of the cached meta of the commit *)
Definition _groups (self : t) : M (list string) :=
  vs ← get_vs "commit_id" (version_state self);
  let meta_key := get_dataset_meta_key (vs_commit_id vs) in
  l ← LRUCache.get_cachable meta_key;
  m ← deref l;
  mret (meta_groups m).

Definition root (self : t) : M t :=
  if _is_root self then mret self
  else
    w ← get_world;
    let autoflush := st_autoflush (storage w) in
    ds ← __init__ (mkArgs (Some (index self)) "" (read_only self)
                          (public self) (_token self) (verbose self) None);
    LRUCache.set_autoflush autoflush;;
    mret ds.

(** [while "//" in name: name = name.replace("//", "/")]; every round
    shortens [name], so [String.length name] rounds are enough. *)
Fixpoint collapse (rounds : nat) (name : string) : string :=
  match rounds with
  | 0 => name
  | S n => if has_dsep name then collapse n (replace_dsep name) else name
  end.

Definition normalize (name : string) : string :=
  let name := strip name in
  collapse (String.length name) name.

(** The loop of [_create_group]: [groups] is the list object of the cached
    meta [l], so every [append] is a change of that object.  A round either
    shortens [name] or leaves a name made of separators only, on which the
    loop of the source never ends; [rounds] runs out in that case alone. *)
Fixpoint _create_group_loop (rounds : nat) (self : t) (l : nat)
         (name : string) : M unit :=
  match rounds with
  | 0 => if String.eqb name "" then mret tt else raise Diverged
  | S n =>
      if String.eqb name "" then mret tt
      else
        vs ← get_vs "full_tensors" (version_state self);
        if is_none (dict_get name (vs_full_tensors vs)) then
          m ← deref l;
          assign l (mkMeta (meta_tensors m) (meta_groups m ++ [name]));;
          _create_group_loop n self l (fst (posixpath.split name))
        else raise (TensorAlreadyExistsError name)
  end.

Definition _create_group (fuel : nat) (self : t) (name : string) : M value :=
  vs ← get_vs "commit_id" (version_state self);
  let meta_key := get_dataset_meta_key (vs_commit_id vs) in
  l ← LRUCache.get_cachable meta_key;
  if (String.eqb name "" || mem name dir)%bool
  then raise (InvalidTensorGroupNameError name)
  else
    let fullname := name in
    _create_group_loop (String.length name) self l name;;
    m ← deref l;
    w ← get_world;
    assign l (mkMeta (meta_tensors m)
                     (list_set (str_hash w) (meta_groups m)));;
    LRUCache.setitem meta_key (CObj l);;
    LRUCache.maybe_flush;;
    __getitem__ fuel self (IStr fullname).

Fixpoint create_group (fuel : nat) (self : t) (name : string) : M value :=
  match fuel with
  | 0 => raise RecursionError
  | S fuel' =>
      if negb (_is_root self) then
        r ← root self;
        create_group fuel' r (posixpath.join (group_index self) name)
      else
        let name := normalize name in
        gs ← _groups self;
        if mem name gs then raise (TensorGroupAlreadyExistsError name)
        else _create_group fuel' self name
  end.

(** [self.create_tensor(name, ...)]; the htype and compression arguments
    are passed through to the tensor's own meta and info and are left
    out. *)
Fixpoint create_tensor (fuel : nat) (self : t) (name : string) : M Tensor :=
  match fuel with
  | 0 => raise RecursionError
  | S fuel' =>
      auto_checkout (version_state self);;
      let name := normalize name in
      let full_path := posixpath.join (group_index self) name in
      vs ← get_vs "commit_id" (version_state self);
      ex ← tensor_exists full_path (vs_commit_id vs);
      if (ex : bool) then raise (TensorAlreadyExistsError name)
      else
        gs ← _groups self;
        if mem full_path gs then raise (TensorGroupAlreadyExistsError name)
        else if (String.eqb name "" || mem name dir)%bool
        then raise (InvalidTensorNameError name)
        else if negb (_is_root self) then
          r ← root self;
          create_tensor fuel' r full_path
        else
          (if has_sep name
           then _create_group fuel' self (fst (posixpath.split name));;
                mret tt
           else mret tt);;
          version_control.create_tensor name (version_state self);;
          l ← meta self;
          m ← deref l;
          assign l (mkMeta (meta_tensors m ++ [name]) (meta_groups m));;
          LRUCache.maybe_flush;;
          let tensor := TensorM.new name in
          vs ← get_vs "full_tensors" (version_state self);
          put_vs (version_state self)
                 (mkVS (vs_branch vs) (vs_commit_id vs)
                       (vs_branch_commit_map vs) (vs_commit_node_map vs)
                       (dict_set name tensor (vs_full_tensors vs))
                       (vs_meta vs));;
          mret tensor
  end.

(** Calling a callable that was handed to the lock. *)
Definition call (c : callable) (self : t) : M (t * pyval) :=
  match c with
  | Bound_lock_lost_handler =>
      self ← _lock_lost_handler self;
      mret (self, PNone)
  | Lambda body => mret (self, PCallable body)
  end.

(** Modelled from the spec, section 4.3: when the monitor finds that the
    lock was taken over, it invokes the registered callback once and stops;
    [hub.core.lock] is not part of the sources at hand. *)
Definition monitor_lock_lost (self : t) : M t :=
  w ← get_world;
  match lock_state w with
  | LockedByUs callback =>
      modify (set_lock_state LockedByOther);;
      r ← call callback self;
      mret (fst r)
  | _ => mret self
  end.

(** [self.commit_id] and [self.branch] *)
Definition commit_id (self : t) : M string :=
  vs ← get_vs "commit_id" (version_state self);
  mret (vs_commit_id vs).

Definition branch (self : t) : M string :=
  vs ← get_vs "branch" (version_state self);
  mret (vs_branch vs).

(** [self._ungrouped_tensors]: the handles are those of [full_tensors], as
    they are. *)
Definition _ungrouped_tensors (self : t) : M (list (string * Tensor)) :=
  vs ← get_vs "full_tensors" (version_state self);
  mret (dict_of_list
          (map (fun kv : string * Tensor => (posixpath.basename kv.1, kv.2))
               (filter (fun kv : string * Tensor =>
                          Is_true (String.eqb (posixpath.dirname kv.1)
                                              (group_index self)))
                       (vs_full_tensors vs)))).

(** The loop of [_groups_filtered] over the groups that are left. *)
Fixpoint _groups_filtered_loop (self : t) (gs groups_filtered : list string)
  : list string :=
  match gs with
  | [] => groups_filtered
  | g :: r =>
      let (dirname, basename) := posixpath.split g in
      _groups_filtered_loop self r
        (if String.eqb dirname (group_index self)
         then groups_filtered ++ [basename]
         else groups_filtered)
  end.

(** [self._groups_filtered] *)
Definition _groups_filtered (self : t) : M (list string) :=
  gs ← _groups self;
  mret (_groups_filtered_loop self gs []).

(** [self.groups] *)
Definition groups (fuel : nat) (self : t) : M (list (string * value)) :=
  gs ← _groups_filtered self;
  entries ← mapM (fun g => v ← __getitem__ fuel self (IStr g); mret (g, v)) gs;
  mret (dict_of_list entries).

(** [self.parent]; [None] is Python's. *)
Definition parent (self : t) : M (option t) :=
  if _is_root self then mret None
  else
    w ← get_world;
    let autoflush := st_autoflush (storage w) in
    ds ← __init__ (mkArgs (Some (index self))
                          (posixpath.dirname (group_index self))
                          (read_only self) (public self) (_token self)
                          (verbose self) None);
    LRUCache.set_autoflush autoflush;;
    mret (Some ds).

End Dataset.

(** * Observations, statements and example worlds *)

(** ** What is observed of a run *)

(** The warnings a run has emitted. *)
Definition is_warning (e : Event) : bool :=
  match e with
  | EWarn _ => true
  | _ => false
  end.

Definition warnings (w : World) : list Event := List.filter is_warning (trace w).

(** The attempts to take the lock that a run has made. *)
Definition is_lock_attempt (e : Event) : bool :=
  match e with
  | ELockAttempt => true
  | _ => false
  end.

Definition lock_attempts (w : World) : nat :=
  List.length (List.filter is_lock_attempt (trace w)).

(** The automatic checkouts a run has made. *)
Definition is_auto_checkout (e : Event) : bool :=
  match e with
  | EAutoCheckout _ _ => true
  | _ => false
  end.

Definition auto_checkouts (w : World) : list Event :=
  List.filter is_auto_checkout (trace w).

(** The commit a version state is positioned at, and the time at which that
    commit was finalized. *)
Definition current_commit (w : World) (h : nat) : option string :=
  vs_commit_id <$> vstates w !! h.

Definition current_commit_time (w : World) (h : nat) : option (option nat) :=
  vs ← vstates w !! h;
  cn_commit_time <$> vs_commit_node_map vs !! vs_commit_id vs.

(** The groups recorded for a commit in the base tier. *)
Definition stored_groups (w : World) (commit_id : string)
  : option (list string) :=
  match st_base (storage w) !! keys.get_dataset_meta_key commit_id with
  | Some (VMeta m) => Some (meta_groups m)
  | _ => None
  end.

(** The [DatasetMeta] object the memory tier holds for a commit. *)
Definition cached_meta (w : World) (commit_id : string) : option DatasetMeta :=
  match st_cache (storage w) !! keys.get_dataset_meta_key commit_id with
  | Some (CObj l) => heap w !! l
  | _ => None
  end.

(** The meta the storage holds under a key, read through the tiers without
    loading it. *)
Definition peek_meta (w : World) (key : string) : option DatasetMeta :=
  match st_cache (storage w) !! key with
  | Some (CObj l) => heap w !! l
  | Some (CBytes (VMeta m)) => Some m
  | Some (CBytes _) => None
  | None =>
      match st_base (storage w) !! key with
      | Some (VMeta m) => Some m
      | _ => None
      end
  end.

(** The number of samples of a tensor that its engine holds. *)
Definition raw_length (w : World) (x : string) : nat :=
  eng_length (payload w x).

(** ** What a computation leaves alone *)

(** [m] relates the state it is run in to the state it leaves by [R], and
    raises exceptions of [E] only. *)
Definition respects (R : World -> World -> Prop) (E : exn -> Prop)
           {A} (m : M A) : Prop :=
  forall w, R w (m w).2 /\ forall e, (m w).1 = Raise e -> E e.

(** The lock is as it was and no attempt was made on it; the events so far
    are still there, the storage is as writable as it was, and no automatic
    checkout was made. *)
Definition same_lock (w w' : World) : Prop :=
  lock_state w' = lock_state w
  /\ lock_attempts w' = lock_attempts w
  /\ trace w `prefix_of` trace w'
  /\ st_read_only (storage w') = st_read_only (storage w)
  /\ auto_checkouts w' = auto_checkouts w.

(** Neither the lock's exception nor a failure to return. *)
Definition init_error (e : exn) : Prop :=
  e <> LockedException /\ e <> RecursionError /\ e <> Diverged.

(** ** The constructor and the lock *)

(** The warning of an open that could not take the lock, and the warning of
    [_lock_lost_handler]. *)
Definition lock_failure_warning : string :=
  "Opening dataset in read only mode as another machine has locked it for writing.".

Definition lock_lost_warning : string :=
  "Unable to update dataset lock as another machine has locked it for writing. Switching to read only mode.".

(** The condition under which the source attempts to lock. *)
Definition locks_when (args : Dataset.InitArgs) (w : World) : bool :=
  negb (Dataset.a_read_only args)
  && is_none (Dataset.a_index args)
  && is_S3Provider (st_base_kind (storage w)).

(** The constructor attempted to take the lock. *)
Definition lock_attempted (args : Dataset.InitArgs) (w : World) : Prop :=
  lock_attempts (Dataset.__init__ args w).2 = S (lock_attempts w).

(** The first part of [__init__], up to the end of the [try] statement. *)
Definition init_lock_stage (self : Dataset.t) : M Dataset.t :=
  try_except
    (Lock.lock (Lambda Bound_lock_lost_handler);; mret self)
    (fun e => match e with LockedException => true | _ => false end)
    (self ← Dataset.set_read_only self true;
     emit (EWarn lock_failure_warning);;
     mret self).

(** The state in which the [except] branch of the constructor leaves a
    world, and the dataset it goes on with. *)
Definition downgraded (w : World) : World :=
  set_trace (trace w ++ [ELockAttempt; EWarn lock_failure_warning])
            (set_storage (LRUCache.with_read_only true (storage w)) w).

Definition downgraded_self (args : Dataset.InitArgs) (w : World) : Dataset.t :=
  Dataset.mk (st_root (storage w)) true Index.new
             (Dataset.a_group_index args) (Dataset.a_token args)
             (Dataset.a_public args) (Dataset.a_verbose args)
             (if Dataset.vs_truthy (Dataset.a_version_state args) w
              then Dataset.a_version_state args else None)
             None.

(** The arguments with which [__getitem__] builds the view of a group. *)
Definition group_view_args (self : Dataset.t) (fullpath : string)
  : Dataset.InitArgs :=
  Dataset.mkArgs (Some (Dataset.index self)) fullpath
                 (Dataset.read_only self) (Some true) (Dataset._token self)
                 false (Dataset.version_state self).

(** The specification on the lock: the lock is attempted exactly when the
    base storage is S3, the open is for writing, and the view is the whole
    dataset with a trivial index. *)
Definition locks_iff_whole_dataset_write
           (args : Dataset.InitArgs) (w : World) : Prop :=
  lock_attempted args w <->
  (is_S3Provider (st_base_kind (storage w)) = true
   /\ Dataset.a_read_only args = false
   /\ Dataset.a_group_index args = ""
   /\ Index.is_trivial (default Index.new (Dataset.a_index args)) = true).

(** The specification on a lock that is held elsewhere: the constructor
    completes normally, read-only, with a warning. *)
Definition lock_failure_completes
           (args : Dataset.InitArgs) (w : World) : Prop :=
  locks_when args w = true ->
  lock_state w = LockedByOther ->
  exists ds w',
    Dataset.__init__ args w = (Ok ds, w')
    /\ Dataset.read_only ds = true
    /\ EWarn lock_failure_warning ∈ trace w'.

(** ** Writes and deletion *)

(** A block of writes [storage[k] = v], in the order they are made. *)
Fixpoint write_all (ws : list (string * sval)) : M unit :=
  match ws with
  | [] => mret tt
  | (k, v) :: r => LRUCache.setitem k (CBytes v);; write_all r
  end.

(** The value a block of writes leaves under [k]. *)
Fixpoint last_write (k : string) (ws : list (string * sval)) : option sval :=
  match ws with
  | [] => None
  | (k', v) :: r =>
      match last_write k r with
      | Some v' => Some v'
      | None => if String.eqb k k' then Some v else None
      end
  end.

(** The line [delete] logs when it refuses. *)
Definition too_large_message (self : Dataset.t) : string :=
  pystr.cat "Hub Dataset "
    (pystr.cat (Dataset.path self)
       " was too large to delete. Try again with large_ok=True.").

(** ** Names *)

(** A path component that [normpath] keeps as it is. *)
Definition clean (c : string) : bool :=
  negb (String.eqb c "") && negb (String.eqb c ".") && negb (String.eqb c "..").

(** A normalized relative path: all its components are clean. *)
Definition clean_path (p : string) : bool := forallb clean (pystr.split p).

(** A component between separators: not empty, and free of separators. *)
Definition component (c : string) : Prop :=
  String.eqb c "" = false /\ pystr.has_sep c = false.

(** The components joined by separators again. *)
Fixpoint unsplit (l : list string) : string :=
  match l with
  | [] => ""
  | [x] => x
  | x :: r => pystr.cat x (String pystr.sep (unsplit r))
  end.

(** The number of separators in a name. *)
Fixpoint count_sep (s : string) : nat :=
  match s with
  | EmptyString => 0
  | String c s' => (if pystr.is_sep c then 1 else 0) + count_sep s'
  end.

(** The tensors of the root that a view on the group [g] exposes. *)
Definition in_scope (g : string) (names : list string) : list string :=
  filter (fun x : string =>
            Is_true (String.eqb g "" || pystr.startswith (pystr.cat g "/") x))
         names.

(** The name of a tensor relative to a group. *)
Definition relname (cwd : list string) (g x : string) : string :=
  default "" (posixpath.relpath cwd x g).

(** The conditions under which the names of a namespace resolve: every
    tensor path is normalized and occurs once, and so is the group path. *)
Definition well_named (g : string) (names : list string) : Prop :=
  NoDup names
  /\ Forall (fun x => clean_path x = true) names
  /\ (g = "" \/ clean_path g = true).

(** The specification on the length of a view: [len] is the minimum of the
    raw lengths of the tensors the view exposes, whatever its index. *)
Definition len_is_raw_minimum (self : Dataset.t) (w : World) : Prop :=
  forall d w1,
    Dataset.tensors self w = (Ok d, w1) ->
    (Dataset.__len__ self w).1
    = Ok (py_min (map (fun x => raw_length w (t_key x)) (map snd d))).

(** ** Example worlds *)

(** An empty S3 location that nobody has locked, and the arguments of a
    plain open for writing. *)
Definition s3_new_world : World :=
  mkWorld (mkStorage "s3://bucket/ds" S3Provider false false ∅ ∅ ∅)
          [] [] (fun _ => mkEngine 0 0 0) Unlocked [] ["home"] 0
          (fun _ => 0).

Definition open_args : Dataset.InitArgs :=
  Dataset.mkArgs None "" false (Some true) None true None.

(** The whole dataset, opened for writing, with the trivial index passed as
    an object (as every view made by a subscript passes it). *)
Definition explicit_trivial_args : Dataset.InitArgs :=
  Dataset.mkArgs (Some Index.new) "" false (Some true) None true None.

(** An S3 location that another machine has locked and that holds no
    dataset yet. *)
Definition s3_locked_new_world : World :=
  mkWorld (mkStorage "s3://bucket/ds" S3Provider false false ∅ ∅ ∅)
          [] [] (fun _ => mkEngine 0 0 0) LockedByOther [] ["home"] 0
          (fun _ => 0).

(** An S3 location that another machine has locked and that holds a dataset
    with one tensor. *)
Definition s3_locked_world : World :=
  mkWorld (mkStorage "s3://bucket/ds" S3Provider false false ∅ ∅
                     {[ "dataset_meta.json" := VMeta (mkMeta ["images"] []) ]})
          [] [] (fun _ => mkEngine 4 1 1) LockedByOther [] ["home"] 0
          (fun _ => 0).

(** A dataset on S3 with one tensor of 3000 chunks of at least a megabyte
    each, opened for writing with the lock held. *)
Definition large_world : World :=
  mkWorld (mkStorage "s3://bucket/ds" S3Provider true false
                     {[ "dataset_meta.json" := CObj 0 ]} ∅
                     {[ "dataset_meta.json" := VMeta (mkMeta ["images"] []) ]})
          [mkMeta ["images"] []]
          [mkVS "main" keys.FIRST_COMMIT_ID
                {[ "main" := keys.FIRST_COMMIT_ID ]}
                {[ keys.FIRST_COMMIT_ID :=
                     mkNode "main" keys.FIRST_COMMIT_ID None None ]}
                [("images", TensorM.new "images")] (Some 0)]
          (fun _ => mkEngine 4 3000 1000000)
          (LockedByUs (Lambda Bound_lock_lost_handler)) [] ["home"] 0
          (fun _ => 0).

Definition large_view : Dataset.t :=
  Dataset.mk "s3://bucket/ds" false Index.new "" None (Some true) true
             (Some 0) (Some "dataset_info.json").

(** A local dataset opened for writing, with nothing written yet, and three
    writes to two keys. *)
Definition empty_local_world : World :=
  mkWorld (mkStorage "/data/ds" LocalProvider true false ∅ ∅ ∅)
          [] [] (fun _ => mkEngine 0 0 0) Unlocked [] ["home"] 0
          (fun _ => 0).

Definition empty_local_view : Dataset.t :=
  Dataset.mk "/data/ds" false Index.new "" None (Some true) true
             None None.

Definition three_writes : list (string * sval) :=
  [ ("a/chunks/0", VBytes [1%N; 2%N]);
    ("b/chunks/0", VBytes [3%N]);
    ("a/chunks/0", VBytes [4%N]) ].

(** The root view of a local dataset whose version state is the first of
    the world. *)
Definition local_root : Dataset.t :=
  Dataset.mk "/data/ds" false Index.new "" None (Some true) true
             (Some 0) (Some "dataset_info.json").

(** A local dataset positioned at a finalized commit: ["first"] was
    committed at time 1 and has the uncommitted child ["c2"], the head of
    [main]; the dataset was then checked out at ["first"]. *)
Definition finalized_nodes : gmap string CommitNode :=
  {[ "first" := mkNode "main" "first" None (Some 1);
     "c2" := mkNode "main" "c2" (Some "first") None ]}.

Definition finalized_world : World :=
  mkWorld (mkStorage "/data/ds" LocalProvider true false
                     {[ "dataset_meta.json" := CObj 0 ]} ∅
                     {[ "dataset_meta.json" := VMeta (mkMeta [] []);
                        "versions/c2/dataset_meta.json" := VMeta (mkMeta [] []);
                        "version_control_info" :=
                          VVersionInfo {[ "main" := "c2" ]} finalized_nodes ]})
          [mkMeta [] []]
          [mkVS "main" "first" {[ "main" := "c2" ]} finalized_nodes [] (Some 0)]
          (fun _ => mkEngine 0 0 0) Unlocked [] ["home"] 3
          (fun _ => 0).

(** A local dataset at its first, uncommitted node, holding the tensor
    ["a"] and no group. *)
Definition tensor_world : World :=
  mkWorld (mkStorage "/data/ds" LocalProvider true false
                     {[ "dataset_meta.json" := CObj 0 ]} ∅
                     {[ "dataset_meta.json" := VMeta (mkMeta ["a"] []);
                        "a/tensor_meta.json" := VBytes [] ]})
          [mkMeta ["a"] []]
          [mkVS "main" "first" {[ "main" := "first" ]}
                {[ "first" := mkNode "main" "first" None None ]}
                [("a", TensorM.new "a")] (Some 0)]
          (fun _ => mkEngine 0 0 0) Unlocked [] ["home"] 0
          (fun _ => 0).

(** A local dataset with the tensor ["images"] of ten samples and the
    tensor ["labels"] of twelve, and the view [ds[2:5]] of it. *)
Definition sliced_world : World :=
  mkWorld (mkStorage "/data/ds" LocalProvider true false
                     {[ "dataset_meta.json" := CObj 0 ]} ∅
                     {[ "dataset_meta.json" :=
                          VMeta (mkMeta ["images"; "labels"] []) ]})
          [mkMeta ["images"; "labels"] []]
          [mkVS "main" "first" {[ "main" := "first" ]}
                {[ "first" := mkNode "main" "first" None None ]}
                [("images", TensorM.new "images");
                 ("labels", TensorM.new "labels")] (Some 0)]
          (fun x => if String.eqb x "images" then mkEngine 10 1 1
                    else mkEngine 12 1 1)
          Unlocked [] ["home"] 0
          (fun _ => 0).

Definition sliced_view : Dataset.t :=
  Dataset.mk "/data/ds" false
             (Index.getitem Index.new (Index.SSlice 2 (Some 5)))
             "" None (Some true) false (Some 0) (Some "dataset_info.json").

(** ** The version state of an open *)

(** The version control info the storage holds, read through the tiers. *)
Definition stored_version_info (w : World)
  : option (gmap string string * gmap string CommitNode) :=
  match st_cache (storage w) !! keys.get_version_control_info_key with
  | Some (CBytes (VVersionInfo bcm cnm)) => Some (bcm, cnm)
  | Some _ => None
  | None =>
      match st_base (storage w) !! keys.get_version_control_info_key with
      | Some (VVersionInfo bcm cnm) => Some (bcm, cnm)
      | _ => None
      end
  end.

(** The version state of a dataset that has no commit yet. *)
Definition first_version_state : VersionState :=
  mkVS "main" keys.FIRST_COMMIT_ID
       {[ "main" := keys.FIRST_COMMIT_ID ]}
       {[ keys.FIRST_COMMIT_ID :=
            mkNode "main" keys.FIRST_COMMIT_ID None None ]}
       [] None.

(** The version state at the head of [main] that the stored info gives,
    when it gives one. *)
Definition stored_head (w : World) : option VersionState :=
  match stored_version_info w with
  | Some (bcm, cnm) =>
      match bcm !! "main" with
      | Some c =>
          match cnm !! c with
          | Some _ => Some (mkVS "main" c bcm cnm [] None)
          | None => None
          end
      | None => None
      end
  | None => None
  end.

(** ** The constructor *)

(** Another machine holds the lock. *)
Definition held_elsewhere (w : World) : bool :=
  match lock_state w with
  | LockedByOther => true
  | _ => false
  end.

(** The open takes the branch of the constructor that follows a failure to
    lock. *)
Definition lock_fails (args : Dataset.InitArgs) (w : World) : bool :=
  locks_when args w && held_elsewhere w.

(** The automatic flush is as it was. *)
Definition same_autoflush (w w' : World) : Prop :=
  st_autoflush (storage w') = st_autoflush (storage w).

(** Any exception. *)
Definition any_exn (e : exn) : Prop := True.

(** ** What a location holds *)

(** The storage holds the key, in one tier or the other. *)
Definition holds (w : World) (k : string) : bool :=
  bool_decide (is_Some (st_cache (storage w) !! k))
  || bool_decide (is_Some (st_base (storage w) !! k)).

(** The storage holds nothing at all. *)
Definition vacant (w : World) : bool :=
  bool_decide (size (st_cache (storage w)) = 0)
  && bool_decide (size (st_base (storage w)) = 0).

(** The location holds a dataset: the meta of the first commit is there. *)
Definition is_dataset (w : World) : bool :=
  holds w (keys.get_dataset_meta_key keys.FIRST_COMMIT_ID).

(** The rest of [_set_derived_attributes], once the meta is populated. *)
Definition finish_attributes (self : Dataset.t) : M Dataset.t :=
  vs ← get_vs "commit_id" (Dataset.version_state self);
  i ← version_control.load_info (keys.get_dataset_info_key (vs_commit_id vs));
  let self := Dataset.with_info i self in
  n ← Dataset.num_samples self;
  if Index.valid (Dataset.index self) n then mret self else raise ValueError.

(** A location that holds something, but no dataset. *)
Definition foreign_world : World :=
  mkWorld (mkStorage "/data/notes" LocalProvider false false ∅ ∅
                     {[ "notes.txt" := VBytes [1%N] ]})
          [] [] (fun _ => mkEngine 0 0 0) Unlocked [] ["home"] 0
          (fun _ => 0).

(** A read-only open. *)
Definition read_only_args : Dataset.InitArgs :=
  Dataset.mkArgs None "" true (Some true) None true None.

(** ** What a read through the cache changes *)

(** A read may fill the memory tier and decode a meta into a new object;
    everything else is as it was. *)
Definition read_step (w w1 : World) : Prop :=
  vstates w1 = vstates w
  /\ payload w1 = payload w
  /\ cwd w1 = cwd w
  /\ next_id w1 = next_id w
  /\ lock_state w1 = lock_state w
  /\ trace w1 = trace w
  /\ st_base (storage w1) = st_base (storage w)
  /\ st_dirty (storage w1) = st_dirty (storage w)
  /\ st_autoflush (storage w1) = st_autoflush (storage w)
  /\ st_read_only (storage w1) = st_read_only (storage w)
  /\ st_root (storage w1) = st_root (storage w)
  /\ st_base_kind (storage w1) = st_base_kind (storage w)
  /\ heap w `prefix_of` heap w1
  /\ (forall k, holds w1 k = holds w k)
  /\ (forall k m, peek_meta w k = Some m -> peek_meta w1 k = Some m).

(** ** The position of a version state *)

(** Every version state is positioned where it was: on the same branch and
    commit, with the same maps of branches and of commit nodes. *)
Definition same_position (w w' : World) : Prop :=
  forall h vs,
    vstates w !! h = Some vs ->
    exists vs',
      vstates w' !! h = Some vs'
      /\ vs_branch vs' = vs_branch vs
      /\ vs_commit_id vs' = vs_commit_id vs
      /\ vs_branch_commit_map vs' = vs_branch_commit_map vs
      /\ vs_commit_node_map vs' = vs_commit_node_map vs.

(** The call returns or raises: it does not run forever. *)
Definition ends (e : exn) : Prop := e <> Diverged.

(** A stored dataset with the groups ["g"] and ["g/h"], and the view of ["g"]. *)
Definition grouped_world : World :=
  mkWorld (mkStorage "/data/ds" LocalProvider false false
                     {[ "dataset_meta.json" := CObj 0 ]} ∅
                     {[ "dataset_meta.json" :=
                          VMeta (mkMeta ["g/x"; "y"] ["g"; "g/h"]) ]})
          [mkMeta ["g/x"; "y"] ["g"; "g/h"]]
          [mkVS "main" "first" {[ "main" := "first" ]}
                {[ "first" := mkNode "main" "first" None None ]}
                [("g/x", TensorM.new "g/x"); ("y", TensorM.new "y")] (Some 0)]
          (fun x => if String.eqb x "y" then mkEngine 7 1 1
                    else mkEngine 5 1 1)
          Unlocked [] ["home"] 0
          (fun _ => 0).

Definition group_view : Dataset.t :=
  Dataset.mk "/data/ds" false Index.new "g" None (Some true) false
             (Some 0) (Some "dataset_info.json").

(** ** Names stored in a meta *)

(** A name as [create_tensor] and [create_group] store it: no separator at
    either end and no doubled separator. *)
Definition stored_name (x : string) : Prop :=
  pystr.startswith "/" x = false
  /\ pystr.endswith_sep x = false
  /\ pystr.has_dsep x = false.

(** Every meta that the storage held is still held, as it was. *)
Definition meta_kept (w w' : World) : Prop :=
  forall k m, peek_meta w k = Some m -> peek_meta w' k = Some m.

(** The name and the groups above it, as the loop of [_create_group] goes
    through them: the name, its [dirname], the [dirname] of that, up to the
    empty name. *)
Fixpoint ancestors (rounds : nat) (name : string) : list string :=
  match rounds with
  | 0 => []
  | S n =>
      if String.eqb name "" then []
      else name :: ancestors n (posixpath.dirname name)
  end.

(** ** A dataset that is open *)

(** The version state [h] is at the head of its branch: the node of its
    commit is not finalized. *)
Definition at_head (w : World) (h : nat) : Prop :=
  exists vs node,
    vstates w !! h = Some vs
    /\ vs_commit_node_map vs !! vs_commit_id vs = Some node
    /\ cn_commit_time node = None.

(** The view is loaded: its version state [vs] refers to the meta object
    [l] that the cache holds for the current commit, and that object is
    [m]. *)
Definition loaded (self : Dataset.t) (w : World) (h : nat)
           (vs : VersionState) (l : nat) (m : DatasetMeta) : Prop :=
  Dataset.version_state self = Some h
  /\ vstates w !! h = Some vs
  /\ vs_meta vs = Some l
  /\ st_cache (storage w) !! keys.get_dataset_meta_key (vs_commit_id vs)
     = Some (CObj l)
  /\ heap w !! l = Some m.

(** ** The payload of the tensors *)

(** The engines of the tensors hold what they held. *)
Definition same_payload (w w' : World) : Prop := payload w' = payload w.

(** A dataset with a tensor that was created under the name ["./x"]. *)
Definition dotted_world : World :=
  mkWorld (mkStorage "/data/ds" LocalProvider false false
                     {[ "dataset_meta.json" := CObj 0 ]} ∅
                     {[ "dataset_meta.json" := VMeta (mkMeta ["./x"] []) ]})
          [mkMeta ["./x"] []]
          [mkVS "main" "first" {[ "main" := "first" ]}
                {[ "first" := mkNode "main" "first" None None ]}
                [("./x", TensorM.new "./x")] (Some 0)]
          (fun _ => mkEngine 4 1 1)
          Unlocked [] ["home"] 0
          (fun _ => 0).

(** ** Resolving a name *)

(** The version state [vs] once its namespace has been reloaded from the
    meta [m], kept as the object [l]: one full handle for every tensor name
    of the meta. *)
Definition reloaded (vs : VersionState) (l : nat) (m : DatasetMeta)
  : VersionState :=
  mkVS (vs_branch vs) (vs_commit_id vs) (vs_branch_commit_map vs)
       (vs_commit_node_map vs)
       (dict_of_list (map (fun n => (n, TensorM.new n)) (meta_tensors m)))
       (Some l).

(** What [self[name]] does once the name is found to be neither a tensor nor
    a group: the head of the name is resolved, and the tail in it. *)
Definition resolve_through_head (fuel : nat) (self : Dataset.t)
           (name : string) : M Dataset.value :=
  let splt := posixpath.split name in
  r ← Dataset.__getitem__ fuel self (Dataset.IStr (fst splt));
  match r with
  | Dataset.VDataset d => Dataset.__getitem__ fuel d (Dataset.IStr (snd splt))
  | Dataset.VTensor x =>
      x' ← Dataset.tensor_getitem x (Dataset.IStr (snd splt));
      mret (Dataset.VTensor x')
  end.

(** ** The handles of a version state *)

(** The handles of the version state [h] agree with the meta [m] that the
    storage holds for its commit [c]: every handle that is materialized is
    the full handle of its path, and that path is a tensor of the meta. *)
Definition handles_agree (h : nat) (c : string) (m : DatasetMeta)
           (w : World) : Prop :=
  exists vs,
    vstates w !! h = Some vs
    /\ vs_commit_id vs = c
    /\ peek_meta w (keys.get_dataset_meta_key c) = Some m
    /\ forall p x,
         dict_get p (vs_full_tensors vs) = Some x ->
         x = TensorM.new p /\ pystr.mem p (meta_tensors m) = true.

(** ** The order of a set *)

(** The place of [x] in [p]: hashes for which [list(set(...))] comes out in
    the order of [p]. *)
Fixpoint rank (p : list string) (x : string) : nat :=
  match p with
  | [] => 0
  | y :: r => if String.eqb x y then 0 else S (rank r x)
  end.

(** * Properties *)

(** ** Running computations *)

Lemma bind_run {A B} (m : M A) (k : A -> M B) (w : World) :
  (m ≫= k) w =
  match m w with
  | (Ok a, w') => k a w'
  | (Raise e, w') => (Raise e, w')
  end.
Proof. reflexivity. Qed.

Lemma bind_ok {A B} (m : M A) (k : A -> M B) (w w' : World) (a : A) :
  m w = (Ok a, w') -> (m ≫= k) w = k a w'.
Proof. intros H. rewrite bind_run, H. reflexivity. Qed.

Lemma bind_raise {A B} (m : M A) (k : A -> M B) (w w' : World) (e : exn) :
  m w = (Raise e, w') -> (m ≫= k) w = (Raise e, w').
Proof. intros H. rewrite bind_run, H. reflexivity. Qed.

Lemma ret_run {A} (a : A) (w : World) : (mret a : M A) w = (Ok a, w).
Proof. reflexivity. Qed.

Lemma get_vs_ok key h (w : World) i vs :
  h = Some i -> vstates w !! i = Some vs -> get_vs key h w = (Ok vs, w).
Proof. intros -> H. unfold get_vs. simpl. rewrite H. reflexivity. Qed.

Lemma get_vs_world key h (w : World) :
  (get_vs key h w).2 = w.
Proof. unfold get_vs. destruct (h ≫= _); reflexivity. Qed.

(** Unfolding the monad down to functions on worlds. *)
Ltac munfold :=
  unfold mbind, M_bind, mret, M_ret, emit, get_world, modify, raise,
    try_except in *.

(** ** C8: the pickled state *)

(** C8.  [__getstate__] raises [MemoryDatasetCanNotBePickledError] for every
    dataset whose path starts with [mem://]; for every other dataset it
    returns exactly the record of path, read-only flag, index, group path,
    public, storage, token, verbose and version state, and changes
    nothing. *)
Theorem getstate_minimal_record (self : Dataset.t) (w : World) :
  Dataset.__getstate__ self w =
  (if pystr.startswith "mem://" (Dataset.path self)
   then Raise MemoryDatasetCanNotBePickledError
   else Ok [ ("path", Dataset.PStr (Dataset.path self));
             ("_read_only", Dataset.PBool (Dataset._read_only self));
             ("index", Dataset.PIndex (Dataset.index self));
             ("group_index", Dataset.PStr (Dataset.group_index self));
             ("public", Dataset.POptBool (Dataset.public self));
             ("storage", Dataset.PStorage);
             ("_token", Dataset.POptStr (Dataset._token self));
             ("verbose", Dataset.PBool (Dataset.verbose self));
             ("version_state",
              Dataset.PVersionState (Dataset.version_state self)) ],
   w).
Proof.
  unfold Dataset.__getstate__, Dataset.read_only, Dataset.token.
  destruct (pystr.startswith "mem://" (Dataset.path self)); reflexivity.
Qed.

(** ** C9: the size guard of [delete] *)

(** Reading the chunk engines changes nothing, and cannot fail. *)
Lemma mapM_chunk_engine_run (l : list Tensor) (w : World) :
  mapM TensorM.chunk_engine l w =
  (Ok (map (fun x => payload w (t_key x)) l), w).
Proof.
  induction l as [|x l IH]; [reflexivity|].
  cbn [mapM]. rewrite bind_run. unfold TensorM.chunk_engine at 1.
  rewrite bind_run. cbn. rewrite bind_run, IH. reflexivity.
Qed.

Lemma size_approx_world (self : Dataset.t) (w : World) :
  (Dataset.size_approx self w).2 = w.
Proof.
  unfold Dataset.size_approx. rewrite bind_run.
  pose proof (get_vs_world "full_tensors" (Dataset.version_state self) w) as Hw.
  destruct (get_vs _ _ w) as [[vs|e] w1]; cbn in Hw; subst w1; [|reflexivity].
  rewrite bind_run, mapM_chunk_engine_run. reflexivity.
Qed.

(** C9.  When [size_approx()] exceeds the safety threshold, [delete()] with
    [large_ok] left false returns normally and changes nothing but the log:
    the storage (both tiers, dirty keys, flags), the lock and its callback,
    the version states and the payload are what they were, and the only
    event is the information line. *)
Theorem delete_too_large_changes_nothing
        (DELETE_SAFETY_SIZE size : N) (self : Dataset.t) (w : World) :
  (Dataset.size_approx self w).1 = Ok size ->
  (DELETE_SAFETY_SIZE < size)%N ->
  Dataset.delete DELETE_SAFETY_SIZE self false w =
  (Ok tt, set_trace (trace w ++ [ELogInfo (too_large_message self)]) w).
Proof.
  intros Hsize Hlt.
  pose proof (size_approx_world self w) as Hw.
  destruct (Dataset.size_approx self w) as [r w1] eqn:E.
  cbn in Hsize, Hw. subst r w1.
  unfold Dataset.delete. cbn [negb].
  rewrite bind_run, bind_run, E.
  apply N.ltb_lt in Hlt. rewrite Hlt.
  reflexivity.
Qed.

Lemma delete_too_large_changes_nothing_witness :
  Dataset.delete 1073741824 large_view false large_world =
  (Ok tt,
   set_trace (trace large_world
              ++ [ELogInfo (too_large_message large_view)])
             large_world).
Proof.
  apply (delete_too_large_changes_nothing 1073741824 3000000000).
  - reflexivity.
  - reflexivity.
Defined.

(** ** C10: the context manager *)

Lemma flushed_base_dirty h (s : Storage) k e v :
  k ∈ st_dirty s ->
  st_cache s !! k = Some e ->
  LRUCache.snapshot h e = Some v ->
  LRUCache.flushed_base h s !! k = Some v.
Proof.
  intros Hd Hc Hs. unfold LRUCache.flushed_base.
  apply lookup_union_Some_l. rewrite lookup_omap.
  replace (filter (λ kv : string * centry, kv.1 ∈ st_dirty s) (st_cache s) !! k)
    with (Some e); [exact Hs|].
  symmetry. apply map_lookup_filter_Some. split; [exact Hc|exact Hd].
Qed.

Lemma setitem_no_autoflush k e (w : World) :
  st_autoflush (storage w) = false ->
  st_read_only (storage w) = false ->
  LRUCache.setitem k e w =
  (Ok tt,
   set_storage
     (LRUCache.with_tiers (<[k := e]> (st_cache (storage w)))
                          ({[k]} ∪ st_dirty (storage w))
                          (st_base (storage w)) (storage w)) w).
Proof.
  intros Ha Hr. unfold LRUCache.setitem. rewrite bind_run. cbn.
  rewrite Hr. rewrite bind_run. cbn.
  unfold LRUCache.maybe_flush. rewrite bind_run. cbn. rewrite Ha.
  reflexivity.
Qed.

Lemma setitem_read_only k e (w : World) :
  st_read_only (storage w) = true ->
  LRUCache.setitem k e w = (Raise ReadOnlyError, w).
Proof.
  intros Hr. unfold LRUCache.setitem. rewrite bind_run. cbn.
  rewrite Hr. reflexivity.
Qed.

(** What a block of writes leaves behind while autoflush is off: every
    written key is dirty and holds its last value in the memory tier. *)
Lemma write_all_dirty (ws : list (string * sval)) :
  forall (w w2 : World),
    st_autoflush (storage w) = false ->
    write_all ws w = (Ok tt, w2) ->
    heap w2 = heap w /\
    forall k,
      match last_write k ws with
      | Some v => k ∈ st_dirty (storage w2)
                  /\ st_cache (storage w2) !! k = Some (CBytes v)
      | None => st_cache (storage w2) !! k = st_cache (storage w) !! k
                /\ (k ∈ st_dirty (storage w2) <-> k ∈ st_dirty (storage w))
      end.
Proof.
  induction ws as [|[k0 v0] ws IH]; intros w w2 Ha Hrun.
  - cbn in Hrun. injection Hrun as <-. split; [reflexivity|].
    intros k. cbn. split; reflexivity.
  - cbn [write_all] in Hrun. rewrite bind_run in Hrun.
    destruct (st_read_only (storage w)) eqn:Hr.
    + rewrite (setitem_read_only _ _ _ Hr) in Hrun. discriminate.
    + rewrite (setitem_no_autoflush _ _ _ Ha Hr) in Hrun.
      apply IH in Hrun; [|exact Ha].
      destruct Hrun as [Hh Hk]. split; [exact Hh|].
      intros k. specialize (Hk k). cbn [last_write].
      destruct (last_write k ws) as [v|]; [exact Hk|].
      cbn in Hk. destruct Hk as [Hc Hd].
      destruct (String.eqb_spec k k0) as [->|Hne].
      * split; [apply Hd, elem_of_union_l, elem_of_singleton; reflexivity|].
        rewrite Hc. apply lookup_insert_eq.
      * split; [rewrite Hc; apply lookup_insert_ne; congruence|].
        rewrite Hd, elem_of_union, elem_of_singleton. tauto.
Qed.

(** A block of writes that runs to its end leaves the read-only mode of the
    storage as it was, and found the storage writable if it wrote at all. *)
Lemma write_all_writable (ws : list (string * sval)) :
  forall (w w2 : World),
    st_autoflush (storage w) = false ->
    write_all ws w = (Ok tt, w2) ->
    st_read_only (storage w2) = st_read_only (storage w)
    /\ st_autoflush (storage w2) = false
    /\ (ws <> [] -> st_read_only (storage w) = false).
Proof.
  induction ws as [|[k0 v0] ws IH]; intros w w2 Ha Hrun.
  - cbn in Hrun. injection Hrun as <-. repeat split; [exact Ha|congruence].
  - cbn [write_all] in Hrun. rewrite bind_run in Hrun.
    destruct (st_read_only (storage w)) eqn:Hr.
    + rewrite (setitem_read_only _ _ _ Hr) in Hrun. discriminate.
    + rewrite (setitem_no_autoflush _ _ _ Ha Hr) in Hrun.
      apply IH in Hrun; [|exact Ha].
      destruct Hrun as (H1 & H2 & _). cbn in H1.
      split; [congruence|]. split; [exact H2|reflexivity].
Qed.

(** What [__exit__] does, on a writable and on a read-only storage. *)
Lemma exit_run (self : Dataset.t) (w : World) :
  Dataset.__exit__ self w =
  let w1 := set_storage (LRUCache.with_autoflush true (storage w)) w in
  if st_read_only (storage w) then (Raise ReadOnlyError, w1)
  else
    (Ok tt,
     set_storage
       (LRUCache.with_tiers
          (st_cache (storage w)) ∅
          (LRUCache.flushed_base (heap w) (storage w))
          (LRUCache.with_autoflush true (storage w))) w1).
Proof.
  unfold Dataset.__exit__, Dataset.flush, LRUCache.set_autoflush,
    LRUCache.flush.
  munfold. cbn.
  destruct (st_read_only (storage w)); reflexivity.
Qed.

(** C10.  Entering sets [storage.autoflush] to false.  Exiting, from any
    state and whatever the flag was, sets it to true and then flushes.  On a
    writable storage the flush leaves no key dirty, and every key that was
    dirty is in the base tier with what the memory tier held for it; on a
    read-only storage the flush, a mutating call, raises [ReadOnlyError],
    with the flag set and nothing propagated.  A block of writes that runs
    to its end found the storage writable: leaving it returns, and every
    key written in the block holds its last written value in the base
    tier. *)
Theorem with_block_propagates
        (self : Dataset.t) (ws : list (string * sval)) (w w2 : World) :
  write_all ws (Dataset.__enter__ self w).2 = (Ok tt, w2) ->
  Dataset.__enter__ self w =
    (Ok self, set_storage (LRUCache.with_autoflush false (storage w)) w)
  /\ (forall w' : World,
        st_autoflush (storage (Dataset.__exit__ self w').2) = true
        /\ (st_read_only (storage w') = false ->
            (Dataset.__exit__ self w').1 = Ok tt
            /\ st_dirty (storage (Dataset.__exit__ self w').2) = ∅
            /\ forall k e v,
                 k ∈ st_dirty (storage w') ->
                 st_cache (storage w') !! k = Some e ->
                 LRUCache.snapshot (heap w') e = Some v ->
                 st_base (storage (Dataset.__exit__ self w').2) !! k = Some v)
        /\ (st_read_only (storage w') = true ->
            (Dataset.__exit__ self w').1 = Raise ReadOnlyError
            /\ st_dirty (storage (Dataset.__exit__ self w').2)
               = st_dirty (storage w')
            /\ st_base (storage (Dataset.__exit__ self w').2)
               = st_base (storage w')))
  /\ (forall k v,
        last_write k ws = Some v ->
        (Dataset.__exit__ self w2).1 = Ok tt
        /\ st_base (storage (Dataset.__exit__ self w2).2) !! k = Some v).
Proof.
  intros Hrun.
  split; [reflexivity|].
  split.
  { intros w'. rewrite exit_run. cbv zeta.
    destruct (st_read_only (storage w')) eqn:Hr.
    - split; [reflexivity|]. split; [discriminate|].
      intros _. repeat split; reflexivity.
    - split; [reflexivity|]. split; [|discriminate].
      intros _. split; [reflexivity|]. split; [reflexivity|].
      intros k e v Hd Hc Hs. cbn.
      eapply flushed_base_dirty; [exact Hd|exact Hc|exact Hs]. }
  intros k v Hk.
  destruct (write_all_writable ws (Dataset.__enter__ self w).2 w2
              eq_refl Hrun) as (Hro & _ & Hw).
  assert (st_read_only (storage w2) = false) as Hr.
  { rewrite Hro. apply Hw. intros ->. discriminate. }
  apply write_all_dirty in Hrun; [|reflexivity].
  destruct Hrun as [_ Hall]. specialize (Hall k). rewrite Hk in Hall.
  destruct Hall as [Hd Hc].
  rewrite exit_run. cbv zeta. rewrite Hr. split; [reflexivity|]. cbn.
  eapply flushed_base_dirty; [exact Hd|exact Hc|reflexivity].
Qed.

Lemma with_block_propagates_witness :
  exists w2,
    write_all three_writes
              (Dataset.__enter__ empty_local_view empty_local_world).2
    = (Ok tt, w2)
    /\ (Dataset.__exit__ empty_local_view w2).1 = Ok tt
    /\ st_base (storage (Dataset.__exit__ empty_local_view w2).2)
         !! "a/chunks/0" = Some (VBytes [4%N])
    /\ st_autoflush (storage (Dataset.__exit__ empty_local_view w2).2)
       = true.
Proof.
  eexists. split; [reflexivity|].
  pose proof (with_block_propagates empty_local_view three_writes
                empty_local_world _ eq_refl) as (_ & Hexit & Hbase).
  split; [|split].
  - apply (Hbase "a/chunks/0" _ eq_refl).
  - apply (Hbase "a/chunks/0" _ eq_refl).
  - apply Hexit.
Defined.

(** ** Framing: what a computation leaves alone, and what it may raise *)

Section Frame.

Variable R : World -> World -> Prop.
Variable E : exn -> Prop.
Hypothesis R_refl : forall w, R w w.
Hypothesis R_trans : forall a b c, R a b -> R b c -> R a c.

Lemma respects_ret {A} (a : A) : respects R E (mret a).
Proof using R_refl. intros w. split; [apply R_refl|discriminate]. Qed.

Lemma respects_raise {A} (e : exn) : E e -> respects R E (raise e : M A).
Proof using R_refl.
  intros He w. split; [apply R_refl|]. cbn. intros ? [= <-]. exact He.
Qed.

Lemma respects_get_world : respects R E get_world.
Proof using R_refl. intros w. split; [apply R_refl|discriminate]. Qed.

Lemma respects_modify (f : World -> World) :
  (forall w, R w (f w)) -> respects R E (modify f).
Proof. intros Hf w. split; [apply Hf|discriminate]. Qed.

Lemma respects_bind {A B} (m : M A) (k : A -> M B) :
  respects R E m -> (forall a, respects R E (k a)) ->
  respects R E (m ≫= k).
Proof using R_trans.
  intros Hm Hk w. rewrite bind_run.
  destruct (Hm w) as [HR HE]. destruct (m w) as [[a|e] w1]; cbn in *.
  - destruct (Hk a w1) as [HR' HE']. split; [|exact HE'].
    eapply R_trans; eassumption.
  - split; [exact HR|]. intros ? [= <-]. apply HE. reflexivity.
Qed.

Lemma respects_try_except {A} (m h : M A) (catches : exn -> bool) :
  (forall w, R w (m w).2) ->
  (forall w e, (m w).1 = Raise e -> catches e = false -> E e) ->
  respects R E h ->
  respects R E (try_except m catches h).
Proof using R_trans.
  intros Hm He Hh w. unfold try_except.
  specialize (Hm w). specialize (He w).
  destruct (m w) as [[a|e] w1]; cbn in *.
  - split; [exact Hm|discriminate].
  - destruct (catches e) eqn:Hc.
    + destruct (Hh w1) as [HR HE]. split; [|exact HE].
      eapply R_trans; eassumption.
    + split; [exact Hm|]. intros ? [= <-]. apply He; [reflexivity|exact Hc].
Qed.

Lemma respects_mapM {A B} (f : A -> M B) (l : list A) :
  (forall a, respects R E (f a)) -> respects R E (mapM f l).
Proof using R_refl R_trans.
  intros Hf. induction l as [|x l IH]; cbn [mapM].
  - apply respects_ret.
  - apply respects_bind; [apply Hf|]. intros y.
    apply respects_bind; [exact IH|]. intros ys. apply respects_ret.
Qed.

Lemma respects_get_vs key h : E (KeyError key) -> respects R E (get_vs key h).
Proof using R_refl.
  intros He w. unfold get_vs. destruct (h ≫= _); cbn.
  - split; [apply R_refl|discriminate].
  - split; [apply R_refl|]. intros ? [= <-]. exact He.
Qed.

Lemma respects_deref l : respects R E (deref l).
Proof using R_refl. intros w. split; [apply R_refl|discriminate]. Qed.

End Frame.

(** ** The rest of the constructor leaves the lock alone *)

Lemma same_lock_refl w : same_lock w w.
Proof. repeat split; reflexivity. Qed.

Lemma same_lock_trans a b c : same_lock a b -> same_lock b c -> same_lock a c.
Proof.
  intros (H1 & H2 & H3 & H4 & H4') (H5 & H6 & H7 & H8 & H8').
  repeat split; [congruence|congruence|by etrans|congruence|congruence].
Qed.

Abbreviation quiet := (respects same_lock init_error).

Lemma quiet_ret {A} (a : A) : quiet (mret a).
Proof. apply respects_ret, same_lock_refl. Qed.

Lemma quiet_bind {A B} (m : M A) (k : A -> M B) :
  quiet m -> (forall a, quiet (k a)) -> quiet (m ≫= k).
Proof. apply respects_bind, same_lock_trans. Qed.

Lemma quiet_raise {A} (e : exn) : init_error e -> quiet (raise e : M A).
Proof. apply respects_raise, same_lock_refl. Qed.

Lemma quiet_emit (e : Event) :
  is_lock_attempt e = false -> is_auto_checkout e = false -> quiet (emit e).
Proof.
  intros He Ha. apply respects_modify. intros w.
  split; [reflexivity|]. split; [|split; [apply prefix_app_r; reflexivity|]].
  - unfold lock_attempts. cbn. rewrite List.filter_app, length_app. cbn.
    rewrite He. cbn. lia.
  - split; [reflexivity|]. unfold auto_checkouts. cbn.
    rewrite List.filter_app. cbn. rewrite Ha. apply app_nil_r.
Qed.

Ltac init_error_tac := repeat split; discriminate.

Create HintDb quiet.

Ltac quiet_step :=
  first
    [ apply quiet_ret
    | apply respects_get_world, same_lock_refl
    | apply respects_deref, same_lock_refl
    | apply respects_get_vs; [apply same_lock_refl | init_error_tac]
    | apply quiet_raise; init_error_tac
    | apply quiet_emit; [reflexivity|reflexivity]
    | solve [auto with quiet]
    | apply respects_modify; intros ?; repeat split; reflexivity
    | apply quiet_bind; [|intros ?]
    | match goal with
      | |- respects _ _ (if ?b then _ else _) => destruct b
      | |- respects _ _ (match ?x with _ => _ end) => destruct x
      end ].

Ltac quiet_tac := repeat quiet_step.

Lemma quiet_flush : quiet LRUCache.flush.
Proof. unfold LRUCache.flush. quiet_tac. Qed.
#[local] Hint Resolve quiet_flush : quiet.

Lemma quiet_maybe_flush : quiet LRUCache.maybe_flush.
Proof. unfold LRUCache.maybe_flush. quiet_tac. Qed.
#[local] Hint Resolve quiet_maybe_flush : quiet.

Lemma quiet_set_autoflush b : quiet (LRUCache.set_autoflush b).
Proof. unfold LRUCache.set_autoflush. quiet_tac. Qed.
#[local] Hint Resolve quiet_set_autoflush : quiet.

Lemma quiet_getitem key : quiet (LRUCache.getitem key).
Proof. unfold LRUCache.getitem. quiet_tac. Qed.
#[local] Hint Resolve quiet_getitem : quiet.

Lemma quiet_contains key : quiet (LRUCache.contains key).
Proof. unfold LRUCache.contains. quiet_tac. Qed.
#[local] Hint Resolve quiet_contains : quiet.

Lemma quiet_empty : quiet LRUCache.empty.
Proof. unfold LRUCache.empty. quiet_tac. Qed.
#[local] Hint Resolve quiet_empty : quiet.

Lemma quiet_setitem key e : quiet (LRUCache.setitem key e).
Proof. unfold LRUCache.setitem. quiet_tac. Qed.
#[local] Hint Resolve quiet_setitem : quiet.

Lemma quiet_alloc m : quiet (alloc m).
Proof. intros w. split; [repeat split; reflexivity|discriminate]. Qed.
#[local] Hint Resolve quiet_alloc : quiet.

Lemma quiet_alloc_vs vs : quiet (alloc_vs vs).
Proof. intros w. split; [repeat split; reflexivity|discriminate]. Qed.
#[local] Hint Resolve quiet_alloc_vs : quiet.

Lemma quiet_put_vs h vs : quiet (put_vs h vs).
Proof.
  unfold put_vs. apply respects_modify. intros w.
  destruct h; repeat split; reflexivity.
Qed.
#[local] Hint Resolve quiet_put_vs : quiet.

Lemma quiet_get_cachable key : quiet (LRUCache.get_cachable key).
Proof. unfold LRUCache.get_cachable. quiet_tac. Qed.
#[local] Hint Resolve quiet_get_cachable : quiet.

Lemma quiet_load_meta h : quiet (version_control.load_meta h).
Proof. unfold version_control.load_meta. quiet_tac. Qed.
#[local] Hint Resolve quiet_load_meta : quiet.

Lemma quiet_len x : quiet (TensorM.len x).
Proof. unfold TensorM.len, TensorM.chunk_engine. quiet_tac. Qed.
#[local] Hint Resolve quiet_len : quiet.

Lemma quiet_num_samples self : quiet (Dataset.num_samples self).
Proof.
  unfold Dataset.num_samples. quiet_tac.
  apply respects_mapM;
    [apply same_lock_refl|apply same_lock_trans|apply quiet_len].
Qed.
#[local] Hint Resolve quiet_num_samples : quiet.

Lemma quiet_load_version_info self : quiet (Dataset._load_version_info self).
Proof.
  unfold Dataset._load_version_info.
  apply quiet_bind; [|intros vs; quiet_tac].
  apply respects_try_except; [apply same_lock_trans| | |quiet_tac].
  - intros w.
    assert (quiet (item ← LRUCache.getitem keys.get_version_control_info_key;
                   match item with
                   | CBytes (VVersionInfo bcm cnm) =>
                       match bcm !! "main" with
                       | Some commit_id =>
                           match cnm !! commit_id with
                           | Some _ => mret (mkVS "main" commit_id bcm cnm [] None)
                           | None => raise (KeyError commit_id)
                           end
                       | None => raise (KeyError "main")
                       end
                   | _ => raise ValueError
                   end)) as H by quiet_tac.
    apply H.
  - intros w e _ [=].
Qed.
#[local] Hint Resolve quiet_load_version_info : quiet.

Lemma quiet_populate_meta self : quiet (Dataset._populate_meta self).
Proof.
  unfold Dataset._populate_meta, keys.dataset_exists, Dataset.flush,
    Dataset._register_dataset.
  quiet_tac.
Qed.
#[local] Hint Resolve quiet_populate_meta : quiet.

Lemma quiet_set_derived_attributes self :
  quiet (Dataset._set_derived_attributes self).
Proof.
  unfold Dataset._set_derived_attributes, version_control.load_info.
  quiet_tac.
Qed.

(** ** C4: when the constructor locks *)

Lemma init_lock_stage_attempts self w :
  lock_attempts (init_lock_stage self w).2 = S (lock_attempts w).
Proof.
  unfold init_lock_stage, try_except, Lock.lock, lock_attempts,
    Dataset.set_read_only, LRUCache.enable_readonly.
  unfold mbind, M_bind, mret, M_ret, emit, get_world, modify, raise. cbn.
  destruct (lock_state w); cbn;
    rewrite !List.filter_app, !length_app; cbn; lia.
Qed.

Lemma init_unfold args w :
  Dataset.__init__ args w =
  (self ← (if locks_when args w
           then init_lock_stage
                  (Dataset.mk (st_root (storage w)) (Dataset.a_read_only args)
                              [] "" None None false None None)
           else mret (Dataset.mk (st_root (storage w))
                                 (Dataset.a_read_only args)
                                 [] "" None None false None None));
   Dataset._set_derived_attributes
     (Dataset.mk (st_root (storage w)) (Dataset._read_only self)
                 (default Index.new (Dataset.a_index args))
                 (Dataset.a_group_index args) (Dataset.a_token args)
                 (Dataset.a_public args) (Dataset.a_verbose args)
                 (if Dataset.vs_truthy (Dataset.a_version_state args) w
                  then Dataset.a_version_state args else None)
                 None)) w.
Proof. reflexivity. Qed.

Lemma init_lock_attempts args w :
  lock_attempts (Dataset.__init__ args w).2 =
  lock_attempts w + (if locks_when args w then 1 else 0).
Proof.
  rewrite init_unfold, bind_run.
  destruct (locks_when args w).
  - pose proof (init_lock_stage_attempts
                  (Dataset.mk (st_root (storage w)) (Dataset.a_read_only args)
                              [] "" None None false None None) w) as Hs.
    destruct (init_lock_stage _ w) as [[self|e] w1]; cbn in Hs |- *.
    + destruct (quiet_set_derived_attributes
                  (Dataset.mk (st_root (storage w)) (Dataset._read_only self)
                     (default Index.new (Dataset.a_index args))
                     (Dataset.a_group_index args) (Dataset.a_token args)
                     (Dataset.a_public args) (Dataset.a_verbose args)
                     (if Dataset.vs_truthy (Dataset.a_version_state args) w
                      then Dataset.a_version_state args else None)
                     None) w1) as [(_ & Hq & _) _].
      rewrite Hq, Hs. lia.
    + rewrite Hs. lia.
  - rewrite ret_run.
    match goal with
    | |- lock_attempts (Dataset._set_derived_attributes ?s w).2 = _ =>
        destruct (quiet_set_derived_attributes s w) as [(_ & Hq & _) _]
    end.
    rewrite Hq. lia.
Qed.

(** C4, as the code has it.  The constructor makes one attempt to take the
    lock when the open is for writing, no index was passed ([index is None])
    and the base storage is S3, and none otherwise.  So a read-only open
    never attempts it, and neither does an open with an index object,
    whether that index is trivial or not. *)
Theorem init_locks_iff_write_without_index_on_S3
        (args : Dataset.InitArgs) (w : World) :
  (lock_attempted args w <->
   (Dataset.a_read_only args = false
    /\ Dataset.a_index args = None
    /\ st_base_kind (storage w) = S3Provider))
  /\ (~ lock_attempted args w ->
      lock_attempts (Dataset.__init__ args w).2 = lock_attempts w)
  /\ (Dataset.a_read_only args = true -> ~ lock_attempted args w)
  /\ (forall i, Dataset.a_index args = Some i -> ~ lock_attempted args w).
Proof.
  unfold lock_attempted.
  pose proof (init_lock_attempts args w) as H.
  unfold locks_when in H.
  destruct args as [i g ro pu tk vb vs]; cbn in *.
  destruct ro, i as [i|], (st_base_kind (storage w)); cbn in H;
    (split; [split; [intros; try lia; auto | intros (? & ? & ?); try discriminate; lia]
            |split; [intros; lia | split; [intros; try discriminate; lia
                                          |intros ? ?; try discriminate; lia]]]).
Qed.

(** C4 as stated fails: the whole dataset on S3, opened for writing with the
    trivial index passed as an object, does not attempt the lock. *)
Lemma explicit_trivial_index_does_not_lock :
  ~ locks_iff_whole_dataset_write explicit_trivial_args s3_new_world.
Proof.
  unfold locks_iff_whole_dataset_write, lock_attempted.
  intros [_ H].
  assert (lock_attempts (Dataset.__init__ explicit_trivial_args s3_new_world).2
          = S (lock_attempts s3_new_world)) as Hs.
  { apply H. repeat split. }
  rewrite init_lock_attempts in Hs. cbn in Hs. discriminate.
Qed.

(** ** C5: an open that cannot take the lock *)

Lemma bind_inv_ok {A B} (m : M A) (k : A -> M B) (w w' : World) (b : B) :
  (m ≫= k) w = (Ok b, w') ->
  exists a w1, m w = (Ok a, w1) /\ k a w1 = (Ok b, w').
Proof.
  rewrite bind_run. destruct (m w) as [[a|e] w1]; [|discriminate].
  intros H. exists a, w1. split; [reflexivity|exact H].
Qed.

Lemma load_version_info_fields self w s' w' :
  Dataset._load_version_info self w = (Ok s', w') ->
  exists h, s' = Dataset.with_version_state (Some h) self.
Proof.
  unfold Dataset._load_version_info. intros H.
  apply bind_inv_ok in H as (vs & w1 & _ & H).
  apply bind_inv_ok in H as (h & w2 & _ & H).
  exists h. rewrite ret_run in H. congruence.
Qed.

(** What the constructor's second half leaves of the attributes set by the
    first. *)
Lemma set_derived_attributes_fields self w ds w' :
  Dataset._set_derived_attributes self w = (Ok ds, w') ->
  Dataset.path ds = Dataset.path self
  /\ Dataset._read_only ds = Dataset._read_only self
  /\ Dataset.index ds = Dataset.index self
  /\ Dataset.group_index ds = Dataset.group_index self
  /\ Dataset._token ds = Dataset._token self
  /\ Dataset.public ds = Dataset.public self
  /\ Dataset.verbose ds = Dataset.verbose self
  /\ (Dataset.vs_truthy (Dataset.version_state self) w = true ->
      Dataset.version_state ds = Dataset.version_state self).
Proof.
  unfold Dataset._set_derived_attributes. intros H.
  apply bind_inv_ok in H as (? & w1 & H1 & H).
  apply bind_inv_ok in H as (w1' & w1'' & Hg & H).
  injection Hg as <- <-.
  apply bind_inv_ok in H as (self' & w2 & Hv & H).
  apply bind_inv_ok in H as (? & w3 & _ & H).
  apply bind_inv_ok in H as (vs & w4 & _ & H).
  apply bind_inv_ok in H as (i & w5 & _ & H).
  apply bind_inv_ok in H as (n & w6 & _ & H).
  destruct (Index.valid _ n); [|discriminate].
  rewrite ret_run in H. injection H as <- <-.
  assert (vstates w1 = vstates w) as Hvs.
  { destruct (_ && _) in H1; injection H1 as _ <-; reflexivity. }
  assert (Dataset.vs_truthy (Dataset.version_state self) w1
          = Dataset.vs_truthy (Dataset.version_state self) w) as Ht.
  { unfold Dataset.vs_truthy. rewrite Hvs. reflexivity. }
  rewrite Ht in Hv.
  destruct (Dataset.vs_truthy (Dataset.version_state self) w); cbn in Hv.
  - injection Hv as <- <-. cbn. repeat split; reflexivity.
  - apply load_version_info_fields in Hv as [h ->]. cbn.
    repeat split; try reflexivity. discriminate.
Qed.

Lemma init_lock_stage_locked self w :
  lock_state w = LockedByOther ->
  init_lock_stage self w =
  (Ok (Dataset.with__read_only true self), downgraded w).
Proof.
  intros Hl. unfold init_lock_stage, Lock.lock, Dataset.set_read_only,
    LRUCache.enable_readonly.
  munfold. cbn. rewrite Hl. cbn.
  unfold downgraded, set_trace, set_storage. cbn.
  rewrite <- app_assoc. reflexivity.
Qed.

Lemma init_lock_failure_unfold args w :
  locks_when args w = true ->
  lock_state w = LockedByOther ->
  Dataset.__init__ args w =
  Dataset._set_derived_attributes (downgraded_self args w) (downgraded w).
Proof.
  intros Hc Hl. rewrite init_unfold, bind_run, Hc.
  rewrite (init_lock_stage_locked _ _ Hl). cbn [Dataset.with__read_only].
  unfold downgraded_self. unfold locks_when in Hc.
  destruct (Dataset.a_index args); [|reflexivity].
  rewrite andb_false_r in Hc. discriminate.
Qed.

(** C5, as the code has it.  When the lock is held by another machine, the
    constructor catches [LockedException]: it makes the dataset and the
    storage read-only, warns, and goes on with the rest of the construction
    in that state.  The exception never leaves the constructor, and whenever
    the rest of the construction succeeds the dataset is read-only.  (The
    rest can still fail with an initialization error.) *)
Theorem lock_failure_downgrades (args : Dataset.InitArgs) (w : World) :
  locks_when args w = true ->
  lock_state w = LockedByOther ->
  Dataset.__init__ args w =
    Dataset._set_derived_attributes (downgraded_self args w) (downgraded w)
  /\ (Dataset.__init__ args w).1 <> Raise LockedException
  /\ (forall ds, (Dataset.__init__ args w).1 = Ok ds ->
                 Dataset.read_only ds = true)
  /\ st_read_only (storage (Dataset.__init__ args w).2) = true
  /\ EWarn lock_failure_warning ∈ trace (Dataset.__init__ args w).2.
Proof.
  intros Hc Hl.
  pose proof (init_lock_failure_unfold args w Hc Hl) as Hu.
  split; [exact Hu|]. rewrite Hu.
  destruct (quiet_set_derived_attributes (downgraded_self args w)
              (downgraded w)) as [(_ & _ & Hp & Hr & _) He].
  split; [|split; [|split]].
  - intros Hx. apply He in Hx. destruct Hx as [Hx _]. apply Hx. reflexivity.
  - intros ds Hds.
    destruct (Dataset._set_derived_attributes _ _) as [r w'] eqn:E.
    cbn in Hds. subst r.
    apply set_derived_attributes_fields in E as (_ & Hro & _).
    exact Hro.
  - rewrite Hr. reflexivity.
  - destruct Hp as [l ->]. unfold downgraded. cbn.
    rewrite !elem_of_app. left. right.
    apply list_elem_of_In. cbn. tauto.
Qed.

Lemma lock_failure_downgrades_witness :
  locks_when open_args s3_locked_world = true
  /\ lock_state s3_locked_world = LockedByOther
  /\ (exists ds, (Dataset.__init__ open_args s3_locked_world).1 = Ok ds
                 /\ Dataset.read_only ds = true)
  /\ EWarn lock_failure_warning
       ∈ trace (Dataset.__init__ open_args s3_locked_world).2.
Proof.
  pose proof (lock_failure_downgrades open_args s3_locked_world
                eq_refl eq_refl) as (_ & _ & Hro & _ & Hw).
  split; [reflexivity|]. split; [reflexivity|]. split; [|exact Hw].
  eexists. split; [vm_compute; reflexivity|].
  apply Hro. vm_compute. reflexivity.
Defined.

(** C5 as stated fails: on a locked location that holds no dataset, the
    constructor, having made itself read-only, refuses to create one. *)
Lemma lock_failure_on_new_location_raises :
  ~ lock_failure_completes open_args s3_locked_new_world.
Proof.
  intros H. destruct (H eq_refl eq_refl) as (ds & w' & Hinit & _).
  vm_compute in Hinit. discriminate.
Qed.

(** ** C3: the callback handed to the lock *)

(** The callable the constructor registers is [lambda: self._lock_lost_handler]:
    calling it evaluates to the bound method and has no effect. *)
Lemma call_registered_callback (self : Dataset.t) (w : World) :
  Dataset.call (Lambda Bound_lock_lost_handler) self w =
  (Ok (self, Dataset.PCallable Bound_lock_lost_handler), w).
Proof. reflexivity. Qed.

Lemma lock_lost_handler_run (self : Dataset.t) (w : World) :
  Dataset._lock_lost_handler self w =
  (Ok (Dataset.with__read_only true self),
   set_trace (trace w ++ [EWarn lock_lost_warning])
             (set_storage (LRUCache.with_read_only true (storage w)) w)).
Proof. reflexivity. Qed.

Lemma init_lock_stage_unlocked self w :
  lock_state w = Unlocked ->
  init_lock_stage self w =
  (Ok self,
   set_lock_state (LockedByUs (Lambda Bound_lock_lost_handler))
                  (set_trace (trace w ++ [ELockAttempt]) w)).
Proof.
  intros Hl. unfold init_lock_stage, Lock.lock. munfold. cbn.
  rewrite Hl. reflexivity.
Qed.

Lemma init_registers_lambda args w :
  locks_when args w = true ->
  lock_state w = Unlocked ->
  lock_state (Dataset.__init__ args w).2
  = LockedByUs (Lambda Bound_lock_lost_handler).
Proof.
  intros Hc Hl. rewrite init_unfold, bind_run, Hc.
  rewrite (init_lock_stage_unlocked _ _ Hl).
  match goal with
  | |- lock_state (Dataset._set_derived_attributes ?s ?w1).2 = _ =>
      destruct (quiet_set_derived_attributes s w1) as [(Hq & _) _]
  end.
  rewrite Hq. reflexivity.
Qed.

(** C3, as the code has it.  A constructor that takes the lock leaves it
    held with the callback [lambda: self._lock_lost_handler].  When the
    monitor reports the loss and invokes that callback, nothing happens: the
    dataset is returned as it was, still writable if it was, and the world
    changes in the state of the lock only, with no warning.  Calling
    [_lock_lost_handler] itself makes the dataset and the storage read-only
    and warns. *)
Theorem lock_loss_callback_has_no_effect
        (args : Dataset.InitArgs) (w : World) :
  locks_when args w = true ->
  lock_state w = Unlocked ->
  let w1 := (Dataset.__init__ args w).2 in
  lock_state w1 = LockedByUs (Lambda Bound_lock_lost_handler)
  /\ (forall ds,
        Dataset.monitor_lock_lost ds w1
        = (Ok ds, set_lock_state LockedByOther w1))
  /\ (forall ds,
        Dataset._lock_lost_handler ds w1
        = (Ok (Dataset.with__read_only true ds),
           set_trace (trace w1 ++ [EWarn lock_lost_warning])
                     (set_storage
                        (LRUCache.with_read_only true (storage w1)) w1))).
Proof.
  intros Hc Hl w1.
  pose proof (init_registers_lambda args w Hc Hl) as Hreg. fold w1 in Hreg.
  split; [exact Hreg|]. split.
  - intros ds. unfold Dataset.monitor_lock_lost.
    rewrite bind_run. cbn [get_world]. rewrite Hreg. reflexivity.
  - intros ds. apply lock_lost_handler_run.
Qed.

Lemma lock_loss_callback_has_no_effect_witness :
  exists ds w1,
    Dataset.__init__ open_args s3_new_world = (Ok ds, w1)
    /\ Dataset.read_only ds = false
    /\ Dataset.monitor_lock_lost ds w1
       = (Ok ds, set_lock_state LockedByOther w1)
    /\ warnings (Dataset.monitor_lock_lost ds w1).2 = [].
Proof.
  pose proof (lock_loss_callback_has_no_effect open_args s3_new_world
                eq_refl eq_refl) as (_ & Hmon & _).
  destruct (Dataset.__init__ open_args s3_new_world) as [r w1] eqn:E.
  vm_compute in E. injection E as <- <-.
  eexists _, _. split; [reflexivity|]. split; [reflexivity|].
  split; [apply Hmon|]. rewrite Hmon. reflexivity.
Defined.

(** ** Resolving a name: the attributes of the view *)

Lemma get_vs_inv key h w vs w' :
  get_vs key h w = (Ok vs, w') ->
  w' = w /\ Dataset.vs_truthy h w = true.
Proof.
  unfold get_vs, Dataset.vs_truthy.
  destruct (h ≫= _) as [vs'|]; [|discriminate].
  intros [= _ <-]. split; [reflexivity|].
  apply bool_decide_eq_true. eexists. reflexivity.
Qed.

Lemma meta_inv self w l w' :
  Dataset.meta self w = (Ok l, w') ->
  w' = w /\ Dataset.vs_truthy (Dataset.version_state self) w = true.
Proof.
  unfold Dataset.meta. intros H.
  apply bind_inv_ok in H as (vs & w1 & Hg & H).
  apply get_vs_inv in Hg as [-> Ht].
  destruct (vs_meta vs); [|discriminate].
  rewrite ret_run in H. injection H as _ <-. split; [reflexivity|exact Ht].
Qed.

Lemma has_group_in_root_truthy self p w b w' :
  Dataset._has_group_in_root self p w = (Ok b, w') ->
  Dataset.vs_truthy (Dataset.version_state self) w' = true.
Proof.
  unfold Dataset._has_group_in_root. intros H.
  apply bind_inv_ok in H as (l & w1 & Hm & H).
  apply meta_inv in Hm as [-> Ht].
  apply bind_inv_ok in H as (m & w1 & Hd & H).
  injection Hd as <- <-.
  destruct (pystr.mem p (meta_groups _)).
  - rewrite ret_run in H. injection H as _ <-. exact Ht.
  - apply bind_inv_ok in H as (? & w2 & _ & H).
    apply bind_inv_ok in H as (l' & w3 & Hm & H).
    apply meta_inv in Hm as [-> Ht'].
    apply bind_inv_ok in H as (m' & w3 & Hd & H).
    injection Hd as <- <-.
    rewrite ret_run in H. injection H as _ <-. exact Ht'.
Qed.

(** A view built with an index object and a filled version state has
    exactly the attributes it was given. *)
Lemma init_view_fields args w d w' i :
  Dataset.a_index args = Some i ->
  Dataset.vs_truthy (Dataset.a_version_state args) w = true ->
  Dataset.__init__ args w = (Ok d, w') ->
  d = Dataset.mk (st_root (storage w)) (Dataset.a_read_only args) i
                 (Dataset.a_group_index args) (Dataset.a_token args)
                 (Dataset.a_public args) (Dataset.a_verbose args)
                 (Dataset.a_version_state args) (Dataset.info d).
Proof.
  intros Hi Ht H. rewrite init_unfold, bind_run in H.
  unfold locks_when in H. rewrite Hi, Ht in H. cbn [is_none] in H.
  rewrite andb_false_r in H. cbn [andb] in H. rewrite ret_run in H.
  cbn [Dataset._read_only default] in H.
  apply set_derived_attributes_fields in H
    as (H1 & H2 & H3 & H4 & H5 & H6 & H7 & H8).
  cbn in *. specialize (H8 Ht).
  destruct d; cbn in *. congruence.
Qed.

Lemma getitem_str_unfold fuel self name w :
  Dataset.__getitem__ (S fuel) self (Dataset.IStr name) w =
  (let fullpath := posixpath.join (Dataset.group_index self) name in
   tensor ← Dataset._get_tensor_from_root self fullpath;
   match tensor with
   | Some x => mret (Dataset.VTensor (TensorM.getitem x (Dataset.index self)))
   | None =>
       g ← Dataset._has_group_in_root self fullpath;
       if (g : bool) then
         d ← Dataset.__init__ (group_view_args self fullpath);
         mret (Dataset.VDataset d)
       else if pystr.has_sep name then
         let splt := posixpath.split name in
         r ← Dataset.__getitem__ fuel self (Dataset.IStr (fst splt));
         match r with
         | Dataset.VDataset d =>
             Dataset.__getitem__ fuel d (Dataset.IStr (snd splt))
         | Dataset.VTensor x =>
             x' ← Dataset.tensor_getitem x (Dataset.IStr (snd splt));
             mret (Dataset.VTensor x')
         end
       else raise (TensorDoesNotExistError name)
   end) w.
Proof. reflexivity. Qed.

(** ** Paths: splitting and joining *)

Lemma cat_assoc a b c : pystr.cat (pystr.cat a b) c = pystr.cat a (pystr.cat b c).
Proof.
  induction a as [|x a IH]; simpl; [reflexivity|].
  rewrite IH. reflexivity.
Qed.

Lemma split_nonempty s : pystr.split s <> [].
Proof.
  destruct s as [|c s]; cbn; [discriminate|].
  destruct (pystr.is_sep c); [discriminate|].
  destruct (pystr.split s); discriminate.
Qed.

Lemma split_cons_sep s : pystr.split (String pystr.sep s) = "" :: pystr.split s.
Proof. reflexivity. Qed.

(** Splitting a path made of two parts around a separator. *)
Lemma split_app_sep a b :
  pystr.split (pystr.cat a (String pystr.sep b)) = pystr.split a ++ pystr.split b.
Proof.
  induction a as [|c a IH]; [reflexivity|].
  cbn [pystr.cat pystr.split]. rewrite IH.
  destruct (pystr.is_sep c); [reflexivity|].
  pose proof (split_nonempty a).
  destruct (pystr.split a); [contradiction|reflexivity].
Qed.

Lemma unsplit_cons x l :
  l <> [] -> unsplit (x :: l) = pystr.cat x (String pystr.sep (unsplit l)).
Proof. destruct l; [contradiction|reflexivity]. Qed.

Lemma unsplit_split s : unsplit (pystr.split s) = s.
Proof.
  induction s as [|c s IH]; [reflexivity|].
  cbn [pystr.split]. destruct (pystr.is_sep c) eqn:Hc.
  - rewrite unsplit_cons by apply split_nonempty. rewrite IH. cbn.
    unfold pystr.is_sep in Hc. apply Ascii.eqb_eq in Hc. subst c. reflexivity.
  - pose proof (split_nonempty s) as Hne.
    destruct (pystr.split s) as [|x r]; [contradiction|].
    destruct r as [|y r]; cbn in IH |- *; rewrite <- IH; reflexivity.
Qed.

Lemma split_no_sep s : Forall (fun c => pystr.has_sep c = false) (pystr.split s).
Proof.
  induction s as [|c s IH]; cbn [pystr.split].
  - repeat constructor.
  - destruct (pystr.is_sep c) eqn:Hc.
    + constructor; [reflexivity|exact IH].
    + pose proof (split_nonempty s) as Hne.
      destruct (pystr.split s) as [|x r]; [contradiction|].
      inversion IH; subst. constructor; [|assumption].
      cbn. rewrite Hc. assumption.
Qed.

Lemma startswith_cat p s :
  pystr.startswith p s = true -> exists r, s = pystr.cat p r.
Proof.
  revert s. induction p as [|a p IH]; intros s H.
  - exists s. reflexivity.
  - destruct s as [|b s]; [discriminate|]. cbn in H.
    apply andb_true_iff in H as [Hab H].
    apply Ascii.eqb_eq in Hab. subst b.
    apply IH in H as [r ->]. exists r. reflexivity.
Qed.

Lemma startswith_sep_split s :
  pystr.startswith "/" s = true -> exists l, pystr.split s = "" :: l.
Proof.
  destruct s as [|c s]; [discriminate|]. cbn [pystr.startswith].
  intros H. apply andb_true_iff in H as [Hc _].
  apply Ascii.eqb_eq in Hc. subst c.
  eexists. reflexivity.
Qed.

Lemma endswith_sep_split s :
  pystr.endswith_sep s = true -> exists l, pystr.split s = l ++ [""].
Proof.
  induction s as [|c s IH]; [discriminate|].
  destruct s as [|d s].
  - cbn [pystr.endswith_sep]. intros Hc.
    cbn [pystr.split]. rewrite Hc. exists [""]. reflexivity.
  - intros H. change (pystr.endswith_sep (String d s) = true) in H.
    apply IH in H as [l Hl].
    change (pystr.split (String c (String d s)))
      with (if pystr.is_sep c then "" :: pystr.split (String d s)
            else match pystr.split (String d s) with
                 | x :: r => String c x :: r
                 | [] => [String c ""]
                 end).
    rewrite Hl. destruct (pystr.is_sep c).
    + exists ("" :: l). reflexivity.
    + destruct l as [|x l].
      * pose proof (unsplit_split (String d s)) as Hu.
        rewrite Hl in Hu. discriminate.
      * exists (String c x :: l). reflexivity.
Qed.

Lemma clean_nonempty c : clean c = true -> c <> "".
Proof. intros H ->. discriminate. Qed.

Lemma clean_path_not_absolute p :
  clean_path p = true -> pystr.startswith "/" p = false.
Proof.
  intros H. destruct (pystr.startswith "/" p) eqn:E; [|reflexivity].
  apply startswith_sep_split in E as [l Hl].
  unfold clean_path in H. rewrite Hl in H. discriminate.
Qed.

Lemma clean_path_no_trailing_sep p :
  clean_path p = true -> pystr.endswith_sep p = false.
Proof.
  intros H. destruct (pystr.endswith_sep p) eqn:E; [|reflexivity].
  apply endswith_sep_split in E as [l Hl].
  unfold clean_path in H. rewrite Hl, forallb_app in H.
  apply andb_true_iff in H as [_ H]. discriminate.
Qed.

Lemma clean_path_nonempty p : clean_path p = true -> String.eqb p "" = false.
Proof. destruct p; [discriminate|reflexivity]. Qed.

Lemma norm_parts_clean stack comps :
  forallb clean comps = true ->
  posixpath.norm_parts stack comps = stack ++ comps.
Proof.
  revert stack. induction comps as [|c r IH]; intros stack H.
  - cbn. rewrite app_nil_r. reflexivity.
  - cbn [forallb] in H. apply andb_true_iff in H as [Hc Hr].
    unfold clean in Hc.
    apply andb_true_iff in Hc as [Hc H3]. apply andb_true_iff in Hc as [H1 H2].
    apply negb_true_iff in H1, H2, H3.
    cbn [posixpath.norm_parts]. rewrite H1, H2, H3. cbn [orb].
    rewrite IH by exact Hr. rewrite <- app_assoc. reflexivity.
Qed.

Lemma common_len_app a b : posixpath.common_len a (a ++ b) = List.length a.
Proof.
  induction a as [|x a IH]; [destruct b; reflexivity|].
  cbn. rewrite String.eqb_refl, IH. reflexivity.
Qed.

Lemma endswith_sep_cat a c b :
  pystr.endswith_sep (pystr.cat a (String c b)) = pystr.endswith_sep (String c b).
Proof.
  induction a as [|x a IH]; [reflexivity|].
  cbn [pystr.cat]. destruct a; exact IH.
Qed.

Lemma no_sep_no_trailing c : pystr.has_sep c = false -> pystr.endswith_sep c = false.
Proof.
  induction c as [|x c IH]; [reflexivity|].
  cbn [pystr.has_sep]. intros H. apply orb_false_iff in H as [Hx Hc].
  cbn [pystr.endswith_sep]. destruct c; [exact Hx|apply IH, Hc].
Qed.

Lemma no_sep_not_absolute c : pystr.has_sep c = false -> pystr.startswith "/" c = false.
Proof.
  destruct c as [|x c]; [reflexivity|]. cbn [pystr.has_sep pystr.startswith].
  intros H. apply orb_false_iff in H as [Hx _].
  unfold pystr.is_sep, pystr.sep in Hx. rewrite Ascii.eqb_sym, Hx. reflexivity.
Qed.

Lemma join_relative a b :
  String.eqb a "" = false ->
  pystr.endswith_sep a = false ->
  pystr.startswith "/" b = false ->
  posixpath.join a b = pystr.cat a (String pystr.sep b).
Proof.
  intros Ha He Hb. unfold posixpath.join. rewrite Hb, Ha, He. reflexivity.
Qed.

Lemma fold_join acc rest :
  String.eqb acc "" = false ->
  pystr.endswith_sep acc = false ->
  Forall component rest ->
  fold_left posixpath.join rest acc = unsplit (acc :: rest).
Proof.
  revert acc. induction rest as [|c r IH]; intros acc Ha He Hr; [reflexivity|].
  apply Forall_cons in Hr as [[Hc1 Hc2] Hr'].
  cbn [fold_left].
  rewrite (join_relative acc c Ha He (no_sep_not_absolute c Hc2)).
  rewrite IH; [| |  |exact Hr'].
  - destruct r as [|y r]; [reflexivity|].
    change (unsplit (pystr.cat acc (String pystr.sep c) :: y :: r))
      with (pystr.cat (pystr.cat acc (String pystr.sep c))
                      (String pystr.sep (unsplit (y :: r)))).
    rewrite cat_assoc. reflexivity.
  - destruct acc; [discriminate|reflexivity].
  - rewrite endswith_sep_cat. destruct c as [|x c]; [discriminate|].
    cbn [pystr.endswith_sep].
    change (pystr.endswith_sep (String x c) = false).
    apply no_sep_no_trailing, Hc2.
Qed.

Lemma clean_components p :
  clean_path p = true -> Forall component (pystr.split p).
Proof.
  unfold clean_path. intros H.
  pose proof (split_no_sep p) as Hs.
  induction (pystr.split p) as [|c l IH]; [constructor|].
  cbn [forallb] in H. apply andb_true_iff in H as [Hc Hl].
  inversion Hs; subst. constructor; [|apply IH; assumption].
  split; [|assumption].
  unfold clean in Hc. apply andb_true_iff in Hc as [Hc _].
  apply andb_true_iff in Hc as [Hc _]. apply negb_true_iff in Hc. exact Hc.
Qed.

Lemma join_all_split p : clean_path p = true -> posixpath.join_all (pystr.split p) = p.
Proof.
  intros H. pose proof (clean_components p H) as Hc.
  pose proof (unsplit_split p) as Hu.
  destruct (pystr.split p) as [|x r]; [destruct p; discriminate|].
  apply Forall_cons in Hc as [[Hx1 Hx2] Hr].
  cbn [posixpath.join_all].
  rewrite fold_join; [exact Hu|exact Hx1| |exact Hr].
  apply no_sep_no_trailing, Hx2.
Qed.

Lemma abspath_parts_clean cwd p :
  clean_path p = true -> posixpath.abspath_parts cwd p = cwd ++ pystr.split p.
Proof.
  intros H. unfold posixpath.abspath_parts.
  rewrite (clean_path_not_absolute p H). apply norm_parts_clean, H.
Qed.

(** Inside a group, the relative name of a tensor leads back to the tensor. *)
Lemma relpath_join cwd g t :
  clean_path t = true ->
  g = "" \/ (clean_path g = true /\ pystr.startswith (pystr.cat g "/") t = true) ->
  exists r, posixpath.relpath cwd t g = Some r /\ posixpath.join g r = t.
Proof.
  intros Ht Hg. unfold posixpath.relpath.
  rewrite (clean_path_nonempty t Ht), (abspath_parts_clean cwd t Ht).
  destruct Hg as [->|[Hg Hs]].
  - exists t. cbn [posixpath.abspath_parts pystr.startswith pystr.split
                   posixpath.norm_parts String.eqb orb].
    rewrite common_len_app, Nat.sub_diag, drop_app_length. cbn [repeat app].
    pose proof (split_nonempty t) as Hne.
    destruct (pystr.split t) eqn:E; [contradiction|]. rewrite <- E.
    rewrite (join_all_split t Ht). split; [reflexivity|].
    unfold posixpath.join. rewrite (clean_path_not_absolute t Ht). reflexivity.
  - apply startswith_cat in Hs as [r ->].
    rewrite cat_assoc in Ht |- *. cbn [pystr.cat] in Ht |- *.
    change (String "/" r) with (String pystr.sep r) in *.
    assert (clean_path r = true) as Hr.
    { unfold clean_path in Ht |- *. rewrite split_app_sep, forallb_app in Ht.
      apply andb_true_iff in Ht as [_ Ht]. exact Ht. }
    exists r. rewrite (abspath_parts_clean cwd g Hg), split_app_sep.
    rewrite app_assoc, common_len_app, Nat.sub_diag, drop_app_length.
    cbn [repeat app].
    pose proof (split_nonempty r) as Hne.
    destruct (pystr.split r) eqn:E; [contradiction|]. rewrite <- E.
    rewrite (join_all_split r Hr). split; [reflexivity|].
    apply join_relative.
    + apply clean_path_nonempty, Hg.
    + apply clean_path_no_trailing_sep, Hg.
    + apply clean_path_not_absolute, Hr.
Qed.

(** ** Resolution of a name ends *)

Lemma count_sep_zero s : pystr.has_sep s = false <-> count_sep s = 0.
Proof.
  induction s as [|c s IH]; cbn; [tauto|].
  destruct (pystr.is_sep c); cbn; [split; [discriminate|lia]|exact IH].
Qed.

Lemma endswith_sep_count s : pystr.endswith_sep s = true -> 0 < count_sep s.
Proof.
  induction s as [|c s IH]; [discriminate|].
  cbn [pystr.endswith_sep count_sep]. destruct s as [|d s].
  - intros ->. cbn. lia.
  - intros H. apply IH in H. lia.
Qed.

Lemma cut_last_spec p h t :
  posixpath.cut_last p = (h, t) ->
  pystr.has_sep t = false
  /\ count_sep h = count_sep p
  /\ (pystr.has_sep p = true ->
      pystr.endswith_sep h = true
      /\ forall c p', p = String c p' -> exists h', h = String c h').
Proof.
  revert h t. induction p as [|c p IH]; intros h t H.
  - injection H as <- <-.
    split; [reflexivity|]. split; [reflexivity|]. intros [=].
  - cbn [posixpath.cut_last] in H.
    destruct (posixpath.cut_last p) as [h' t'].
    destruct (IH h' t' eq_refl) as (Ht & Hc & Hs).
    destruct (pystr.has_sep p) eqn:Hp.
    + injection H as <- <-. destruct (Hs eq_refl) as [He _].
      split; [exact Ht|]. split; [cbn; rewrite Hc; reflexivity|].
      intros _. split.
      * cbn [pystr.endswith_sep]. destruct h'; [discriminate|exact He].
      * intros c0 p0 [= -> ->]. eexists. reflexivity.
    + destruct (pystr.is_sep c) eqn:Hcs.
      * injection H as <- <-. split; [exact Hp|].
        apply count_sep_zero in Hp. cbn. rewrite Hcs, Hp.
        split; [reflexivity|]. intros _. split; [reflexivity|].
        intros c0 p0 [= -> ->]. eexists. reflexivity.
      * injection H as <- <-. cbn [pystr.has_sep]. rewrite Hcs, Hp.
        split; [reflexivity|]. split; [|discriminate].
        apply count_sep_zero in Hp. cbn. rewrite Hcs, Hp. reflexivity.
Qed.

Lemma rstrip_count s :
  count_sep (pystr.rstrip s) <= count_sep s
  /\ (pystr.endswith_sep s = true -> count_sep (pystr.rstrip s) < count_sep s).
Proof.
  induction s as [|c s [IH1 IH2]]; [split; [reflexivity|discriminate]|].
  destruct s as [|d s].
  - clear IH1 IH2. cbn. destruct (pystr.is_sep c) eqn:Hc; cbn; rewrite ?Hc.
    + split; [lia|intros _; lia].
    + split; [lia|discriminate].
  - change (pystr.endswith_sep (String c (String d s)))
      with (pystr.endswith_sep (String d s)).
    change (pystr.rstrip (String c (String d s)))
      with (match pystr.rstrip (String d s) with
            | EmptyString =>
                if pystr.is_sep c then EmptyString else String c EmptyString
            | r => String c r
            end).
    change (count_sep (String c (String d s)))
      with ((if pystr.is_sep c then 1 else 0) + count_sep (String d s)).
    pose proof (endswith_sep_count (String d s)) as Hpos.
    remember (count_sep (String d s)) as n eqn:Hn. clear Hn.
    remember (pystr.endswith_sep (String d s)) as e eqn:He. clear He.
    destruct (pystr.rstrip (String d s)) as [|x r].
    + destruct (pystr.is_sep c) eqn:Hc.
      * change (count_sep "") with 0. split; [lia|intros _; lia].
      * change (count_sep (String c "")) with ((if pystr.is_sep c then 1 else 0) + 0).
        rewrite Hc. split; [lia|]. intros H. specialize (Hpos H). lia.
    + change (count_sep (String c (String x r)))
        with ((if pystr.is_sep c then 1 else 0) + count_sep (String x r)).
      split; [lia|]. intros H. specialize (IH2 H). lia.
Qed.

Lemma rstrip_head c s :
  pystr.is_sep c = false -> exists r, pystr.rstrip (String c s) = String c r.
Proof.
  intros Hc. cbn [pystr.rstrip]. rewrite Hc.
  destruct (pystr.rstrip s); eexists; reflexivity.
Qed.

Lemma not_absolute_head c s :
  pystr.startswith "/" (String c s) = false <-> pystr.is_sep c = false.
Proof.
  cbn [pystr.startswith]. rewrite andb_true_r.
  unfold pystr.is_sep, pystr.sep. rewrite (Ascii.eqb_sym c). tauto.
Qed.

(** The head of a relative name has fewer separators and is relative; the
    tail has none. *)
Lemma split_head_tail name :
  pystr.has_sep name = true ->
  pystr.startswith "/" name = false ->
  pystr.has_sep (snd (posixpath.split name)) = false
  /\ count_sep (fst (posixpath.split name)) < count_sep name
  /\ pystr.startswith "/" (fst (posixpath.split name)) = false.
Proof.
  intros Hs Ha. unfold posixpath.split.
  destruct (posixpath.cut_last name) as [h t] eqn:E.
  destruct (cut_last_spec name h t E) as (Ht & Hc & Hh).
  destruct (Hh Hs) as [He Hfirst].
  destruct name as [|c name]; [discriminate|].
  destruct (Hfirst c name eq_refl) as [h' ->].
  apply not_absolute_head in Ha.
  cbn [String.eqb pystr.all_sep negb andb fst snd]. rewrite Ha. cbn [andb negb].
  split; [exact Ht|].
  destruct (rstrip_count (String c h')) as [_ Hlt]. specialize (Hlt He).
  split; [lia|].
  destruct (rstrip_head c h' Ha) as [r ->].
  apply not_absolute_head, Ha.
Qed.

Lemma quiet_meta self : quiet (Dataset.meta self).
Proof. unfold Dataset.meta. quiet_tac. Qed.
#[local] Hint Resolve quiet_meta : quiet.

Lemma quiet_get_tensor_from_root self p :
  quiet (Dataset._get_tensor_from_root self p).
Proof. unfold Dataset._get_tensor_from_root. quiet_tac. Qed.

Lemma quiet_has_group_in_root self p :
  quiet (Dataset._has_group_in_root self p).
Proof. unfold Dataset._has_group_in_root. quiet_tac. Qed.

Lemma init_lock_stage_ok self w :
  exists s w1, init_lock_stage self w = (Ok s, w1).
Proof.
  unfold init_lock_stage, Lock.lock, Dataset.set_read_only,
    LRUCache.enable_readonly.
  munfold. cbn. destruct (lock_state w); cbn; eexists _, _; reflexivity.
Qed.

(** The constructor raises neither [LockedException] nor a failure to
    return. *)
Lemma init_raises_init_error args w e :
  (Dataset.__init__ args w).1 = Raise e -> init_error e.
Proof.
  rewrite init_unfold, bind_run.
  destruct (locks_when args w).
  - destruct (init_lock_stage_ok
                (Dataset.mk (st_root (storage w)) (Dataset.a_read_only args)
                            [] "" None None false None None) w)
      as (s & w1 & ->).
    apply quiet_set_derived_attributes.
  - rewrite ret_run. apply quiet_set_derived_attributes.
Qed.

(** Resolving a relative name returns: with a depth of recursion above the
    number of separators of the name, [__getitem__] raises neither
    [RecursionError] nor any other failure to return. *)
Lemma getitem_name_returns (n : nat) :
  forall (fuel : nat) (self : Dataset.t) (name : string) (w : World) (e : exn),
    count_sep name <= n ->
    n < fuel ->
    pystr.startswith "/" name = false ->
    (Dataset.__getitem__ fuel self (Dataset.IStr name) w).1 = Raise e ->
    init_error e.
Proof.
  induction n as [|n IH]; intros fuel self name w e Hn Hf Ha;
    (destruct fuel as [|fuel]; [lia|]);
    rewrite getitem_str_unfold; cbv zeta; rewrite bind_run.
  - destruct (quiet_get_tensor_from_root self
                (posixpath.join (Dataset.group_index self) name) w) as [_ He1].
    destruct (Dataset._get_tensor_from_root _ _ w) as [[[x|]|e1] w1];
      cbn [fst] in *; [discriminate| |intros [= <-]; apply He1; reflexivity].
    rewrite bind_run.
    destruct (quiet_has_group_in_root self
                (posixpath.join (Dataset.group_index self) name) w1) as [_ He2].
    destruct (Dataset._has_group_in_root _ _ w1) as [[[|]|e2] w2];
      cbn [fst] in *; [| |intros [= <-]; apply He2; reflexivity].
    + rewrite bind_run.
      pose proof (init_raises_init_error
                    (group_view_args self
                       (posixpath.join (Dataset.group_index self) name)) w2) as Hi.
      unfold group_view_args in Hi.
      destruct (Dataset.__init__ _ w2) as [[d|e3] w3]; cbn [fst] in *;
        [discriminate|]. intros [= <-]. apply Hi. reflexivity.
    + assert (pystr.has_sep name = false) as ->
        by (apply count_sep_zero; lia).
      intros [= <-]. init_error_tac.
  - destruct (quiet_get_tensor_from_root self
                (posixpath.join (Dataset.group_index self) name) w) as [_ He1].
    destruct (Dataset._get_tensor_from_root _ _ w) as [[[x|]|e1] w1];
      cbn [fst] in *; [discriminate| |intros [= <-]; apply He1; reflexivity].
    rewrite bind_run.
    destruct (quiet_has_group_in_root self
                (posixpath.join (Dataset.group_index self) name) w1) as [_ He2].
    destruct (Dataset._has_group_in_root _ _ w1) as [[[|]|e2] w2];
      cbn [fst] in *; [| |intros [= <-]; apply He2; reflexivity].
    + rewrite bind_run.
      pose proof (init_raises_init_error
                    (group_view_args self
                       (posixpath.join (Dataset.group_index self) name)) w2) as Hi.
      unfold group_view_args in Hi.
      destruct (Dataset.__init__ _ w2) as [[d|e3] w3]; cbn [fst] in *;
        [discriminate|]. intros [= <-]. apply Hi. reflexivity.
    + destruct (pystr.has_sep name) eqn:Hs;
        [|intros [= <-]; init_error_tac].
      destruct (split_head_tail name Hs Ha) as (Ht & Hh & Hha).
      rewrite bind_run.
      pose proof (IH fuel self (fst (posixpath.split name)) w2) as IHhead.
      destruct (Dataset.__getitem__ fuel self _ w2) as [[[x|d]|e3] w3];
        cbn [fst] in *.
      * rewrite bind_run. cbn. intros [= <-]. init_error_tac.
      * apply IH; [|lia|].
        -- apply count_sep_zero in Ht. lia.
        -- destruct (snd (posixpath.split name)) as [|c s]; [reflexivity|].
           apply not_absolute_head. cbn [pystr.has_sep] in Ht.
           apply orb_false_iff in Ht as [Ht _]. exact Ht.
      * intros [= <-]. apply IHhead; [lia|lia|exact Hha|reflexivity].
Qed.

(** ** Group creation makes no checkout *)

Abbreviation calm := (respects same_lock (fun _ => True)).

Lemma respects_weaken {A} R (E E' : exn -> Prop) (m : M A) :
  (forall e, E e -> E' e) -> respects R E m -> respects R E' m.
Proof.
  intros HE Hm w. destruct (Hm w) as [HR He].
  split; [exact HR|]. intros e H. apply HE, He, H.
Qed.

Lemma quiet_calm {A} (m : M A) : quiet m -> calm m.
Proof. apply respects_weaken. intros; exact I. Qed.

Lemma calm_bind {A B} (m : M A) (k : A -> M B) :
  calm m -> (forall a, calm (k a)) -> calm (m ≫= k).
Proof. apply respects_bind, same_lock_trans. Qed.

Lemma calm_raise {A} (e : exn) : calm (raise e : M A).
Proof. apply respects_raise; [apply same_lock_refl|exact I]. Qed.

Create HintDb calm.

Ltac calm_step :=
  first
    [ apply quiet_calm; solve [auto with quiet]
    | apply quiet_calm; apply quiet_ret
    | apply calm_raise
    | solve [auto with calm]
    | apply quiet_calm;
      first [ apply respects_get_world, same_lock_refl
            | apply respects_deref, same_lock_refl
            | apply respects_modify; intros ?; repeat split; reflexivity ]
    | apply respects_get_vs; [apply same_lock_refl | exact I]
    | apply calm_bind; [|intros ?]
    | match goal with
      | |- respects _ _ (if ?b then _ else _) => destruct b
      | |- respects _ _ (match ?x with _ => _ end) => destruct x
      end ].

Ltac calm_tac := repeat calm_step.

(** A constructor call that passes an index object does not touch the
    lock. *)
Lemma quiet_init_view args :
  is_none (Dataset.a_index args) = false -> quiet (Dataset.__init__ args).
Proof.
  intros Hi w. rewrite init_unfold, bind_run.
  unfold locks_when. rewrite Hi, andb_false_r. cbn [andb]. rewrite ret_run.
  apply quiet_set_derived_attributes.
Qed.

Lemma calm_getitem fuel :
  forall self it, calm (Dataset.__getitem__ fuel self it).
Proof.
  induction fuel as [|fuel IH]; intros self it; [apply calm_raise|].
  destruct it as [name|s|i|]; cbn [Dataset.__getitem__].
  - apply calm_bind;
      [apply quiet_calm, quiet_get_tensor_from_root|]. intros [x|].
    + apply quiet_calm, quiet_ret.
    + apply calm_bind;
        [apply quiet_calm, quiet_has_group_in_root|]. intros [|].
      * apply calm_bind; [apply quiet_calm, quiet_init_view; reflexivity|].
        intros d. apply quiet_calm, quiet_ret.
      * destruct (pystr.has_sep name); [|apply calm_raise].
        apply calm_bind; [apply IH|]. intros [x|d]; [|apply IH].
        cbn. apply calm_bind; [apply calm_raise|].
        intros x'. apply quiet_calm, quiet_ret.
  - apply calm_bind; [apply quiet_calm, quiet_init_view; reflexivity|].
    intros d. apply quiet_calm, quiet_ret.
  - apply calm_bind; [apply quiet_calm, quiet_init_view; reflexivity|].
    intros d. apply quiet_calm, quiet_ret.
  - apply calm_raise.
Qed.
#[local] Hint Resolve calm_getitem : calm.

Lemma quiet_assign l m : quiet (assign l m).
Proof. unfold assign. quiet_tac. Qed.
#[local] Hint Resolve quiet_assign : quiet.

Lemma calm_create_group_loop rounds :
  forall self l name, calm (Dataset._create_group_loop rounds self l name).
Proof.
  induction rounds as [|n IH]; intros self l name;
    cbn [Dataset._create_group_loop].
  - calm_tac.
  - destruct (String.eqb name ""); [calm_tac|].
    apply calm_bind; [calm_tac|]. intros vs.
    destruct (is_none _); [|apply calm_raise].
    apply calm_bind; [calm_tac|]. intros m.
    apply calm_bind; [calm_tac|]. intros _. apply IH.
Qed.
#[local] Hint Resolve calm_create_group_loop : calm.

Lemma calm__create_group fuel self name :
  calm (Dataset._create_group fuel self name).
Proof. unfold Dataset._create_group. calm_tac. Qed.
#[local] Hint Resolve calm__create_group : calm.

Lemma quiet_groups self : quiet (Dataset._groups self).
Proof. unfold Dataset._groups. quiet_tac. Qed.
#[local] Hint Resolve quiet_groups : quiet.

Lemma quiet_root self : quiet (Dataset.root self).
Proof.
  unfold Dataset.root. destruct (Dataset._is_root self); [apply quiet_ret|].
  apply quiet_bind; [apply respects_get_world, same_lock_refl|]. intros w.
  apply quiet_bind; [apply quiet_init_view; reflexivity|]. intros ds.
  quiet_tac.
Qed.
#[local] Hint Resolve quiet_root : quiet.

Lemma calm_create_group fuel :
  forall self name, calm (Dataset.create_group fuel self name).
Proof.
  induction fuel as [|fuel IH]; intros self name; [apply calm_raise|].
  cbn [Dataset.create_group].
  destruct (negb (Dataset._is_root self)).
  - apply calm_bind; [calm_tac|]. intros r. apply IH.
  - calm_tac.
Qed.

(** ** C1: group creation and auto-checkout *)

(** C1, as the code has it.  [create_group] does not call [auto_checkout]:
    no call of it, on any view and in any state, makes a checkout.  So, on a
    dataset positioned at the finalized commit ["first"],
    [create_group("g")] succeeds without any checkout: the position is still
    the finalized commit, and the group is written into that commit's own
    stored meta.  [create_tensor], on the same dataset, first checks out a
    fresh uncommitted node and leaves the meta of ["first"] as it was. *)
Theorem create_group_mutates_finalized_commit :
  (forall fuel self name w,
      auto_checkouts (Dataset.create_group fuel self name w).2
      = auto_checkouts w)
  /\ current_commit_time finalized_world 0 = Some (Some 1)
  /\ stored_groups finalized_world "first" = Some []
  /\ (exists v w1,
        Dataset.create_group 10 local_root "g" finalized_world = (Ok v, w1)
        /\ auto_checkouts w1 = []
        /\ current_commit w1 0 = Some "first"
        /\ current_commit_time w1 0 = Some (Some 1)
        /\ stored_groups w1 "first" = Some ["g"])
  /\ (exists x w2,
        Dataset.create_tensor 10 local_root "x" finalized_world = (Ok x, w2)
        /\ auto_checkouts w2 = [EAutoCheckout "first" "c3"]
        /\ current_commit w2 0 = Some "c3"
        /\ current_commit_time w2 0 = Some None
        /\ stored_groups w2 "first" = Some []).
Proof.
  split.
  { intros fuel self name w.
    destruct (calm_create_group fuel self name w) as [(_ & _ & _ & _ & H) _].
    exact H. }
  split; [reflexivity|]. split; [reflexivity|]. split.
  - eexists _, _. split; [vm_compute; reflexivity|].
    repeat split; vm_compute; reflexivity.
  - eexists _, _. split; [vm_compute; reflexivity|].
    repeat split; vm_compute; reflexivity.
Qed.

(** ** C2: a failing group creation *)

(** C2, as the code has it.  With the tensor ["a"] present,
    [create_group("a/b")] raises [TensorAlreadyExistsError("a")] after it has
    appended ["a/b"] to the group list of the cached meta: the entry of the
    failed call remains, the groups of the dataset now list it, and a second
    attempt fails with [TensorGroupAlreadyExistsError] instead. *)
Theorem failed_create_group_leaves_group_entry :
  cached_meta tensor_world "first" = Some (mkMeta ["a"] [])
  /\ exists w1,
       Dataset.create_group 10 local_root "a/b" tensor_world
       = (Raise (TensorAlreadyExistsError "a"), w1)
       /\ cached_meta w1 "first" = Some (mkMeta ["a"] ["a/b"])
       /\ (Dataset._groups local_root w1).1 = Ok ["a/b"]
       /\ (Dataset.create_group 10 local_root "a/b" w1).1
          = Raise (TensorGroupAlreadyExistsError "a/b").
Proof.
  split; [reflexivity|].
  eexists. split; [vm_compute; reflexivity|].
  repeat split; vm_compute; reflexivity.
Qed.

(** ** C6: the length of a view *)

Lemma get_cachable_peek key w m :
  peek_meta w key = Some m ->
  exists l w1,
    LRUCache.get_cachable key w = (Ok l, w1)
    /\ heap w1 !! l = Some m
    /\ vstates w1 = vstates w
    /\ payload w1 = payload w
    /\ cwd w1 = cwd w.
Proof.
  unfold peek_meta, LRUCache.get_cachable, LRUCache.getitem. intros H.
  rewrite !bind_run. cbn [get_world fst snd].
  destruct (st_cache (storage w) !! key) as [[v|l]|] eqn:Hc.
  - destruct v as [b|m'|bcm cnm]; try discriminate. injection H as ->.
    rewrite ret_run. unfold alloc. rewrite !bind_run. cbn.
    eexists _, _. split; [reflexivity|]. cbn.
    split; [|repeat split].
    rewrite lookup_app_r by reflexivity. rewrite Nat.sub_diag. reflexivity.
  - rewrite ret_run. cbn. eexists _, _. split; [reflexivity|].
    repeat split. exact H.
  - destruct (st_base (storage w) !! key) as [v|] eqn:Hb; [|discriminate].
    destruct v as [b|m'|bcm cnm]; try discriminate. injection H as ->.
    rewrite !bind_run. cbn. unfold alloc. rewrite !bind_run. cbn.
    eexists _, _. split; [reflexivity|]. cbn.
    split; [|repeat split].
    rewrite lookup_app_r by reflexivity. rewrite Nat.sub_diag. reflexivity.
Qed.

Lemma dict_set_fresh {V} k (v : V) d :
  k ∉ map fst d -> dict_set k v d = d ++ [(k, v)].
Proof.
  induction d as [|[k' v'] d IH]; intros Hk; [reflexivity|].
  cbn [dict_set]. destruct (String.eqb_spec k k') as [->|Hne].
  - exfalso. apply Hk. cbn. left.
  - cbn. rewrite IH; [reflexivity|].
    intros Hin. apply Hk. cbn. right. exact Hin.
Qed.

Lemma dict_of_list_nodup_acc {V} (l acc : list (string * V)) :
  NoDup (map fst (acc ++ l)) ->
  fold_left (fun d kv => dict_set (fst kv) (snd kv) d) l acc = acc ++ l.
Proof.
  revert acc. induction l as [|[k v] l IH]; intros acc H.
  - cbn. rewrite app_nil_r. reflexivity.
  - cbn [fold_left fst snd]. rewrite dict_set_fresh.
    + rewrite IH; rewrite <- app_assoc; [reflexivity|exact H].
    + rewrite map_app in H. apply NoDup_app in H as (_ & H & _).
      intros Hin. apply (H k Hin). cbn. left.
Qed.

Lemma dict_of_list_nodup {V} (l : list (string * V)) :
  NoDup (map fst l) -> dict_of_list l = l.
Proof. intros H. unfold dict_of_list. rewrite dict_of_list_nodup_acc; auto. Qed.

Lemma dict_get_map {V} (f : string -> V) (names : list string) x :
  x ∈ names -> dict_get x (map (fun n => (n, f n)) names) = Some (f x).
Proof.
  induction names as [|n names IH]; intros Hx; [inversion Hx|].
  cbn [map dict_get]. destruct (String.eqb_spec x n) as [->|Hne]; [reflexivity|].
  apply IH. apply elem_of_cons in Hx as [Hx|Hx]; [contradiction|exact Hx].
Qed.

Lemma mapM_pure {A B} (f : A -> M B) (g : A -> B) (l : list A) (w : World) :
  (forall x, x ∈ l -> f x w = (Ok (g x), w)) ->
  mapM f l w = (Ok (map g l), w).
Proof.
  induction l as [|x l IH]; intros H; [reflexivity|].
  cbn [mapM map]. rewrite bind_run, (H x) by left.
  rewrite bind_run, IH; [reflexivity|].
  intros y Hy. apply H. right. exact Hy.
Qed.

Lemma load_meta_run h vs w m :
  vstates w !! h = Some vs ->
  peek_meta w (keys.get_dataset_meta_key (vs_commit_id vs)) = Some m ->
  exists w1 l,
    version_control.load_meta (Some h) w = (Ok tt, w1)
    /\ vstates w1 !! h
       = Some (mkVS (vs_branch vs) (vs_commit_id vs) (vs_branch_commit_map vs)
                    (vs_commit_node_map vs)
                    (dict_of_list
                       (map (fun n => (n, TensorM.new n)) (meta_tensors m)))
                    (Some l))
    /\ payload w1 = payload w
    /\ cwd w1 = cwd w.
Proof.
  intros Hvs Hm. unfold version_control.load_meta.
  rewrite bind_run, (get_vs_ok _ _ _ _ _ eq_refl Hvs).
  destruct (get_cachable_peek _ _ _ Hm) as (l & w1 & Hg & Hl & Hv & Hp & Hc).
  rewrite bind_run, Hg. rewrite bind_run. unfold deref at 1. rewrite Hl.
  cbn [default]. unfold put_vs, modify.
  eexists _, l. split; [reflexivity|]. cbn.
  split; [|split; assumption].
  apply list_lookup_insert_eq. rewrite Hv. eapply lookup_lt_Some, Hvs.
Qed.

Lemma map_fst_pairs {V} (f : string -> V) (names : list string) :
  map fst (map (fun n => (n, f n)) names) = names.
Proof. induction names as [|n l IH]; cbn; [reflexivity|]. rewrite IH. reflexivity. Qed.

Lemma in_scope_elem g names x :
  x ∈ in_scope g names ->
  x ∈ names
  /\ (String.eqb g "" = true \/ pystr.startswith (pystr.cat g "/") x = true).
Proof.
  unfold in_scope. intros H. apply list_elem_of_filter in H as [Hc Hx].
  split; [exact Hx|]. apply Is_true_true in Hc.
  apply orb_true_iff in Hc. exact Hc.
Qed.

Lemma relname_join cwd g names x :
  well_named g names ->
  x ∈ in_scope g names ->
  posixpath.relpath cwd x g = Some (relname cwd g x)
  /\ posixpath.join g (relname cwd g x) = x.
Proof.
  intros (_ & Hclean & Hg) Hx.
  apply in_scope_elem in Hx as [Hx Hc].
  rewrite Forall_forall in Hclean. specialize (Hclean x Hx).
  destruct (relpath_join cwd g x Hclean) as (r & Hr & Hj).
  - destruct Hg as [->|Hg]; [left; reflexivity|].
    destruct Hc as [Hc|Hc].
    + left. apply String.eqb_eq, Hc.
    + right. split; assumption.
  - unfold relname. rewrite Hr. cbn. split; [reflexivity|exact Hj].
Qed.

Lemma in_scope_nodup g names : NoDup names -> NoDup (in_scope g names).
Proof. intros H. unfold in_scope. apply NoDup_filter, H. Qed.

Lemma relname_nodup cwd g names :
  well_named g names -> NoDup (map (relname cwd g) (in_scope g names)).
Proof.
  intros Hw. apply (NoDup_fmap_2_strong (relname cwd g)).
  - intros x y Hx Hy Heq.
    destruct (relname_join cwd g names x Hw Hx) as [_ <-].
    destruct (relname_join cwd g names y Hw Hy) as [_ <-].
    rewrite Heq. reflexivity.
  - apply in_scope_nodup. destruct Hw as [H _]. exact H.
Qed.

(** What [tensors] evaluates to on a well-named namespace: one sliced handle
    for every tensor in scope, under its relative name. *)
Lemma tensors_run self w h vs m :
  Dataset.version_state self = Some h ->
  vstates w !! h = Some vs ->
  peek_meta w (keys.get_dataset_meta_key (vs_commit_id vs)) = Some m ->
  well_named (Dataset.group_index self) (meta_tensors m) ->
  exists w1,
    Dataset.tensors self w =
    (Ok (map (fun x => (relname (cwd w) (Dataset.group_index self) x,
                        TensorM.getitem (TensorM.new x) (Dataset.index self)))
             (in_scope (Dataset.group_index self) (meta_tensors m))), w1)
    /\ payload w1 = payload w.
Proof.
  intros Hh Hvs Hm Hw.
  destruct (load_meta_run h vs w m Hvs Hm) as (w1 & l & Hl & Hvs1 & Hp & Hc).
  pose proof Hw as (Hnd & Hclean & Hg).
  rewrite dict_of_list_nodup in Hvs1 by (rewrite map_fst_pairs; exact Hnd).
  exists w1. split; [|exact Hp].
  unfold Dataset.tensors, Dataset._all_tensors_filtered.
  rewrite Hh. rewrite !bind_run, Hl. cbv beta iota.
  rewrite bind_run, (get_vs_ok _ _ _ _ _ eq_refl Hvs1). cbv beta iota.
  rewrite bind_run. cbn [get_world vs_full_tensors]. cbv beta iota.
  rewrite map_fst_pairs. fold (in_scope (Dataset.group_index self) (meta_tensors m)).
  rewrite Hc.
  rewrite (mapM_pure _ (relname (cwd w) (Dataset.group_index self))).
  2:{ intros x Hx.
      destruct (relname_join (cwd w) _ _ x Hw Hx) as [-> _]. reflexivity. }
  cbv beta iota. rewrite bind_run.
  rewrite (mapM_pure _
             (fun r => (r, TensorM.getitem
                             (TensorM.new (posixpath.join (Dataset.group_index self) r))
                             (Dataset.index self)))).
  2:{ intros r Hr. apply list_elem_of_fmap in Hr as (x & -> & Hx).
      destruct (relname_join (cwd w) _ _ x Hw Hx) as [_ Hj].
      rewrite bind_run, (get_vs_ok _ _ _ _ _ eq_refl Hvs1).
      cbn [vs_full_tensors]. rewrite Hj.
      rewrite (dict_get_map TensorM.new); [reflexivity|].
      apply in_scope_elem in Hx as [Hx _]. exact Hx. }
  cbv beta iota. rewrite ret_run. f_equal. f_equal.
  rewrite dict_of_list_nodup.
  - rewrite map_map. apply map_ext_in. intros x Hx.
    apply list_elem_of_In in Hx.
    destruct (relname_join (cwd w) _ _ x Hw Hx) as [_ ->]. reflexivity.
  - rewrite !map_map. cbn [fst].
    apply (relname_nodup (cwd w) _ _ Hw).
Qed.

Lemma index_length_new idx n :
  Index.length (Index.compose Index.new idx) n = Index.length idx n.
Proof. unfold Index.length. cbn. rewrite drop_0. reflexivity. Qed.

Lemma index_positions_trivial idx xs :
  Index.is_trivial idx = true -> Index.positions idx xs = xs.
Proof.
  revert xs. induction idx as [|s idx IH]; intros xs H; [reflexivity|].
  cbn [Index.is_trivial forallb] in H. apply andb_true_iff in H as [Hs H].
  destruct s as [i|[|a] [b|]|l]; try discriminate.
  cbn [Index.positions Index.sel_apply]. rewrite drop_0. apply IH, H.
Qed.

Lemma index_length_trivial idx n :
  Index.is_trivial idx = true -> Index.length idx n = n.
Proof.
  intros H. unfold Index.length.
  rewrite index_positions_trivial by exact H. apply length_seq.
Qed.

Lemma mapM_len_run (l : list Tensor) (w : World) :
  mapM TensorM.len l w =
  (Ok (map (fun x => Index.length (t_index x) (raw_length w (t_key x))) l), w).
Proof. apply mapM_pure. intros x _. reflexivity. Qed.

Lemma len_run self w h vs m :
  Dataset.version_state self = Some h ->
  vstates w !! h = Some vs ->
  peek_meta w (keys.get_dataset_meta_key (vs_commit_id vs)) = Some m ->
  well_named (Dataset.group_index self) (meta_tensors m) ->
  exists w1,
    Dataset.__len__ self w =
    (Ok (py_min
           (map (fun x => Index.length (Dataset.index self) (raw_length w x))
                (in_scope (Dataset.group_index self) (meta_tensors m)))), w1).
Proof.
  intros Hh Hvs Hm Hw.
  destruct (tensors_run self w h vs m Hh Hvs Hm Hw) as (w1 & Ht & Hp).
  exists w1. unfold Dataset.__len__.
  rewrite bind_run, Ht. cbv beta iota.
  rewrite bind_run, mapM_len_run. cbv beta iota. rewrite ret_run.
  f_equal. f_equal. f_equal. rewrite !map_map.
  apply map_ext. intros x. cbn [snd t_index t_key TensorM.getitem TensorM.new].
  unfold raw_length. rewrite Hp. apply index_length_new.
Qed.

(** C6 as stated fails: the view [ds[2:5]] of tensors of ten and twelve
    samples has length 3, not 10. *)
Lemma sliced_view_len_is_not_raw_minimum :
  ~ len_is_raw_minimum sliced_view sliced_world.
Proof.
  intros H.
  destruct (Dataset.tensors sliced_view sliced_world) as [r w1] eqn:E.
  vm_compute in E. injection E as <- <-.
  specialize (H _ _ eq_refl). vm_compute in H. discriminate.
Qed.

(** * Further properties of the Dataset class *)

(** ** Normalized names *)

Lemma replace_dsep_cons a b s :
  pystr.replace_dsep (String a (String b s)) =
  if pystr.is_sep a && pystr.is_sep b
  then String pystr.sep (pystr.replace_dsep s)
  else String a (pystr.replace_dsep (String b s)).
Proof. reflexivity. Qed.

Lemma has_dsep_cons a b s :
  pystr.has_dsep (String a (String b s)) =
  pystr.is_sep a && pystr.is_sep b || pystr.has_dsep (String b s).
Proof. reflexivity. Qed.

Lemma replace_dsep_nonempty s : s <> "" -> pystr.replace_dsep s <> "".
Proof.
  destruct s as [|a [|b s]]; [congruence|cbn; congruence|].
  intros _. rewrite replace_dsep_cons.
  destruct (pystr.is_sep a && pystr.is_sep b); discriminate.
Qed.

Lemma replace_dsep_length (n : nat) :
  forall s, String.length s <= n ->
    String.length (pystr.replace_dsep s) <= String.length s
    /\ (pystr.has_dsep s = true ->
        String.length (pystr.replace_dsep s) < String.length s).
Proof.
  induction n as [|n IH]; intros s Hn.
  - destruct s; [|cbn in Hn; lia]. cbn. split; [lia|discriminate].
  - destruct s as [|a [|b s]]; [cbn; split; [lia|discriminate]..|].
    rewrite replace_dsep_cons, has_dsep_cons.
    destruct (pystr.is_sep a && pystr.is_sep b) eqn:Hab.
    + destruct (IH s) as [Hle _]; [cbn in Hn; lia|].
      cbn [String.length]. split; [lia|intros _; lia].
    + destruct (IH (String b s)) as [Hle Hlt]; [cbn in Hn |- *; lia|].
      remember (pystr.replace_dsep (String b s)) as r.
      cbn [String.length orb] in *. split; [lia|].
      intros Hd. specialize (Hlt Hd). lia.
Qed.

Lemma replace_dsep_fixed s :
  pystr.has_dsep s = false -> pystr.replace_dsep s = s.
Proof.
  induction s as [|a s IH]; [reflexivity|].
  destruct s as [|b s]; [reflexivity|].
  rewrite replace_dsep_cons, has_dsep_cons. intros H.
  apply orb_false_iff in H as [-> H]. rewrite IH by exact H. reflexivity.
Qed.

Lemma collapse_no_dsep (n : nat) :
  forall s, String.length s <= n -> pystr.has_dsep (Dataset.collapse n s) = false.
Proof.
  induction n as [|n IH]; intros s Hn; cbn [Dataset.collapse].
  - destruct s; [reflexivity|cbn in Hn; lia].
  - destruct (pystr.has_dsep s) eqn:Hd; [|exact Hd].
    apply IH.
    destruct (replace_dsep_length (S n) s Hn) as [_ Hlt].
    specialize (Hlt Hd). lia.
Qed.

Lemma collapse_fixed n s :
  pystr.has_dsep s = false -> Dataset.collapse n s = s.
Proof. intros H. destruct n; cbn [Dataset.collapse]; [|rewrite H]; reflexivity. Qed.

Lemma replace_dsep_head s :
  pystr.startswith "/" s = false ->
  pystr.startswith "/" (pystr.replace_dsep s) = false.
Proof.
  destruct s as [|a [|b s]]; [reflexivity|intros H; exact H|].
  rewrite replace_dsep_cons. cbn [pystr.startswith]. intros H.
  rewrite andb_true_r in H.
  assert (pystr.is_sep a = false) as Ha.
  { unfold pystr.is_sep, pystr.sep. rewrite Ascii.eqb_sym. exact H. }
  rewrite Ha. cbn [andb pystr.startswith]. rewrite andb_true_r. exact H.
Qed.

Lemma replace_dsep_last (n : nat) :
  forall s, String.length s <= n ->
    pystr.endswith_sep s = false ->
    pystr.endswith_sep (pystr.replace_dsep s) = false.
Proof.
  induction n as [|n IH]; intros s Hn He.
  - destruct s; [reflexivity|cbn in Hn; lia].
  - destruct s as [|a [|b s]]; [reflexivity|exact He|].
    rewrite replace_dsep_cons.
    destruct (pystr.is_sep a && pystr.is_sep b) eqn:Hab.
    + apply andb_true_iff in Hab as [_ Hb].
      destruct s as [|c s]; [cbn in He; congruence|].
      assert (pystr.endswith_sep (pystr.replace_dsep (String c s)) = false) as H.
      { apply IH; [cbn in Hn |- *; lia|exact He]. }
      pose proof (replace_dsep_nonempty (String c s)) as Hne.
      destruct (pystr.replace_dsep (String c s)) as [|d r];
        [exfalso; apply Hne; [discriminate|reflexivity]|].
      exact H.
    + assert (pystr.endswith_sep (pystr.replace_dsep (String b s)) = false) as H.
      { apply IH; [cbn in Hn |- *; lia|exact He]. }
      pose proof (replace_dsep_nonempty (String b s)) as Hne.
      destruct (pystr.replace_dsep (String b s)) as [|d r];
        [exfalso; apply Hne; [discriminate|reflexivity]|].
      exact H.
Qed.

Lemma collapse_head n :
  forall s, pystr.startswith "/" s = false ->
    pystr.startswith "/" (Dataset.collapse n s) = false.
Proof.
  induction n as [|n IH]; intros s H; cbn [Dataset.collapse]; [exact H|].
  destruct (pystr.has_dsep s); [|exact H]. apply IH, replace_dsep_head, H.
Qed.

Lemma collapse_last n :
  forall s, pystr.endswith_sep s = false ->
    pystr.endswith_sep (Dataset.collapse n s) = false.
Proof.
  induction n as [|n IH]; intros s H; cbn [Dataset.collapse]; [exact H|].
  destruct (pystr.has_dsep s); [|exact H].
  apply IH, (replace_dsep_last (String.length s)); [lia|exact H].
Qed.

Lemma lstrip_head s : pystr.startswith "/" (pystr.lstrip s) = false.
Proof.
  induction s as [|a s IH]; [reflexivity|].
  cbn [pystr.lstrip]. destruct (pystr.is_sep a) eqn:Ha; [exact IH|].
  cbn [pystr.startswith]. rewrite andb_true_r.
  unfold pystr.is_sep, pystr.sep in Ha. rewrite Ascii.eqb_sym. exact Ha.
Qed.

Lemma lstrip_fixed s : pystr.startswith "/" s = false -> pystr.lstrip s = s.
Proof.
  destruct s as [|a s]; [reflexivity|].
  cbn [pystr.startswith pystr.lstrip]. rewrite andb_true_r. intros H.
  unfold pystr.is_sep, pystr.sep. rewrite Ascii.eqb_sym, H. reflexivity.
Qed.

Lemma rstrip_last s : pystr.endswith_sep (pystr.rstrip s) = false.
Proof.
  induction s as [|a s IH]; [reflexivity|].
  cbn [pystr.rstrip]. destruct (pystr.rstrip s) as [|b r] eqn:Hr.
  - destruct (pystr.is_sep a) eqn:Ha; [reflexivity|]. cbn. exact Ha.
  - exact IH.
Qed.

Lemma rstrip_fixed s : pystr.endswith_sep s = false -> pystr.rstrip s = s.
Proof.
  induction s as [|a s IH]; [reflexivity|].
  destruct s as [|b s].
  - cbn. intros ->. reflexivity.
  - intros H. change (pystr.endswith_sep (String a (String b s)))
      with (pystr.endswith_sep (String b s)) in H.
    cbn [pystr.rstrip] in *. rewrite (IH H). reflexivity.
Qed.

Lemma rstrip_keeps_head s :
  pystr.startswith "/" s = false -> pystr.startswith "/" (pystr.rstrip s) = false.
Proof.
  destruct s as [|a s]; [reflexivity|].
  cbn [pystr.startswith pystr.rstrip]. rewrite andb_true_r. intros H.
  destruct (pystr.rstrip s).
  - destruct (pystr.is_sep a); [reflexivity|]. cbn. rewrite andb_true_r. exact H.
  - cbn. rewrite andb_true_r. exact H.
Qed.

Lemma normalize_fixed s :
  pystr.startswith "/" s = false ->
  pystr.endswith_sep s = false ->
  pystr.has_dsep s = false ->
  Dataset.normalize s = s.
Proof.
  intros Hh Hl Hd. unfold Dataset.normalize, pystr.strip.
  rewrite (lstrip_fixed s Hh), (rstrip_fixed s Hl). apply collapse_fixed, Hd.
Qed.

Lemma normalize_shape name :
  pystr.startswith "/" (Dataset.normalize name) = false
  /\ pystr.endswith_sep (Dataset.normalize name) = false
  /\ pystr.has_dsep (Dataset.normalize name) = false.
Proof.
  unfold Dataset.normalize, pystr.strip. split; [|split].
  - apply collapse_head, rstrip_keeps_head, lstrip_head.
  - apply collapse_last, rstrip_last.
  - apply collapse_no_dsep. lia.
Qed.

(** X1.  The name that [create_tensor] and [create_group] go on with, after
    [name.strip("/")] and the loop that replaces ["//"] by ["/"], neither
    starts nor ends with a separator and holds no doubled separator. *)
Theorem normalized_name_has_no_stray_separator (name : string) :
  let n := Dataset.normalize name in
  pystr.startswith "/" n = false
  /\ pystr.endswith_sep n = false
  /\ pystr.has_dsep n = false.
Proof. exact (normalize_shape name). Qed.

(** X2.  Normalizing a name twice is normalizing it once.  So [create_tensor],
    on any view, and [create_group], on a root view, do for a name what they
    do for its normalized form: the spelling of the separators is of no
    consequence. *)
Theorem creation_ignores_the_spelling_of_separators
        (fuel : nat) (self : Dataset.t) (name : string) (w : World) :
  Dataset.normalize (Dataset.normalize name) = Dataset.normalize name
  /\ Dataset.create_tensor fuel self name w
     = Dataset.create_tensor fuel self (Dataset.normalize name) w
  /\ (Dataset._is_root self = true ->
      Dataset.create_group fuel self name w
      = Dataset.create_group fuel self (Dataset.normalize name) w).
Proof.
  assert (Dataset.normalize (Dataset.normalize name) = Dataset.normalize name)
    as Hn.
  { destruct (normalize_shape name) as (H1 & H2 & H3).
    apply normalize_fixed; assumption. }
  split; [exact Hn|]. split.
  - destruct fuel as [|fuel]; [reflexivity|].
    cbn [Dataset.create_tensor]. cbv zeta. rewrite Hn. reflexivity.
  - intros Hr. destruct fuel as [|fuel]; [reflexivity|].
    cbn [Dataset.create_group]. rewrite Hr. cbn [negb]. cbv zeta.
    rewrite Hn. reflexivity.
Qed.

(** ** Loading the version state *)

Lemma getitem_vstates key w :
  vstates (LRUCache.getitem key w).2 = vstates w.
Proof.
  unfold LRUCache.getitem. munfold. cbn.
  destruct (st_cache (storage w) !! key); [reflexivity|].
  destruct (st_base (storage w) !! key); reflexivity.
Qed.

Lemma load_version_info_run self w :
  Dataset._load_version_info self w =
  (Ok (Dataset.with_version_state (Some (List.length (vstates w))) self),
   set_vstates (vstates w ++ [default first_version_state (stored_head w)])
               (LRUCache.getitem keys.get_version_control_info_key w).2).
Proof.
  unfold Dataset._load_version_info, stored_head, stored_version_info,
    LRUCache.getitem, alloc_vs.
  munfold. cbn.
  destruct (st_cache (storage w) !! keys.get_version_control_info_key)
    as [[[b|m|bcm cnm]|l]|]; cbn; try reflexivity.
  - destruct (bcm !! "main") as [c|]; cbn; [|reflexivity].
    destruct (cnm !! c); reflexivity.
  - destruct (st_base (storage w) !! keys.get_version_control_info_key)
      as [[b|m|bcm cnm]|]; cbn; try reflexivity.
    destruct (bcm !! "main") as [c|]; cbn; [|reflexivity].
    destruct (cnm !! c); reflexivity.
Qed.

(** X3.  [_load_version_info] always returns, with a new version state of its
    own that is consistent: the branch is [main], [branch_commit_map] sends
    [main] to the commit the state is positioned at, [commit_node_map] holds
    the node of that commit, and no tensor is loaded yet.  Whatever goes
    wrong while the stored info is read is caught. *)
Theorem load_version_info_gives_a_consistent_state
        (self : Dataset.t) (w : World) :
  exists vs w',
    Dataset._load_version_info self w
    = (Ok (Dataset.with_version_state (Some (List.length (vstates w))) self), w')
    /\ vstates w' = vstates w ++ [vs]
    /\ vs_branch vs = "main"
    /\ vs_branch_commit_map vs !! "main" = Some (vs_commit_id vs)
    /\ is_Some (vs_commit_node_map vs !! vs_commit_id vs)
    /\ vs_full_tensors vs = []
    /\ vs_meta vs = None.
Proof.
  eexists _, _. split; [apply load_version_info_run|].
  split; [reflexivity|].
  unfold stored_head. destruct (stored_version_info w) as [[bcm cnm]|];
    [|cbn; repeat split; eexists; reflexivity].
  destruct (bcm !! "main") as [c|] eqn:Hb;
    [|cbn; repeat split; eexists; reflexivity].
  destruct (cnm !! c) as [node|] eqn:Hc;
    [|cbn; repeat split; eexists; reflexivity].
  cbn. repeat split; [exact Hb|]. rewrite Hc. eexists. reflexivity.
Qed.

(** X4.  The stored version control info is used only as a whole: when it gives
    the head of [main] and the node of that head, the state is positioned
    there with the stored maps; in every other case (no info, info that is
    not a version info, no branch [main], no node for its head) the state is
    that of a dataset without commits, with maps that hold the first commit
    alone, and the stored maps are dropped.  The base tier is not written. *)
Theorem load_version_info_falls_back_to_the_first_commit
        (self : Dataset.t) (w : World) :
  let w' := (Dataset._load_version_info self w).2 in
  vstates w' !! List.length (vstates w)
  = Some (match stored_version_info w with
          | Some (bcm, cnm) =>
              match bcm !! "main" with
              | Some c =>
                  if bool_decide (is_Some (cnm !! c))
                  then mkVS "main" c bcm cnm [] None
                  else first_version_state
              | None => first_version_state
              end
          | None => first_version_state
          end)
  /\ st_base (storage w') = st_base (storage w).
Proof.
  cbv zeta. rewrite load_version_info_run. cbn [snd]. split.
  - cbn [vstates set_vstates].
    rewrite lookup_app_r by reflexivity. rewrite Nat.sub_diag. cbn.
    f_equal. unfold stored_head.
    destruct (stored_version_info w) as [[bcm cnm]|]; [|reflexivity].
    destruct (bcm !! "main") as [c|]; [|reflexivity].
    destruct (cnm !! c); reflexivity.
  - unfold LRUCache.getitem. munfold. cbn.
    destruct (st_cache (storage w) !! _); [reflexivity|].
    destruct (st_base (storage w) !! _); reflexivity.
Qed.

(** ** The constructor and the read-only mode *)

(** What the lock stage of the constructor does to the view and to the
    world. *)
Lemma init_lock_stage_run self w :
  exists w1,
    init_lock_stage self w
    = (Ok (if held_elsewhere w then Dataset.with__read_only true self else self),
       w1)
    /\ storage w1
       = (if held_elsewhere w
          then LRUCache.with_read_only true (storage w) else storage w)
    /\ heap w1 = heap w
    /\ vstates w1 = vstates w
    /\ payload w1 = payload w
    /\ cwd w1 = cwd w
    /\ next_id w1 = next_id w.
Proof.
  unfold init_lock_stage, Lock.lock, Dataset.set_read_only,
    LRUCache.enable_readonly, held_elsewhere.
  munfold. cbn.
  destruct (lock_state w); cbn; eexists; repeat split; reflexivity.
Qed.

(** X5.  The [read_only] argument of the constructor is recorded on the view and
    nowhere else: the constructor switches the storage to read-only mode in
    one case only, when it tried to lock and the lock is held elsewhere.  In
    every other case the storage is as writable after the call as before,
    whether the call returns or raises, and the view that is returned is
    read-only exactly when it was asked to be. *)
Theorem init_records_read_only_on_the_view
        (args : Dataset.InitArgs) (w : World) :
  st_read_only (storage (Dataset.__init__ args w).2)
  = st_read_only (storage w) || lock_fails args w
  /\ (forall ds w', Dataset.__init__ args w = (Ok ds, w') ->
                    Dataset.read_only ds
                    = Dataset.a_read_only args || lock_fails args w).
Proof.
  unfold lock_fails. rewrite init_unfold, bind_run.
  destruct (locks_when args w) eqn:Hl; cbn [andb].
  - destruct (init_lock_stage_run
                (Dataset.mk (st_root (storage w)) (Dataset.a_read_only args)
                            [] "" None None false None None) w)
      as (w1 & -> & Hs & _).
    assert (Dataset.a_read_only args = false) as Hro.
    { unfold locks_when in Hl. destruct (Dataset.a_read_only args);
        [discriminate|reflexivity]. }
    match goal with
    | |- context [Dataset._set_derived_attributes ?s w1] =>
        destruct (quiet_set_derived_attributes s w1) as [(_ & _ & _ & Hq & _) _];
        pose proof (set_derived_attributes_fields s w1) as Hf
    end.
    split.
    + rewrite Hq, Hs. destruct (held_elsewhere w); cbn;
        [rewrite orb_true_r|rewrite orb_false_r]; reflexivity.
    + intros ds w' H. apply Hf in H as (_ & H & _).
      unfold Dataset.read_only. rewrite H, Hro.
      destruct (held_elsewhere w); reflexivity.
  - rewrite ret_run.
    match goal with
    | |- context [Dataset._set_derived_attributes ?s w] =>
        destruct (quiet_set_derived_attributes s w) as [(_ & _ & _ & Hq & _) _];
        pose proof (set_derived_attributes_fields s w) as Hf
    end.
    split.
    + rewrite Hq, orb_false_r. reflexivity.
    + intros ds w' H. apply Hf in H as (_ & H & _).
      unfold Dataset.read_only. rewrite H, orb_false_r. reflexivity.
Qed.

(** ** Framing, for any relation *)

Create HintDb frame.

Ltac frame_exn :=
  first [ exact I | init_error_tac | discriminate | intros; discriminate ].

(** One step of a proof that a computation respects a relation whose
    reflexivity and transitivity are [Hrefl] and [Htrans]; [tac] shows that
    a change of the state is in the relation. *)
Ltac frame_step Hrefl Htrans tac :=
  first
    [ apply respects_ret; exact Hrefl
    | apply respects_get_world; exact Hrefl
    | apply respects_deref; exact Hrefl
    | apply respects_get_vs; [exact Hrefl | frame_exn]
    | apply respects_raise; [exact Hrefl | frame_exn]
    | solve [auto with frame]
    | apply respects_modify; intros ?; solve [tac]
    | apply respects_mapM; [exact Hrefl | exact Htrans | intros ?]
    | apply respects_bind; [exact Htrans | | intros ?]
    | match goal with
      | |- respects _ _ (if ?b then _ else _) => destruct b
      | |- respects _ _ (match ?x with _ => _ end) => destruct x
      end ].

Ltac frame_tac Hrefl Htrans tac := repeat frame_step Hrefl Htrans tac.

(** ** The constructor and the automatic flush *)

Lemma same_autoflush_refl w : same_autoflush w w.
Proof. reflexivity. Qed.

Lemma same_autoflush_trans a b c :
  same_autoflush a b -> same_autoflush b c -> same_autoflush a c.
Proof. unfold same_autoflush. congruence. Qed.

Ltac af_tac :=
  frame_tac same_autoflush_refl same_autoflush_trans
            ltac:(unfold same_autoflush; try case_match; reflexivity).

Lemma af_flush : respects same_autoflush any_exn LRUCache.flush.
Proof. unfold LRUCache.flush. af_tac. Qed.
#[local] Hint Resolve af_flush : frame.

Lemma af_maybe_flush : respects same_autoflush any_exn LRUCache.maybe_flush.
Proof. unfold LRUCache.maybe_flush. af_tac. Qed.
#[local] Hint Resolve af_maybe_flush : frame.

Lemma af_getitem key : respects same_autoflush any_exn (LRUCache.getitem key).
Proof. unfold LRUCache.getitem. af_tac. Qed.
#[local] Hint Resolve af_getitem : frame.

Lemma af_contains key : respects same_autoflush any_exn (LRUCache.contains key).
Proof. unfold LRUCache.contains. af_tac. Qed.
#[local] Hint Resolve af_contains : frame.

Lemma af_empty : respects same_autoflush any_exn LRUCache.empty.
Proof. unfold LRUCache.empty. af_tac. Qed.
#[local] Hint Resolve af_empty : frame.

Lemma af_setitem key e :
  respects same_autoflush any_exn (LRUCache.setitem key e).
Proof. unfold LRUCache.setitem. af_tac. Qed.
#[local] Hint Resolve af_setitem : frame.

Lemma af_alloc m : respects same_autoflush any_exn (alloc m).
Proof. intros w. split; [reflexivity|discriminate]. Qed.
#[local] Hint Resolve af_alloc : frame.

Lemma af_alloc_vs vs : respects same_autoflush any_exn (alloc_vs vs).
Proof. intros w. split; [reflexivity|discriminate]. Qed.
#[local] Hint Resolve af_alloc_vs : frame.

Lemma af_put_vs h vs : respects same_autoflush any_exn (put_vs h vs).
Proof. unfold put_vs. af_tac. Qed.
#[local] Hint Resolve af_put_vs : frame.

Lemma af_emit e : respects same_autoflush any_exn (emit e).
Proof. unfold emit. af_tac. Qed.
#[local] Hint Resolve af_emit : frame.

Lemma af_get_cachable key :
  respects same_autoflush any_exn (LRUCache.get_cachable key).
Proof. unfold LRUCache.get_cachable. af_tac. Qed.
#[local] Hint Resolve af_get_cachable : frame.

Lemma af_load_meta h : respects same_autoflush any_exn (version_control.load_meta h).
Proof. unfold version_control.load_meta. af_tac. Qed.
#[local] Hint Resolve af_load_meta : frame.

Lemma af_num_samples self :
  respects same_autoflush any_exn (Dataset.num_samples self).
Proof.
  unfold Dataset.num_samples, TensorM.len, TensorM.chunk_engine. af_tac.
Qed.
#[local] Hint Resolve af_num_samples : frame.

Lemma af_load_version_info self :
  respects same_autoflush any_exn (Dataset._load_version_info self).
Proof.
  intros w. rewrite load_version_info_run. split; [|discriminate].
  cbn. apply af_getitem.
Qed.
#[local] Hint Resolve af_load_version_info : frame.

Lemma af_populate_meta self :
  respects same_autoflush any_exn (Dataset._populate_meta self).
Proof.
  unfold Dataset._populate_meta, keys.dataset_exists, Dataset.flush,
    Dataset._register_dataset.
  af_tac.
Qed.
#[local] Hint Resolve af_populate_meta : frame.

(** What the constructor does after it has set the automatic flush. *)
Lemma set_derived_attributes_autoflush self w :
  st_autoflush (storage (Dataset._set_derived_attributes self w).2)
  = Index.is_trivial (Dataset.index self) && Dataset._is_root self
    || st_autoflush (storage w).
Proof.
  unfold Dataset._set_derived_attributes. rewrite bind_run.
  assert (forall s',
             respects same_autoflush any_exn
               (w0 ← get_world;
                self0 ← (if negb (Dataset.vs_truthy (Dataset.version_state s') w0)
                         then Dataset._load_version_info s' else mret s');
                Dataset._populate_meta self0;;
                vs ← get_vs "commit_id" (Dataset.version_state self0);
                i ← version_control.load_info
                      (keys.get_dataset_info_key (vs_commit_id vs));
                n ← Dataset.num_samples (Dataset.with_info i self0);
                if Index.valid (Dataset.index (Dataset.with_info i self0)) n
                then mret (Dataset.with_info i self0) else raise ValueError))
    as Hrest.
  { intros s'. unfold version_control.load_info. af_tac. }
  destruct (Index.is_trivial (Dataset.index self) && Dataset._is_root self).
  - unfold LRUCache.set_autoflush at 1. unfold modify at 1. cbv beta iota.
    destruct (Hrest self (set_storage (LRUCache.with_autoflush true (storage w)) w))
      as [H _].
    unfold same_autoflush in H. rewrite H. reflexivity.
  - rewrite ret_run. destruct (Hrest self w) as [H _]. exact H.
Qed.

(** X6.  The constructor switches the automatic flush of the storage on when the
    view it builds is a root view with a trivial index, and leaves it as it
    was for every other view (a slice, a group), whether it returns or
    raises.  This is why [root] and [parent] save the setting and put it
    back. *)
Theorem init_sets_autoflush_for_whole_root_views
        (args : Dataset.InitArgs) (w : World) :
  st_autoflush (storage (Dataset.__init__ args w).2)
  = Index.is_trivial (default Index.new (Dataset.a_index args))
    && String.eqb (Dataset.a_group_index args) ""
    || st_autoflush (storage w).
Proof.
  rewrite init_unfold, bind_run.
  destruct (locks_when args w).
  - destruct (init_lock_stage_run
                (Dataset.mk (st_root (storage w)) (Dataset.a_read_only args)
                            [] "" None None false None None) w)
      as (w1 & -> & Hs & _).
    rewrite set_derived_attributes_autoflush. cbn. rewrite Hs.
    destruct (held_elsewhere w); reflexivity.
  - rewrite ret_run, set_derived_attributes_autoflush. reflexivity.
Qed.

(** ** Opening a location *)

Lemma contains_run k w : LRUCache.contains k w = (Ok (holds w k), w).
Proof. reflexivity. Qed.

Lemma empty_run w : LRUCache.empty w = (Ok (vacant w), w).
Proof. reflexivity. Qed.

Lemma getitem_holds key w k :
  holds (LRUCache.getitem key w).2 k = holds w k.
Proof.
  unfold LRUCache.getitem, holds. munfold. cbn.
  destruct (st_cache (storage w) !! key) eqn:Hc; [reflexivity|].
  destruct (st_base (storage w) !! key) eqn:Hb; [|reflexivity].
  cbn. destruct (decide (k = key)) as [->|Hne].
  - rewrite lookup_insert_eq, Hc, Hb.
    rewrite !bool_decide_eq_true_2 by (eexists; reflexivity).
    rewrite (bool_decide_eq_false_2 (is_Some None)) by (intros [? [=]]).
    reflexivity.
  - rewrite lookup_insert_ne by congruence. reflexivity.
Qed.

Lemma getitem_vacant key w :
  vacant (LRUCache.getitem key w).2 = vacant w.
Proof.
  unfold LRUCache.getitem, vacant. munfold. cbn.
  destruct (st_cache (storage w) !! key) eqn:Hc; [reflexivity|].
  destruct (st_base (storage w) !! key) eqn:Hb; [|reflexivity].
  cbn.
  assert (size (st_base (storage w)) <> 0) as Hne.
  { intros H0. apply map_size_empty_iff in H0. rewrite H0 in Hb.
    rewrite lookup_empty in Hb. discriminate. }
  rewrite !(bool_decide_eq_false_2 (size (st_base (storage w)) = 0)) by exact Hne.
  rewrite !andb_false_r. reflexivity.
Qed.

Lemma getitem_base key w :
  st_base (storage (LRUCache.getitem key w).2) = st_base (storage w).
Proof.
  unfold LRUCache.getitem. munfold. cbn.
  destruct (st_cache (storage w) !! key); [reflexivity|].
  destruct (st_base (storage w) !! key); reflexivity.
Qed.

Lemma getitem_vacant_world key w :
  vacant w = true -> LRUCache.getitem key w = (Raise (KeyError key), w).
Proof.
  unfold vacant, LRUCache.getitem. intros H.
  apply andb_true_iff in H as [Hc Hb].
  apply bool_decide_eq_true in Hc, Hb.
  apply map_size_empty_iff in Hc, Hb.
  munfold. cbn. rewrite Hc, Hb, !lookup_empty. reflexivity.
Qed.

Lemma set_derived_attributes_unfold self w :
  Dataset._set_derived_attributes self w =
  ((if Index.is_trivial (Dataset.index self) && Dataset._is_root self
    then LRUCache.set_autoflush true else mret tt);;
   w0 ← get_world;
   self0 ← (if negb (Dataset.vs_truthy (Dataset.version_state self) w0)
            then Dataset._load_version_info self else mret self);
   Dataset._populate_meta self0;;
   finish_attributes self0) w.
Proof. reflexivity. Qed.

Lemma vs_truthy_vstates h w w' :
  vstates w' = vstates w -> Dataset.vs_truthy h w' = Dataset.vs_truthy h w.
Proof. unfold Dataset.vs_truthy. intros ->. reflexivity. Qed.

Lemma holds_tiers w w' k :
  st_cache (storage w') = st_cache (storage w) ->
  st_base (storage w') = st_base (storage w) ->
  holds w' k = holds w k.
Proof. unfold holds. intros -> ->. reflexivity. Qed.

Lemma vacant_tiers w w' :
  st_cache (storage w') = st_cache (storage w) ->
  st_base (storage w') = st_base (storage w) ->
  vacant w' = vacant w.
Proof. unfold vacant. intros -> ->. reflexivity. Qed.

Lemma stored_head_tiers w w' :
  st_cache (storage w') = st_cache (storage w) ->
  st_base (storage w') = st_base (storage w) ->
  stored_head w' = stored_head w.
Proof. unfold stored_head, stored_version_info. intros -> ->. reflexivity. Qed.

Lemma peek_tiers w w' k :
  st_cache (storage w') = st_cache (storage w) ->
  st_base (storage w') = st_base (storage w) ->
  heap w' = heap w ->
  peek_meta w' k = peek_meta w k.
Proof. unfold peek_meta. intros -> -> ->. reflexivity. Qed.

Lemma getitem_peek key w k :
  peek_meta (LRUCache.getitem key w).2 k = peek_meta w k.
Proof.
  unfold LRUCache.getitem, peek_meta. munfold. cbn.
  destruct (st_cache (storage w) !! key) eqn:Hc; [reflexivity|].
  destruct (st_base (storage w) !! key) as [v|] eqn:Hb; [|reflexivity].
  cbn. destruct (decide (k = key)) as [->|Hne].
  - rewrite lookup_insert_eq, Hc, Hb. destruct v; reflexivity.
  - rewrite lookup_insert_ne by congruence. reflexivity.
Qed.

(** The constructor up to [_populate_meta]: the view and the world it
    reaches that call with. *)
Lemma init_reaches_populate_meta args w :
  exists self1 w1,
    Dataset.__init__ args w
    = (Dataset._populate_meta self1;; finish_attributes self1) w1
    /\ self1 = Dataset.mk (st_root (storage w))
                          (Dataset.a_read_only args || lock_fails args w)
                          (default Index.new (Dataset.a_index args))
                          (Dataset.a_group_index args) (Dataset.a_token args)
                          (Dataset.a_public args) (Dataset.a_verbose args)
                          (Dataset.version_state self1) None
    /\ st_read_only (storage w1) = st_read_only (storage w) || lock_fails args w
    /\ st_base (storage w1) = st_base (storage w)
    /\ st_dirty (storage w1) = st_dirty (storage w)
    /\ st_root (storage w1) = st_root (storage w)
    /\ (forall k, holds w1 k = holds w k)
    /\ vacant w1 = vacant w
    /\ (vacant w = true -> st_cache (storage w1) = st_cache (storage w))
    /\ heap w1 = heap w
    /\ payload w1 = payload w
    /\ (forall k, peek_meta w1 k = peek_meta w k)
    /\ (Dataset.vs_truthy (Dataset.a_version_state args) w = true ->
        Dataset.version_state self1 = Dataset.a_version_state args
        /\ vstates w1 = vstates w)
    /\ (Dataset.vs_truthy (Dataset.a_version_state args) w = false ->
        Dataset.version_state self1 = Some (List.length (vstates w))
        /\ vstates w1
           = vstates w ++ [default first_version_state (stored_head w)]).
Proof.
  rewrite init_unfold, bind_run.
  set (self0 := Dataset.mk (st_root (storage w)) (Dataset.a_read_only args)
                           [] "" None None false None None).
  assert (exists s w_l,
             (if locks_when args w then init_lock_stage self0 else mret self0) w
             = (Ok s, w_l)
             /\ Dataset._read_only s
                = Dataset.a_read_only args || lock_fails args w
             /\ storage w_l
                = (if lock_fails args w
                   then LRUCache.with_read_only true (storage w) else storage w)
             /\ heap w_l = heap w /\ vstates w_l = vstates w
             /\ payload w_l = payload w)
    as (s & w_l & -> & Hro & Hst & Hh & Hv & Hp).
  { unfold lock_fails. destruct (locks_when args w).
    - destruct (init_lock_stage_run self0 w) as (w1 & -> & Hs & Hh & Hv & Hp & _).
      eexists _, _. split; [reflexivity|]. cbn [andb].
      destruct (held_elsewhere w); cbn;
        rewrite ?orb_true_r, ?orb_false_r; repeat split; assumption.
    - eexists _, _. split; [reflexivity|]. cbn. rewrite orb_false_r.
      repeat split. }
  rewrite set_derived_attributes_unfold.
  unfold Dataset._is_root.
  cbn [Dataset.index Dataset.group_index Dataset.version_state].
  rewrite bind_run.
  assert (exists w_a,
             (if Index.is_trivial (default Index.new (Dataset.a_index args))
                 && String.eqb (Dataset.a_group_index args) ""
              then LRUCache.set_autoflush true else mret tt) w_l = (Ok tt, w_a)
             /\ st_read_only (storage w_a) = st_read_only (storage w_l)
             /\ st_cache (storage w_a) = st_cache (storage w_l)
             /\ st_base (storage w_a) = st_base (storage w_l)
             /\ st_dirty (storage w_a) = st_dirty (storage w_l)
             /\ st_root (storage w_a) = st_root (storage w_l)
             /\ heap w_a = heap w_l /\ vstates w_a = vstates w_l
             /\ payload w_a = payload w_l)
    as (w_a & -> & Ha1 & Ha2 & Ha3 & Ha4 & Ha5 & Ha6 & Ha7 & Ha8).
  { destruct (_ && _); eexists; (split; [reflexivity|]); repeat split. }
  assert (st_cache (storage w_l) = st_cache (storage w)
          /\ st_base (storage w_l) = st_base (storage w)
          /\ st_dirty (storage w_l) = st_dirty (storage w)
          /\ st_root (storage w_l) = st_root (storage w)
          /\ st_read_only (storage w_l)
             = st_read_only (storage w) || lock_fails args w)
    as (Hl2 & Hl3 & Hl4 & Hl5 & Hl1).
  { rewrite Hst. destruct (lock_fails args w); cbn;
      rewrite ?orb_true_r, ?orb_false_r; repeat split. }
  rewrite bind_run. change (get_world w_a) with (Ok w_a, w_a). cbv beta iota.
  rewrite bind_run.
  rewrite (vs_truthy_vstates _ w w_a) by congruence.
  destruct (Dataset.vs_truthy (Dataset.a_version_state args) w) eqn:Ht.
  - rewrite Ht. cbn [negb]. rewrite ret_run.
    eexists _, w_a. split; [reflexivity|]. cbn.
    split; [rewrite Hro; reflexivity|].
    repeat split; try congruence; try discriminate;
      try (intros k; apply holds_tiers; congruence);
      try (intros k; apply peek_tiers; congruence);
      try (apply vacant_tiers; congruence).
  - assert (Dataset.vs_truthy None w = false) as -> by reflexivity.
    cbn [negb]. rewrite load_version_info_run.
    assert (forall (P : Storage -> Prop),
               P (storage w_a) ->
               (forall v, P (LRUCache.with_tiers
                               (<[keys.get_version_control_info_key := CBytes v]>
                                  (st_cache (storage w_a)))
                               (st_dirty (storage w_a)) (st_base (storage w_a))
                               (storage w_a))) ->
               P (storage (LRUCache.getitem keys.get_version_control_info_key w_a).2))
      as Hget.
    { intros P H1 H2. unfold LRUCache.getitem. munfold. cbn.
      destruct (st_cache (storage w_a) !! _); [exact H1|].
      destruct (st_base (storage w_a) !! _); cbn; [apply H2|exact H1]. }
    assert (forall {A} (f : World -> A),
               (forall s w0, f (set_storage s w0) = f w0) ->
               f (LRUCache.getitem keys.get_version_control_info_key w_a).2 = f w_a)
      as Hget'.
    { intros A f Hf. unfold LRUCache.getitem. munfold. cbn.
      destruct (st_cache (storage w_a) !! _); [reflexivity|].
      destruct (st_base (storage w_a) !! _); cbn; [apply Hf|reflexivity]. }
    eexists _, _. split; [reflexivity|]. cbn.
    split; [rewrite Hro; reflexivity|].
    repeat split; try discriminate.
    + apply (Hget (fun s => st_read_only s = _)); [congruence|intros; cbn; congruence].
    + apply (Hget (fun s => st_base s = _)); [congruence|intros; cbn; congruence].
    + apply (Hget (fun s => st_dirty s = _)); [congruence|intros; cbn; congruence].
    + apply (Hget (fun s => st_root s = _)); [congruence|intros; cbn; congruence].
    + intros k.
      transitivity (holds (LRUCache.getitem keys.get_version_control_info_key w_a).2 k);
        [reflexivity|].
      rewrite getitem_holds. apply holds_tiers; congruence.
    + transitivity (vacant (LRUCache.getitem keys.get_version_control_info_key w_a).2);
        [reflexivity|].
      rewrite getitem_vacant. apply vacant_tiers; congruence.
    + intros Hvac.
      rewrite getitem_vacant_world
        by (rewrite <- Hvac; apply vacant_tiers; congruence).
      cbn. congruence.
    + rewrite (Hget' _ heap) by reflexivity. congruence.
    + rewrite (Hget' _ payload) by reflexivity. congruence.
    + intros k.
      transitivity (peek_meta (LRUCache.getitem keys.get_version_control_info_key w_a).2 k);
        [reflexivity|].
      rewrite getitem_peek. apply peek_tiers; congruence.
    + congruence.
    + rewrite (stored_head_tiers w w_a) by congruence. congruence.
Qed.

Lemma populate_meta_unfold self w :
  Dataset._populate_meta self w =
  (if is_dataset w then
     ((if Dataset.verbose self
       then emit (ELogInfo (pystr.cat (Dataset.path self) " loaded successfully."))
       else mret tt);;
      version_control.load_meta (Dataset.version_state self)) w
   else if negb (vacant w) then (Raise PathNotEmptyException, w)
   else if Dataset.read_only self
   then (Raise (CouldNotCreateNewDatasetException (Dataset.path self)), w)
   else
     (vs ← get_vs "commit_id" (Dataset.version_state self);
      let meta_key := keys.get_dataset_meta_key (vs_commit_id vs) in
      l ← alloc (mkMeta [] []);
      put_vs (Dataset.version_state self)
             (mkVS (vs_branch vs) (vs_commit_id vs) (vs_branch_commit_map vs)
                   (vs_commit_node_map vs) (vs_full_tensors vs) (Some l));;
      LRUCache.setitem meta_key (CObj l);;
      Dataset.flush self;;
      Dataset._register_dataset self) w).
Proof.
  unfold Dataset._populate_meta, keys.dataset_exists.
  rewrite bind_run, contains_run. fold (is_dataset w).
  destruct (is_dataset w); [reflexivity|].
  rewrite bind_run, empty_run.
  destruct (vacant w); cbn [negb]; [|reflexivity].
  destruct (Dataset.read_only self); reflexivity.
Qed.

Lemma vacant_holds w k : vacant w = true -> holds w k = false.
Proof.
  unfold vacant, holds. intros H. apply andb_true_iff in H as [Hc Hb].
  apply bool_decide_eq_true in Hc, Hb. apply map_size_empty_iff in Hc, Hb.
  rewrite Hc, Hb, !lookup_empty.
  rewrite bool_decide_eq_false_2 by (intros [? [=]]). reflexivity.
Qed.

(** X7.  A location that holds something but not a dataset is not opened: the
    constructor raises [PathNotEmptyException], with any arguments and
    whatever the state of the lock, and the base tier and the keys the
    storage holds are what they were. *)
Theorem open_of_foreign_content_raises
        (args : Dataset.InitArgs) (w : World) :
  is_dataset w = false ->
  vacant w = false ->
  exists w',
    Dataset.__init__ args w = (Raise PathNotEmptyException, w')
    /\ st_base (storage w') = st_base (storage w)
    /\ forall k, holds w' k = holds w k.
Proof.
  intros Hd Hv.
  destruct (init_reaches_populate_meta args w)
    as (self1 & w1 & -> & _ & _ & Hb & _ & _ & Hh & Hvac & _).
  rewrite bind_run, populate_meta_unfold.
  unfold is_dataset. rewrite Hh. fold (is_dataset w). rewrite Hd, Hvac, Hv.
  cbn [negb]. exists w1. repeat split; assumption.
Qed.

Lemma open_of_foreign_content_raises_witness :
  (Dataset.__init__ open_args foreign_world).1 = Raise PathNotEmptyException.
Proof.
  destruct (open_of_foreign_content_raises open_args foreign_world)
    as (w' & H & _); [reflexivity|reflexivity|].
  rewrite H. reflexivity.
Defined.

(** X8.  On a location that holds nothing, an open that is read-only, by its
    argument or because the lock is held elsewhere, creates nothing: it
    raises [CouldNotCreateNewDatasetException] with the path of the storage,
    and the location still holds nothing. *)
Theorem read_only_open_of_vacant_location_raises
        (args : Dataset.InitArgs) (w : World) :
  vacant w = true ->
  Dataset.a_read_only args || lock_fails args w = true ->
  exists w',
    Dataset.__init__ args w
    = (Raise (CouldNotCreateNewDatasetException (st_root (storage w))), w')
    /\ vacant w' = true.
Proof.
  intros Hv Hr.
  destruct (init_reaches_populate_meta args w)
    as (self1 & w1 & -> & Hs & _ & _ & _ & _ & Hh & Hvac & _).
  rewrite bind_run, populate_meta_unfold.
  unfold is_dataset. rewrite Hh, (vacant_holds w _ Hv), Hvac, Hv.
  cbn [negb]. rewrite Hs. unfold Dataset.read_only.
  cbn [Dataset._read_only Dataset.path]. rewrite Hr.
  exists w1. split; [reflexivity|]. rewrite Hvac. exact Hv.
Qed.

Lemma read_only_open_of_vacant_location_raises_witness :
  (Dataset.__init__ read_only_args empty_local_world).1
  = Raise (CouldNotCreateNewDatasetException "/data/ds").
Proof.
  destruct (read_only_open_of_vacant_location_raises
              read_only_args empty_local_world)
    as (w' & H & _); [reflexivity|reflexivity|].
  rewrite H. reflexivity.
Defined.

(** ** Reading a meta through the cache *)

Lemma read_step_refl w : read_step w w.
Proof.
  unfold read_step. do 12 (split; [reflexivity|]).
  split; [reflexivity|]. split; [reflexivity|]. intros k m H. exact H.
Qed.

Lemma read_step_trans a b c : read_step a b -> read_step b c -> read_step a c.
Proof.
  unfold read_step.
  intros (A1 & A2 & A3 & A4 & A5 & A6 & A7 & A8 & A9 & A10 & A11 & A12 & A13 & A14 & A15)
         (B1 & B2 & B3 & B4 & B5 & B6 & B7 & B8 & B9 & B10 & B11 & B12 & B13 & B14 & B15).
  do 12 (split; [congruence|]).
  split; [etrans; eassumption|]. split.
  - intros k. rewrite B14. apply A14.
  - intros k m H. apply B15, A15, H.
Qed.

Lemma get_cachable_run key w m :
  peek_meta w key = Some m ->
  exists l w1,
    LRUCache.get_cachable key w = (Ok l, w1)
    /\ heap w1 !! l = Some m
    /\ st_cache (storage w1) !! key = Some (CObj l)
    /\ (forall k, k <> key ->
                  st_cache (storage w1) !! k = st_cache (storage w) !! k)
    /\ read_step w w1.
Proof.
  unfold peek_meta, LRUCache.get_cachable, LRUCache.getitem. intros H.
  rewrite !bind_run. cbn [get_world fst snd].
  destruct (st_cache (storage w) !! key) as [[v|l]|] eqn:Hc.
  - destruct v as [b|m'|bcm cnm]; try discriminate. injection H as ->.
    rewrite ret_run. unfold alloc. rewrite !bind_run. cbn.
    eexists _, _. split; [reflexivity|]. cbn.
    split; [rewrite lookup_app_r by reflexivity; rewrite Nat.sub_diag; reflexivity|].
    split; [apply lookup_insert_eq|].
    split; [intros k Hk; apply lookup_insert_ne; congruence|].
    unfold read_step. cbn. do 12 (split; [reflexivity|]).
    split; [|split].
    + apply prefix_app_r. reflexivity.
    + intros k. unfold holds. cbn.
      destruct (decide (k = key)) as [->|Hne].
      * rewrite lookup_insert_eq, Hc. reflexivity.
      * rewrite lookup_insert_ne by congruence. reflexivity.
    + intros k m0. unfold peek_meta. cbn.
      destruct (decide (k = key)) as [->|Hne].
      * rewrite lookup_insert_eq, Hc.
        rewrite lookup_app_r by reflexivity. rewrite Nat.sub_diag. auto.
      * rewrite lookup_insert_ne by congruence.
        destruct (st_cache (storage w) !! k) as [[v|l]|]; try auto.
        intros Hl. apply lookup_app_l_Some. exact Hl.
  - rewrite ret_run. cbn. eexists _, _. split; [reflexivity|].
    split; [exact H|]. split; [exact Hc|]. split; [reflexivity|].
    apply read_step_refl.
  - destruct (st_base (storage w) !! key) as [v|] eqn:Hb; [|discriminate].
    destruct v as [b|m'|bcm cnm]; try discriminate. injection H as ->.
    rewrite !bind_run. cbn. unfold alloc. rewrite !bind_run. cbn.
    eexists _, _. split; [reflexivity|]. cbn.
    split; [rewrite lookup_app_r by reflexivity; rewrite Nat.sub_diag; reflexivity|].
    split; [apply lookup_insert_eq|].
    split; [intros k Hk; rewrite !lookup_insert_ne by congruence; reflexivity|].
    unfold read_step. cbn. do 12 (split; [reflexivity|]).
    split; [|split].
    + apply prefix_app_r. reflexivity.
    + intros k. unfold holds. cbn.
      destruct (decide (k = key)) as [->|Hne].
      * rewrite lookup_insert_eq, Hc, Hb.
        rewrite !bool_decide_eq_true_2 by (eexists; reflexivity).
        rewrite orb_true_r. reflexivity.
      * rewrite !lookup_insert_ne by congruence. reflexivity.
    + intros k m0. unfold peek_meta. cbn.
      destruct (decide (k = key)) as [->|Hne].
      * rewrite lookup_insert_eq, Hc, Hb.
        rewrite lookup_app_r by reflexivity. rewrite Nat.sub_diag. auto.
      * rewrite !lookup_insert_ne by congruence.
        destruct (st_cache (storage w) !! k) as [[v|l]|]; try auto.
        intros Hl. apply lookup_app_l_Some. exact Hl.
Qed.

Lemma load_meta_full h vs w m :
  vstates w !! h = Some vs ->
  peek_meta w (keys.get_dataset_meta_key (vs_commit_id vs)) = Some m ->
  exists l w1,
    version_control.load_meta (Some h) w
    = (Ok tt,
       set_vstates
         (<[h := mkVS (vs_branch vs) (vs_commit_id vs) (vs_branch_commit_map vs)
                      (vs_commit_node_map vs)
                      (dict_of_list
                         (map (fun n => (n, TensorM.new n)) (meta_tensors m)))
                      (Some l)]> (vstates w)) w1)
    /\ heap w1 !! l = Some m
    /\ st_cache (storage w1) !! keys.get_dataset_meta_key (vs_commit_id vs)
       = Some (CObj l)
    /\ read_step w w1.
Proof.
  intros Hvs Hm. unfold version_control.load_meta.
  rewrite bind_run, (get_vs_ok _ _ _ _ _ eq_refl Hvs).
  destruct (get_cachable_run _ _ _ Hm) as (l & w1 & Hg & Hl & Hc & _ & Hr).
  rewrite bind_run, Hg. rewrite bind_run. unfold deref at 1. rewrite Hl.
  cbn [default]. unfold put_vs, modify.
  destruct Hr as (Hv & Hr).
  exists l, w1. rewrite Hv. split; [reflexivity|].
  split; [exact Hl|]. split; [exact Hc|]. split; [exact Hv|exact Hr].
Qed.

Lemma index_valid_new n : Index.valid Index.new n = true.
Proof. reflexivity. Qed.

Lemma num_samples_run self w h vs :
  Dataset.version_state self = Some h ->
  vstates w !! h = Some vs ->
  Dataset.num_samples self w
  = (Ok (py_min (map (fun x => Index.length (t_index x)
                                            (raw_length w (t_key x)))
                     (map snd (vs_full_tensors vs)))), w).
Proof.
  intros Hh Hvs. unfold Dataset.num_samples.
  rewrite Hh, bind_run, (get_vs_ok _ _ _ _ _ eq_refl Hvs). cbv beta iota.
  rewrite bind_run, mapM_len_run. reflexivity.
Qed.

(** The second half of [_set_derived_attributes] on a view with the
    trivial index of a plain open. *)
Lemma finish_attributes_run self w h vs :
  Dataset.version_state self = Some h ->
  vstates w !! h = Some vs ->
  Dataset.index self = Index.new ->
  finish_attributes self w
  = (Ok (Dataset.with_info
           (Some (keys.get_dataset_info_key (vs_commit_id vs))) self), w).
Proof.
  intros Hh Hvs Hi. unfold finish_attributes.
  rewrite Hh, bind_run, (get_vs_ok _ _ _ _ _ eq_refl Hvs). cbv beta iota.
  unfold version_control.load_info. rewrite bind_run, ret_run. cbv beta iota zeta.
  rewrite bind_run.
  rewrite (num_samples_run _ w h vs) by (cbn; assumption).
  cbv beta iota. cbn [Dataset.index Dataset.with_info]. rewrite Hi.
  rewrite index_valid_new. reflexivity.
Qed.

(** A plain open of a location that holds a dataset. *)
Lemma open_existing_run args w m :
  is_dataset w = true ->
  Dataset.a_index args = None ->
  Dataset.vs_truthy (Dataset.a_version_state args) w = false ->
  peek_meta w (keys.get_dataset_meta_key
                 (vs_commit_id (default first_version_state (stored_head w))))
  = Some m ->
  exists l w',
    Dataset.__init__ args w
    = (Ok (Dataset.mk (st_root (storage w))
                      (Dataset.a_read_only args || lock_fails args w)
                      Index.new
                      (Dataset.a_group_index args) (Dataset.a_token args)
                      (Dataset.a_public args) (Dataset.a_verbose args)
                      (Some (List.length (vstates w)))
                      (Some (keys.get_dataset_info_key
                               (vs_commit_id
                                  (default first_version_state (stored_head w)))))),
       w')
    /\ vstates w'
       = vstates w
         ++ [mkVS (vs_branch (default first_version_state (stored_head w)))
                  (vs_commit_id (default first_version_state (stored_head w)))
                  (vs_branch_commit_map
                     (default first_version_state (stored_head w)))
                  (vs_commit_node_map
                     (default first_version_state (stored_head w)))
                  (dict_of_list
                     (map (fun n => (n, TensorM.new n)) (meta_tensors m)))
                  (Some l)]
    /\ heap w' !! l = Some m
    /\ st_cache (storage w')
       !! keys.get_dataset_meta_key
            (vs_commit_id (default first_version_state (stored_head w)))
       = Some (CObj l)
    /\ st_base (storage w') = st_base (storage w)
    /\ st_dirty (storage w') = st_dirty (storage w)
    /\ payload w' = payload w
    /\ (forall k, holds w' k = holds w k)
    /\ (forall k m', peek_meta w k = Some m' -> peek_meta w' k = Some m').
Proof.
  intros Hd Hi Ht Hm.
  set (vs0 := default first_version_state (stored_head w)) in *.
  destruct (init_reaches_populate_meta args w)
    as (self1 & w1 & -> & Hs & Hro & Hb & Hdirty & Hroot & Hh & Hvac & Hvc
        & Hheap & Hpay & Hpeek & _ & Hvs).
  destruct (Hvs Ht) as [Hvs1 Hvs2]. fold vs0 in Hvs2.
  rewrite Hvs1, Hi in Hs. cbn [default] in Hs.
  rewrite bind_run, populate_meta_unfold.
  unfold is_dataset. rewrite Hh. fold (is_dataset w). rewrite Hd.
  rewrite bind_run.
  assert (exists we,
             (if Dataset.verbose self1
              then emit (ELogInfo (pystr.cat (Dataset.path self1)
                                             " loaded successfully."))
              else mret tt) w1 = (Ok tt, we)
             /\ vstates we = vstates w1 /\ storage we = storage w1
             /\ heap we = heap w1 /\ payload we = payload w1)
    as (we & -> & He1 & He2 & He3 & He4).
  { destruct (Dataset.verbose self1); eexists; (split; [reflexivity|]);
      repeat split. }
  assert (vstates we !! List.length (vstates w) = Some vs0) as Hlook.
  { rewrite He1, Hvs2. rewrite lookup_app_r by reflexivity.
    rewrite Nat.sub_diag. reflexivity. }
  assert (peek_meta we (keys.get_dataset_meta_key (vs_commit_id vs0)) = Some m)
    as Hpm.
  { rewrite (peek_tiers w1 we) by congruence. rewrite Hpeek. exact Hm. }
  destruct (load_meta_full _ _ _ _ Hlook Hpm) as (l & w2 & Hl & Hl1 & Hl2 & Hr).
  rewrite Hvs1. rewrite Hl. cbv beta iota.
  destruct Hr as (R1 & R2 & R3 & R4 & R5 & R6 & R7 & R8 & R9 & R10 & R11 & R12
                  & R13 & R14 & R15).
  assert (List.length (vstates w) < List.length (vstates we)) as Hlt.
  { rewrite He1, Hvs2, length_app. cbn. lia. }
  erewrite (finish_attributes_run self1 _ (List.length (vstates w))).
  2:{ exact Hvs1. }
  2:{ cbn [vstates set_vstates]. apply list_lookup_insert_eq. exact Hlt. }
  2:{ rewrite Hs. reflexivity. }
  exists l. eexists. split.
  { rewrite Hs. reflexivity. }
  cbn [vstates set_vstates storage heap payload vs_commit_id].
  split.
  { rewrite He1, Hvs2. rewrite insert_app_r_alt by reflexivity.
    rewrite Nat.sub_diag. reflexivity. }
  split; [exact Hl1|]. split; [exact Hl2|].
  split; [congruence|]. split; [congruence|]. split; [congruence|]. split.
  - intros k.
    transitivity (holds w2 k); [reflexivity|]. rewrite R14.
    transitivity (holds w1 k); [apply holds_tiers; congruence|]. apply Hh.
  - intros k m' Hk.
    assert (peek_meta w2 k = Some m') as H2.
    { apply R15. rewrite (peek_tiers w1 we) by congruence.
      rewrite Hpeek. exact Hk. }
    exact H2.
Qed.

(** ** Creating a dataset *)

Lemma flushed_base_clean h s :
  st_dirty s = ∅ -> LRUCache.flushed_base h s = st_base s.
Proof.
  intros Hd. unfold LRUCache.flushed_base. apply map_eq. intros k.
  rewrite lookup_union, lookup_omap.
  assert (filter (fun kv : string * centry => kv.1 ∈ st_dirty s) (st_cache s) !! k
          = None) as ->.
  { apply map_lookup_filter_None. right. intros x _. cbn. rewrite Hd.
    apply not_elem_of_empty. }
  cbn. destruct (st_base s !! k); reflexivity.
Qed.

Lemma flushed_base_first h k e v (d : gset string) s :
  st_cache s = {[ k := e ]} ->
  st_base s = ∅ ->
  k ∈ st_dirty s ->
  LRUCache.snapshot h e = Some v ->
  LRUCache.flushed_base h s = {[ k := v ]}.
Proof.
  intros Hc Hb Hd Hs. unfold LRUCache.flushed_base. apply map_eq. intros k'.
  rewrite lookup_union, lookup_omap, Hb, lookup_empty.
  destruct (decide (k' = k)) as [->|Hne].
  - assert (filter (fun kv : string * centry => kv.1 ∈ st_dirty s) (st_cache s) !! k
            = Some e) as ->.
    { apply map_lookup_filter_Some. split; [|exact Hd].
      rewrite Hc. apply lookup_singleton_eq. }
    cbn. rewrite Hs, lookup_singleton_eq. reflexivity.
  - assert (filter (fun kv : string * centry => kv.1 ∈ st_dirty s) (st_cache s) !! k'
            = None) as ->.
    { apply map_lookup_filter_None. left. rewrite Hc.
      apply lookup_singleton_ne. congruence. }
    cbn. rewrite lookup_singleton_ne by congruence. reflexivity.
Qed.

(** The first write to a storage that holds nothing, followed by a flush:
    the key is in both tiers and nothing is dirty, whether the automatic
    flush is on or not. *)
Lemma first_write_flushed k e v w :
  st_cache (storage w) = ∅ ->
  st_base (storage w) = ∅ ->
  st_read_only (storage w) = false ->
  LRUCache.snapshot (heap w) e = Some v ->
  exists w',
    (LRUCache.setitem k e;; LRUCache.flush) w = (Ok tt, w')
    /\ st_cache (storage w') = {[ k := e ]}
    /\ st_base (storage w') = {[ k := v ]}
    /\ st_dirty (storage w') = ∅
    /\ st_read_only (storage w') = false
    /\ st_root (storage w') = st_root (storage w)
    /\ heap w' = heap w /\ vstates w' = vstates w /\ payload w' = payload w.
Proof.
  intros Hc Hb Hr Hs.
  unfold LRUCache.setitem, LRUCache.maybe_flush, LRUCache.flush.
  munfold. cbn. rewrite Hr. cbn.
  destruct (st_autoflush (storage w)) eqn:Ha; cbn; repeat (rewrite Hr; cbn).
  - eexists. split; [reflexivity|]. cbn. rewrite Hc, Hb.
    split; [apply insert_empty|]. split; [|repeat split; assumption].
    rewrite flushed_base_clean by reflexivity. cbn.
    apply (flushed_base_first _ k e v ∅); cbn;
      [apply insert_empty|reflexivity| |exact Hs].
    apply elem_of_union_l, elem_of_singleton. reflexivity.
  - eexists. split; [reflexivity|]. cbn. rewrite Hc, Hb.
    split; [apply insert_empty|]. split; [|repeat split; assumption].
    apply (flushed_base_first _ k e v ∅); cbn;
      [apply insert_empty|reflexivity| |exact Hs].
    apply elem_of_union_l, elem_of_singleton. reflexivity.
Qed.

Lemma vacant_tiers_empty w :
  vacant w = true -> st_cache (storage w) = ∅ /\ st_base (storage w) = ∅.
Proof.
  unfold vacant. intros H. apply andb_true_iff in H as [Hc Hb].
  apply bool_decide_eq_true in Hc, Hb. apply map_size_empty_iff in Hc, Hb.
  split; assumption.
Qed.

Lemma vacant_stored_head w : vacant w = true -> stored_head w = None.
Proof.
  intros H. apply vacant_tiers_empty in H as [Hc Hb].
  unfold stored_head, stored_version_info. rewrite Hc, Hb, !lookup_empty.
  reflexivity.
Qed.

(** A plain open for writing of a location that holds nothing. *)
Lemma create_run args w :
  vacant w = true ->
  Dataset.a_read_only args || lock_fails args w = false ->
  st_read_only (storage w) = false ->
  Dataset.a_index args = None ->
  Dataset.vs_truthy (Dataset.a_version_state args) w = false ->
  exists w',
    Dataset.__init__ args w
    = (Ok (Dataset.mk (st_root (storage w)) false Index.new
                      (Dataset.a_group_index args) (Dataset.a_token args)
                      (Dataset.a_public args) (Dataset.a_verbose args)
                      (Some (List.length (vstates w)))
                      (Some (keys.get_dataset_info_key keys.FIRST_COMMIT_ID))),
       w')
    /\ vstates w'
       = vstates w
         ++ [mkVS "main" keys.FIRST_COMMIT_ID
                  {[ "main" := keys.FIRST_COMMIT_ID ]}
                  {[ keys.FIRST_COMMIT_ID :=
                       mkNode "main" keys.FIRST_COMMIT_ID None None ]}
                  [] (Some (List.length (heap w)))]
    /\ heap w' = heap w ++ [mkMeta [] []]
    /\ st_cache (storage w')
       = {[ keys.get_dataset_meta_key keys.FIRST_COMMIT_ID
            := CObj (List.length (heap w)) ]}
    /\ st_base (storage w')
       = {[ keys.get_dataset_meta_key keys.FIRST_COMMIT_ID
            := VMeta (mkMeta [] []) ]}
    /\ st_dirty (storage w') = ∅
    /\ st_read_only (storage w') = false.
Proof.
  intros Hv Hro Hsr Hi Ht.
  apply orb_false_iff in Hro as [Hro Hlf].
  destruct (init_reaches_populate_meta args w)
    as (self1 & w1 & -> & Hs & Hro1 & Hb & Hdirty & Hroot & Hh & Hvac & Hvc
        & Hheap & Hpay & Hpeek & _ & Hvs).
  destruct (Hvs Ht) as [Hvs1 Hvs2].
  rewrite (vacant_stored_head w Hv) in Hvs2. cbn [default] in Hvs2.
  rewrite Hvs1, Hi, Hro, Hlf in Hs. cbn [default orb] in Hs.
  rewrite Hlf, orb_false_r in Hro1.
  destruct (vacant_tiers_empty w Hv) as [Hc0 Hb0].
  specialize (Hvc Hv).
  rewrite bind_run, populate_meta_unfold.
  unfold is_dataset. rewrite Hh, (vacant_holds w _ Hv), Hvac, Hv.
  cbn [negb]. subst self1. unfold Dataset.read_only at 1.
  cbn [Dataset._read_only Dataset.version_state Dataset.path].
  assert (vstates w1 !! List.length (vstates w) = Some first_version_state)
    as Hlook.
  { rewrite Hvs2. rewrite lookup_app_r by reflexivity.
    rewrite Nat.sub_diag. reflexivity. }
  rewrite bind_run, (get_vs_ok _ _ _ _ _ eq_refl Hlook). cbv beta iota zeta.
  rewrite bind_run. unfold alloc at 1. cbv beta iota.
  rewrite bind_run. unfold put_vs at 1, modify at 1. cbv beta iota.
  set (w2 := set_vstates _ _).
  assert (st_cache (storage w2) = ∅ /\ st_base (storage w2) = ∅
          /\ st_read_only (storage w2) = false
          /\ heap w2 = heap w ++ [mkMeta [] []])
    as (Hc2 & Hb2 & Hr2 & Hh2).
  { subst w2. cbn. repeat split; congruence. }
  assert (LRUCache.snapshot (heap w2) (CObj (List.length (heap w1)))
          = Some (VMeta (mkMeta [] []))) as Hsnap.
  { unfold LRUCache.snapshot. rewrite Hh2, Hheap.
    rewrite lookup_app_r by reflexivity.
    rewrite Nat.sub_diag. reflexivity. }
  destruct (first_write_flushed
              (keys.get_dataset_meta_key (vs_commit_id first_version_state))
              _ _ w2 Hc2 Hb2 Hr2 Hsnap)
    as (w3 & Hrun & Hc3 & Hb3 & Hd3 & Hr3 & Hroot3 & Hh3 & Hv3 & Hp3).
  unfold Dataset.flush, Dataset._register_dataset.
  rewrite bind_run in Hrun.
  rewrite bind_run.
  destruct (LRUCache.setitem _ _ w2) as [[[]|e] w2'] eqn:Hset; [|discriminate].
  rewrite bind_run, Hrun. rewrite ret_run.
  assert (vstates w3 !! List.length (vstates w)
          = Some (mkVS "main" keys.FIRST_COMMIT_ID
                       {[ "main" := keys.FIRST_COMMIT_ID ]}
                       {[ keys.FIRST_COMMIT_ID :=
                            mkNode "main" keys.FIRST_COMMIT_ID None None ]}
                       [] (Some (List.length (heap w1))))) as Hlook3.
  { rewrite Hv3. subst w2. cbn [vstates set_vstates set_heap].
    apply list_lookup_insert_eq. rewrite Hvs2, length_app. cbn. lia. }
  erewrite (finish_attributes_run _ w3 (List.length (vstates w)));
    [|reflexivity|exact Hlook3|reflexivity].
  exists w3. split; [reflexivity|].
  split.
  { rewrite Hv3. subst w2. cbn [vstates set_vstates set_heap].
    rewrite Hvs2. rewrite insert_app_r_alt by reflexivity.
    rewrite Nat.sub_diag, Hheap. reflexivity. }
  split; [congruence|]. rewrite Hheap in Hc3.
  repeat split; assumption.
Qed.

(** X9.  A plain open for writing of a location that holds nothing creates the
    dataset and persists it at once: the view is writable and positioned at
    the first commit of [main] with no tensor, the base tier holds the meta
    of that commit and nothing else, and no key is left dirty, whether the
    storage flushes automatically or not.  A later plain open of the
    location, read-only or not, then finds the dataset: it returns a view
    without tensors and writes nothing. *)
Theorem open_of_vacant_location_creates_the_dataset
        (args : Dataset.InitArgs) (w : World) :
  vacant w = true ->
  Dataset.a_read_only args || lock_fails args w = false ->
  st_read_only (storage w) = false ->
  Dataset.a_index args = None ->
  Dataset.vs_truthy (Dataset.a_version_state args) w = false ->
  exists ds w',
    Dataset.__init__ args w = (Ok ds, w')
    /\ Dataset.read_only ds = false
    /\ (Dataset.commit_id ds w').1 = Ok keys.FIRST_COMMIT_ID
    /\ (Dataset.branch ds w').1 = Ok "main"
    /\ (Dataset.num_samples ds w').1 = Ok 0
    /\ st_base (storage w')
       = {[ keys.get_dataset_meta_key keys.FIRST_COMMIT_ID
            := VMeta (mkMeta [] []) ]}
    /\ st_dirty (storage w') = ∅
    /\ forall args2,
         Dataset.a_index args2 = None ->
         Dataset.a_version_state args2 = None ->
         exists ds2 w2,
           Dataset.__init__ args2 w' = (Ok ds2, w2)
           /\ (Dataset.num_samples ds2 w2).1 = Ok 0
           /\ st_base (storage w2) = st_base (storage w').
Proof.
  intros Hv Hro Hsr Hi Ht.
  destruct (create_run args w Hv Hro Hsr Hi Ht)
    as (w' & Hrun & Hvs & Hh & Hc & Hb & Hd & Hr).
  eexists _, w'. split; [exact Hrun|].
  assert (vstates w' !! List.length (vstates w)
          = Some (mkVS "main" keys.FIRST_COMMIT_ID
                       {[ "main" := keys.FIRST_COMMIT_ID ]}
                       {[ keys.FIRST_COMMIT_ID :=
                            mkNode "main" keys.FIRST_COMMIT_ID None None ]}
                       [] (Some (List.length (heap w))))) as Hlook.
  { rewrite Hvs. rewrite lookup_app_r by reflexivity.
    rewrite Nat.sub_diag. reflexivity. }
  split; [reflexivity|].
  split.
  { unfold Dataset.commit_id. cbn [Dataset.version_state].
    rewrite bind_run, (get_vs_ok _ _ _ _ _ eq_refl Hlook). reflexivity. }
  split.
  { unfold Dataset.branch. cbn [Dataset.version_state].
    rewrite bind_run, (get_vs_ok _ _ _ _ _ eq_refl Hlook). reflexivity. }
  split.
  { erewrite num_samples_run; [|reflexivity|exact Hlook]. reflexivity. }
  split; [exact Hb|]. split; [exact Hd|].
  intros args2 Hi2 Hv2.
  assert (is_dataset w' = true) as Hds.
  { unfold is_dataset, holds. rewrite Hb, lookup_singleton_eq.
    rewrite (bool_decide_eq_true_2 (is_Some (Some _))) by (eexists; reflexivity).
    apply orb_true_r. }
  assert (stored_head w' = None) as Hsh.
  { unfold stored_head, stored_version_info. rewrite Hc, Hb.
    rewrite !lookup_singleton_ne by discriminate. reflexivity. }
  assert (peek_meta w' (keys.get_dataset_meta_key keys.FIRST_COMMIT_ID)
          = Some (mkMeta [] [])) as Hpm.
  { unfold peek_meta. rewrite Hc, lookup_singleton_eq, Hh.
    rewrite lookup_app_r by reflexivity. rewrite Nat.sub_diag. reflexivity. }
  destruct (open_existing_run args2 w' (mkMeta [] [])) as
    (l & w2 & Hrun2 & Hvs2 & _ & _ & Hb2 & _);
    [exact Hds|exact Hi2|rewrite Hv2; reflexivity
    |rewrite Hsh; exact Hpm|].
  eexists _, w2. split; [exact Hrun2|]. split; [|exact Hb2].
  erewrite num_samples_run; [|reflexivity|].
  2:{ rewrite Hvs2. rewrite lookup_app_r by reflexivity.
      rewrite Nat.sub_diag. reflexivity. }
  reflexivity.
Qed.

Lemma open_of_vacant_location_creates_the_dataset_witness :
  exists ds w',
    Dataset.__init__ open_args empty_local_world = (Ok ds, w')
    /\ Dataset.read_only ds = false
    /\ st_dirty (storage w') = ∅.
Proof.
  destruct (open_of_vacant_location_creates_the_dataset
              open_args empty_local_world)
    as (ds & w' & H & Hr & _ & _ & _ & _ & Hd & _);
    [reflexivity..|].
  exists ds, w'. repeat split; assumption.
Defined.

(** X10.  A plain open of a location that holds a dataset returns a view with a
    version state of its own, positioned at the head of [main] that the
    stored version info gives (the first commit when there is none), with
    one full, unindexed handle for every tensor name that the stored meta of
    that commit lists.  The view is read-only when asked to be or when the
    lock is held elsewhere; its group is the one that was passed, whether
    the dataset has such a group or not.  Nothing is written. *)
Theorem open_loads_the_tensors_of_the_stored_meta
        (args : Dataset.InitArgs) (w : World) (m : DatasetMeta) :
  is_dataset w = true ->
  Dataset.a_index args = None ->
  Dataset.vs_truthy (Dataset.a_version_state args) w = false ->
  peek_meta w (keys.get_dataset_meta_key
                 (vs_commit_id (default first_version_state (stored_head w))))
  = Some m ->
  exists ds w' vs,
    Dataset.__init__ args w = (Ok ds, w')
    /\ Dataset.version_state ds = Some (List.length (vstates w))
    /\ vstates w' !! List.length (vstates w) = Some vs
    /\ vs_branch vs = "main"
    /\ vs_commit_id vs
       = vs_commit_id (default first_version_state (stored_head w))
    /\ vs_full_tensors vs
       = dict_of_list (map (fun n => (n, TensorM.new n)) (meta_tensors m))
    /\ Dataset.read_only ds = Dataset.a_read_only args || lock_fails args w
    /\ Dataset.group_index ds = Dataset.a_group_index args
    /\ st_base (storage w') = st_base (storage w)
    /\ st_dirty (storage w') = st_dirty (storage w).
Proof.
  intros Hd Hi Ht Hm.
  destruct (open_existing_run args w m Hd Hi Ht Hm)
    as (l & w' & Hrun & Hvs & _ & _ & Hb & Hdirty & _).
  eexists _, w', _. split; [exact Hrun|]. split; [reflexivity|].
  split.
  { rewrite Hvs. rewrite lookup_app_r by reflexivity.
    rewrite Nat.sub_diag. reflexivity. }
  cbn. split.
  { unfold stored_head. destruct (stored_version_info w) as [[bcm cnm]|];
      [|reflexivity].
    destruct (bcm !! "main") as [c|]; [|reflexivity].
    destruct (cnm !! c); reflexivity. }
  repeat split; assumption.
Qed.

Lemma open_loads_the_tensors_of_the_stored_meta_witness :
  exists ds w',
    Dataset.__init__ open_args s3_locked_world = (Ok ds, w')
    /\ Dataset.read_only ds = true.
Proof.
  destruct (open_loads_the_tensors_of_the_stored_meta
              open_args s3_locked_world (mkMeta ["images"] []))
    as (ds & w' & vs & H & _ & _ & _ & _ & _ & Hr & _);
    [reflexivity..|].
  exists ds, w'. split; [exact H|exact Hr].
Defined.

(** ** What keeps the position *)

Lemma same_position_refl w : same_position w w.
Proof. intros h vs H. exists vs. repeat split. exact H. Qed.

Lemma same_position_trans a b c :
  same_position a b -> same_position b c -> same_position a c.
Proof.
  intros Hab Hbc h vs H.
  destruct (Hab h vs H) as (vs1 & H1 & A1 & A2 & A3 & A4).
  destruct (Hbc h vs1 H1) as (vs2 & H2 & B1 & B2 & B3 & B4).
  exists vs2. repeat split; congruence.
Qed.

Lemma same_position_vstates w w' :
  vstates w' = vstates w -> same_position w w'.
Proof. intros Hv h vs H. exists vs. rewrite Hv. repeat split. exact H. Qed.

Ltac pos_tac :=
  frame_tac same_position_refl same_position_trans
            ltac:(apply same_position_vstates; try case_match; reflexivity).

Abbreviation steady := (respects same_position ends).

Lemma pos_flush : steady LRUCache.flush.
Proof. unfold LRUCache.flush. pos_tac. Qed.
#[local] Hint Resolve pos_flush : frame.

Lemma pos_maybe_flush : steady LRUCache.maybe_flush.
Proof. unfold LRUCache.maybe_flush. pos_tac. Qed.
#[local] Hint Resolve pos_maybe_flush : frame.

Lemma pos_set_autoflush b : steady (LRUCache.set_autoflush b).
Proof. unfold LRUCache.set_autoflush. pos_tac. Qed.
#[local] Hint Resolve pos_set_autoflush : frame.

Lemma pos_getitem key : steady (LRUCache.getitem key).
Proof. unfold LRUCache.getitem. pos_tac. Qed.
#[local] Hint Resolve pos_getitem : frame.

Lemma pos_contains key : steady (LRUCache.contains key).
Proof. unfold LRUCache.contains. pos_tac. Qed.
#[local] Hint Resolve pos_contains : frame.

Lemma pos_empty : steady LRUCache.empty.
Proof. unfold LRUCache.empty. pos_tac. Qed.
#[local] Hint Resolve pos_empty : frame.

Lemma pos_setitem key e : steady (LRUCache.setitem key e).
Proof. unfold LRUCache.setitem. pos_tac. Qed.
#[local] Hint Resolve pos_setitem : frame.

Lemma pos_clear : steady LRUCache.clear.
Proof. unfold LRUCache.clear. pos_tac. Qed.
#[local] Hint Resolve pos_clear : frame.

Lemma pos_alloc m : steady (alloc m).
Proof.
  intros w. split; [|discriminate]. apply same_position_vstates. reflexivity.
Qed.
#[local] Hint Resolve pos_alloc : frame.

Lemma pos_alloc_vs vs : steady (alloc_vs vs).
Proof.
  intros w. split; [|discriminate]. intros h vs0 H. exists vs0.
  repeat split. cbn. apply lookup_app_l_Some. exact H.
Qed.
#[local] Hint Resolve pos_alloc_vs : frame.

Lemma pos_assign l m : steady (assign l m).
Proof. unfold assign. pos_tac. Qed.
#[local] Hint Resolve pos_assign : frame.

Lemma pos_emit e : steady (emit e).
Proof. unfold emit. pos_tac. Qed.
#[local] Hint Resolve pos_emit : frame.

Lemma pos_get_cachable key : steady (LRUCache.get_cachable key).
Proof. unfold LRUCache.get_cachable. pos_tac. Qed.
#[local] Hint Resolve pos_get_cachable : frame.

Lemma pos_lock c : steady (Lock.lock c).
Proof. unfold Lock.lock. pos_tac. Qed.
#[local] Hint Resolve pos_lock : frame.

Lemma pos_unlock : steady Lock.unlock.
Proof. unfold Lock.unlock. pos_tac. Qed.
#[local] Hint Resolve pos_unlock : frame.

(** A version state that is written back with the position it was read
    with. *)
Lemma same_position_put h vs w w1 fts mt :
  (h ≫= (fun i => vstates w !! i)) = Some vs ->
  same_position w w1 ->
  same_position w
    (put_vs h (mkVS (vs_branch vs) (vs_commit_id vs) (vs_branch_commit_map vs)
                    (vs_commit_node_map vs) fts mt) w1).2.
Proof.
  intros Hvs Hpos. destruct h as [i|]; [|discriminate]. cbn in Hvs.
  intros h0 vs0 H0. destruct (Hpos h0 vs0 H0) as (vs1 & H1 & A).
  unfold put_vs, modify. cbn.
  destruct (decide (h0 = i)) as [->|Hne].
  - eexists. split.
    + apply list_lookup_insert_eq. eapply lookup_lt_Some, H1.
    + cbn. assert (vs0 = vs) as -> by congruence. repeat split.
  - exists vs1. split; [|exact A].
    rewrite list_lookup_insert_ne by congruence. exact H1.
Qed.

Lemma respects_intro {A} R E (m : M A) :
  (forall w r w', m w = (r, w') -> R w w' /\ forall e, r = Raise e -> E e) ->
  respects R E m.
Proof.
  intros H w. destruct (m w) as [r w'] eqn:Hm. apply (H w r w' Hm).
Qed.

Lemma pos_load_meta h : steady (version_control.load_meta h).
Proof.
  apply respects_intro. intros w r w' Hrun.
  unfold version_control.load_meta in Hrun. rewrite bind_run in Hrun.
  unfold get_vs in Hrun.
  destruct (h ≫= (fun i => vstates w !! i)) as [vs|] eqn:Hvs.
  2:{ injection Hrun as <- <-. split; [apply same_position_refl|].
      intros e [= <-]. discriminate. }
  rewrite bind_run in Hrun.
  destruct (pos_get_cachable
              (keys.get_dataset_meta_key (vs_commit_id vs)) w) as [Hp He].
  destruct (LRUCache.get_cachable _ w) as [[l|e] w1]; cbn [fst snd] in *.
  2:{ injection Hrun as <- <-. split; [exact Hp|].
      intros e0 [= <-]. apply He. reflexivity. }
  rewrite bind_run in Hrun. unfold deref in Hrun.
  pose proof (same_position_put h vs w w1
                (dict_of_list
                   (map (fun n => (n, TensorM.new n))
                        (meta_tensors (default (mkMeta [] []) (heap w1 !! l)))))
                (Some l) Hvs Hp) as Hput.
  match type of Hrun with
  | ?x = _ => change x with (put_vs h
      (mkVS (vs_branch vs) (vs_commit_id vs) (vs_branch_commit_map vs)
            (vs_commit_node_map vs)
            (dict_of_list
               (map (fun n => (n, TensorM.new n))
                    (meta_tensors (default (mkMeta [] []) (heap w1 !! l)))))
            (Some l)) w1) in Hrun
  end.
  rewrite Hrun in Hput. cbn [snd] in Hput. split; [exact Hput|].
  intros e ->. unfold put_vs, modify in Hrun. discriminate.
Qed.
#[local] Hint Resolve pos_load_meta : frame.

Lemma pos_num_samples self : steady (Dataset.num_samples self).
Proof.
  unfold Dataset.num_samples, TensorM.len, TensorM.chunk_engine. pos_tac.
Qed.
#[local] Hint Resolve pos_num_samples : frame.

Lemma pos_load_version_info self : steady (Dataset._load_version_info self).
Proof.
  intros w. rewrite load_version_info_run. split; [|discriminate].
  cbn [snd]. intros h vs H. exists vs. repeat split.
  cbn [vstates set_vstates]. apply lookup_app_l_Some. exact H.
Qed.
#[local] Hint Resolve pos_load_version_info : frame.

Lemma pos_populate_meta self : steady (Dataset._populate_meta self).
Proof.
  apply respects_intro. intros w r w' Hrun.
  rewrite populate_meta_unfold in Hrun.
  destruct (is_dataset w).
  { assert (steady
              ((if Dataset.verbose self
                then emit (ELogInfo (pystr.cat (Dataset.path self)
                                               " loaded successfully."))
                else mret tt);;
               version_control.load_meta (Dataset.version_state self)))
      as H by pos_tac.
    specialize (H w). rewrite Hrun in H. exact H. }
  destruct (negb (vacant w)).
  { injection Hrun as <- <-. split; [apply same_position_refl|].
    intros e [= <-]. discriminate. }
  destruct (Dataset.read_only self).
  { injection Hrun as <- <-. split; [apply same_position_refl|].
    intros e [= <-]. discriminate. }
  rewrite bind_run in Hrun. unfold get_vs in Hrun.
  destruct (Dataset.version_state self ≫= (fun i => vstates w !! i))
    as [vs|] eqn:Hvs.
  2:{ injection Hrun as <- <-. split; [apply same_position_refl|].
      intros e [= <-]. discriminate. }
  cbv beta iota zeta in Hrun. rewrite bind_run in Hrun.
  unfold alloc in Hrun. cbv beta iota in Hrun. rewrite bind_run in Hrun.
  pose proof (same_position_put (Dataset.version_state self) vs w
                (set_heap (heap w ++ [mkMeta [] []]) w) (vs_full_tensors vs)
                (Some (List.length (heap w))) Hvs
                (same_position_vstates w _ eq_refl)) as Hput.
  destruct (put_vs _ _ (set_heap (heap w ++ [mkMeta [] []]) w))
    as [[[]|e] w2] eqn:Hp;
    [|unfold put_vs, modify in Hp; discriminate].
  cbn [snd] in Hput.
  assert (steady (LRUCache.setitem
                    (keys.get_dataset_meta_key (vs_commit_id vs))
                    (CObj (List.length (heap w)));;
                  Dataset.flush self;; Dataset._register_dataset self)) as H.
  { unfold Dataset.flush, Dataset._register_dataset. pos_tac. }
  specialize (H w2). rewrite Hrun in H. destruct H as [HR HE].
  split; [|exact HE]. eapply same_position_trans; eassumption.
Qed.
#[local] Hint Resolve pos_populate_meta : frame.

Lemma pos_set_derived_attributes self :
  steady (Dataset._set_derived_attributes self).
Proof.
  unfold Dataset._set_derived_attributes, version_control.load_info. pos_tac.
Qed.
#[local] Hint Resolve pos_set_derived_attributes : frame.

Lemma pos_init args : steady (Dataset.__init__ args).
Proof.
  apply respects_intro. intros w r w' Hrun.
  rewrite init_unfold, bind_run in Hrun.
  destruct (locks_when args w).
  - destruct (init_lock_stage_run
                (Dataset.mk (st_root (storage w)) (Dataset.a_read_only args)
                            [] "" None None false None None) w)
      as (w1 & Hl & _ & _ & Hv & _).
    rewrite Hl in Hrun.
    match type of Hrun with
    | Dataset._set_derived_attributes ?s w1 = _ =>
        destruct (pos_set_derived_attributes s w1) as [HR HE]
    end.
    rewrite Hrun in HR, HE. cbn [fst snd] in *. split; [|exact HE].
    eapply same_position_trans; [|exact HR].
    apply same_position_vstates, Hv.
  - rewrite ret_run in Hrun.
    match type of Hrun with
    | Dataset._set_derived_attributes ?s w = _ =>
        destruct (pos_set_derived_attributes s w) as [HR HE]
    end.
    rewrite Hrun in HR, HE. split; assumption.
Qed.
#[local] Hint Resolve pos_init : frame.

Lemma pos_meta self : steady (Dataset.meta self).
Proof. unfold Dataset.meta. pos_tac. Qed.
#[local] Hint Resolve pos_meta : frame.

Lemma pos_get_tensor_from_root self p :
  steady (Dataset._get_tensor_from_root self p).
Proof. unfold Dataset._get_tensor_from_root. pos_tac. Qed.
#[local] Hint Resolve pos_get_tensor_from_root : frame.

Lemma pos_has_group_in_root self p :
  steady (Dataset._has_group_in_root self p).
Proof. unfold Dataset._has_group_in_root. pos_tac. Qed.
#[local] Hint Resolve pos_has_group_in_root : frame.

Lemma pos_getitem_view fuel :
  forall self it, steady (Dataset.__getitem__ fuel self it).
Proof.
  induction fuel as [|fuel IH]; intros self it;
    cbn [Dataset.__getitem__]; [pos_tac|].
  destruct it as [name|s|i|]; [|pos_tac..].
  apply respects_bind; [apply same_position_trans|pos_tac|]. intros [x|];
    [pos_tac|].
  apply respects_bind; [apply same_position_trans|pos_tac|]. intros [|];
    [pos_tac|].
  destruct (pystr.has_sep name); [|pos_tac].
  apply respects_bind; [apply same_position_trans|apply IH|].
  intros [x|d]; [|apply IH].
  unfold Dataset.tensor_getitem. pos_tac.
Qed.
#[local] Hint Resolve pos_getitem_view : frame.

Lemma pos_groups self : steady (Dataset._groups self).
Proof. unfold Dataset._groups. pos_tac. Qed.
#[local] Hint Resolve pos_groups : frame.

Lemma pos_root self : steady (Dataset.root self).
Proof. unfold Dataset.root. pos_tac. Qed.
#[local] Hint Resolve pos_root : frame.

Lemma pos_parent self : steady (Dataset.parent self).
Proof. unfold Dataset.parent. pos_tac. Qed.
#[local] Hint Resolve pos_parent : frame.

(** ** The loop of [_create_group] ends *)

Lemma count_sep_le_length s : count_sep s <= String.length s.
Proof.
  induction s as [|c s IH]; [reflexivity|].
  cbn [count_sep String.length]. destruct (pystr.is_sep c); lia.
Qed.

Lemma count_sep_lt_length s :
  pystr.startswith "/" s = false -> s <> "" -> count_sep s < String.length s.
Proof.
  destruct s as [|c s]; [congruence|]. intros H _.
  apply not_absolute_head in H. cbn [count_sep String.length]. rewrite H.
  pose proof (count_sep_le_length s). lia.
Qed.

Lemma cut_last_no_sep p : pystr.has_sep p = false -> posixpath.cut_last p = ("", p).
Proof.
  induction p as [|c p IH]; [reflexivity|].
  cbn [pystr.has_sep posixpath.cut_last]. intros H.
  apply orb_false_iff in H as [Hc Hp]. rewrite (IH Hp), Hp, Hc. reflexivity.
Qed.

Lemma split_no_sep_head p :
  pystr.has_sep p = false -> posixpath.split p = ("", p).
Proof.
  intros H. unfold posixpath.split. rewrite (cut_last_no_sep p H). reflexivity.
Qed.

(** A name on which the loop ends within [rounds] rounds. *)
Lemma loop_name_step name n :
  pystr.startswith "/" name = false ->
  count_sep name < S n ->
  let head := fst (posixpath.split name) in
  head = "" \/ (pystr.startswith "/" head = false /\ count_sep head < n).
Proof.
  intros Ha Hn. cbv zeta.
  destruct (pystr.has_sep name) eqn:Hs.
  - destruct (split_head_tail name Hs Ha) as (_ & Hlt & Hha).
    right. split; [exact Hha|lia].
  - left. rewrite (split_no_sep_head name Hs). reflexivity.
Qed.

Lemma pos_create_group_loop rounds :
  forall self l name,
    name = "" \/ (pystr.startswith "/" name = false /\ count_sep name < rounds) ->
    steady (Dataset._create_group_loop rounds self l name).
Proof.
  induction rounds as [|n IH]; intros self l name Hname;
    cbn [Dataset._create_group_loop].
  - destruct Hname as [->|[_ H]]; [|lia]. cbn. pos_tac.
  - destruct (String.eqb_spec name "") as [->|Hne]; [pos_tac|].
    destruct Hname as [->|[Ha Hn]]; [congruence|].
    apply respects_bind; [apply same_position_trans|pos_tac|]. intros vs.
    destruct (is_none _); [|pos_tac].
    apply respects_bind; [apply same_position_trans|pos_tac|]. intros m.
    apply respects_bind; [apply same_position_trans|pos_tac|]. intros _.
    apply IH. apply loop_name_step; assumption.
Qed.

Lemma pos__create_group fuel self name :
  pystr.startswith "/" name = false ->
  steady (Dataset._create_group fuel self name).
Proof.
  intros Ha. unfold Dataset._create_group.
  apply respects_bind; [apply same_position_trans|pos_tac|]. intros vs.
  cbv zeta.
  apply respects_bind; [apply same_position_trans|pos_tac|]. intros l.
  destruct (String.eqb_spec name "") as [->|Hne]; [cbn; pos_tac|].
  cbn [orb]. destruct (pystr.mem name Dataset.dir); [pos_tac|].
  apply respects_bind; [apply same_position_trans| |intros _; pos_tac].
  apply pos_create_group_loop. right. split; [exact Ha|].
  apply count_sep_lt_length; assumption.
Qed.

Lemma pos_create_group fuel :
  forall self name, steady (Dataset.create_group fuel self name).
Proof.
  induction fuel as [|fuel IH]; intros self name;
    cbn [Dataset.create_group]; [pos_tac|].
  destruct (negb (Dataset._is_root self)).
  - apply respects_bind; [apply same_position_trans|pos_tac|]. intros r.
    apply IH.
  - cbv zeta.
    apply respects_bind; [apply same_position_trans|pos_tac|]. intros gs.
    destruct (pystr.mem _ gs); [pos_tac|].
    apply pos__create_group. apply normalize_shape.
Qed.

(** ** Views of the same dataset *)

Lemma finish_attributes_fields self w ds w' :
  finish_attributes self w = (Ok ds, w') ->
  ds = Dataset.with_info (Dataset.info ds) self.
Proof.
  unfold finish_attributes. intros H.
  apply bind_inv_ok in H as (vs & w1 & _ & H).
  apply bind_inv_ok in H as (i & w2 & _ & H).
  cbv zeta in H.
  apply bind_inv_ok in H as (n & w3 & _ & H).
  destruct (Index.valid _ n); [|discriminate].
  rewrite ret_run in H. injection H as <- <-. reflexivity.
Qed.

Lemma pos_finish_attributes self : steady (finish_attributes self).
Proof. unfold finish_attributes, version_control.load_info. pos_tac. Qed.

Lemma stored_head_main w :
  vs_branch (default first_version_state (stored_head w)) = "main".
Proof.
  unfold stored_head. destruct (stored_version_info w) as [[bcm cnm]|];
    [|reflexivity].
  destruct (bcm !! "main") as [c|]; [|reflexivity].
  destruct (cnm !! c); reflexivity.
Qed.

(** A constructor call that passes no version state: the view it returns
    has a version state of its own, at the head of [main]. *)
Lemma init_fresh_state args w ds w' :
  Dataset.vs_truthy (Dataset.a_version_state args) w = false ->
  Dataset.__init__ args w = (Ok ds, w') ->
  ds = Dataset.mk (st_root (storage w))
                  (Dataset.a_read_only args || lock_fails args w)
                  (default Index.new (Dataset.a_index args))
                  (Dataset.a_group_index args) (Dataset.a_token args)
                  (Dataset.a_public args) (Dataset.a_verbose args)
                  (Some (List.length (vstates w))) (Dataset.info ds)
  /\ exists vs,
       vstates w' !! List.length (vstates w) = Some vs
       /\ vs_branch vs = "main"
       /\ vs_commit_id vs
          = vs_commit_id (default first_version_state (stored_head w)).
Proof.
  intros Ht Hrun.
  destruct (init_reaches_populate_meta args w)
    as (self1 & w1 & Hi & Hs & _ & _ & _ & _ & _ & _ & _ & _ & _ & _ & _ & Hvs).
  destruct (Hvs Ht) as [Hvs1 Hvs2]. rewrite Hvs1 in Hs.
  rewrite Hi in Hrun. apply bind_inv_ok in Hrun as ([] & w2 & Hp & Hf).
  pose proof (finish_attributes_fields _ _ _ _ Hf) as Hds.
  split; [rewrite Hds, Hs; reflexivity|].
  destruct (pos_populate_meta self1 w1) as [HR1 _]. rewrite Hp in HR1.
  destruct (pos_finish_attributes self1 w2) as [HR2 _]. rewrite Hf in HR2.
  cbn [snd] in *.
  destruct (same_position_trans _ _ _ HR1 HR2 (List.length (vstates w))
              (default first_version_state (stored_head w)))
    as (vs & Hl & Hb & Hc & _).
  { rewrite Hvs2. rewrite lookup_app_r by reflexivity.
    rewrite Nat.sub_diag. reflexivity. }
  exists vs. split; [exact Hl|]. split; [|exact Hc].
  rewrite Hb. apply stored_head_main.
Qed.

(** X11.  [root] of a group view builds the root view anew: same index, same
    read-only flag, the automatic flush of the storage put back as it was,
    no attempt on the lock.  It does not pass the version state on: the root
    view has a version state of its own, loaded from the storage at the head
    of [main], whatever commit the group view is positioned at. *)
Theorem root_is_rebuilt_at_the_head_of_main
        (self ds : Dataset.t) (w w' : World) :
  Dataset._is_root self = false ->
  Dataset.root self w = (Ok ds, w') ->
  Dataset._is_root ds = true
  /\ Dataset.index ds = Dataset.index self
  /\ Dataset.read_only ds = Dataset.read_only self
  /\ st_autoflush (storage w') = st_autoflush (storage w)
  /\ lock_attempts w' = lock_attempts w
  /\ Dataset.version_state ds = Some (List.length (vstates w))
  /\ exists vs,
       vstates w' !! List.length (vstates w) = Some vs
       /\ vs_branch vs = "main"
       /\ vs_commit_id vs
          = vs_commit_id (default first_version_state (stored_head w)).
Proof.
  intros Hr Hrun. unfold Dataset.root in Hrun. rewrite Hr in Hrun.
  apply bind_inv_ok in Hrun as (w0 & w0' & Hg & Hrun).
  injection Hg as <- <-.
  apply bind_inv_ok in Hrun as (d & w1 & Hi & Hrun).
  apply bind_inv_ok in Hrun as ([] & w2 & Hs & Hrun).
  rewrite ret_run in Hrun. injection Hrun as <- <-.
  unfold LRUCache.set_autoflush, modify in Hs. injection Hs as <-.
  match type of Hi with
  | Dataset.__init__ ?a w = _ =>
      destruct (quiet_init_view a eq_refl w) as [(_ & Hla & _) _]
  end.
  rewrite Hi in Hla. cbn [snd] in Hla.
  pose proof (fun H => init_fresh_state _ _ _ _ H Hi) as Hfresh.
  destruct (Hfresh eq_refl) as (Hd & vs & Hl & Hb & Hc).
  unfold lock_fails, locks_when in Hd. cbn in Hd.
  rewrite andb_false_r, orb_false_r in Hd.
  rewrite Hd. cbn. repeat split; try assumption.
  exists vs. repeat split; assumption.
Qed.

Lemma root_is_rebuilt_at_the_head_of_main_witness :
  exists ds w',
    Dataset.root group_view grouped_world = (Ok ds, w')
    /\ Dataset._is_root ds = true
    /\ Dataset.version_state ds = Some 1.
Proof.
  destruct (Dataset.root group_view grouped_world) as [[ds|e] w'] eqn:E;
    [|vm_compute in E; discriminate].
  exists ds, w'. split; [reflexivity|].
  destruct (root_is_rebuilt_at_the_head_of_main group_view ds grouped_world w'
              eq_refl E) as (H1 & _ & _ & _ & _ & H2 & _).
  split; assumption.
Defined.

(** X12.  [parent] of a root view is [None], and nothing happens.  [parent] of a
    group view is a view of the group one level up, [dirname(group_index)],
    with the same index and read-only flag; the automatic flush of the
    storage is put back as it was and the lock is not touched.  As [root]
    does, it loads a version state of its own at the head of [main]. *)
Theorem parent_is_the_enclosing_group
        (self : Dataset.t) (w : World) :
  (Dataset._is_root self = true ->
   Dataset.parent self w = (Ok None, w))
  /\ (Dataset._is_root self = false ->
      forall p w',
        Dataset.parent self w = (Ok p, w') ->
        exists ds,
          p = Some ds
          /\ Dataset.group_index ds
             = posixpath.dirname (Dataset.group_index self)
          /\ Dataset.index ds = Dataset.index self
          /\ Dataset.read_only ds = Dataset.read_only self
          /\ st_autoflush (storage w') = st_autoflush (storage w)
          /\ lock_attempts w' = lock_attempts w
          /\ Dataset.version_state ds = Some (List.length (vstates w))
          /\ exists vs,
               vstates w' !! List.length (vstates w) = Some vs
               /\ vs_branch vs = "main").
Proof.
  split.
  - intros Hr. unfold Dataset.parent. rewrite Hr. reflexivity.
  - intros Hr p w' Hrun. unfold Dataset.parent in Hrun. rewrite Hr in Hrun.
    apply bind_inv_ok in Hrun as (w0 & w0' & Hg & Hrun).
    injection Hg as <- <-.
    apply bind_inv_ok in Hrun as (d & w1 & Hi & Hrun).
    apply bind_inv_ok in Hrun as ([] & w2 & Hs & Hrun).
    rewrite ret_run in Hrun. injection Hrun as <- <-.
    unfold LRUCache.set_autoflush, modify in Hs. injection Hs as <-.
    match type of Hi with
    | Dataset.__init__ ?a w = _ =>
        destruct (quiet_init_view a eq_refl w) as [(_ & Hla & _) _]
    end.
    rewrite Hi in Hla. cbn [snd] in Hla.
    pose proof (fun H => init_fresh_state _ _ _ _ H Hi) as Hfresh.
  destruct (Hfresh eq_refl) as (Hd & vs & Hl & Hb & Hc).
    unfold lock_fails, locks_when in Hd. cbn in Hd.
    rewrite andb_false_r, orb_false_r in Hd.
    exists d. split; [reflexivity|].
    rewrite Hd. cbn. repeat split; try assumption.
    exists vs. split; assumption.
Qed.

(** X13.  Subscripting a view by an integer, a slice or a list, or by an index,
    returns a view of the same group of the same dataset: it shares the
    version state of the view it was made from, keeps its read-only flag and
    token, and its index is the index of that view with the subscript applied
    to it.  The view is built without an attempt on the lock and without a
    change of the position; [public] and [verbose] are not inherited. *)
Theorem subscript_by_index_narrows_the_view
        (fuel : nat) (self : Dataset.t) (w : World) :
  Dataset.vs_truthy (Dataset.version_state self) w = true ->
  (forall s v w',
      Dataset.__getitem__ (S fuel) self (Dataset.ISel s) w = (Ok v, w') ->
      v = Dataset.VDataset
            (Dataset.mk (st_root (storage w)) (Dataset._read_only self)
                        (Index.getitem (Dataset.index self) s)
                        (Dataset.group_index self) (Dataset._token self)
                        (Some true) false (Dataset.version_state self)
                        (match v with
                         | Dataset.VDataset d => Dataset.info d
                         | _ => None
                         end))
      /\ same_lock w w' /\ same_position w w')
  /\ (forall i v w',
         Dataset.__getitem__ (S fuel) self (Dataset.IIndex i) w = (Ok v, w') ->
         v = Dataset.VDataset
               (Dataset.mk (st_root (storage w)) (Dataset._read_only self)
                           (Index.compose (Dataset.index self) i)
                           (Dataset.group_index self) (Dataset._token self)
                           (Some true) false (Dataset.version_state self)
                           (match v with
                            | Dataset.VDataset d => Dataset.info d
                            | _ => None
                            end))
         /\ same_lock w w' /\ same_position w w').
Proof.
  intros Ht. split.
  - intros s v w' Hrun. cbn [Dataset.__getitem__] in Hrun.
    apply bind_inv_ok in Hrun as (d & w1 & Hi & Hrun).
    rewrite ret_run in Hrun. injection Hrun as <- <-.
    match type of Hi with
    | Dataset.__init__ ?a w = _ =>
        destruct (quiet_init_view a eq_refl w) as [Hq _];
        destruct (pos_init a w) as [Hp _];
        pose proof (init_view_fields a w d w1 _ eq_refl Ht Hi) as Hf
    end.
    rewrite Hi in Hq, Hp. cbn in Hf.
    split; [f_equal; exact Hf|]. split; assumption.
  - intros i v w' Hrun. cbn [Dataset.__getitem__] in Hrun.
    apply bind_inv_ok in Hrun as (d & w1 & Hi & Hrun).
    rewrite ret_run in Hrun. injection Hrun as <- <-.
    match type of Hi with
    | Dataset.__init__ ?a w = _ =>
        destruct (quiet_init_view a eq_refl w) as [Hq _];
        destruct (pos_init a w) as [Hp _];
        pose proof (init_view_fields a w d w1 _ eq_refl Ht Hi) as Hf
    end.
    rewrite Hi in Hq, Hp. cbn in Hf.
    split; [f_equal; exact Hf|]. split; assumption.
Qed.

Lemma subscript_by_index_narrows_the_view_witness :
  exists d w',
    Dataset.__getitem__ 3 local_root
      (Dataset.ISel (Index.SSlice 2 (Some 5))) sliced_world
    = (Ok (Dataset.VDataset d), w')
    /\ Dataset.index d = Dataset.index sliced_view
    /\ Dataset.version_state d = Some 0.
Proof.
  destruct (Dataset.__getitem__ 3 local_root
              (Dataset.ISel (Index.SSlice 2 (Some 5))) sliced_world)
    as [[v|e] w'] eqn:E; [|vm_compute in E; discriminate].
  destruct (subscript_by_index_narrows_the_view 2 local_root sliced_world
              eq_refl) as [H _].
  destruct (H _ _ _ E) as (-> & _).
  eexists _, w'. split; [reflexivity|]. split; reflexivity.
Defined.

(** ** The position is kept, and the calls end *)

Lemma pos_tensors self : steady (Dataset.tensors self).
Proof. unfold Dataset.tensors, Dataset._all_tensors_filtered. pos_tac. Qed.
#[local] Hint Resolve pos_tensors : frame.

Lemma pos_len self : steady (Dataset.__len__ self).
Proof.
  unfold Dataset.__len__, TensorM.len, TensorM.chunk_engine. pos_tac.
Qed.
#[local] Hint Resolve pos_len : frame.

Lemma pos_size_approx self : steady (Dataset.size_approx self).
Proof. unfold Dataset.size_approx, TensorM.chunk_engine. pos_tac. Qed.
#[local] Hint Resolve pos_size_approx : frame.

Lemma pos_delete size self large_ok : steady (Dataset.delete size self large_ok).
Proof. unfold Dataset.delete. pos_tac. Qed.

Lemma pos_groups_filtered self : steady (Dataset._groups_filtered self).
Proof. unfold Dataset._groups_filtered. pos_tac. Qed.
#[local] Hint Resolve pos_groups_filtered : frame.

Lemma pos_groups_views fuel self : steady (Dataset.groups fuel self).
Proof. unfold Dataset.groups. pos_tac. Qed.

Lemma pos_exit self : steady (Dataset.__exit__ self).
Proof. unfold Dataset.__exit__, Dataset.flush. pos_tac. Qed.

(** X14.  Opening a view, subscripting, listing the tensors or the groups,
    taking the length, creating a group, going to the root or the parent,
    leaving a [with] block and deleting all leave every version state on
    the branch and the commit it was on, with the same maps of branches and
    commit nodes, whether they return or raise.  [create_group] in
    particular never checks out, where [create_tensor] does through
    [auto_checkout]. *)
Theorem opening_reading_and_grouping_keep_the_position (w : World) :
  (forall args, same_position w (Dataset.__init__ args w).2)
  /\ (forall fuel self it, same_position w (Dataset.__getitem__ fuel self it w).2)
  /\ (forall self, same_position w (Dataset.tensors self w).2)
  /\ (forall fuel self, same_position w (Dataset.groups fuel self w).2)
  /\ (forall self, same_position w (Dataset.__len__ self w).2)
  /\ (forall fuel self name,
         same_position w (Dataset.create_group fuel self name w).2)
  /\ (forall self, same_position w (Dataset.root self w).2)
  /\ (forall self, same_position w (Dataset.parent self w).2)
  /\ (forall self, same_position w (Dataset.__exit__ self w).2)
  /\ (forall size self large_ok,
         same_position w (Dataset.delete size self large_ok w).2).
Proof.
  repeat split; intros.
  - apply pos_init.
  - apply pos_getitem_view.
  - apply pos_tensors.
  - apply pos_groups_views.
  - apply pos_len.
  - apply pos_create_group.
  - apply pos_root.
  - apply pos_parent.
  - apply pos_exit.
  - apply pos_delete.
Qed.

(** X15.  [create_group] ends on every name: the name it hands to the loop of
    [_create_group] has been stripped of its leading separators, so that
    every round of [name, _ = posixpath.split(name)] shortens it.  The loop
    by itself does not end on a name made of separators: on ["/"], whose
    head is ["/"] again, it appends without end. *)
Theorem create_group_ends :
  (forall fuel self name w,
      (Dataset.create_group fuel self name w).1 <> Raise Diverged)
  /\ (forall rounds self l h vs w,
         Dataset.version_state self = Some h ->
         vstates w !! h = Some vs ->
         dict_get "/" (vs_full_tensors vs) = None ->
         (Dataset._create_group_loop rounds self l "/" w).1 = Raise Diverged).
Proof.
  split.
  - intros fuel self name w H.
    destruct (pos_create_group fuel self name w) as [_ He].
    apply (He _ H). reflexivity.
  - induction rounds as [|n IH]; intros self l h vs w Hh Hvs Hd;
      [reflexivity|].
    cbn [Dataset._create_group_loop]. cbn [String.eqb Ascii.eqb].
    change (String.eqb "/" "") with false. cbv beta iota.
    rewrite Hh, bind_run, (get_vs_ok _ _ _ _ _ eq_refl Hvs). cbv beta iota.
    rewrite Hd. cbn [is_none]. rewrite bind_run. unfold deref at 1.
    cbv beta iota. rewrite bind_run. unfold assign at 1, modify at 1.
    cbv beta iota.
    change (fst (posixpath.split "/")) with "/".
    eapply IH; [exact Hh| |exact Hd].
    cbn [vstates set_heap]. exact Hvs.
Qed.

(** ** The tensors of a view *)

(** [tensors] on a well-named namespace, with the state it leaves. *)
Lemma tensors_run_full self w h vs m :
  Dataset.version_state self = Some h ->
  vstates w !! h = Some vs ->
  peek_meta w (keys.get_dataset_meta_key (vs_commit_id vs)) = Some m ->
  well_named (Dataset.group_index self) (meta_tensors m) ->
  exists l w0,
    Dataset.tensors self w =
    (Ok (map (fun x => (relname (cwd w) (Dataset.group_index self) x,
                        TensorM.getitem (TensorM.new x) (Dataset.index self)))
             (in_scope (Dataset.group_index self) (meta_tensors m))),
     set_vstates
       (<[h := mkVS (vs_branch vs) (vs_commit_id vs) (vs_branch_commit_map vs)
                    (vs_commit_node_map vs)
                    (map (fun n => (n, TensorM.new n)) (meta_tensors m))
                    (Some l)]> (vstates w)) w0)
    /\ read_step w w0.
Proof.
  intros Hh Hvs Hm Hw.
  destruct (load_meta_full h vs w m Hvs Hm) as (l & w0 & Hl & _ & _ & Hr).
  pose proof Hw as (Hnd & Hclean & Hg).
  rewrite dict_of_list_nodup in Hl by (rewrite map_fst_pairs; exact Hnd).
  exists l, w0. split; [|exact Hr].
  destruct Hr as (Hv & _ & Hc & _).
  set (w1 := set_vstates _ w0) in *.
  assert (vstates w1 !! h
          = Some (mkVS (vs_branch vs) (vs_commit_id vs) (vs_branch_commit_map vs)
                       (vs_commit_node_map vs)
                       (map (fun n => (n, TensorM.new n)) (meta_tensors m))
                       (Some l))) as Hvs1.
  { subst w1. cbn [vstates set_vstates]. apply list_lookup_insert_eq.
    eapply lookup_lt_Some, Hvs. }
  unfold Dataset.tensors, Dataset._all_tensors_filtered.
  rewrite Hh. rewrite !bind_run, Hl. cbv beta iota.
  rewrite bind_run, (get_vs_ok _ _ _ _ _ eq_refl Hvs1). cbv beta iota.
  rewrite bind_run. cbn [get_world vs_full_tensors]. cbv beta iota.
  rewrite map_fst_pairs. fold (in_scope (Dataset.group_index self) (meta_tensors m)).
  assert (cwd w1 = cwd w) as -> by (subst w1; exact Hc).
  rewrite (mapM_pure _ (relname (cwd w) (Dataset.group_index self))).
  2:{ intros x Hx.
      destruct (relname_join (cwd w) _ _ x Hw Hx) as [-> _]. reflexivity. }
  cbv beta iota. rewrite bind_run.
  rewrite (mapM_pure _
             (fun r => (r, TensorM.getitem
                             (TensorM.new (posixpath.join (Dataset.group_index self) r))
                             (Dataset.index self)))).
  2:{ intros r Hr. apply list_elem_of_fmap in Hr as (x & -> & Hx).
      destruct (relname_join (cwd w) _ _ x Hw Hx) as [_ Hj].
      rewrite bind_run, (get_vs_ok _ _ _ _ _ eq_refl Hvs1).
      cbn [vs_full_tensors]. rewrite Hj.
      rewrite (dict_get_map TensorM.new); [reflexivity|].
      apply in_scope_elem in Hx as [Hx _]. exact Hx. }
  cbv beta iota. rewrite ret_run. f_equal. f_equal.
  rewrite dict_of_list_nodup.
  - rewrite map_map. apply map_ext_in. intros x Hx.
    apply list_elem_of_In in Hx.
    destruct (relname_join (cwd w) _ _ x Hw Hx) as [_ ->]. reflexivity.
  - rewrite !map_map. cbn [fst].
    apply (relname_nodup (cwd w) _ _ Hw).
Qed.

(** X16.  On a well-named namespace, [tensors] of a view lists the tensors in the
    scope of its group under their names relative to the group, each with
    the index of the view applied to the full tensor.  Every key of that
    dictionary can be subscripted: [self[key]] gives the handle listed under
    the key, the full tensor at [group_index/key] with the index of the view
    applied, and needs no further access to the storage. *)
Theorem every_key_of_tensors_can_be_subscripted
        (fuel : nat) (self : Dataset.t) (w : World) (h : nat)
        (vs : VersionState) (m : DatasetMeta) :
  Dataset.version_state self = Some h ->
  vstates w !! h = Some vs ->
  peek_meta w (keys.get_dataset_meta_key (vs_commit_id vs)) = Some m ->
  well_named (Dataset.group_index self) (meta_tensors m) ->
  exists d w1,
    Dataset.tensors self w = (Ok d, w1)
    /\ map fst d
       = map (relname (cwd w) (Dataset.group_index self))
             (in_scope (Dataset.group_index self) (meta_tensors m))
    /\ forall k x,
         (k, x) ∈ d ->
         Dataset.__getitem__ (S fuel) self (Dataset.IStr k) w1
         = (Ok (Dataset.VTensor x), w1)
         /\ t_key x = posixpath.join (Dataset.group_index self) k
         /\ t_index x = Index.new ++ Dataset.index self
         /\ posixpath.join (Dataset.group_index self) k ∈ meta_tensors m.
Proof.
  intros Hh Hvs Hm Hw.
  destruct (tensors_run_full self w h vs m Hh Hvs Hm Hw) as (l & w0 & Ht & Hr).
  eexists _, _. split; [exact Ht|]. split.
  { rewrite map_map. reflexivity. }
  intros k x Hkx. apply list_elem_of_fmap in Hkx as (n & [= -> ->] & Hn).
  destruct (relname_join (cwd w) _ _ n Hw Hn) as [_ Hj].
  pose proof Hn as Hn'. apply in_scope_elem in Hn' as [Hn' _].
  rewrite Hj. split; [|split; [reflexivity|split; [reflexivity|exact Hn']]].
  rewrite getitem_str_unfold. cbv zeta. rewrite Hj.
  unfold Dataset._get_tensor_from_root. rewrite Hh.
  set (w1 := set_vstates _ w0).
  assert (vstates w1 !! h
          = Some (mkVS (vs_branch vs) (vs_commit_id vs) (vs_branch_commit_map vs)
                       (vs_commit_node_map vs)
                       (map (fun n => (n, TensorM.new n)) (meta_tensors m))
                       (Some l))) as Hvs1.
  { subst w1. cbn [vstates set_vstates]. apply list_lookup_insert_eq.
    eapply lookup_lt_Some, Hvs. }
  rewrite !bind_run, (get_vs_ok _ _ _ _ _ eq_refl Hvs1).
  cbn [vs_full_tensors]. rewrite (dict_get_map TensorM.new) by exact Hn'.
  reflexivity.
Qed.

Lemma every_key_of_tensors_can_be_subscripted_witness :
  exists w1,
    Dataset.tensors group_view grouped_world
    = (Ok [("x", TensorM.getitem (TensorM.new "g/x") Index.new)], w1)
    /\ Dataset.__getitem__ 1 group_view (Dataset.IStr "x") w1
       = (Ok (Dataset.VTensor (TensorM.getitem (TensorM.new "g/x") Index.new)),
          w1).
Proof.
  assert (well_named "g" ["g/x"; "y"]) as Hw.
  { split; [|split; [|right; reflexivity]].
    - apply NoDup_cons. split; [|apply NoDup_singleton].
      intros H. apply list_elem_of_singleton in H. discriminate.
    - repeat constructor. }
  destruct (every_key_of_tensors_can_be_subscripted
              0 group_view grouped_world 0 _ _ eq_refl eq_refl eq_refl Hw)
    as (d & w1 & Ht & _ & Hk).
  assert (d = [("x", TensorM.getitem (TensorM.new "g/x") Index.new)]) as ->.
  { assert ((Dataset.tensors group_view grouped_world).1 = Ok d) as H1
      by (rewrite Ht; reflexivity).
    vm_compute in H1. injection H1 as <-. reflexivity. }
  exists w1. split; [exact Ht|].
  apply Hk. apply list_elem_of_singleton. reflexivity.
Defined.

(** ** Splitting a path and joining it again *)

Lemma cut_last_cat p h t : posixpath.cut_last p = (h, t) -> pystr.cat h t = p.
Proof.
  revert h t. induction p as [|c p IH]; intros h t H.
  - injection H as <- <-. reflexivity.
  - cbn [posixpath.cut_last] in H.
    destruct (posixpath.cut_last p) as [h' t'].
    specialize (IH h' t' eq_refl).
    destruct (pystr.has_sep p).
    + injection H as <- <-. cbn. rewrite IH. reflexivity.
    + destruct (pystr.is_sep c); injection H as <- <-; reflexivity.
Qed.

Lemma has_dsep_cat_l a b :
  pystr.has_dsep (pystr.cat a b) = false -> pystr.has_dsep a = false.
Proof.
  induction a as [|x a IH]; [reflexivity|].
  destruct a as [|y a]; [reflexivity|].
  change (pystr.cat (String x (String y a)) b)
    with (String x (String y (pystr.cat a b))).
  rewrite !has_dsep_cons. intros H. apply orb_false_iff in H as [-> H].
  cbn [orb]. apply IH. exact H.
Qed.

Lemma all_sep_no_dsep s :
  pystr.all_sep s = true -> pystr.has_dsep s = false -> s = "" \/ s = "/".
Proof.
  destruct s as [|c [|d s]]; [left; reflexivity| |].
  - cbn. rewrite andb_true_r. intros H _. right. f_equal.
    unfold pystr.is_sep in H. apply Ascii.eqb_eq in H. exact H.
  - rewrite has_dsep_cons. cbn [pystr.all_sep]. intros H1 H2.
    apply andb_true_iff in H1 as [Hc H1]. apply andb_true_iff in H1 as [Hd _].
    rewrite Hc, Hd in H2. discriminate.
Qed.

Lemma rstrip_cons c s :
  pystr.rstrip (String c s)
  = match pystr.rstrip s with
    | "" => if pystr.is_sep c then "" else String c ""
    | r => String c r
    end.
Proof. reflexivity. Qed.

Lemma endswith_sep_cons c s :
  s <> "" -> pystr.endswith_sep (String c s) = pystr.endswith_sep s.
Proof. destruct s; [congruence|reflexivity]. Qed.

(** A directory part that ends with one separator. *)
Lemma rstrip_one h :
  pystr.endswith_sep h = true ->
  pystr.has_dsep h = false ->
  pystr.all_sep h = false ->
  h = pystr.cat (pystr.rstrip h) "/"
  /\ pystr.rstrip h <> ""
  /\ pystr.endswith_sep (pystr.rstrip h) = false.
Proof.
  induction h as [|c s IH]; [discriminate|].
  destruct s as [|d s'].
  - cbn. rewrite andb_true_r. intros -> _ [=].
  - intros He Hd Ha.
    rewrite endswith_sep_cons in He by discriminate.
    rewrite has_dsep_cons in Hd. apply orb_false_iff in Hd as [Hcd Hd].
    remember (String d s') as s eqn:Hs.
    cbn [pystr.all_sep] in Ha. rewrite rstrip_cons.
    destruct (pystr.all_sep s) eqn:Has.
    + destruct (all_sep_no_dsep _ Has Hd) as [H0|H0];
        [rewrite H0 in Hs; discriminate|].
      rewrite H0 in *. rewrite andb_true_r in Ha.
      cbn. rewrite Ha. cbn. rewrite Ha. repeat split. discriminate.
    + destruct (IH He Hd eq_refl) as (H1 & H2 & H3).
      destruct (pystr.rstrip s) as [|e r] eqn:Hr; [congruence|].
      split; [cbn [pystr.cat]; f_equal; exact H1|].
      split; [discriminate|].
      rewrite endswith_sep_cons by discriminate. exact H3.
Qed.

Lemma split_join x :
  pystr.has_dsep x = false ->
  posixpath.join (fst (posixpath.split x)) (snd (posixpath.split x)) = x.
Proof.
  intros Hd. unfold posixpath.split.
  destruct (posixpath.cut_last x) as [h t] eqn:E.
  pose proof (cut_last_cat x h t E) as Hcat.
  destruct (cut_last_spec x h t E) as (Ht & _ & Hs).
  pose proof (no_sep_not_absolute t Ht) as Hta.
  destruct (pystr.has_sep x) eqn:Hx.
  - destruct (Hs eq_refl) as [He _].
    assert (String.eqb h "" = false) as Hne by (destruct h; [discriminate|reflexivity]).
    rewrite Hne. cbn [negb andb fst snd].
    destruct (pystr.all_sep h) eqn:Ha; cbn [negb fst snd].
    + unfold posixpath.join. rewrite Hta, Hne, He. exact Hcat.
    + assert (pystr.has_dsep h = false) as Hdh
        by (apply (has_dsep_cat_l h t); rewrite Hcat; exact Hd).
      destruct (rstrip_one h He Hdh Ha) as (H1 & H2 & H3).
      rewrite join_relative;
        [|destruct (pystr.rstrip h); [congruence|reflexivity]|exact H3|exact Hta].
      rewrite <- Hcat. rewrite H1 at 2. rewrite cat_assoc. reflexivity.
  - rewrite (cut_last_no_sep x Hx) in E. injection E as <- <-.
    cbn. unfold posixpath.join. rewrite Hta. reflexivity.
Qed.

Lemma has_sep_cat_sep a b : pystr.has_sep (pystr.cat a (String pystr.sep b)) = true.
Proof.
  induction a as [|c a IH]; [reflexivity|].
  cbn [pystr.cat pystr.has_sep]. rewrite IH. apply orb_true_r.
Qed.

Lemma cut_last_cat_sep a b :
  pystr.has_sep b = false ->
  posixpath.cut_last (pystr.cat a (String pystr.sep b))
  = (pystr.cat a "/", b).
Proof.
  intros Hb. induction a as [|c a IH].
  - cbn [pystr.cat posixpath.cut_last]. rewrite (cut_last_no_sep b Hb), Hb.
    reflexivity.
  - cbn [pystr.cat posixpath.cut_last]. rewrite IH, has_sep_cat_sep.
    reflexivity.
Qed.

Lemma rstrip_cat_sep g :
  g <> "" -> pystr.endswith_sep g = false -> pystr.rstrip (pystr.cat g "/") = g.
Proof.
  induction g as [|c g IH]; [congruence|]. intros _ He.
  destruct g as [|d g].
  - cbn in He |- *. rewrite He. reflexivity.
  - rewrite endswith_sep_cons in He by discriminate.
    remember (String d g) as s eqn:Hs.
    cbn [pystr.cat]. rewrite rstrip_cons.
    rewrite IH by (try (rewrite Hs; discriminate); exact He).
    rewrite Hs. reflexivity.
Qed.

Lemma all_sep_cat_relative g b :
  g <> "" -> pystr.startswith "/" g = false -> pystr.all_sep (pystr.cat g b) = false.
Proof.
  destruct g as [|c g]; [congruence|]. intros _ H.
  apply not_absolute_head in H. cbn. rewrite H. reflexivity.
Qed.

Lemma split_of_join g b :
  pystr.startswith "/" g = false ->
  pystr.endswith_sep g = false ->
  pystr.has_sep b = false ->
  posixpath.split (posixpath.join g b) = (g, b).
Proof.
  intros Hg He Hb.
  pose proof (no_sep_not_absolute b Hb) as Hba.
  destruct (String.eqb_spec g "") as [->|Hne].
  - unfold posixpath.join. rewrite Hba. cbn. apply split_no_sep_head, Hb.
  - rewrite join_relative; [|apply String.eqb_neq, Hne|exact He|exact Hba].
    unfold posixpath.split. rewrite (cut_last_cat_sep g b Hb).
    rewrite (all_sep_cat_relative g "/" Hne Hg).
    assert (String.eqb (pystr.cat g "/") "" = false) as ->
      by (destruct g; [congruence|reflexivity]).
    cbn [negb andb]. rewrite (rstrip_cat_sep g Hne He). reflexivity.
Qed.

(** ** The groups and the tensors directly under a group *)

Lemma groups_run self w h vs m :
  Dataset.version_state self = Some h ->
  vstates w !! h = Some vs ->
  peek_meta w (keys.get_dataset_meta_key (vs_commit_id vs)) = Some m ->
  exists l w1,
    Dataset._groups self w = (Ok (meta_groups m), w1)
    /\ LRUCache.get_cachable (keys.get_dataset_meta_key (vs_commit_id vs)) w
       = (Ok l, w1)
    /\ heap w1 !! l = Some m
    /\ st_cache (storage w1) !! keys.get_dataset_meta_key (vs_commit_id vs)
       = Some (CObj l)
    /\ read_step w w1.
Proof.
  intros Hh Hvs Hm. unfold Dataset._groups.
  rewrite Hh, bind_run, (get_vs_ok _ _ _ _ _ eq_refl Hvs). cbv beta iota zeta.
  destruct (get_cachable_run _ _ _ Hm) as (l & w1 & Hg & Hl & Hc & _ & Hr).
  rewrite bind_run, Hg. rewrite bind_run. unfold deref at 1. rewrite Hl.
  exists l, w1. split; [reflexivity|]. split; [reflexivity|].
  split; [exact Hl|]. split; [exact Hc|exact Hr].
Qed.

Lemma omap_cons {A B} (f : A -> option B) x l :
  omap f (x :: l)
  = match f x with Some y => y :: omap f l | None => omap f l end.
Proof. reflexivity. Qed.

Lemma groups_filtered_loop_spec self gs :
  forall acc,
    Dataset._groups_filtered_loop self gs acc
    = acc ++ omap (fun g =>
                     if String.eqb (fst (posixpath.split g))
                                   (Dataset.group_index self)
                     then Some (snd (posixpath.split g)) else None) gs.
Proof.
  induction gs as [|g gs IH]; intros acc; cbn [Dataset._groups_filtered_loop].
  - cbn. rewrite app_nil_r. reflexivity.
  - rewrite omap_cons.
    destruct (posixpath.split g) as [d b]. cbn [fst snd]. rewrite IH.
    destruct (String.eqb d (Dataset.group_index self)).
    + rewrite <- app_assoc. reflexivity.
    + reflexivity.
Qed.

(** A name is directly under a group when it is that group joined with a
    name without separator. *)
Lemma directly_under g x b :
  pystr.startswith "/" g = false ->
  pystr.endswith_sep g = false ->
  pystr.has_dsep x = false ->
  posixpath.split x = (g, b) <->
  pystr.has_sep b = false /\ posixpath.join g b = x.
Proof.
  intros Hg He Hd. split.
  - intros Hs. pose proof (split_join x Hd) as Hj. rewrite Hs in Hj.
    split; [|exact Hj].
    unfold posixpath.split in Hs.
    destruct (posixpath.cut_last x) as [h t] eqn:E.
    destruct (cut_last_spec x h t E) as (Ht & _). injection Hs as _ <-.
    exact Ht.
  - intros [Hb <-]. apply split_of_join; assumption.
Qed.

(** X17.  [_groups_filtered] lists the groups directly under the group of the view
    and no deeper ones: for stored names, a name is listed exactly when it
    has no separator and the group of the view joined with it is a group of
    the dataset.  On the root view these are the groups whose name has no
    separator. *)
Theorem groups_filtered_lists_the_direct_subgroups
        (self : Dataset.t) (w : World) (h : nat)
        (vs : VersionState) (m : DatasetMeta) :
  Dataset.version_state self = Some h ->
  vstates w !! h = Some vs ->
  peek_meta w (keys.get_dataset_meta_key (vs_commit_id vs)) = Some m ->
  pystr.startswith "/" (Dataset.group_index self) = false ->
  pystr.endswith_sep (Dataset.group_index self) = false ->
  Forall (fun x => pystr.has_dsep x = false) (meta_groups m) ->
  exists bs w',
    Dataset._groups_filtered self w = (Ok bs, w')
    /\ (forall b,
           b ∈ bs <->
           pystr.has_sep b = false
           /\ posixpath.join (Dataset.group_index self) b ∈ meta_groups m)
    /\ (Dataset._is_root self = true ->
        bs = filter (fun x => pystr.has_sep x = false) (meta_groups m)).
Proof.
  intros Hh Hvs Hm Hg He Hd.
  destruct (groups_run self w h vs m Hh Hvs Hm) as (l & w1 & Hrun & _).
  unfold Dataset._groups_filtered. rewrite bind_run, Hrun. rewrite ret_run.
  eexists _, w1. split; [reflexivity|].
  rewrite groups_filtered_loop_spec. cbn [app]. split.
  - intros b. rewrite list_elem_of_omap. split.
    + intros (x & Hx & Hb).
      destruct (String.eqb_spec (fst (posixpath.split x))
                                (Dataset.group_index self)) as [Hq|]; [|discriminate].
      injection Hb as <-.
      rewrite Forall_forall in Hd.
      destruct (directly_under (Dataset.group_index self) x
                  (snd (posixpath.split x)) Hg He (Hd x Hx)) as [H1 _].
      destruct H1 as [Hb Hj].
      { rewrite <- Hq. destruct (posixpath.split x); reflexivity. }
      split; [exact Hb|]. rewrite Hj. exact Hx.
    + intros [Hb Hx]. eexists. split; [exact Hx|].
      rewrite split_of_join by assumption. cbn [fst snd].
      rewrite String.eqb_refl. reflexivity.
  - intros Hr. unfold Dataset._is_root in Hr. apply String.eqb_eq in Hr.
    rewrite Hr. clear -Hd. induction (meta_groups m) as [|x xs IH];
      [reflexivity|].
    apply Forall_cons in Hd as [Hx Hd]. rewrite omap_cons. rewrite (IH Hd).
    rewrite filter_cons.
    destruct (pystr.has_sep x) eqn:Hs.
    + destruct (decide (true = false)) as [|_]; [discriminate|].
      destruct (String.eqb_spec (fst (posixpath.split x)) "") as [Hq|];
        [|reflexivity].
      exfalso.
      destruct (directly_under "" x (snd (posixpath.split x))
                  eq_refl eq_refl Hx) as [H1 _].
      destruct H1 as [Hb Hj].
      { rewrite <- Hq. destruct (posixpath.split x); reflexivity. }
      unfold posixpath.join in Hj.
      rewrite (no_sep_not_absolute _ Hb) in Hj. cbn in Hj.
      rewrite <- Hj, Hb in Hs. discriminate.
    + destruct (decide (false = false)) as [_|]; [|congruence].
      rewrite (split_no_sep_head x Hs). reflexivity.
Qed.

Lemma groups_filtered_lists_the_direct_subgroups_witness :
  (Dataset._groups_filtered group_view grouped_world).1 = Ok ["h"]
  /\ (Dataset._groups_filtered local_root grouped_world).1 = Ok ["g"].
Proof.
  assert (Forall (fun x => pystr.has_dsep x = false) ["g"; "g/h"]) as Hd
    by (repeat constructor).
  destruct (groups_filtered_lists_the_direct_subgroups
              group_view grouped_world 0 _ _ eq_refl eq_refl eq_refl
              eq_refl eq_refl Hd) as (bs & w' & H & _).
  destruct (groups_filtered_lists_the_direct_subgroups
              local_root grouped_world 0 _ _ eq_refl eq_refl eq_refl
              eq_refl eq_refl Hd) as (bs2 & w2 & H2 & _ & Hroot).
  split.
  - rewrite H. vm_compute in H. injection H as <- _. reflexivity.
  - rewrite H2, (Hroot eq_refl). reflexivity.
Defined.

(** X18.  [_ungrouped_tensors] lists the tensors directly under the group of the
    view under their last component, and, unlike [tensors], with the handles
    of [full_tensors] as they are: the index of the view is not applied to
    them.  For stored names, a name is a key exactly when it has no
    separator and the group joined with it is a tensor of the dataset. *)
Theorem ungrouped_tensors_are_full_handles
        (self : Dataset.t) (w : World) (h : nat) (vs : VersionState) :
  Dataset.version_state self = Some h ->
  vstates w !! h = Some vs ->
  pystr.startswith "/" (Dataset.group_index self) = false ->
  pystr.endswith_sep (Dataset.group_index self) = false ->
  NoDup (map fst (vs_full_tensors vs)) ->
  Forall (fun kv : string * Tensor => pystr.has_dsep kv.1 = false)
         (vs_full_tensors vs) ->
  exists d,
    Dataset._ungrouped_tensors self w = (Ok d, w)
    /\ forall k x,
         (k, x) ∈ d <->
         pystr.has_sep k = false
         /\ (posixpath.join (Dataset.group_index self) k, x)
            ∈ vs_full_tensors vs.
Proof.
  intros Hh Hvs Hg He Hnd Hd. rewrite Forall_forall in Hd.
  unfold Dataset._ungrouped_tensors.
  rewrite Hh, bind_run, (get_vs_ok _ _ _ _ _ eq_refl Hvs). cbv beta iota.
  rewrite ret_run. eexists. split; [reflexivity|].
  set (P := fun kv : string * Tensor =>
              Is_true (String.eqb (posixpath.dirname kv.1)
                                  (Dataset.group_index self))).
  set (f := fun kv : string * Tensor => (posixpath.basename kv.1, kv.2)).
  assert (forall kv, kv ∈ filter P (vs_full_tensors vs) ->
                     kv ∈ vs_full_tensors vs
                     /\ pystr.has_sep (posixpath.basename kv.1) = false
                     /\ posixpath.join (Dataset.group_index self)
                                       (posixpath.basename kv.1) = kv.1)
    as Hin.
  { intros kv Hkv. apply list_elem_of_filter in Hkv as [HP Hkv].
    split; [exact Hkv|].
    apply (directly_under (Dataset.group_index self) kv.1
             (posixpath.basename kv.1) Hg He (Hd kv Hkv)).
    unfold P in HP. apply Is_true_true, String.eqb_eq in HP.
    unfold posixpath.dirname, posixpath.basename in *.
    destruct (posixpath.split kv.1); cbn in *. congruence. }
  rewrite dict_of_list_nodup.
  2:{ rewrite map_map. cbn [fst].
      apply (NoDup_fmap_2_strong (fun kv : string * Tensor =>
                                    posixpath.basename kv.1)).
      - intros a b Ha Hb Hab.
        destruct (Hin a Ha) as (Ha1 & _ & Ha2).
        destruct (Hin b Hb) as (Hb1 & _ & Hb2).
        assert (a.1 = b.1) as Hk by (rewrite <- Ha2, <- Hb2, Hab; reflexivity).
        destruct a as [ka xa], b as [kb xb]. cbn in Hk. subst kb.
        f_equal.
        apply (NoDup_fmap_1 fst) in Hnd as Hnd'.
        clear -Hnd Ha1 Hb1.
        induction (vs_full_tensors vs) as [|[k0 x0] l IH]; [inversion Ha1|].
        cbn in Hnd. apply NoDup_cons in Hnd as [Hk0 Hnd].
        apply elem_of_cons in Ha1 as [Ha1|Ha1];
          apply elem_of_cons in Hb1 as [Hb1|Hb1].
        + congruence.
        + exfalso. apply Hk0. injection Ha1 as <- <-.
          apply (list_elem_of_fmap_2 fst) in Hb1. exact Hb1.
        + exfalso. apply Hk0. injection Hb1 as <- <-.
          apply (list_elem_of_fmap_2 fst) in Ha1. exact Ha1.
        + apply IH; assumption.
      - apply NoDup_filter. apply (NoDup_fmap_1 fst). exact Hnd. }
  intros k x. rewrite list_elem_of_fmap. split.
  - intros (kv & Hkx & Hkv). destruct (Hin kv Hkv) as (H1 & H2 & H3).
    unfold f in Hkx. injection Hkx as -> ->.
    split; [exact H2|]. rewrite H3. destruct kv; exact H1.
  - intros [Hk Hx]. exists (posixpath.join (Dataset.group_index self) k, x).
    unfold f. cbn [fst snd]. unfold posixpath.basename.
    rewrite split_of_join by assumption. split; [reflexivity|].
    apply list_elem_of_filter. split; [|exact Hx].
    unfold P. cbn [fst]. unfold posixpath.dirname.
    rewrite split_of_join by assumption. cbn [fst].
    rewrite String.eqb_refl. exact I.
Qed.

Lemma ungrouped_tensors_are_full_handles_witness :
  (Dataset._ungrouped_tensors group_view grouped_world).1
  = Ok [("x", TensorM.new "g/x")].
Proof.
  assert (NoDup (map fst [("g/x", TensorM.new "g/x"); ("y", TensorM.new "y")]))
    as Hnd.
  { cbn. apply NoDup_cons. split; [|apply NoDup_singleton].
    intros H. apply list_elem_of_singleton in H. discriminate. }
  assert (Forall (fun kv : string * Tensor => pystr.has_dsep kv.1 = false)
                 [("g/x", TensorM.new "g/x"); ("y", TensorM.new "y")]) as Hd
    by (repeat constructor).
  destruct (ungrouped_tensors_are_full_handles
              group_view grouped_world 0 _ eq_refl eq_refl eq_refl eq_refl
              Hnd Hd) as (d & H & _).
  rewrite H. vm_compute in H. injection H as <-. reflexivity.
Defined.

(** ** Creating a group *)

Lemma get_cachable_hit key l w :
  st_cache (storage w) !! key = Some (CObj l) ->
  LRUCache.get_cachable key w = (Ok l, w).
Proof.
  intros H. unfold LRUCache.get_cachable, LRUCache.getitem.
  rewrite !bind_run. cbn [get_world fst snd]. rewrite H. reflexivity.
Qed.

(** [create_group] on a root view, up to the checks of the name. *)
Lemma create_group_unfold fuel self name w h vs m :
  Dataset._is_root self = true ->
  Dataset.version_state self = Some h ->
  vstates w !! h = Some vs ->
  peek_meta w (keys.get_dataset_meta_key (vs_commit_id vs)) = Some m ->
  exists l w1,
    heap w1 !! l = Some m
    /\ st_cache (storage w1) !! keys.get_dataset_meta_key (vs_commit_id vs)
       = Some (CObj l)
    /\ read_step w w1
    /\ Dataset.create_group (S (S fuel)) self name w
       = (let n := Dataset.normalize name in
          if pystr.mem n (meta_groups m)
          then (Raise (TensorGroupAlreadyExistsError n), w1)
          else if (String.eqb n "" || pystr.mem n Dataset.dir)%bool
          then (Raise (InvalidTensorGroupNameError n), w1)
          else
            (Dataset._create_group_loop (String.length n) self l n;;
             m' ← deref l;
             w0 ← get_world;
             assign l (mkMeta (meta_tensors m')
                              (list_set (str_hash w0) (meta_groups m')));;
             LRUCache.setitem (keys.get_dataset_meta_key (vs_commit_id vs))
                              (CObj l);;
             LRUCache.maybe_flush;;
             Dataset.__getitem__ (S fuel) self (Dataset.IStr n)) w1).
Proof.
  intros Hr Hh Hvs Hm.
  destruct (groups_run self w h vs m Hh Hvs Hm)
    as (l & w1 & Hg & _ & Hl & Hc & Hrs).
  exists l, w1. split; [exact Hl|]. split; [exact Hc|]. split; [exact Hrs|].
  cbn [Dataset.create_group]. rewrite Hr. cbn [negb]. cbv zeta.
  rewrite bind_run, Hg.
  destruct (pystr.mem (Dataset.normalize name) (meta_groups m)); [reflexivity|].
  unfold Dataset._create_group.
  assert (vstates w1 !! h = Some vs) as Hvs1.
  { destruct Hrs as (Hv & _). rewrite Hv. exact Hvs. }
  rewrite Hh, bind_run, (get_vs_ok _ _ _ _ _ eq_refl Hvs1). cbv beta iota zeta.
  rewrite bind_run, (get_cachable_hit _ l w1 Hc).
  destruct (String.eqb (Dataset.normalize name) "" || pystr.mem _ Dataset.dir);
    reflexivity.
Qed.

(** X19.  A call of [create_group] that is rejected for its name changes nothing.
    On a root view, the name of a group that exists raises
    [TensorGroupAlreadyExistsError], and otherwise an empty name or the name
    of an attribute of the dataset raises [InvalidTensorGroupNameError],
    both with the normalized name; the storage may have loaded the meta into
    the cache, and everything else, the metas included, is as it was. *)
Theorem create_group_rejects_a_name_without_a_change
        (fuel : nat) (self : Dataset.t) (name : string) (w : World)
        (h : nat) (vs : VersionState) (m : DatasetMeta) :
  Dataset._is_root self = true ->
  Dataset.version_state self = Some h ->
  vstates w !! h = Some vs ->
  peek_meta w (keys.get_dataset_meta_key (vs_commit_id vs)) = Some m ->
  let n := Dataset.normalize name in
  (pystr.mem n (meta_groups m) = true ->
   exists w',
     Dataset.create_group (S (S fuel)) self name w
     = (Raise (TensorGroupAlreadyExistsError n), w')
     /\ read_step w w')
  /\ (pystr.mem n (meta_groups m) = false ->
      (String.eqb n "" || pystr.mem n Dataset.dir)%bool = true ->
      exists w',
        Dataset.create_group (S (S fuel)) self name w
        = (Raise (InvalidTensorGroupNameError n), w')
        /\ read_step w w').
Proof.
  intros Hr Hh Hvs Hm n.
  destruct (create_group_unfold fuel self name w h vs m Hr Hh Hvs Hm)
    as (l & w1 & _ & _ & Hrs & Hrun).
  cbv zeta in Hrun. fold n in Hrun. split.
  - intros Hg. rewrite Hg in Hrun. exists w1. split; assumption.
  - intros Hg Hbad. rewrite Hg, Hbad in Hrun. exists w1. split; assumption.
Qed.

Lemma create_group_rejects_a_name_without_a_change_witness :
  (Dataset.create_group 5 local_root "//g/" grouped_world).1
  = Raise (TensorGroupAlreadyExistsError "g")
  /\ (Dataset.create_group 5 local_root "tensors" grouped_world).1
     = Raise (InvalidTensorGroupNameError "tensors")
  /\ (Dataset.create_group 5 local_root "/" grouped_world).1
     = Raise (InvalidTensorGroupNameError "").
Proof.
  destruct (create_group_rejects_a_name_without_a_change
              3 local_root "//g/" grouped_world 0 _ _
              eq_refl eq_refl eq_refl eq_refl) as [H1 _].
  destruct (create_group_rejects_a_name_without_a_change
              3 local_root "tensors" grouped_world 0 _ _
              eq_refl eq_refl eq_refl eq_refl) as [_ H2].
  destruct (create_group_rejects_a_name_without_a_change
              3 local_root "/" grouped_world 0 _ _
              eq_refl eq_refl eq_refl eq_refl) as [_ H3].
  destruct (H1 eq_refl) as (w1 & -> & _).
  destruct (H2 eq_refl eq_refl) as (w2 & -> & _).
  destruct (H3 eq_refl eq_refl) as (w3 & -> & _).
  repeat split.
Defined.

Lemma mem_app_r x l : pystr.mem x (l ++ [x]) = true.
Proof.
  unfold pystr.mem. rewrite existsb_app. cbn. rewrite String.eqb_refl.
  rewrite orb_true_r. reflexivity.
Qed.

(** X20.  A group whose parent path is a tensor is not created, but is left in
    the list of groups.  On a root view, for a valid new name whose
    [dirname] is a tensor of the dataset, [create_group] raises
    [TensorAlreadyExistsError] with that tensor, after the loop has appended
    the name to the list of groups of the cached meta: the meta now lists
    the group, the base tier is not written, and a second call for the same
    name raises [TensorGroupAlreadyExistsError]. *)
Theorem create_group_under_a_tensor_leaves_the_group_listed
        (fuel : nat) (self : Dataset.t) (name : string) (w : World)
        (h : nat) (vs : VersionState) (m : DatasetMeta) (x : Tensor) :
  Dataset._is_root self = true ->
  Dataset.version_state self = Some h ->
  vstates w !! h = Some vs ->
  peek_meta w (keys.get_dataset_meta_key (vs_commit_id vs)) = Some m ->
  stored_name name ->
  pystr.mem name Dataset.dir = false ->
  pystr.mem name (meta_groups m) = false ->
  dict_get name (vs_full_tensors vs) = None ->
  posixpath.dirname name <> "" ->
  dict_get (posixpath.dirname name) (vs_full_tensors vs) = Some x ->
  exists w',
    Dataset.create_group (S (S fuel)) self name w
    = (Raise (TensorAlreadyExistsError (posixpath.dirname name)), w')
    /\ peek_meta w' (keys.get_dataset_meta_key (vs_commit_id vs))
       = Some (mkMeta (meta_tensors m) (meta_groups m ++ [name]))
    /\ st_base (storage w') = st_base (storage w)
    /\ (Dataset.create_group (S (S fuel)) self name w').1
       = Raise (TensorGroupAlreadyExistsError name).
Proof.
  intros Hr Hh Hvs Hm (Hs1 & Hs2 & Hs3) Hdir Hg Hnt Hdn Hdt.
  assert (Dataset.normalize name = name) as Hn by (apply normalize_fixed; assumption).
  destruct (create_group_unfold fuel self name w h vs m Hr Hh Hvs Hm)
    as (l & w1 & Hl & Hc & Hrs & Hrun).
  cbv zeta in Hrun. rewrite Hn, Hg, Hdir in Hrun.
  assert (name <> "") as Hne.
  { intros ->. apply Hdn. reflexivity. }
  assert (String.eqb name "" = false) as Hne' by (apply String.eqb_neq, Hne).
  rewrite Hne' in Hrun. cbn [orb] in Hrun.
  assert (pystr.has_sep name = true) as Hsep.
  { destruct (pystr.has_sep name) eqn:E; [reflexivity|].
    exfalso. apply Hdn. unfold posixpath.dirname.
    rewrite (split_no_sep_head name E). reflexivity. }
  assert (exists r, String.length name = S (S r)) as [r Hlen].
  { pose proof (count_sep_lt_length name Hs1 Hne) as Hlt.
    assert (0 < count_sep name) as Hpos.
    { destruct (count_sep name) eqn:E; [|lia].
      apply count_sep_zero in E. congruence. }
    destruct (String.length name) as [|[|r]]; [lia|lia|]. exists r. reflexivity. }
  assert (vstates w1 !! h = Some vs) as Hvs1.
  { destruct Hrs as (Hv & _). rewrite Hv. exact Hvs. }
  set (w2 := set_heap (<[l := mkMeta (meta_tensors m) (meta_groups m ++ [name])]>
                         (heap w1)) w1).
  assert (Dataset._create_group_loop (String.length name) self l name w1
          = (Raise (TensorAlreadyExistsError (posixpath.dirname name)), w2))
    as Hloop.
  { rewrite Hlen. cbn [Dataset._create_group_loop]. rewrite Hne'.
    rewrite Hh, bind_run, (get_vs_ok _ _ _ _ _ eq_refl Hvs1). cbv beta iota.
    rewrite Hnt. cbn [is_none]. rewrite bind_run. unfold deref at 1.
    rewrite Hl. cbn [default]. cbv beta iota. rewrite bind_run.
    unfold assign at 1, modify at 1. cbv beta iota. fold w2.
    fold (posixpath.dirname name).
    rewrite (proj2 (String.eqb_neq _ _) Hdn).
    rewrite bind_run, (get_vs_ok _ _ w2 _ _ eq_refl Hvs1). cbv beta iota.
    rewrite Hdt. reflexivity. }
  rewrite bind_run, Hloop in Hrun.
  assert (peek_meta w2 (keys.get_dataset_meta_key (vs_commit_id vs))
          = Some (mkMeta (meta_tensors m) (meta_groups m ++ [name]))) as Hp2.
  { unfold peek_meta. subst w2. cbn [storage heap set_heap]. rewrite Hc.
    apply list_lookup_insert_eq. eapply lookup_lt_Some, Hl. }
  exists w2. split; [exact Hrun|]. split; [exact Hp2|]. split.
  { destruct Hrs as (_ & _ & _ & _ & _ & _ & Hb & _). exact Hb. }
  destruct (create_group_unfold fuel self name w2 h vs _ Hr Hh Hvs1 Hp2)
    as (l' & w3 & _ & _ & _ & Hrun2).
  cbv zeta in Hrun2. rewrite Hn in Hrun2. cbn [meta_groups] in Hrun2.
  rewrite mem_app_r in Hrun2. rewrite Hrun2. reflexivity.
Qed.

Lemma create_group_under_a_tensor_leaves_the_group_listed_witness :
  (Dataset.create_group 5 local_root "a/b" tensor_world).1
  = Raise (TensorAlreadyExistsError "a").
Proof.
  assert (stored_name "a/b") as Hs by (repeat split).
  assert (posixpath.dirname "a/b" <> "") as Hd by discriminate.
  destruct (create_group_under_a_tensor_leaves_the_group_listed
              3 local_root "a/b" tensor_world 0 _ _ (TensorM.new "a")
              eq_refl eq_refl eq_refl eq_refl Hs eq_refl eq_refl eq_refl
              Hd eq_refl)
    as (w' & H & _).
  rewrite H. reflexivity.
Defined.

(** ** What keeps the metas *)

Lemma meta_kept_refl w : meta_kept w w.
Proof. intros k m H. exact H. Qed.

Lemma meta_kept_trans a b c : meta_kept a b -> meta_kept b c -> meta_kept a c.
Proof. intros H1 H2 k m H. apply H2, H1, H. Qed.

Ltac mk_tac :=
  frame_tac meta_kept_refl meta_kept_trans
            ltac:(intros ? ? ?; try case_match; assumption).

Abbreviation keeps_metas := (respects meta_kept any_exn).

Lemma flush_peek w k : peek_meta (LRUCache.flush w).2 k = peek_meta w k.
Proof.
  unfold LRUCache.flush. munfold. cbn.
  destruct (st_read_only (storage w)); [reflexivity|].
  unfold peek_meta. cbn.
  destruct (st_cache (storage w) !! k) as [e|] eqn:Hc; [reflexivity|].
  unfold LRUCache.flushed_base. rewrite lookup_union, lookup_omap.
  assert (filter (fun kv : string * centry => kv.1 ∈ st_dirty (storage w))
                 (st_cache (storage w)) !! k = None) as ->.
  { apply map_lookup_filter_None. left. exact Hc. }
  cbn. destruct (st_base (storage w) !! k); reflexivity.
Qed.

Lemma mk_flush : keeps_metas LRUCache.flush.
Proof.
  intros w. split; [|intros; exact I]. intros k m H.
  rewrite flush_peek. exact H.
Qed.
#[local] Hint Resolve mk_flush : frame.

Lemma mk_maybe_flush : keeps_metas LRUCache.maybe_flush.
Proof. unfold LRUCache.maybe_flush. mk_tac. Qed.
#[local] Hint Resolve mk_maybe_flush : frame.

Lemma mk_set_autoflush b : keeps_metas (LRUCache.set_autoflush b).
Proof. unfold LRUCache.set_autoflush. mk_tac. Qed.
#[local] Hint Resolve mk_set_autoflush : frame.

Lemma mk_getitem key : keeps_metas (LRUCache.getitem key).
Proof.
  intros w. split; [|intros; exact I]. intros k m H.
  rewrite getitem_peek. exact H.
Qed.
#[local] Hint Resolve mk_getitem : frame.

Lemma mk_contains key : keeps_metas (LRUCache.contains key).
Proof. unfold LRUCache.contains. mk_tac. Qed.
#[local] Hint Resolve mk_contains : frame.

Lemma mk_empty : keeps_metas LRUCache.empty.
Proof. unfold LRUCache.empty. mk_tac. Qed.
#[local] Hint Resolve mk_empty : frame.

Lemma meta_kept_alloc m w : meta_kept w (alloc m w).2.
Proof.
  intros k m0. unfold peek_meta. cbn.
  destruct (st_cache (storage w) !! k) as [[v|l]|]; try auto.
  intros Hl. apply lookup_app_l_Some. exact Hl.
Qed.

Lemma mk_alloc m : keeps_metas (alloc m).
Proof. intros w. split; [apply meta_kept_alloc|discriminate]. Qed.
#[local] Hint Resolve mk_alloc : frame.

Lemma mk_alloc_vs vs : keeps_metas (alloc_vs vs).
Proof. intros w. split; [|discriminate]. intros k m H. exact H. Qed.
#[local] Hint Resolve mk_alloc_vs : frame.

Lemma mk_put_vs h vs : keeps_metas (put_vs h vs).
Proof. unfold put_vs. mk_tac. Qed.
#[local] Hint Resolve mk_put_vs : frame.

Lemma mk_emit e : keeps_metas (emit e).
Proof. unfold emit. mk_tac. Qed.
#[local] Hint Resolve mk_emit : frame.

Lemma mk_get_cachable key : keeps_metas (LRUCache.get_cachable key).
Proof.
  apply respects_intro. intros w r w' Hrun. split; [|intros; exact I].
  unfold LRUCache.get_cachable in Hrun. rewrite bind_run in Hrun.
  pose proof (mk_getitem key w) as [Hk _].
  destruct (LRUCache.getitem key w) as [[[v|l]|e] w1] eqn:Hg; cbn [snd] in Hk.
  - destruct v as [b|m|bcm cnm].
    + injection Hrun as <- <-. exact Hk.
    + rewrite bind_run in Hrun. unfold alloc at 1 in Hrun.
      cbv beta iota in Hrun. rewrite bind_run in Hrun.
      unfold modify at 1 in Hrun. cbv beta iota in Hrun.
      rewrite ret_run in Hrun. injection Hrun as <- <-.
      assert (st_cache (storage w1) !! key = Some (CBytes (VMeta m))) as Hc1.
      { unfold LRUCache.getitem in Hg. rewrite bind_run in Hg.
        cbn [get_world] in Hg.
        destruct (st_cache (storage w) !! key) as [e0|] eqn:Hc.
        - rewrite ret_run in Hg. injection Hg as -> <-. exact Hc.
        - destruct (st_base (storage w) !! key) as [v0|]; [|discriminate].
          rewrite bind_run in Hg. unfold modify at 1 in Hg.
          rewrite ret_run in Hg. injection Hg as -> <-. cbn.
          apply lookup_insert_eq. }
      intros k m0 H. apply Hk in H. revert H. unfold peek_meta. cbn.
      destruct (decide (k = key)) as [->|Hne].
      * rewrite lookup_insert_eq, Hc1. intros [= ->].
        rewrite lookup_app_r by reflexivity. rewrite Nat.sub_diag. reflexivity.
      * rewrite lookup_insert_ne by congruence.
        destruct (st_cache (storage w1) !! k) as [[v|l]|]; try auto.
        intros Hl. apply lookup_app_l_Some. exact Hl.
    + injection Hrun as <- <-. exact Hk.
  - rewrite ret_run in Hrun. injection Hrun as <- <-. exact Hk.
  - injection Hrun as <- <-. exact Hk.
Qed.
#[local] Hint Resolve mk_get_cachable : frame.

Lemma mk_load_meta h : keeps_metas (version_control.load_meta h).
Proof. unfold version_control.load_meta. mk_tac. Qed.
#[local] Hint Resolve mk_load_meta : frame.

Lemma mk_num_samples self : keeps_metas (Dataset.num_samples self).
Proof.
  unfold Dataset.num_samples, TensorM.len, TensorM.chunk_engine. mk_tac.
Qed.
#[local] Hint Resolve mk_num_samples : frame.

Lemma mk_load_version_info self : keeps_metas (Dataset._load_version_info self).
Proof.
  intros w. rewrite load_version_info_run. split; [|discriminate].
  cbn [snd]. intros k m H.
  change (peek_meta (LRUCache.getitem keys.get_version_control_info_key w).2 k
          = Some m).
  rewrite getitem_peek. exact H.
Qed.
#[local] Hint Resolve mk_load_version_info : frame.

Lemma vacant_peek w k : vacant w = true -> peek_meta w k = None.
Proof.
  intros H. apply vacant_tiers_empty in H as [Hc Hb].
  unfold peek_meta. rewrite Hc, Hb, !lookup_empty. reflexivity.
Qed.

Lemma mk_populate_meta self : keeps_metas (Dataset._populate_meta self).
Proof.
  apply respects_intro. intros w r w' Hrun. split; [|intros; exact I].
  rewrite populate_meta_unfold in Hrun.
  destruct (is_dataset w).
  { assert (keeps_metas
              ((if Dataset.verbose self
                then emit (ELogInfo (pystr.cat (Dataset.path self)
                                               " loaded successfully."))
                else mret tt);;
               version_control.load_meta (Dataset.version_state self)))
      as H by mk_tac.
    specialize (H w). rewrite Hrun in H. apply H. }
  destruct (vacant w) eqn:Hv; cbn [negb] in Hrun.
  - intros k m H. rewrite (vacant_peek w k Hv) in H. discriminate.
  - injection Hrun as <- <-. apply meta_kept_refl.
Qed.
#[local] Hint Resolve mk_populate_meta : frame.

Lemma mk_set_derived_attributes self :
  keeps_metas (Dataset._set_derived_attributes self).
Proof.
  unfold Dataset._set_derived_attributes, version_control.load_info. mk_tac.
Qed.
#[local] Hint Resolve mk_set_derived_attributes : frame.

Lemma mk_init args : keeps_metas (Dataset.__init__ args).
Proof.
  apply respects_intro. intros w r w' Hrun. split; [|intros; exact I].
  rewrite init_unfold, bind_run in Hrun.
  destruct (locks_when args w).
  - destruct (init_lock_stage_run
                (Dataset.mk (st_root (storage w)) (Dataset.a_read_only args)
                            [] "" None None false None None) w)
      as (w1 & Hl & Hs & Hh & _).
    rewrite Hl in Hrun.
    match type of Hrun with
    | Dataset._set_derived_attributes ?s w1 = _ =>
        destruct (mk_set_derived_attributes s w1) as [HR _]
    end.
    rewrite Hrun in HR. cbn [snd] in HR.
    eapply meta_kept_trans; [|exact HR].
    intros k m H. rewrite (peek_tiers w w1); [exact H| | |exact Hh];
      rewrite Hs; destruct (held_elsewhere w); reflexivity.
  - rewrite ret_run in Hrun.
    match type of Hrun with
    | Dataset._set_derived_attributes ?s w = _ =>
        destruct (mk_set_derived_attributes s w) as [HR _]
    end.
    rewrite Hrun in HR. exact HR.
Qed.
#[local] Hint Resolve mk_init : frame.

Lemma mk_meta self : keeps_metas (Dataset.meta self).
Proof. unfold Dataset.meta. mk_tac. Qed.
#[local] Hint Resolve mk_meta : frame.

Lemma mk_getitem_view fuel :
  forall self it, keeps_metas (Dataset.__getitem__ fuel self it).
Proof.
  induction fuel as [|fuel IH]; intros self it;
    cbn [Dataset.__getitem__]; [mk_tac|].
  destruct it as [name|s|i|]; [|mk_tac..].
  unfold Dataset._get_tensor_from_root, Dataset._has_group_in_root.
  apply respects_bind; [apply meta_kept_trans|mk_tac|]. intros [x|];
    [mk_tac|].
  apply respects_bind; [apply meta_kept_trans|mk_tac|]. intros [|];
    [mk_tac|].
  destruct (pystr.has_sep name); [|mk_tac].
  apply respects_bind; [apply meta_kept_trans|apply IH|].
  intros [x|d]; [|apply IH].
  unfold Dataset.tensor_getitem. mk_tac.
Qed.

Lemma mk_tensors self : keeps_metas (Dataset.tensors self).
Proof. unfold Dataset.tensors, Dataset._all_tensors_filtered. mk_tac. Qed.

Lemma mk_len self : keeps_metas (Dataset.__len__ self).
Proof.
  unfold Dataset.__len__, Dataset.tensors, Dataset._all_tensors_filtered,
    TensorM.len, TensorM.chunk_engine.
  mk_tac.
Qed.

Lemma mk_root self : keeps_metas (Dataset.root self).
Proof. unfold Dataset.root. mk_tac. Qed.

Lemma mk_parent self : keeps_metas (Dataset.parent self).
Proof. unfold Dataset.parent. mk_tac. Qed.

Lemma mk_groups_views fuel self : keeps_metas (Dataset.groups fuel self).
Proof.
  unfold Dataset.groups, Dataset._groups_filtered, Dataset._groups. mk_tac.
  apply mk_getitem_view.
Qed.

(** X21.  Opening a dataset that exists and reading from it change no meta:
    whatever meta the storage holds under a key, in the cache or in the base
    tier, it still holds after the constructor, a subscript, [tensors],
    [groups], [len], [root] and [parent], whether they return or raise. *)
Theorem reading_keeps_every_stored_meta
        (w : World) (k : string) (m : DatasetMeta) :
  peek_meta w k = Some m ->
  (forall args, peek_meta (Dataset.__init__ args w).2 k = Some m)
  /\ (forall fuel self it,
         peek_meta (Dataset.__getitem__ fuel self it w).2 k = Some m)
  /\ (forall self, peek_meta (Dataset.tensors self w).2 k = Some m)
  /\ (forall fuel self, peek_meta (Dataset.groups fuel self w).2 k = Some m)
  /\ (forall self, peek_meta (Dataset.__len__ self w).2 k = Some m)
  /\ (forall self, peek_meta (Dataset.root self w).2 k = Some m)
  /\ (forall self, peek_meta (Dataset.parent self w).2 k = Some m).
Proof.
  intros H. repeat split; intros.
  - apply mk_init, H.
  - apply mk_getitem_view, H.
  - apply mk_tensors, H.
  - apply mk_groups_views, H.
  - apply mk_len, H.
  - apply mk_root, H.
  - apply mk_parent, H.
Qed.

Lemma reading_keeps_every_stored_meta_witness :
  peek_meta (Dataset.__len__ sliced_view sliced_world).2 "dataset_meta.json"
  = Some (mkMeta ["images"; "labels"] []).
Proof.
  destruct (reading_keeps_every_stored_meta
              sliced_world "dataset_meta.json" _ eq_refl)
    as (_ & _ & _ & _ & H & _).
  apply H.
Defined.

(** ** A group that is created *)

Lemma elem_of_unique x l : x ∈ unique l <-> x ∈ l.
Proof.
  induction l as [|a l IH]; [reflexivity|].
  cbn [unique]. rewrite !elem_of_cons, list_elem_of_filter, IH.
  destruct (decide (x = a)) as [->|Hne]; [tauto|]. tauto.
Qed.

Lemma NoDup_unique l : NoDup (unique l).
Proof.
  induction l as [|a l IH]; [apply NoDup_nil_2|].
  cbn [unique]. apply NoDup_cons. split.
  - intros H. apply list_elem_of_filter in H as [H _]. congruence.
  - apply NoDup_filter, IH.
Qed.

Lemma insert_by_perm hash x l : insert_by hash x l ≡ₚ x :: l.
Proof.
  induction l as [|y r IH]; [reflexivity|]. cbn [insert_by].
  destruct (Nat.leb (hash x) (hash y)); [reflexivity|].
  rewrite IH. apply Permutation_swap.
Qed.

(** Whatever the hashes are, [list(set(l))] holds the elements of [l], each
    once. *)
Lemma list_set_perm hash l : list_set hash l ≡ₚ unique l.
Proof.
  unfold list_set. induction (unique l) as [|x r IH]; [reflexivity|].
  cbn [foldr]. rewrite insert_by_perm, IH. reflexivity.
Qed.

Lemma elem_of_list_set hash x l : x ∈ list_set hash l <-> x ∈ l.
Proof. rewrite list_set_perm. apply elem_of_unique. Qed.

Lemma NoDup_list_set hash l : NoDup (list_set hash l).
Proof. rewrite list_set_perm. apply NoDup_unique. Qed.

Lemma meta_eta m : mkMeta (meta_tensors m) (meta_groups m) = m.
Proof. destruct m; reflexivity. Qed.

Lemma create_group_loop_ok rounds :
  forall self l name w w2 h vs m0,
    Dataset.version_state self = Some h ->
    vstates w !! h = Some vs ->
    heap w !! l = Some m0 ->
    Dataset._create_group_loop rounds self l name w = (Ok tt, w2) ->
    heap w2
    = <[l := mkMeta (meta_tensors m0)
                    (meta_groups m0 ++ ancestors rounds name)]> (heap w)
    /\ storage w2 = storage w
    /\ vstates w2 = vstates w
    /\ payload w2 = payload w
    /\ Forall (fun a => dict_get a (vs_full_tensors vs) = None)
              (ancestors rounds name).
Proof.
  induction rounds as [|n IH]; intros self l name w w2 h vs m0 Hh Hvs Hl Hrun;
    cbn [Dataset._create_group_loop ancestors] in *.
  - destruct (String.eqb name ""); [|discriminate].
    injection Hrun as <-. rewrite app_nil_r, meta_eta.
    rewrite list_insert_id by exact Hl. repeat split. constructor.
  - destruct (String.eqb name "") eqn:Hne.
    { injection Hrun as <-. rewrite app_nil_r, meta_eta.
      rewrite list_insert_id by exact Hl. repeat split. constructor. }
    rewrite Hh, bind_run, (get_vs_ok _ _ _ _ _ eq_refl Hvs) in Hrun.
    cbv beta iota in Hrun.
    destruct (dict_get name (vs_full_tensors vs)) eqn:Hd;
      [discriminate|].
    cbn [is_none] in Hrun. rewrite bind_run in Hrun. unfold deref at 1 in Hrun.
    rewrite Hl in Hrun. cbn [default] in Hrun. cbv beta iota in Hrun.
    rewrite bind_run in Hrun. unfold assign at 1, modify at 1 in Hrun.
    cbv beta iota in Hrun.
    fold (posixpath.dirname name) in Hrun.
    eapply (IH self l _ _ w2 h vs
               (mkMeta (meta_tensors m0) (meta_groups m0 ++ [name])))
      in Hrun as (H1 & H2 & H3 & H4 & H5);
      [|exact Hh|exact Hvs
       |cbn [heap set_heap]; apply list_lookup_insert_eq;
        eapply lookup_lt_Some, Hl].
    cbn [heap set_heap storage vstates payload meta_tensors meta_groups] in *.
    rewrite list_insert_insert_eq in H1. rewrite <- app_assoc in H1.
    repeat split; try assumption.
    constructor; assumption.
Qed.

Lemma setitem_ok k e w w' :
  LRUCache.setitem k e w = (Ok tt, w') ->
  st_cache (storage w') !! k = Some e
  /\ heap w' = heap w /\ vstates w' = vstates w /\ payload w' = payload w.
Proof.
  unfold LRUCache.setitem, LRUCache.maybe_flush, LRUCache.flush.
  munfold. cbn.
  destruct (st_read_only (storage w)) eqn:Hr; [discriminate|]. cbn.
  destruct (st_autoflush (storage w)); cbn; repeat (rewrite Hr; cbn);
    intros [= <-]; cbn;
    (split; [apply lookup_insert_eq|repeat split]).
Qed.

Lemma maybe_flush_inv w w' :
  LRUCache.maybe_flush w = (Ok tt, w') ->
  st_cache (storage w') = st_cache (storage w)
  /\ heap w' = heap w /\ vstates w' = vstates w /\ payload w' = payload w.
Proof.
  unfold LRUCache.maybe_flush, LRUCache.flush. munfold. cbn.
  destruct (st_autoflush (storage w)); cbn;
    [destruct (st_read_only (storage w)); [discriminate|]|];
    intros [= <-]; repeat split.
Qed.

Lemma maybe_flush_ok w :
  st_read_only (storage w) = false ->
  exists w',
    LRUCache.maybe_flush w = (Ok tt, w')
    /\ st_cache (storage w') = st_cache (storage w)
    /\ heap w' = heap w /\ vstates w' = vstates w /\ payload w' = payload w.
Proof.
  intros Hr. unfold LRUCache.maybe_flush, LRUCache.flush. munfold. cbn.
  destruct (st_autoflush (storage w)); cbn; rewrite ?Hr; eexists;
    (split; [reflexivity|]); repeat split.
Qed.

Lemma dict_get_set {V} x k (v : V) d :
  dict_get x (dict_set k v d)
  = if String.eqb x k then Some v else dict_get x d.
Proof.
  induction d as [|[k' v'] d IH]; cbn [dict_set dict_get].
  - destruct (String.eqb x k); reflexivity.
  - destruct (String.eqb_spec k k') as [->|Hne]; cbn [dict_get].
    + destruct (String.eqb x k'); reflexivity.
    + rewrite IH. destruct (String.eqb_spec x k') as [->|Hne'].
      * rewrite (proj2 (String.eqb_neq k' k)) by congruence. reflexivity.
      * reflexivity.
Qed.

Lemma dict_get_of_list_None {V} x (l : list (string * V)) :
  x ∉ map fst l -> dict_get x (dict_of_list l) = None.
Proof.
  unfold dict_of_list.
  assert (forall acc, dict_get x acc = None -> x ∉ map fst l ->
                      dict_get x (fold_left (fun d kv => dict_set kv.1 kv.2 d) l acc)
                      = None) as H.
  { induction l as [|[k v] l IH]; intros acc Ha Hx; [exact Ha|].
    cbn [fold_left]. apply IH.
    - rewrite dict_get_set. cbn [fst snd].
      destruct (String.eqb_spec x k) as [->|]; [|exact Ha].
      exfalso. apply Hx. cbn. left.
    - intros Hin. apply Hx. cbn. right. exact Hin. }
  apply H. reflexivity.
Qed.

Lemma ancestors_head rounds n :
  n <> "" -> 0 < rounds -> n ∈ ancestors rounds n.
Proof.
  intros Hne Hr. destruct rounds as [|r]; [lia|].
  cbn [ancestors]. rewrite (proj2 (String.eqb_neq _ _) Hne). left.
Qed.

Lemma mem_elem x l : pystr.mem x l = true <-> x ∈ l.
Proof.
  unfold pystr.mem. rewrite existsb_exists. split.
  - intros (y & Hy & He). apply String.eqb_eq in He as ->.
    apply list_elem_of_In. exact Hy.
  - intros H. exists x. split; [apply list_elem_of_In, H|apply String.eqb_refl].
Qed.

(** X22.  When [create_group] returns, on a root view, the group and every group
    above it are registered: the list of groups of the meta of the current
    commit holds, each name once, the names of the old list and the
    normalized name, its [dirname], the [dirname] of that and so on, in an
    order that [list(set(...))] leaves open.  The name was new and
    none of the names added is a tensor of the dataset.  The tensors of the
    meta are as they were.  Unless the meta lists a tensor of that name, the
    value returned is the view of the new group, with the index, the version
    state and the read-only flag of the view it was created from. *)
Theorem create_group_registers_the_group_and_its_ancestors
        (fuel : nat) (self : Dataset.t) (name : string) (w w' : World)
        (h : nat) (vs : VersionState) (m : DatasetMeta) (v : Dataset.value) :
  Dataset._is_root self = true ->
  Dataset.version_state self = Some h ->
  vstates w !! h = Some vs ->
  peek_meta w (keys.get_dataset_meta_key (vs_commit_id vs)) = Some m ->
  Dataset.create_group (S (S fuel)) self name w = (Ok v, w') ->
  let n := Dataset.normalize name in
  let above := ancestors (String.length n) n in
  n ∈ above
  /\ (n ∉ meta_groups m)
  /\ (exists groups',
        peek_meta w' (keys.get_dataset_meta_key (vs_commit_id vs))
        = Some (mkMeta (meta_tensors m) groups')
        /\ NoDup groups'
        /\ (forall g, g ∈ groups' <-> g ∈ meta_groups m \/ g ∈ above))
  /\ Forall (fun g => dict_get g (vs_full_tensors vs) = None) above
  /\ (n ∉ meta_tensors m ->
      exists d,
        v = Dataset.VDataset d
        /\ Dataset.group_index d = n
        /\ Dataset.index d = Dataset.index self
        /\ Dataset.version_state d = Dataset.version_state self
        /\ Dataset.read_only d = Dataset.read_only self).
Proof.
  intros Hr Hh Hvs Hm Hrun n above.
  destruct (create_group_unfold fuel self name w h vs m Hr Hh Hvs Hm)
    as (l & w1 & Hl & Hc & Hrs & Hun).
  rewrite Hun in Hrun. cbv zeta in Hrun. fold n in Hrun.
  destruct (pystr.mem n (meta_groups m)) eqn:Hg; [discriminate|].
  destruct (orb (String.eqb n "") (pystr.mem n Dataset.dir)) eqn:Hbad;
    [discriminate|].
  apply orb_false_iff in Hbad as [Hne Hdir].
  apply String.eqb_neq in Hne.
  assert (vstates w1 !! h = Some vs) as Hvs1.
  { destruct Hrs as (Hv & _). rewrite Hv. exact Hvs. }
  apply bind_inv_ok in Hrun as ([] & w2 & Hloop & Hrun).
  destruct (create_group_loop_ok _ _ _ _ _ _ _ _ _ Hh Hvs1 Hl Hloop)
    as (H2h & H2s & H2v & H2p & Hfa).
  fold above in H2h, Hfa.
  assert (l < List.length (heap w1)) as Hlt by (eapply lookup_lt_Some, Hl).
  apply bind_inv_ok in Hrun as (m1 & w2' & Hderef & Hrun).
  unfold deref in Hderef. injection Hderef as <- <-.
  rewrite H2h, list_lookup_insert_eq in Hrun by exact Hlt.
  cbn [default meta_tensors meta_groups] in Hrun.
  apply bind_inv_ok in Hrun as (w0 & w2' & Hgw & Hrun).
  unfold get_world in Hgw. injection Hgw as <- <-.
  set (groups' := list_set (str_hash w2) (meta_groups m ++ above)) in *.
  apply bind_inv_ok in Hrun as ([] & w3 & Hassign & Hrun).
  unfold assign, modify in Hassign. injection Hassign as <-.
  rewrite H2h, list_insert_insert_eq in Hrun.
  apply bind_inv_ok in Hrun as ([] & w4 & Hset & Hrun).
  apply setitem_ok in Hset as (H4c & H4h & H4v & H4p).
  cbn [heap set_heap vstates payload] in H4h, H4v, H4p.
  apply bind_inv_ok in Hrun as ([] & w5 & Hmf & Hrun).
  destruct (maybe_flush_inv _ _ Hmf) as (H5c & H5h & H5v & H5p).
  assert (peek_meta w5 (keys.get_dataset_meta_key (vs_commit_id vs))
          = Some (mkMeta (meta_tensors m) groups')) as Hp5.
  { unfold peek_meta. rewrite H5c, H4c, H5h, H4h.
    apply list_lookup_insert_eq. exact Hlt. }
  assert (vstates w5 !! h = Some vs) as Hvs5 by (rewrite H5v, H4v, H2v; exact Hvs1).
  assert (n ∈ above) as Hna.
  { apply ancestors_head; [exact Hne|]. destruct n; [congruence|cbn; lia]. }
  split; [exact Hna|].
  split; [intros Hin; apply mem_elem in Hin; congruence|].
  split.
  { exists groups'. split; [|split].
    - destruct (mk_getitem_view (S fuel) self (Dataset.IStr n) w5) as [Hk _].
      rewrite Hrun in Hk. apply Hk. exact Hp5.
    - apply NoDup_list_set.
    - intros g. unfold groups'. rewrite elem_of_list_set, elem_of_app.
      reflexivity. }
  split; [exact Hfa|].
  intros Hnt.
  destruct (normalize_shape name) as (Hn1 & _). fold n in Hn1.
  assert (Dataset.group_index self = "") as Hgi.
  { unfold Dataset._is_root in Hr. apply String.eqb_eq in Hr. exact Hr. }
  rewrite getitem_str_unfold in Hrun. cbv zeta in Hrun.
  assert (posixpath.join (Dataset.group_index self) n = n) as Hj.
  { rewrite Hgi. unfold posixpath.join. rewrite Hn1. reflexivity. }
  rewrite Hj in Hrun.
  assert (dict_get n (vs_full_tensors vs) = None) as Hdn.
  { rewrite Forall_forall in Hfa. apply Hfa, Hna. }
  destruct (load_meta_full h vs w5 _ Hvs5 Hp5) as (l6 & w6 & Hlm & H6l & _ & H6r).
  cbn [meta_tensors] in Hlm.
  set (vs6 := mkVS (vs_branch vs) (vs_commit_id vs) (vs_branch_commit_map vs)
                   (vs_commit_node_map vs)
                   (dict_of_list
                      (map (fun n => (n, TensorM.new n)) (meta_tensors m)))
                   (Some l6)) in *.
  set (w7 := set_vstates (<[h := vs6]> (vstates w5)) w6) in *.
  assert (vstates w7 !! h = Some vs6) as Hvs7.
  { subst w7. cbn [vstates set_vstates]. apply list_lookup_insert_eq.
    eapply lookup_lt_Some, Hvs5. }
  assert (Dataset._get_tensor_from_root self n w5 = (Ok None, w7)) as Hgt.
  { unfold Dataset._get_tensor_from_root.
    rewrite Hh, bind_run, (get_vs_ok _ _ _ _ _ eq_refl Hvs5). cbv beta iota.
    rewrite Hdn. rewrite bind_run, Hlm.
    rewrite bind_run, (get_vs_ok _ _ _ _ _ eq_refl Hvs7). cbv beta iota.
    rewrite ret_run. f_equal. f_equal. subst vs6. cbn [vs_full_tensors].
    apply dict_get_of_list_None. rewrite map_fst_pairs.
    exact Hnt. }
  rewrite bind_run, Hgt in Hrun.
  assert (Dataset._has_group_in_root self n w7 = (Ok true, w7)) as Hhg.
  { unfold Dataset._has_group_in_root, Dataset.meta.
    rewrite Hh. rewrite !bind_run, (get_vs_ok _ _ _ _ _ eq_refl Hvs7).
    subst vs6. cbn [vs_meta]. rewrite ret_run. rewrite bind_run.
    unfold deref at 1. subst w7. cbn [heap set_vstates]. rewrite H6l.
    cbn [default from_option id meta_groups].
    assert (pystr.mem n groups' = true) as ->.
    { apply mem_elem. unfold groups'. apply elem_of_list_set, elem_of_app.
      right. exact Hna. }
    reflexivity. }
  rewrite bind_run, Hhg in Hrun.
  apply bind_inv_ok in Hrun as (d & w8 & Hinit & Hrun).
  rewrite ret_run in Hrun. injection Hrun as <- <-.
  apply (init_view_fields _ _ _ _ (Dataset.index self)) in Hinit;
    [|reflexivity|].
  2:{ unfold group_view_args. cbn [Dataset.a_version_state].
      unfold Dataset.vs_truthy. rewrite Hh.
      apply bool_decide_eq_true. exists vs6. cbn. exact Hvs7. }
  exists d. split; [reflexivity|]. rewrite Hinit. cbn. repeat split.
Qed.

Lemma create_group_registers_the_group_and_its_ancestors_witness :
  exists v w' groups',
    Dataset.create_group 5 local_root "k//l/" grouped_world = (Ok v, w')
    /\ peek_meta w' "dataset_meta.json"
       = Some (mkMeta ["g/x"; "y"] groups')
    /\ NoDup groups'
    /\ forall g, g ∈ groups' <-> g ∈ ["g"; "g/h"] \/ g ∈ ["k/l"; "k"].
Proof.
  destruct (Dataset.create_group 5 local_root "k//l/" grouped_world)
    as [[v|e] w'] eqn:E; [|vm_compute in E; discriminate].
  destruct (create_group_registers_the_group_and_its_ancestors
              3 local_root "k//l/" grouped_world w' 0 _ _ v
              eq_refl eq_refl eq_refl eq_refl E)
    as (_ & _ & (groups' & H & Hnd & Hin) & _).
  exists v, w', groups'. split; [reflexivity|].
  split; [exact H|]. split; [exact Hnd|exact Hin].
Defined.

(** ** Deleting *)

(** X23.  [delete] with [large_ok], or of a dataset that is not above the safety
    size, first releases the lock and then clears the storage.  On a
    writable storage it returns and both tiers are empty, with nothing
    dirty.  On a read-only storage the clearing raises [ReadOnlyError] and
    the storage is untouched, but the lock has been released already.  With
    [large_ok] the size is not consulted at all. *)
Theorem delete_releases_the_lock_then_clears
        (DELETE_SAFETY_SIZE : N) (self : Dataset.t) (large_ok : bool)
        (w : World) :
  (large_ok = true
   \/ exists size, (Dataset.size_approx self w).1 = Ok size
                   /\ (size <= DELETE_SAFETY_SIZE)%N) ->
  exists w',
    Dataset.delete DELETE_SAFETY_SIZE self large_ok w
    = (if st_read_only (storage w) then Raise ReadOnlyError else Ok tt, w')
    /\ lock_state w'
       = match lock_state w with LockedByUs _ => Unlocked | s => s end
    /\ trace w' = trace w ++ [EUnlock]
    /\ (st_read_only (storage w) = false ->
        vacant w' = true /\ st_dirty (storage w') = ∅)
    /\ (st_read_only (storage w) = true -> storage w' = storage w).
Proof.
  intros Hcase.
  assert (Dataset.delete DELETE_SAFETY_SIZE self large_ok w
          = (Lock.unlock;; LRUCache.clear) w) as ->.
  { unfold Dataset.delete. destruct Hcase as [->|(size & Hs & Hle)].
    - reflexivity.
    - destruct large_ok; [reflexivity|]. cbn [negb].
      pose proof (size_approx_world self w) as Hw.
      destruct (Dataset.size_approx self w) as [r w1] eqn:E.
      cbn in Hs, Hw. subst r w1.
      rewrite bind_run, bind_run, E.
      assert ((DELETE_SAFETY_SIZE <? size)%N = false) as ->
        by (apply N.ltb_ge; exact Hle).
      reflexivity. }
  unfold Lock.unlock, LRUCache.clear. munfold. cbn.
  destruct (lock_state w) eqn:Hl; cbn;
    destruct (st_read_only (storage w)) eqn:Hr; cbn;
    eexists; (split; [reflexivity|]); cbn;
    repeat split; try reflexivity; try assumption; try discriminate.
Qed.

Lemma delete_releases_the_lock_then_clears_witness :
  exists w',
    Dataset.delete 1000000000 large_view true large_world = (Ok tt, w')
    /\ lock_state w' = Unlocked
    /\ vacant w' = true.
Proof.
  destruct (delete_releases_the_lock_then_clears
              1000000000 large_view true large_world (or_introl eq_refl))
    as (w' & H & Hl & _ & Hv & _).
  exists w'. split; [exact H|]. split; [exact Hl|]. apply Hv. reflexivity.
Defined.

(** ** Creating a tensor *)

Lemma auto_checkout_at_head h vs node w :
  vstates w !! h = Some vs ->
  vs_commit_node_map vs !! vs_commit_id vs = Some node ->
  cn_commit_time node = None ->
  version_control.auto_checkout (Some h) w = (Ok tt, w).
Proof.
  intros Hvs Hn Ht. unfold version_control.auto_checkout.
  rewrite bind_run, (get_vs_ok _ _ _ _ _ eq_refl Hvs). cbv beta iota.
  rewrite Hn, Ht. reflexivity.
Qed.

(** [create_tensor] on a root view at the head of its branch, up to the
    checks of the name. *)
Lemma create_tensor_unfold fuel self name w h vs node m :
  Dataset._is_root self = true ->
  Dataset.version_state self = Some h ->
  vstates w !! h = Some vs ->
  vs_commit_node_map vs !! vs_commit_id vs = Some node ->
  cn_commit_time node = None ->
  peek_meta w (keys.get_dataset_meta_key (vs_commit_id vs)) = Some m ->
  exists l w1,
    heap w1 !! l = Some m
    /\ st_cache (storage w1) !! keys.get_dataset_meta_key (vs_commit_id vs)
       = Some (CObj l)
    /\ LRUCache.get_cachable (keys.get_dataset_meta_key (vs_commit_id vs)) w
       = (Ok l, w1)
    /\ read_step w w1
    /\ Dataset.create_tensor (S fuel) self name w
       = (let n := Dataset.normalize name in
          if holds w (keys.get_tensor_meta_key n (vs_commit_id vs))
          then (Raise (TensorAlreadyExistsError n), w)
          else if pystr.mem n (meta_groups m)
          then (Raise (TensorGroupAlreadyExistsError n), w1)
          else if (String.eqb n "" || pystr.mem n Dataset.dir)%bool
          then (Raise (InvalidTensorNameError n), w1)
          else
            ((if pystr.has_sep n
              then Dataset._create_group fuel self (fst (posixpath.split n));;
                   mret tt
              else mret tt);;
             version_control.create_tensor n (Some h);;
             l0 ← Dataset.meta self;
             m0 ← deref l0;
             assign l0 (mkMeta (meta_tensors m0 ++ [n]) (meta_groups m0));;
             LRUCache.maybe_flush;;
             vs0 ← get_vs "full_tensors" (Some h);
             put_vs (Some h)
                    (mkVS (vs_branch vs0) (vs_commit_id vs0)
                          (vs_branch_commit_map vs0) (vs_commit_node_map vs0)
                          (dict_set n (TensorM.new n) (vs_full_tensors vs0))
                          (vs_meta vs0));;
             mret (TensorM.new n)) w1).
Proof.
  intros Hr Hh Hvs Hn Ht Hm.
  destruct (groups_run self w h vs m Hh Hvs Hm)
    as (l & w1 & Hg & Hgc & Hl & Hc & Hrs).
  exists l, w1. split; [exact Hl|]. split; [exact Hc|]. split; [exact Hgc|].
  split; [exact Hrs|].
  cbn [Dataset.create_tensor]. rewrite Hh.
  rewrite bind_run, (auto_checkout_at_head h vs node w Hvs Hn Ht).
  cbv zeta.
  assert (posixpath.join (Dataset.group_index self) (Dataset.normalize name)
          = Dataset.normalize name) as ->.
  { unfold Dataset._is_root in Hr. apply String.eqb_eq in Hr. rewrite Hr.
    unfold posixpath.join.
    destruct (normalize_shape name) as (-> & _). reflexivity. }
  rewrite bind_run, (get_vs_ok _ _ _ _ _ eq_refl Hvs). cbv beta iota.
  unfold keys.tensor_exists. rewrite bind_run, contains_run.
  destruct (holds w _); [reflexivity|].
  rewrite <- Hh. rewrite bind_run, Hg.
  destruct (pystr.mem (Dataset.normalize name) (meta_groups m)); [reflexivity|].
  destruct (String.eqb (Dataset.normalize name) "" || pystr.mem _ Dataset.dir);
    [reflexivity|].
  rewrite Hr. cbn [negb]. rewrite Hh. reflexivity.
Qed.

(** X24.  A call of [create_tensor] that is rejected for its name changes nothing,
    on a root view at the head of its branch.  A tensor exists when the
    storage holds its meta key: then [TensorAlreadyExistsError] is raised and
    the state is the one before the call.  Otherwise the name of a group
    raises [TensorGroupAlreadyExistsError], and otherwise an empty name or
    the name of an attribute raises [InvalidTensorNameError], in this order
    and with the normalized name; the meta may have been loaded into the
    cache, and nothing else has changed. *)
Theorem create_tensor_rejects_a_name_without_a_change
        (fuel : nat) (self : Dataset.t) (name : string) (w : World)
        (h : nat) (vs : VersionState) (m : DatasetMeta) :
  Dataset._is_root self = true ->
  Dataset.version_state self = Some h ->
  vstates w !! h = Some vs ->
  at_head w h ->
  peek_meta w (keys.get_dataset_meta_key (vs_commit_id vs)) = Some m ->
  let n := Dataset.normalize name in
  let exists_ := holds w (keys.get_tensor_meta_key n (vs_commit_id vs)) in
  (exists_ = true ->
   Dataset.create_tensor (S fuel) self name w
   = (Raise (TensorAlreadyExistsError n), w))
  /\ (exists_ = false ->
      pystr.mem n (meta_groups m) = true ->
      exists w',
        Dataset.create_tensor (S fuel) self name w
        = (Raise (TensorGroupAlreadyExistsError n), w')
        /\ read_step w w')
  /\ (exists_ = false ->
      pystr.mem n (meta_groups m) = false ->
      (String.eqb n "" || pystr.mem n Dataset.dir)%bool = true ->
      exists w',
        Dataset.create_tensor (S fuel) self name w
        = (Raise (InvalidTensorNameError n), w')
        /\ read_step w w').
Proof.
  intros Hr Hh Hvs (vs' & node & Hvs' & Hn & Ht) Hm n exists_.
  assert (vs' = vs) as -> by congruence.
  destruct (create_tensor_unfold fuel self name w h vs node m
              Hr Hh Hvs Hn Ht Hm)
    as (l & w1 & _ & _ & _ & Hrs & Hrun).
  cbv zeta in Hrun. fold n in Hrun. fold exists_ in Hrun.
  split; [|split].
  - intros He. rewrite He in Hrun. exact Hrun.
  - intros He Hg. rewrite He, Hg in Hrun. exists w1. split; assumption.
  - intros He Hg Hbad. rewrite He, Hg, Hbad in Hrun.
    exists w1. split; assumption.
Qed.

Lemma create_tensor_rejects_a_name_without_a_change_witness :
  (Dataset.create_tensor 5 local_root "/a/" tensor_world).1
  = Raise (TensorAlreadyExistsError "a")
  /\ (Dataset.create_tensor 5 local_root "g" grouped_world).1
     = Raise (TensorGroupAlreadyExistsError "g")
  /\ (Dataset.create_tensor 5 local_root "tensors" grouped_world).1
     = Raise (InvalidTensorNameError "tensors").
Proof.
  assert (at_head tensor_world 0) as H1
    by (eexists _, _; repeat split; reflexivity).
  assert (at_head grouped_world 0) as H2
    by (eexists _, _; repeat split; reflexivity).
  destruct (create_tensor_rejects_a_name_without_a_change
              4 local_root "/a/" tensor_world 0 _ _
              eq_refl eq_refl eq_refl H1 eq_refl) as (Ha & _).
  destruct (create_tensor_rejects_a_name_without_a_change
              4 local_root "g" grouped_world 0 _ _
              eq_refl eq_refl eq_refl H2 eq_refl) as (_ & Hb & _).
  destruct (create_tensor_rejects_a_name_without_a_change
              4 local_root "tensors" grouped_world 0 _ _
              eq_refl eq_refl eq_refl H2 eq_refl) as (_ & _ & Hc).
  rewrite (Ha eq_refl).
  destruct (Hb eq_refl eq_refl) as (w1 & -> & _).
  destruct (Hc eq_refl eq_refl eq_refl) as (w2 & -> & _).
  repeat split.
Defined.

Lemma setitem_run k e w :
  st_read_only (storage w) = false ->
  exists w',
    LRUCache.setitem k e w = (Ok tt, w')
    /\ st_cache (storage w') = <[k := e]> (st_cache (storage w))
    /\ st_read_only (storage w') = false
    /\ heap w' = heap w /\ vstates w' = vstates w /\ payload w' = payload w.
Proof.
  intros Hr. unfold LRUCache.setitem, LRUCache.maybe_flush, LRUCache.flush.
  munfold. cbn. rewrite Hr. cbn.
  destruct (st_autoflush (storage w)); cbn; repeat (rewrite Hr; cbn); eexists;
    (split; [reflexivity|]); cbn; repeat split; assumption.
Qed.

Lemma cat_inj_l p a b : pystr.cat p a = pystr.cat p b -> a = b.
Proof.
  induction p as [|c p IH]; [auto|]. cbn. intros [= H]. apply IH, H.
Qed.

Lemma has_sep_cat_r a b : pystr.has_sep b = true -> pystr.has_sep (pystr.cat a b) = true.
Proof.
  intros H. induction a as [|c a IH]; [exact H|].
  cbn. rewrite IH. apply orb_true_r.
Qed.

Lemma tensor_key_is_not_the_meta_key n c :
  keys.get_tensor_meta_key n c <> keys.get_dataset_meta_key c.
Proof.
  unfold keys.get_tensor_meta_key, keys.get_dataset_meta_key, keys.scoped.
  assert (pystr.cat n "/tensor_meta.json" <> "dataset_meta.json") as Hne.
  { intros H.
    assert (pystr.has_sep (pystr.cat n "/tensor_meta.json") = true) as Hs
      by (apply has_sep_cat_r; reflexivity).
    rewrite H in Hs. discriminate. }
  destruct (String.eqb c keys.FIRST_COMMIT_ID); [exact Hne|].
  intros H. apply cat_inj_l, cat_inj_l, cat_inj_l in H. exact (Hne H).
Qed.

(** X25.  [create_tensor] of a new name without separator, on a loaded root view
    at the head of its branch with a writable storage: it returns the full
    handle of the tensor, the storage holds the tensor's meta key, the
    payload of the tensor is empty, the cached meta lists the name after the
    tensors it listed, and the version state maps the name to the handle.
    From then on [self[name]] is the tensor with the index of the view
    applied, found without an access to the storage, and a second
    [create_tensor] of the name raises [TensorAlreadyExistsError]. *)
Theorem create_tensor_registers_the_tensor
        (fuel : nat) (self : Dataset.t) (name : string) (w : World)
        (h l : nat) (vs : VersionState) (m : DatasetMeta) :
  Dataset._is_root self = true ->
  loaded self w h vs l m ->
  at_head w h ->
  st_read_only (storage w) = false ->
  let n := Dataset.normalize name in
  pystr.has_sep n = false ->
  n <> "" ->
  pystr.mem n Dataset.dir = false ->
  pystr.mem n (meta_groups m) = false ->
  holds w (keys.get_tensor_meta_key n (vs_commit_id vs)) = false ->
  exists w',
    Dataset.create_tensor (S fuel) self name w = (Ok (TensorM.new n), w')
    /\ holds w' (keys.get_tensor_meta_key n (vs_commit_id vs)) = true
    /\ raw_length w' n = 0
    /\ loaded self w' h
         (mkVS (vs_branch vs) (vs_commit_id vs) (vs_branch_commit_map vs)
               (vs_commit_node_map vs)
               (dict_set n (TensorM.new n) (vs_full_tensors vs)) (Some l))
         l (mkMeta (meta_tensors m ++ [n]) (meta_groups m))
    /\ Dataset.__getitem__ (S fuel) self (Dataset.IStr n) w'
       = (Ok (Dataset.VTensor
                (TensorM.getitem (TensorM.new n) (Dataset.index self))), w')
    /\ Dataset.create_tensor (S fuel) self name w'
       = (Raise (TensorAlreadyExistsError n), w').
Proof.
  intros Hr (Hh & Hvs & Hvm & Hc & Hl) Hhead Hro n Hsep Hne Hdir Hg Hex.
  destruct Hhead as (vs' & node & Hvs' & Hn & Ht).
  assert (vs' = vs) as -> by congruence.
  assert (peek_meta w (keys.get_dataset_meta_key (vs_commit_id vs)) = Some m)
    as Hm by (unfold peek_meta; rewrite Hc; exact Hl).
  destruct (create_tensor_unfold fuel self name w h vs node m
              Hr Hh Hvs Hn Ht Hm)
    as (l1 & w1 & _ & _ & Hgc & _ & Hrun).
  rewrite (get_cachable_hit _ l w Hc) in Hgc. injection Hgc as <- <-.
  cbv zeta in Hrun. fold n in Hrun.
  rewrite Hex, Hg, Hdir, Hsep in Hrun.
  rewrite (proj2 (String.eqb_neq _ _) Hne) in Hrun. cbn [orb] in Hrun.
  rewrite bind_run, ret_run in Hrun.
  (* the tensor's own storage *)
  set (tkey := keys.get_tensor_meta_key n (vs_commit_id vs)) in *.
  destruct (setitem_run tkey (CBytes (VBytes [])) w Hro)
    as (w2 & Hset & H2c & H2r & H2h & H2v & H2p).
  set (w3 := set_payload (fun k => if String.eqb k n then mkEngine 0 0 0
                                   else payload w2 k) w2).
  assert (version_control.create_tensor n (Some h) w = (Ok tt, w3)) as Hct.
  { unfold version_control.create_tensor.
    rewrite bind_run, (get_vs_ok _ _ _ _ _ eq_refl Hvs). cbv beta iota.
    unfold keys.tensor_exists. rewrite bind_run, contains_run.
    fold tkey. rewrite Hex. rewrite bind_run, Hset. reflexivity. }
  rewrite bind_run, Hct in Hrun.
  assert (vstates w3 !! h = Some vs) as Hvs3 by (subst w3; cbn; rewrite H2v; exact Hvs).
  assert (heap w3 !! l = Some m) as Hl3 by (subst w3; cbn; rewrite H2h; exact Hl).
  assert (Dataset.meta self w3 = (Ok l, w3)) as Hmeta.
  { unfold Dataset.meta.
    rewrite Hh, bind_run, (get_vs_ok _ _ _ _ _ eq_refl Hvs3). cbv beta iota.
    rewrite Hvm. reflexivity. }
  rewrite bind_run, Hmeta in Hrun.
  rewrite bind_run in Hrun. unfold deref at 1 in Hrun. rewrite Hl3 in Hrun.
  cbn [default from_option id] in Hrun. cbv beta iota in Hrun.
  rewrite bind_run in Hrun. unfold assign at 1, modify at 1 in Hrun.
  cbv beta iota in Hrun.
  set (m' := mkMeta (meta_tensors m ++ [n]) (meta_groups m)) in *.
  set (w4 := set_heap (<[l := m']> (heap w3)) w3) in *.
  assert (st_read_only (storage w4) = false) as Hr4 by exact H2r.
  destruct (maybe_flush_ok w4 Hr4) as (w5 & Hmf & H5c & H5h & H5v & H5p).
  rewrite bind_run, Hmf in Hrun.
  assert (vstates w5 !! h = Some vs) as Hvs5 by (rewrite H5v; exact Hvs3).
  rewrite bind_run, (get_vs_ok _ _ _ _ _ eq_refl Hvs5) in Hrun.
  cbv beta iota in Hrun. rewrite bind_run in Hrun.
  unfold put_vs at 1, modify at 1 in Hrun. cbv beta iota in Hrun.
  rewrite ret_run in Hrun. rewrite Hvm in Hrun.
  set (vs6 := mkVS (vs_branch vs) (vs_commit_id vs) (vs_branch_commit_map vs)
                   (vs_commit_node_map vs)
                   (dict_set n (TensorM.new n) (vs_full_tensors vs)) (Some l))
    in *.
  set (w6 := set_vstates (<[h := vs6]> (vstates w5)) w5) in *.
  assert (vstates w6 !! h = Some vs6) as Hvs6.
  { subst w6. cbn [vstates set_vstates]. apply list_lookup_insert_eq.
    eapply lookup_lt_Some, Hvs5. }
  assert (st_cache (storage w6) = <[tkey := CBytes (VBytes [])]> (st_cache (storage w)))
    as Hc6.
  { subst w6. cbn [storage set_vstates]. rewrite H5c. subst w4 w3. cbn.
    exact H2c. }
  assert (heap w6 !! l = Some m') as Hl6.
  { subst w6. cbn [heap set_vstates]. rewrite H5h. subst w4.
    cbn [heap set_heap]. apply list_lookup_insert_eq.
    eapply lookup_lt_Some, Hl3. }
  assert (holds w6 tkey = true) as Hholds.
  { unfold holds. rewrite Hc6, lookup_insert_eq.
    rewrite bool_decide_eq_true_2 by (eexists; reflexivity). reflexivity. }
  assert (loaded self w6 h vs6 l m') as Hloaded.
  { unfold loaded. split; [exact Hh|]. split; [exact Hvs6|].
    split; [reflexivity|]. split; [|exact Hl6].
    rewrite Hc6. subst vs6. cbn [vs_commit_id].
    rewrite lookup_insert_ne; [exact Hc|].
    apply tensor_key_is_not_the_meta_key. }
  exists w6. split; [exact Hrun|]. split; [exact Hholds|]. split.
  { unfold raw_length. subst w6. cbn [payload set_vstates]. rewrite H5p.
    subst w4 w3. cbn. rewrite String.eqb_refl. reflexivity. }
  split; [exact Hloaded|]. split.
  - rewrite getitem_str_unfold. cbv zeta.
    assert (posixpath.join (Dataset.group_index self) n = n) as ->.
    { unfold Dataset._is_root in Hr. apply String.eqb_eq in Hr. rewrite Hr.
      unfold posixpath.join. rewrite (no_sep_not_absolute n Hsep). reflexivity. }
    unfold Dataset._get_tensor_from_root.
    rewrite Hh, !bind_run, (get_vs_ok _ _ _ _ _ eq_refl Hvs6).
    subst vs6. cbn [vs_full_tensors]. rewrite dict_get_set, String.eqb_refl.
    reflexivity.
  - assert (peek_meta w6 (keys.get_dataset_meta_key (vs_commit_id vs6)) = Some m')
      as Hm6.
    { destruct Hloaded as (_ & _ & _ & Hc' & Hl'). unfold peek_meta.
      rewrite Hc'. exact Hl'. }
    destruct (create_tensor_unfold fuel self name w6 h vs6 node m'
                Hr Hh Hvs6 Hn Ht Hm6)
      as (l7 & w7 & _ & _ & _ & _ & Hrun2).
    cbv zeta in Hrun2. fold n in Hrun2. subst vs6. cbn [vs_commit_id] in Hrun2.
    fold tkey in Hrun2. rewrite Hholds in Hrun2. exact Hrun2.
Qed.

Lemma create_tensor_registers_the_tensor_witness :
  exists w',
    Dataset.create_tensor 5 local_root "/images/" tensor_world
    = (Ok (TensorM.new "images"), w')
    /\ holds w' "images/tensor_meta.json" = true.
Proof.
  assert (loaded local_root tensor_world 0
            (mkVS "main" "first" {[ "main" := "first" ]}
                  {[ "first" := mkNode "main" "first" None None ]}
                  [("a", TensorM.new "a")] (Some 0))
            0 (mkMeta ["a"] [])) as Hl
    by (repeat split; reflexivity).
  assert (at_head tensor_world 0) as Hh
    by (eexists _, _; repeat split; reflexivity).
  assert (Dataset.normalize "/images/" <> "") as Hne by discriminate.
  destruct (create_tensor_registers_the_tensor
              4 local_root "/images/" tensor_world 0 0 _ _
              eq_refl Hl Hh eq_refl eq_refl Hne eq_refl eq_refl eq_refl)
    as (w' & H & Hk & _).
  exists w'. split; [exact H|exact Hk].
Defined.

(** ** The views of the subgroups *)

Lemma groups_filtered_elem self gs b :
  pystr.startswith "/" (Dataset.group_index self) = false ->
  pystr.endswith_sep (Dataset.group_index self) = false ->
  Forall (fun x => pystr.has_dsep x = false) gs ->
  b ∈ Dataset._groups_filtered_loop self gs [] <->
  pystr.has_sep b = false
  /\ posixpath.join (Dataset.group_index self) b ∈ gs.
Proof.
  intros Hg He Hd. rewrite groups_filtered_loop_spec. cbn [app].
  rewrite list_elem_of_omap. split.
  - intros (x & Hx & Hb).
    destruct (String.eqb_spec (fst (posixpath.split x))
                              (Dataset.group_index self)) as [Hq|]; [|discriminate].
    injection Hb as <-.
    rewrite Forall_forall in Hd.
    destruct (directly_under (Dataset.group_index self) x
                (snd (posixpath.split x)) Hg He (Hd x Hx)) as [H1 _].
    destruct H1 as [Hb Hj].
    { rewrite <- Hq. destruct (posixpath.split x); reflexivity. }
    split; [exact Hb|]. rewrite Hj. exact Hx.
  - intros [Hb Hx]. eexists. split; [exact Hx|].
    rewrite split_of_join by assumption. cbn [fst snd].
    rewrite String.eqb_refl. reflexivity.
Qed.

Lemma dict_set_elem {V} k (v : V) d k' v' :
  (k', v') ∈ dict_set k v d -> (k', v') = (k, v) \/ (k', v') ∈ d.
Proof.
  induction d as [|[k0 v0] r IH]; cbn [dict_set].
  - intros H%list_elem_of_singleton. left. exact H.
  - destruct (String.eqb k k0).
    + intros [->|H]%elem_of_cons; [left; reflexivity|].
      right. apply elem_of_cons. right. exact H.
    + intros [->|H]%elem_of_cons; [right; apply elem_of_cons; left; reflexivity|].
      destruct (IH H) as [->|H']; [left; reflexivity|].
      right. apply elem_of_cons. right. exact H'.
Qed.

Lemma dict_set_keys {V} k (v : V) d k' :
  k' ∈ map fst (dict_set k v d) <-> k' = k \/ k' ∈ map fst d.
Proof.
  induction d as [|[k0 v0] r IH]; cbn [dict_set map fst].
  - rewrite list_elem_of_singleton. split; [auto|].
    intros [H|H]; [exact H|]. apply elem_of_nil in H. destruct H.
  - destruct (String.eqb_spec k k0) as [->|Hne]; cbn [map fst].
    + rewrite !elem_of_cons. tauto.
    + rewrite !elem_of_cons, IH. tauto.
Qed.

Lemma dict_of_list_acc_elem {V} (l : list (string * V)) :
  forall acc k v,
    (k, v) ∈ fold_left (fun d kv => dict_set (fst kv) (snd kv) d) l acc ->
    (k, v) ∈ acc \/ (k, v) ∈ l.
Proof.
  induction l as [|[k0 v0] r IH]; intros acc k v; cbn [fold_left fst snd].
  - auto.
  - intros H. destruct (IH _ _ _ H) as [H1|H1].
    + destruct (dict_set_elem _ _ _ _ _ H1) as [->|H2].
      * right. apply elem_of_cons. left. reflexivity.
      * left. exact H2.
    + right. apply elem_of_cons. right. exact H1.
Qed.

Lemma dict_of_list_acc_keys {V} (l : list (string * V)) :
  forall acc k,
    k ∈ map fst (fold_left (fun d kv => dict_set (fst kv) (snd kv) d) l acc)
    <-> k ∈ map fst acc \/ k ∈ map fst l.
Proof.
  induction l as [|[k0 v0] r IH]; intros acc k; cbn [fold_left fst snd map].
  - split; [auto|]. intros [H|H]; [exact H|]. apply elem_of_nil in H. destruct H.
  - rewrite IH, dict_set_keys, elem_of_cons. tauto.
Qed.

Lemma dict_of_list_elem {V} (l : list (string * V)) k v :
  (k, v) ∈ dict_of_list l -> (k, v) ∈ l.
Proof.
  intros H. destruct (dict_of_list_acc_elem l [] k v H) as [H1|H1];
    [apply elem_of_nil in H1; destruct H1|exact H1].
Qed.

Lemma dict_of_list_keys {V} (l : list (string * V)) k :
  k ∈ map fst (dict_of_list l) <-> k ∈ map fst l.
Proof.
  unfold dict_of_list. rewrite dict_of_list_acc_keys. cbn [map].
  split; [|auto]. intros [H|H]; [apply elem_of_nil in H; destruct H|exact H].
Qed.


(** ** C6: the length of a view, on any namespace *)

Lemma same_payload_refl w : same_payload w w.
Proof. reflexivity. Qed.

Lemma same_payload_trans a b c :
  same_payload a b -> same_payload b c -> same_payload a c.
Proof. unfold same_payload. congruence. Qed.

Ltac pay_tac :=
  frame_tac same_payload_refl same_payload_trans
            ltac:(try case_match; reflexivity).

Abbreviation keeps_payload := (respects same_payload any_exn).

Lemma pay_getitem key : keeps_payload (LRUCache.getitem key).
Proof. unfold LRUCache.getitem. pay_tac. Qed.
#[local] Hint Resolve pay_getitem : frame.

Lemma pay_alloc m : keeps_payload (alloc m).
Proof. intros w. split; [reflexivity|discriminate]. Qed.
#[local] Hint Resolve pay_alloc : frame.

Lemma pay_put_vs h vs : keeps_payload (put_vs h vs).
Proof. unfold put_vs. pay_tac. Qed.
#[local] Hint Resolve pay_put_vs : frame.

Lemma pay_get_cachable key : keeps_payload (LRUCache.get_cachable key).
Proof. unfold LRUCache.get_cachable. pay_tac. Qed.
#[local] Hint Resolve pay_get_cachable : frame.

Lemma pay_load_meta h : keeps_payload (version_control.load_meta h).
Proof. unfold version_control.load_meta. pay_tac. Qed.
#[local] Hint Resolve pay_load_meta : frame.

Lemma pay_tensors self : keeps_payload (Dataset.tensors self).
Proof. unfold Dataset.tensors, Dataset._all_tensors_filtered. pay_tac. Qed.

(** [len] is the minimum over the values of [self.tensors], and fails as
    [self.tensors] fails. *)
Lemma len_of_tensors self w :
  Dataset.__len__ self w =
  match Dataset.tensors self w with
  | (Ok d, w1) =>
      (Ok (py_min (map (fun x => Index.length (t_index x)
                                              (raw_length w (t_key x)))
                       (map snd d))), w1)
  | (Raise e, w1) => (Raise e, w1)
  end.
Proof.
  unfold Dataset.__len__. rewrite bind_run.
  destruct (pay_tensors self w) as [Hp _].
  destruct (Dataset.tensors self w) as [[d|e] w1]; [|reflexivity].
  rewrite bind_run, mapM_len_run, ret_run. unfold raw_length.
  cbn in Hp. unfold same_payload in Hp. rewrite Hp. reflexivity.
Qed.

(** C6, as the code has it.  [len] of a view is the minimum, over the
    tensors that [self.tensors] exposes, of the number of samples the view's
    index keeps of each: the lengths of the sliced tensors, 0 when there is
    none; and when [self.tensors] fails, so does [len], in the same way.  On
    a dataset whose stored tensor paths are normalized and distinct, this is
    the minimum of the sliced lengths of the tensors in the scope of the
    group of the view, which is the minimum of their raw lengths when the
    index is trivial.  The minimum that ignores the index is [num_samples],
    taken over all the tensors of the version state.  Iteration yields
    [self[i]] for [i] in [range(len(self))], and fails as [len] fails. *)
Theorem len_is_min_of_sliced_lengths
        (fuel : nat) (self : Dataset.t) (w : World) :
  let sliced_lengths (l : list Tensor) :=
    map (fun x => Index.length (t_index x) (raw_length w (t_key x))) l in
  (forall d w1,
      Dataset.tensors self w = (Ok d, w1) ->
      Dataset.__len__ self w = (Ok (py_min (sliced_lengths (map snd d))), w1))
  /\ (forall e w1,
         Dataset.tensors self w = (Raise e, w1) ->
         Dataset.__len__ self w = (Raise e, w1))
  /\ (forall h vs m,
         Dataset.version_state self = Some h ->
         vstates w !! h = Some vs ->
         peek_meta w (keys.get_dataset_meta_key (vs_commit_id vs)) = Some m ->
         well_named (Dataset.group_index self) (meta_tensors m) ->
         let exposed := in_scope (Dataset.group_index self) (meta_tensors m) in
         let n := py_min (map (fun x => Index.length (Dataset.index self)
                                                     (raw_length w x))
                              exposed) in
         (Dataset.__len__ self w).1 = Ok n
         /\ (Index.is_trivial (Dataset.index self) = true ->
             n = py_min (map (raw_length w) exposed)))
  /\ (forall h vs,
         Dataset.version_state self = Some h ->
         vstates w !! h = Some vs ->
         Dataset.num_samples self w
         = (Ok (py_min (sliced_lengths (map snd (vs_full_tensors vs)))), w))
  /\ (forall n,
         (Dataset.__len__ self w).1 = Ok n ->
         (Dataset.__iter__ fuel self w).1 =
         Ok (map (fun i => Dataset.__getitem__ fuel self
                             (Dataset.ISel (Index.SInt i)))
                 (seq 0 n)))
  /\ (forall e,
         (Dataset.__len__ self w).1 = Raise e ->
         (Dataset.__iter__ fuel self w).1 = Raise e).
Proof.
  intros sliced_lengths.
  split; [|split; [|split; [|split; [|split]]]].
  - intros d w1 Ht. rewrite len_of_tensors, Ht. reflexivity.
  - intros e w1 Ht. rewrite len_of_tensors, Ht. reflexivity.
  - intros h vs m Hh Hvs Hm Hw exposed n.
    destruct (len_run self w h vs m Hh Hvs Hm Hw) as (w1 & Hlen).
    fold exposed in Hlen. fold n in Hlen.
    split; [rewrite Hlen; reflexivity|].
    intros Htriv. subst n. f_equal. apply map_ext. intros x.
    apply index_length_trivial, Htriv.
  - intros h vs Hh Hvs. apply (num_samples_run self w h vs Hh Hvs).
  - intros n Hn. unfold Dataset.__iter__. rewrite bind_run.
    destruct (Dataset.__len__ self w) as [[n'|e] w1]; cbn in Hn;
      [|discriminate].
    injection Hn as ->. reflexivity.
  - intros e He. unfold Dataset.__iter__. rewrite bind_run.
    destruct (Dataset.__len__ self w) as [[n'|e'] w1]; cbn in He;
      [discriminate|].
    injection He as ->. reflexivity.
Qed.

Lemma len_is_min_of_sliced_lengths_witness :
  (Dataset.__len__ sliced_view sliced_world).1 = Ok 3
  /\ (Dataset.num_samples sliced_view sliced_world).1 = Ok 10
  /\ (Dataset.__len__ local_root dotted_world).1 = Raise (KeyError "x").
Proof.
  assert (well_named "" ["images"; "labels"]) as Hw.
  { split; [|split; [|left; reflexivity]].
    - apply NoDup_cons. split; [|apply NoDup_singleton].
      intros H. apply list_elem_of_singleton in H. discriminate.
    - repeat constructor. }
  pose proof (len_is_min_of_sliced_lengths 5 sliced_view sliced_world)
    as (_ & _ & Hlen & Hns & _).
  destruct (Hlen 0 _ _ eq_refl eq_refl eq_refl Hw) as [Hl _].
  split; [exact Hl|]. split; [rewrite (Hns 0 _ eq_refl eq_refl); reflexivity|].
  pose proof (len_is_min_of_sliced_lengths 5 local_root dotted_world)
    as (_ & Hraise & _).
  destruct (Dataset.tensors local_root dotted_world) as [r w1] eqn:E.
  assert (r = Raise (KeyError "x")) as ->.
  { vm_compute in E. injection E as <- _. reflexivity. }
  rewrite (Hraise _ _ eq_refl). reflexivity.
Defined.

(** ** C7: resolving a name *)

Lemma dict_get_fold_names {V} (f : string -> V) k names :
  forall acc,
    dict_get k (fold_left (fun d kv => dict_set (fst kv) (snd kv) d)
                          (map (fun n => (n, f n)) names) acc)
    = if pystr.mem k names then Some (f k) else dict_get k acc.
Proof.
  induction names as [|n names IH]; intros acc; [reflexivity|].
  cbn [map fold_left fst snd]. rewrite IH, dict_get_set.
  unfold pystr.mem. cbn [existsb]. fold (pystr.mem k names).
  destruct (pystr.mem k names); [rewrite orb_true_r; reflexivity|].
  rewrite orb_false_r.
  destruct (String.eqb_spec k n) as [->|]; reflexivity.
Qed.

(** The handles of a reload: one full handle for every tensor name of the
    meta. *)
Lemma dict_get_reload k names :
  dict_get k (dict_of_list (map (fun n => (n, TensorM.new n)) names))
  = if pystr.mem k names then Some (TensorM.new k) else None.
Proof. unfold dict_of_list. rewrite dict_get_fold_names. reflexivity. Qed.

Lemma set_vstates_same w : set_vstates (vstates w) w = w.
Proof. destruct w; reflexivity. Qed.

(** A reload of a version state that is loaded changes nothing. *)
Lemma load_meta_again h vs l m w :
  vstates w !! h = Some vs ->
  vs_full_tensors vs
  = dict_of_list (map (fun n => (n, TensorM.new n)) (meta_tensors m)) ->
  vs_meta vs = Some l ->
  st_cache (storage w) !! keys.get_dataset_meta_key (vs_commit_id vs)
  = Some (CObj l) ->
  heap w !! l = Some m ->
  version_control.load_meta (Some h) w = (Ok tt, w).
Proof.
  intros Hvs Hft Hvm Hc Hl. unfold version_control.load_meta.
  rewrite bind_run, (get_vs_ok _ _ _ _ _ eq_refl Hvs). cbv beta iota.
  rewrite bind_run, (get_cachable_hit _ l w Hc).
  rewrite bind_run. unfold deref at 1. rewrite Hl.
  cbn [default from_option id]. unfold put_vs, modify.
  rewrite <- Hft, <- Hvm.
  replace (mkVS (vs_branch vs) (vs_commit_id vs) (vs_branch_commit_map vs)
                (vs_commit_node_map vs) (vs_full_tensors vs) (vs_meta vs))
    with vs by (destruct vs; reflexivity).
  rewrite (list_insert_id _ _ _ Hvs), set_vstates_same. reflexivity.
Qed.

(** [self[name]] on a view whose storage holds the meta [m] of the current
    commit: what is returned, and the state it is returned in. *)
Lemma getitem_str_run fuel self name w h vs m :
  Dataset.version_state self = Some h ->
  vstates w !! h = Some vs ->
  peek_meta w (keys.get_dataset_meta_key (vs_commit_id vs)) = Some m ->
  let fullpath := posixpath.join (Dataset.group_index self) name in
  let result := Dataset.__getitem__ (S fuel) self (Dataset.IStr name) w in
  match dict_get fullpath (vs_full_tensors vs) with
  | Some x =>
      result
      = (Ok (Dataset.VTensor (TensorM.getitem x (Dataset.index self))), w)
  | None =>
      exists l w0,
        read_step w w0
        /\ heap w0 !! l = Some m
        /\ st_cache (storage w0)
             !! keys.get_dataset_meta_key (vs_commit_id vs) = Some (CObj l)
        /\ let w1 := set_vstates (<[h := reloaded vs l m]> (vstates w)) w0 in
           if pystr.mem fullpath (meta_tensors m) then
             result
             = (Ok (Dataset.VTensor
                      (TensorM.getitem (TensorM.new fullpath)
                                       (Dataset.index self))), w1)
           else if pystr.mem fullpath (meta_groups m) then
             result
             = (d ← Dataset.__init__ (group_view_args self fullpath);
                mret (Dataset.VDataset d)) w1
             /\ forall d w2,
                  Dataset.__init__ (group_view_args self fullpath) w1
                  = (Ok d, w2) ->
                  d = Dataset.mk (st_root (storage w))
                                 (Dataset._read_only self)
                                 (Dataset.index self) fullpath
                                 (Dataset._token self) (Some true) false
                                 (Dataset.version_state self)
                                 (Dataset.info d)
           else if pystr.has_sep name then
             result = resolve_through_head fuel self name w1
           else result = (Raise (TensorDoesNotExistError name), w1)
  end.
Proof.
  intros Hh Hvs Hm fullpath result. subst result.
  destruct (dict_get fullpath (vs_full_tensors vs)) as [x|] eqn:Hx.
  { rewrite getitem_str_unfold. fold fullpath. cbv zeta.
    unfold Dataset._get_tensor_from_root.
    rewrite Hh, !bind_run, (get_vs_ok _ _ _ _ _ eq_refl Hvs). cbv beta iota.
    rewrite Hx. reflexivity. }
  destruct (load_meta_full h vs w m Hvs Hm) as (l & w0 & Hlm & Hl & Hc & Hrs).
  exists l, w0. split; [exact Hrs|]. split; [exact Hl|]. split; [exact Hc|].
  fold (reloaded vs l m) in Hlm.
  set (w1 := set_vstates (<[h := reloaded vs l m]> (vstates w)) w0) in *.
  assert (vstates w1 !! h = Some (reloaded vs l m)) as Hvs1.
  { subst w1. cbn [vstates set_vstates]. apply list_lookup_insert_eq.
    eapply lookup_lt_Some, Hvs. }
  assert (Dataset._get_tensor_from_root self fullpath w
          = (Ok (if pystr.mem fullpath (meta_tensors m)
                 then Some (TensorM.new fullpath) else None), w1)) as Hgt.
  { unfold Dataset._get_tensor_from_root.
    rewrite Hh, !bind_run, (get_vs_ok _ _ _ _ _ eq_refl Hvs). cbv beta iota.
    rewrite Hx. rewrite !bind_run, Hlm.
    rewrite !bind_run, (get_vs_ok _ _ _ _ _ eq_refl Hvs1). cbv beta iota.
    rewrite ret_run. unfold reloaded at 1. cbn [vs_full_tensors].
    rewrite dict_get_reload. reflexivity. }
  assert (Dataset.meta self w1 = (Ok l, w1)) as Hmeta.
  { unfold Dataset.meta.
    rewrite Hh, bind_run, (get_vs_ok _ _ _ _ _ eq_refl Hvs1). reflexivity. }
  assert (deref l w1 = (Ok m, w1)) as Hderef.
  { unfold deref. subst w1. cbn [heap set_vstates]. rewrite Hl. reflexivity. }
  assert (Dataset._has_group_in_root self fullpath w1
          = (Ok (pystr.mem fullpath (meta_groups m)), w1)) as Hhg.
  { unfold Dataset._has_group_in_root.
    rewrite !bind_run, Hmeta. rewrite !bind_run, Hderef.
    destruct (pystr.mem fullpath (meta_groups m)) eqn:Hg; [reflexivity|].
    assert (version_control.load_meta (Some h) w1 = (Ok tt, w1)) as Hagain.
    { apply (load_meta_again h (reloaded vs l m) l m);
        [exact Hvs1|reflexivity|reflexivity| |].
      - subst w1. cbn [storage set_vstates reloaded vs_commit_id]. exact Hc.
      - subst w1. cbn [heap set_vstates]. exact Hl. }
    rewrite !bind_run, Hh, Hagain. rewrite !bind_run, Hmeta.
    rewrite !bind_run, Hderef. rewrite ret_run, Hg. reflexivity. }
  cbv zeta. rewrite getitem_str_unfold. fold fullpath. cbv zeta.
  rewrite bind_run, Hgt.
  destruct (pystr.mem fullpath (meta_tensors m)); [reflexivity|].
  rewrite bind_run, Hhg.
  destruct (pystr.mem fullpath (meta_groups m)).
  - split; [reflexivity|].
    intros d w2 Hi.
    assert (Dataset.vs_truthy (Dataset.version_state self) w1 = true) as Htr.
    { unfold Dataset.vs_truthy. rewrite Hh. apply bool_decide_eq_true.
      exists (reloaded vs l m). exact Hvs1. }
    pose proof (init_view_fields (group_view_args self fullpath) w1 d w2
                  (Dataset.index self) eq_refl Htr Hi) as Hf.
    rewrite Hf at 1. cbn.
    destruct Hrs as (_ & _ & _ & _ & _ & _ & _ & _ & _ & _ & Hroot & _).
    subst w1. cbn [storage set_vstates]. rewrite Hroot. reflexivity.
  - destruct (pystr.has_sep name); reflexivity.
Qed.

(** C7.  [dataset[name]] for a string resolves in this order.  (a) If a
    tensor is materialized at [group_index/name], that is, [full_tensors]
    has a handle under that path, the result is that handle with the index
    of the view applied, and nothing has changed.  Otherwise the namespace
    is reloaded from the meta that the storage holds for the current commit,
    and if the meta lists a tensor at that path, the result is its full
    handle with the index of the view applied.  (b) Else, if the meta lists
    a group at that path, the result is what the constructor makes of a view
    on the same storage with the same index, version state, read-only flag
    and token and the deeper group path; when it returns, the view has
    exactly these attributes.  (c) Else, if [name] contains a separator, the
    head of the name is resolved and the tail is resolved in what that gave;
    otherwise [TensorDoesNotExistError(name)] is raised.  The index of the
    view is applied to a tensor and is never changed.  For a relative name,
    a depth of recursion above the number of its separators is enough: the
    resolution does not end in [RecursionError]. *)
Theorem getitem_name_resolution
        (fuel : nat) (self : Dataset.t) (name : string) (w : World)
        (h : nat) (vs : VersionState) :
  Dataset.version_state self = Some h ->
  vstates w !! h = Some vs ->
  let fullpath := posixpath.join (Dataset.group_index self) name in
  let result := Dataset.__getitem__ (S fuel) self (Dataset.IStr name) w in
  match dict_get fullpath (vs_full_tensors vs) with
  | Some x =>
      result
      = (Ok (Dataset.VTensor
               (mkTensor (t_key x)
                         (Index.compose (t_index x) (Dataset.index self)))),
         w)
  | None =>
      forall m,
        peek_meta w (keys.get_dataset_meta_key (vs_commit_id vs)) = Some m ->
        exists l w0,
          read_step w w0
          /\ heap w0 !! l = Some m
          /\ let w1 :=
               set_vstates (<[h := reloaded vs l m]> (vstates w)) w0 in
             if pystr.mem fullpath (meta_tensors m) then
               result
               = (Ok (Dataset.VTensor
                        (mkTensor fullpath
                                  (Index.compose Index.new
                                                 (Dataset.index self)))), w1)
             else if pystr.mem fullpath (meta_groups m) then
               result
               = (d ← Dataset.__init__ (group_view_args self fullpath);
                  mret (Dataset.VDataset d)) w1
               /\ forall d w2,
                    Dataset.__init__ (group_view_args self fullpath) w1
                    = (Ok d, w2) ->
                    d = Dataset.mk (st_root (storage w))
                                   (Dataset._read_only self)
                                   (Dataset.index self) fullpath
                                   (Dataset._token self) (Some true) false
                                   (Dataset.version_state self)
                                   (Dataset.info d)
             else if pystr.has_sep name then
               match Dataset.__getitem__
                       fuel self
                       (Dataset.IStr (fst (posixpath.split name))) w1 with
               | (Raise e, w3) => result = (Raise e, w3)
               | (Ok (Dataset.VDataset d), w3) =>
                   result
                   = Dataset.__getitem__
                       fuel d (Dataset.IStr (snd (posixpath.split name))) w3
               | (Ok (Dataset.VTensor _), w3) =>
                   result = (Raise InvalidKeyTypeError, w3)
               end
             else result = (Raise (TensorDoesNotExistError name), w1)
  end
  /\ (pystr.startswith "/" name = false ->
      count_sep name <= fuel ->
      result.1 <> Raise RecursionError).
Proof.
  intros Hh Hvs fullpath result. split.
  2:{ intros Ha Hn Hr.
      apply (getitem_name_returns (count_sep name) (S fuel) self name w)
        in Hr as (_ & Hr & _); [congruence|lia|lia|exact Ha]. }
  destruct (dict_get fullpath (vs_full_tensors vs)) as [x|] eqn:Hx.
  - subst result. rewrite getitem_str_unfold. fold fullpath. cbv zeta.
    unfold Dataset._get_tensor_from_root.
    rewrite Hh, !bind_run, (get_vs_ok _ _ _ _ _ eq_refl Hvs). cbv beta iota.
    rewrite Hx. reflexivity.
  - intros m Hm.
    pose proof (getitem_str_run fuel self name w h vs m Hh Hvs Hm) as H.
    cbv zeta in H. fold fullpath in H. fold result in H. rewrite Hx in H.
    destruct H as (l & w0 & Hrs & Hl & _ & H).
    exists l, w0. split; [exact Hrs|]. split; [exact Hl|]. cbv zeta.
    destruct (pystr.mem fullpath (meta_tensors m)); [exact H|].
    destruct (pystr.mem fullpath (meta_groups m)); [exact H|].
    destruct (pystr.has_sep name); [|exact H].
    rewrite H. unfold resolve_through_head. cbv zeta. rewrite bind_run.
    destruct (Dataset.__getitem__ fuel self _ _) as [[[x|d]|e] w3];
      reflexivity.
Qed.

Lemma getitem_name_resolution_witness :
  Dataset.__getitem__ 3 local_root (Dataset.IStr "y") grouped_world
  = (Ok (Dataset.VTensor
           (TensorM.getitem (TensorM.new "y") (Dataset.index local_root))),
     grouped_world)
  /\ exists d w',
       Dataset.__getitem__ 3 group_view (Dataset.IStr "h") grouped_world
       = (Ok (Dataset.VDataset d), w')
       /\ Dataset.group_index d = "g/h"
       /\ Dataset.version_state d = Dataset.version_state group_view.
Proof.
  split.
  - pose proof (getitem_name_resolution 2 local_root "y" grouped_world 0 _
                  eq_refl eq_refl) as [H _].
    cbv zeta in H.
    change (dict_get (posixpath.join (Dataset.group_index local_root) "y") _)
      with (Some (TensorM.new "y")) in H.
    exact H.
  - pose proof (getitem_name_resolution 2 group_view "h" grouped_world 0 _
                  eq_refl eq_refl) as [H _].
    cbv zeta in H.
    change (dict_get (posixpath.join (Dataset.group_index group_view) "h") _)
      with (@None Tensor) in H.
    destruct (H _ eq_refl) as (l & w0 & _ & _ & H'). cbv zeta in H'.
    change (pystr.mem (posixpath.join (Dataset.group_index group_view) "h")
                      (meta_tensors (mkMeta ["g/x"; "y"] ["g"; "g/h"])))
      with false in H'.
    change (pystr.mem (posixpath.join (Dataset.group_index group_view) "h")
                      (meta_groups (mkMeta ["g/x"; "y"] ["g"; "g/h"])))
      with true in H'.
    cbv iota in H'. destruct H' as [Hres Hfields].
    destruct (Dataset.__getitem__ 3 group_view (Dataset.IStr "h") grouped_world)
      as [r w'] eqn:E.
    assert (exists d, r = Ok (Dataset.VDataset d)) as [d ->].
    { vm_compute in E. injection E as <- _. eexists. reflexivity. }
    exists d, w'. split; [reflexivity|].
    rewrite bind_run in Hres.
    destruct (Dataset.__init__ _ _) as [[d'|e] w2] eqn:Hi; [|discriminate].
    rewrite ret_run in Hres. injection Hres as <- <-.
    rewrite (Hfields _ _ eq_refl). split; reflexivity.
Defined.

(** ** The views of the subgroups, and the tensors among them *)

Lemma mapM_invariant {A B} (I : World -> Prop) (P : A -> B -> Prop)
      (f : A -> M B) (l : list A) :
  (forall x w y w', x ∈ l -> I w -> f x w = (Ok y, w') -> P x y /\ I w') ->
  forall w ys w',
    I w -> mapM f l w = (Ok ys, w') -> Forall2 P l ys /\ I w'.
Proof.
  induction l as [|x r IH]; intros Hf w ys w' HI H; cbn [mapM] in H.
  - rewrite ret_run in H. injection H as <- <-. split; [constructor|exact HI].
  - apply bind_inv_ok in H as (y & w1 & Hy & H).
    apply bind_inv_ok in H as (ys' & w2 & Hys & H).
    rewrite ret_run in H. injection H as <- <-.
    destruct (Hf x w y w1) as [HP HI1];
      [apply elem_of_cons; left; reflexivity|exact HI|exact Hy|].
    destruct (IH (fun x0 w0 y0 w0' Hin =>
                    Hf x0 w0 y0 w0' (proj2 (elem_of_cons _ _ _) (or_intror Hin)))
                 w1 ys' w2 HI1 Hys) as [HF HI2].
    split; [constructor; assumption|exact HI2].
Qed.

Lemma peek_meta_set_vstates v w k :
  peek_meta (set_vstates v w) k = peek_meta w k.
Proof. reflexivity. Qed.

(** A reload leaves handles that agree with the meta. *)
Lemma handles_agree_reloaded h vs l m w w0 :
  vstates w !! h = Some vs ->
  peek_meta w (keys.get_dataset_meta_key (vs_commit_id vs)) = Some m ->
  read_step w w0 ->
  handles_agree h (vs_commit_id vs) m
    (set_vstates (<[h := reloaded vs l m]> (vstates w)) w0).
Proof.
  intros Hvs Hm Hrs. exists (reloaded vs l m).
  split; [|split; [reflexivity|split]].
  - cbn [vstates set_vstates]. apply list_lookup_insert_eq.
    eapply lookup_lt_Some, Hvs.
  - rewrite peek_meta_set_vstates.
    destruct Hrs as (_ & _ & _ & _ & _ & _ & _ & _ & _ & _ & _ & _ & _ & _ & Hp).
    apply Hp, Hm.
  - intros p x. unfold reloaded. cbn [vs_full_tensors].
    rewrite dict_get_reload.
    destruct (pystr.mem p (meta_tensors m)); [|discriminate].
    intros [= <-]. split; reflexivity.
Qed.

Lemma finish_attributes_world self w r w' :
  finish_attributes self w = (r, w') -> w' = w.
Proof.
  unfold finish_attributes, version_control.load_info, Dataset.num_samples.
  rewrite bind_run.
  pose proof (get_vs_world "commit_id" (Dataset.version_state self) w) as Hw.
  destruct (get_vs "commit_id" _ w) as [[vs|e] w1]; cbn in Hw; subst w1;
    [|intros [= _ <-]; reflexivity].
  rewrite bind_run, ret_run. cbv zeta. rewrite bind_run.
  cbn [Dataset.version_state Dataset.with_info].
  rewrite bind_run.
  pose proof (get_vs_world "full_tensors" (Dataset.version_state self) w) as Hw.
  destruct (get_vs "full_tensors" _ w) as [[vs'|e] w1]; cbn in Hw; subst w1;
    [|intros [= _ <-]; reflexivity].
  rewrite bind_run, mapM_len_run, ret_run.
  destruct (Index.valid _ _); intros [= _ <-]; reflexivity.
Qed.

(** The constructor of a view on a version state whose handles agree with
    the meta: when it returns, they still do. *)
Lemma init_view_keeps_handles args w d w' h c m i :
  Dataset.a_version_state args = Some h ->
  Dataset.a_index args = Some i ->
  handles_agree h c m w ->
  Dataset.__init__ args w = (Ok d, w') ->
  handles_agree h c m w'.
Proof.
  intros Hah Hai (vs & Hvs & Hc & Hm & Hag) Hi. subst c.
  assert (Dataset.vs_truthy (Dataset.a_version_state args) w = true) as Htr.
  { unfold Dataset.vs_truthy. rewrite Hah. apply bool_decide_eq_true.
    exists vs. exact Hvs. }
  destruct (init_reaches_populate_meta args w)
    as (self1 & w1 & Hrun & _ & _ & _ & _ & _ & _ & Hvac & _ & _ & _ & Hpk
        & Htrue & _).
  destruct (Htrue Htr) as [Hs1 Hv1].
  rewrite Hrun in Hi.
  apply bind_inv_ok in Hi as ([] & w2 & Hpop & Hfin).
  apply finish_attributes_world in Hfin as ->.
  rewrite populate_meta_unfold in Hpop.
  assert (peek_meta w1 (keys.get_dataset_meta_key (vs_commit_id vs)) = Some m)
    as Hm1 by (rewrite Hpk; exact Hm).
  assert (vstates w1 !! h = Some vs) as Hvs1 by (rewrite Hv1; exact Hvs).
  destruct (is_dataset w1).
  - apply bind_inv_ok in Hpop as ([] & w3 & Hemit & Hpop).
    assert (vstates w3 !! h = Some vs
            /\ peek_meta w3 (keys.get_dataset_meta_key (vs_commit_id vs))
               = Some m) as [Hvs3 Hm3].
    { destruct (Dataset.verbose self1).
      - unfold emit, modify in Hemit. injection Hemit as <-.
        split; [exact Hvs1|exact Hm1].
      - rewrite ret_run in Hemit. injection Hemit as <-.
        split; [exact Hvs1|exact Hm1]. }
    rewrite Hs1, Hah in Hpop.
    destruct (load_meta_full h vs w3 m Hvs3 Hm3)
      as (l & w0 & Hlm & _ & _ & Hrs).
    rewrite Hlm in Hpop. injection Hpop as <-.
    apply (handles_agree_reloaded h vs l m w3 w0 Hvs3 Hm3 Hrs).
  - destruct (vacant w1) eqn:Hv; cbn [negb] in Hpop; [|discriminate].
    rewrite (vacant_peek _ _ Hv) in Hm1. discriminate.
Qed.

(** What [self[g]] is, when it returns, for the name of a group that holds
    no separator, on handles that agree with the meta. *)
Lemma getitem_direct_group fuel self g w v w' h c m :
  Dataset.version_state self = Some h ->
  handles_agree h c m w ->
  pystr.has_sep g = false ->
  pystr.mem (posixpath.join (Dataset.group_index self) g) (meta_groups m)
  = true ->
  Dataset.__getitem__ (S fuel) self (Dataset.IStr g) w = (Ok v, w') ->
  (if pystr.mem (posixpath.join (Dataset.group_index self) g) (meta_tensors m)
   then v = Dataset.VTensor
              (TensorM.getitem
                 (TensorM.new (posixpath.join (Dataset.group_index self) g))
                 (Dataset.index self))
   else exists d,
       v = Dataset.VDataset d
       /\ Dataset.group_index d = posixpath.join (Dataset.group_index self) g
       /\ Dataset.index d = Dataset.index self
       /\ Dataset.version_state d = Dataset.version_state self
       /\ Dataset.read_only d = Dataset.read_only self
       /\ Dataset._token d = Dataset._token self)
  /\ handles_agree h c m w'.
Proof.
  intros Hh Hag Hs Hg Hrun.
  pose proof Hag as (vs & Hvs & Hc & Hm & Hhandles). subst c.
  pose proof (getitem_str_run fuel self g w h vs m Hh Hvs Hm) as H.
  cbv zeta in H.
  set (p := posixpath.join (Dataset.group_index self) g) in *.
  destruct (dict_get p (vs_full_tensors vs)) as [x|] eqn:Hx.
  - destruct (Hhandles p x Hx) as [-> Hpt]. rewrite Hpt.
    rewrite Hrun in H. injection H as -> ->. split; [reflexivity|exact Hag].
  - destruct H as (l & w0 & Hrs & Hl & Hcache & H). cbv zeta in H.
    pose proof (handles_agree_reloaded h vs l m w w0 Hvs Hm Hrs) as Hag1.
    destruct (pystr.mem p (meta_tensors m)).
    + rewrite Hrun in H. injection H as -> ->.
      split; [reflexivity|exact Hag1].
    + rewrite Hg in H. destruct H as [Hres Hfields].
      rewrite Hrun in Hres. symmetry in Hres.
      apply bind_inv_ok in Hres as (d & w2 & Hi & Hres).
      rewrite ret_run in Hres. injection Hres as <- <-.
      split.
      * exists d. split; [reflexivity|].
        rewrite (Hfields d w2 Hi). cbn. repeat split; reflexivity.
      * apply (init_view_keeps_handles (group_view_args self p) _ d w2 h _ m
                 (Dataset.index self) Hh eq_refl Hag1 Hi).
Qed.

(** X26.  [groups], on a view whose materialized handles agree with the
    stored meta (as they do from the open on): whenever it returns, its keys
    are the direct subgroups of the group of the view, and under each key is
    what [self[key]] gives.  That is the tensor at [group_index/key], its
    full handle with the index of the view applied, exactly when the meta
    lists a tensor at that path, since a subscript looks for tensors first;
    and otherwise the view of the group at that path, with the index, the
    version state, the read-only flag and the token of the view it was taken
    from. *)
Theorem groups_are_the_views_of_the_direct_subgroups
        (fuel : nat) (self : Dataset.t) (w w' : World) (h : nat)
        (c : string) (m : DatasetMeta)
        (d : list (string * Dataset.value)) :
  Dataset.version_state self = Some h ->
  handles_agree h c m w ->
  pystr.startswith "/" (Dataset.group_index self) = false ->
  pystr.endswith_sep (Dataset.group_index self) = false ->
  Forall (fun x => pystr.has_dsep x = false) (meta_groups m) ->
  Dataset.groups (S fuel) self w = (Ok d, w') ->
  (forall b,
      b ∈ map fst d <->
      pystr.has_sep b = false
      /\ posixpath.join (Dataset.group_index self) b ∈ meta_groups m)
  /\ forall g v,
       (g, v) ∈ d ->
       let p := posixpath.join (Dataset.group_index self) g in
       (p ∈ meta_tensors m ->
        v = Dataset.VTensor
              (TensorM.getitem (TensorM.new p) (Dataset.index self)))
       /\ (p ∉ meta_tensors m ->
           exists ds,
             v = Dataset.VDataset ds
             /\ Dataset.group_index ds = p
             /\ Dataset.index ds = Dataset.index self
             /\ Dataset.version_state ds = Dataset.version_state self
             /\ Dataset.read_only ds = Dataset.read_only self
             /\ Dataset._token ds = Dataset._token self).
Proof.
  intros Hh Hag Hg He Hd Hrun.
  pose proof Hag as (vs & Hvs & Hc & Hm & Hhandles). subst c.
  destruct (groups_run self w h vs m Hh Hvs Hm)
    as (l & w1 & Hgs & _ & _ & _ & Hrs).
  unfold Dataset.groups, Dataset._groups_filtered in Hrun.
  rewrite !bind_run, Hgs in Hrun. rewrite ret_run in Hrun.
  apply bind_inv_ok in Hrun as (entries & w2 & Hmap & Hrun).
  rewrite ret_run in Hrun. injection Hrun as <- <-.
  assert (handles_agree h (vs_commit_id vs) m w1) as Hag1.
  { exists vs. destruct Hrs as (Hv & Hrest). split; [rewrite Hv; exact Hvs|].
    split; [reflexivity|]. split; [|exact Hhandles].
    destruct Hrest as (_ & _ & _ & _ & _ & _ & _ & _ & _ & _ & _ & _ & _ & Hp).
    apply Hp, Hm. }
  set (gs := Dataset._groups_filtered_loop self (meta_groups m) []) in *.
  assert (forall b, b ∈ gs ->
                    pystr.has_sep b = false
                    /\ posixpath.join (Dataset.group_index self) b
                       ∈ meta_groups m) as Hgs_spec.
  { intros b Hb. apply (groups_filtered_elem self (meta_groups m) b Hg He Hd).
    exact Hb. }
  set (P := fun (g : string) (e : string * Dataset.value) =>
              e.1 = g
              /\ (if pystr.mem (posixpath.join (Dataset.group_index self) g)
                               (meta_tensors m)
                  then e.2 = Dataset.VTensor
                               (TensorM.getitem
                                  (TensorM.new
                                     (posixpath.join
                                        (Dataset.group_index self) g))
                                  (Dataset.index self))
                  else exists ds,
                      e.2 = Dataset.VDataset ds
                      /\ Dataset.group_index ds
                         = posixpath.join (Dataset.group_index self) g
                      /\ Dataset.index ds = Dataset.index self
                      /\ Dataset.version_state ds
                         = Dataset.version_state self
                      /\ Dataset.read_only ds = Dataset.read_only self
                      /\ Dataset._token ds = Dataset._token self)).
  assert (Forall2 P gs entries) as Hall.
  { refine (proj1 (mapM_invariant
                     (handles_agree h (vs_commit_id vs) m) P _ gs _
                     w1 entries w2 Hag1 Hmap)).
    intros g w3 e w4 Hin HI Hf.
    apply bind_inv_ok in Hf as (v & w5 & Hget & Hf).
    rewrite ret_run in Hf. injection Hf as <- <-.
    destruct (Hgs_spec g Hin) as [Hs Hmem].
    apply mem_elem in Hmem.
    destruct (getitem_direct_group fuel self g w3 v w5 h _ m
                Hh HI Hs Hmem Hget) as [Hv HI'].
    split; [split; [reflexivity|exact Hv]|exact HI']. }
  assert (map fst entries = gs) as Hkeys.
  { clear -Hall. subst P.
    induction Hall as [|x y xs ys [Hxy _] _ IH]; [reflexivity|].
    cbn [map]. rewrite Hxy, IH. reflexivity. }
  split.
  - intros b. rewrite dict_of_list_keys, Hkeys.
    apply groups_filtered_elem; assumption.
  - intros g v Hin p. apply dict_of_list_elem in Hin.
    assert (if pystr.mem p (meta_tensors m)
            then v = Dataset.VTensor
                       (TensorM.getitem (TensorM.new p) (Dataset.index self))
            else exists ds,
                v = Dataset.VDataset ds
                /\ Dataset.group_index ds = p
                /\ Dataset.index ds = Dataset.index self
                /\ Dataset.version_state ds = Dataset.version_state self
                /\ Dataset.read_only ds = Dataset.read_only self
                /\ Dataset._token ds = Dataset._token self) as Hv.
    { clear -Hall Hin. subst p. subst P.
      induction Hall as [|x y xs ys [Hxy Hy] _ IH].
      - apply elem_of_nil in Hin. destruct Hin.
      - apply elem_of_cons in Hin as [<-|Hin]; [|exact (IH Hin)].
        cbn [fst snd] in Hxy, Hy. subst x. exact Hy. }
    destruct (pystr.mem p (meta_tensors m)) eqn:Hpt.
    + split; [intros _; exact Hv|].
      intros Hn. exfalso. apply Hn, mem_elem, Hpt.
    + split; [|intros _; exact Hv].
      intros Hy. apply mem_elem in Hy. congruence.
Qed.

Lemma groups_are_the_views_of_the_direct_subgroups_witness :
  exists d w',
    Dataset.groups 3 group_view grouped_world = (Ok d, w')
    /\ map fst d = ["h"]
    /\ forall v,
         (("h" : string), v) ∈ d ->
         exists ds,
           v = Dataset.VDataset ds
           /\ Dataset.group_index ds = "g/h"
           /\ Dataset.index ds = Dataset.index group_view.
Proof.
  assert (Forall (fun x => pystr.has_dsep x = false) ["g"; "g/h"]) as Hd
    by (repeat constructor).
  assert (handles_agree 0 "first" (mkMeta ["g/x"; "y"] ["g"; "g/h"])
                        grouped_world) as Hag.
  { eexists. split; [reflexivity|]. split; [reflexivity|].
    split; [reflexivity|].
    intros p x. cbn [vs_full_tensors dict_get].
    destruct (String.eqb_spec p "g/x") as [->|_];
      [intros [= <-]; split; reflexivity|].
    destruct (String.eqb_spec p "y") as [->|_];
      [intros [= <-]; split; reflexivity|discriminate]. }
  destruct (Dataset.groups 3 group_view grouped_world) as [r w'] eqn:E.
  assert (exists d, r = Ok d) as [d ->].
  { vm_compute in E. injection E as <- _. eexists. reflexivity. }
  exists d, w'. split; [reflexivity|].
  split.
  - vm_compute in E. injection E as <- _. reflexivity.
  - intros v Hin.
    destruct (groups_are_the_views_of_the_direct_subgroups
                2 group_view grouped_world w' 0 _ _ d
                eq_refl Hag eq_refl eq_refl Hd E) as [_ Hv].
    destruct (Hv "h" v Hin) as [_ Hview].
    destruct Hview as (ds & -> & Hgi & Hidx & _).
    { intros Hin'. apply mem_elem in Hin'. discriminate. }
    exists ds. split; [reflexivity|]. split; assumption.
Defined.

(** ** The order of [list(set(...))] is any order *)

Lemma StronglySorted_impl_elem {A} (R1 R2 : A -> A -> Prop) (l : list A) :
  (forall x y, x ∈ l -> y ∈ l -> R1 x y -> R2 x y) ->
  StronglySorted R1 l -> StronglySorted R2 l.
Proof.
  intros H Hs. induction Hs as [|a r Hr IH Ha]; [constructor|].
  constructor.
  - apply IH. intros x y Hx Hy. apply H; apply elem_of_cons; right; assumption.
  - rewrite Forall_forall in Ha |- *. intros y Hy. apply H.
    + apply elem_of_cons. left. reflexivity.
    + apply elem_of_cons. right. exact Hy.
    + apply Ha, Hy.
Qed.

Lemma rank_tail a r z : z <> a -> rank (a :: r) z = S (rank r z).
Proof.
  intros Hne. cbn [rank].
  rewrite (proj2 (String.eqb_neq z a)) by exact Hne. reflexivity.
Qed.

Lemma rank_head a r : rank (a :: r) a = 0.
Proof. cbn [rank]. rewrite String.eqb_refl. reflexivity. Qed.

Lemma rank_sorted p :
  NoDup p -> StronglySorted (fun x y => rank p x < rank p y) p.
Proof.
  induction p as [|a r IH]; intros Hnd; [constructor|].
  apply NoDup_cons in Hnd as [Ha Hnd].
  constructor.
  - apply (StronglySorted_impl_elem (fun x y => rank r x < rank r y));
      [|exact (IH Hnd)].
    intros x y Hx Hy Hlt.
    rewrite !rank_tail by (intros ->; contradiction). lia.
  - apply Forall_forall. intros y Hy.
    rewrite rank_head, rank_tail by (intros ->; contradiction). lia.
Qed.

Lemma rank_inj p x y : x ∈ p -> y ∈ p -> rank p x = rank p y -> x = y.
Proof.
  induction p as [|a r IH]; intros Hx Hy; [apply elem_of_nil in Hx; destruct Hx|].
  cbn [rank].
  destruct (String.eqb_spec x a) as [->|Hxa];
    destruct (String.eqb_spec y a) as [->|Hya];
    [reflexivity|discriminate|discriminate|].
  intros [= H]. apply IH; [| |exact H].
  - apply elem_of_cons in Hx as [|]; [contradiction|assumption].
  - apply elem_of_cons in Hy as [|]; [contradiction|assumption].
Qed.

Lemma insert_by_sorted hash x l :
  (forall y, y ∈ l -> hash x <> hash y) ->
  StronglySorted (fun a b => hash a < hash b) l ->
  StronglySorted (fun a b => hash a < hash b) (insert_by hash x l).
Proof.
  intros Hne Hs. induction Hs as [|y r Hr IH Hy]; cbn [insert_by].
  - constructor; constructor.
  - assert (hash x <> hash y) as Hxy
        by (apply Hne, elem_of_cons; left; reflexivity).
    destruct (Nat.leb_spec (hash x) (hash y)) as [Hle|Hlt].
    + constructor; [constructor; assumption|].
      apply Forall_cons. split; [lia|].
      rewrite Forall_forall in Hy |- *. intros z Hz.
      specialize (Hy z Hz). cbn in Hy. lia.
    + constructor.
      * apply IH. intros z Hz. apply Hne, elem_of_cons. right. exact Hz.
      * rewrite Forall_forall in Hy |- *. intros z Hz.
        rewrite insert_by_perm in Hz.
        apply elem_of_cons in Hz as [->|Hz]; [exact Hlt|apply Hy, Hz].
Qed.

Lemma foldr_insert_sorted hash q :
  NoDup q ->
  (forall x y, x ∈ q -> y ∈ q -> hash x = hash y -> x = y) ->
  StronglySorted (fun a b => hash a < hash b) (foldr (insert_by hash) [] q).
Proof.
  induction q as [|x r IH]; intros Hnd Hinj; [constructor|].
  apply NoDup_cons in Hnd as [Hx Hnd]. cbn [foldr].
  apply insert_by_sorted.
  - intros y Hy Heq.
    assert (y ∈ r) as Hyr.
    { revert Hy. clear. induction r as [|z r IH]; cbn [foldr]; [auto|].
      rewrite insert_by_perm, !elem_of_cons. intros [->|H]; auto. }
    assert (x = y) as ->; [|contradiction].
    apply Hinj; [apply elem_of_cons; left; reflexivity
                |apply elem_of_cons; right; exact Hyr|exact Heq].
  - apply IH; [exact Hnd|].
    intros a b Ha Hb. apply Hinj; apply elem_of_cons; right; assumption.
Qed.

(** Every order of the elements is the order of [list(set(l))] for some
    hashes: a statement about [list(set(l))] that is to hold in every
    process can say which elements the list has, and that it has each once,
    and nothing about their order. *)
Lemma list_set_any_order (l p : list string) :
  NoDup p -> p ≡ₚ unique l -> exists hash, list_set hash l = p.
Proof.
  intros Hnd Hp. exists (rank p). unfold list_set.
  apply (StronglySorted_unique_strong (fun a b => rank p a < rank p b)).
  - intros. lia.
  - apply foldr_insert_sorted; [apply NoDup_unique|].
    intros x y Hx Hy. apply rank_inj; rewrite Hp; assumption.
  - apply rank_sorted, Hnd.
  - fold (list_set (rank p) l). rewrite list_set_perm. symmetry. exact Hp.
Qed.
